(* ===== verification/_CoqProject ===== *)
-Q . S2P
Prelude.v
Queues.v
TablaHash.v
CString.v
CommonTypes.v
Erlang.v
Scheduler.v
Bridge.v
LocalResource.v
OwnedJobs.v
KnownNodes.v
NodeStructures.v
Connections.v
Program.v
Adapter.v
ResourceAdapter.v
AdapterSafety.v
Protocol.v
Recovery.v
Outbox.v
Server.v
ThreadPool.v
EventHandler.v
EventSafety.v
Threads.v
ThreadLogic.v
ThreadHandlers.v
ThreadSafety.v
Interleaving.v
Atomicity.v
Startup.v
Agent.v
Reservation.v
Cluster.v
ClusterEvents.v
ClusterSimulation.v
ClusterSafety.v
ClusterOrder.v
Client.v
