(* ===== verification/Prelude.v ===== *)
(** * HPC-Resource-Manager, C agent: verification development

    One agent runs on every machine of the cluster ([src/c_agent]).  It owns an
    inventory of resources (cpu, gpu, memory), talks to the other agents and to
    the local Erlang scheduler in lines of text over TCP, and announces itself by
    UDP broadcast.  A job of the scheduler is a list of petitions to several
    agents, reserved one after the other; a refusal, a dead node or a time-out
    rolls back what was already granted.

    ** The parts of the program, and the files that model them

    - [Prelude] (this file): 32-bit arithmetic, sums and lists, the option monad,
      iteration.
    - [Queues]: [resources/queues.c], the linked queue, as the list of its
      elements from the head on; one [Fixpoint] per recursive C function.
    - [TablaHash]: [resources/tablahash.c], the open-addressing hash table all
      directories of the agent are built on.  The function pointers of the C
      structure are the class [TablaOps] and what the table needs of them is the
      class [HashKey]: LocalResource, OwnedJobs and KnownNodes give an instance of
      both and use the table only through [contenido], the finite map it denotes,
      and [items], its elements in slot order.
    - [CString]: the [strtok], [sscanf], [snprintf], [atoi] and [strncmp] of the C
      library, as far as the agent uses them.  Format strings are interpreted, so
      the handlers pass the literals of the source.
    - [CommonTypes]: [resources/common_types.h], the resource types.
    - [LocalResource]: [resources/local_resource.c], the inventory: totals,
      available quantities, one waiting queue per resource, and the table of the
      jobs that hold something ([active_jobs]).
    - [OwnedJobs]: [resources/owned_jobs.c], the jobs of the local scheduler: the
      petitions, which of them were granted, and the index of the next RESERVE.
    - [KnownNodes]: [resources/known_nodes.c], the directory of announced nodes.
    - [NodeStructures]: [resources/node_structures.c], the state of an agent, its
      construction and its destruction.
    - [Connections]: [comms/server_types.h] and the two queries of
      [comms/event_handler.c] on the table of connections, with the types the
      adapter exchanges with the event loop (context, message of the outbox).
    - [Program]: effectful programs as trees of operations (a free monad), and
      their evaluation.
    - [Adapter]: the operations of the handlers of the adapter on what the threads
      share (node, table of connections, position of [strtok]) and on the outbox;
      a handler alone is [run], with a trace of its synchronisation, and the proofs
      use two logics, [runs] for results and [locks] for traces.
    - [ResourceAdapter]: [comms/resource_adapter.c], one definition per handler
      and the dispatcher [resource_adapter_patch].
    - [AdapterSafety], [Protocol] and [Recovery]: theorems about the handlers: that
      they are safe, what the messages do, and what happens when a node, a client
      or an answer is lost.
    - [Outbox]: what holds of every handler because it touches the outbox with three
      operations only.
    - [ThreadPool]: [comms/thread_pool.c], the circular queue of tasks, and the
      interleavings of the epoll thread with the workers.
    - [Server]: the operations of a thread of the agent: those of the adapter,
      system calls and the log of what is sent.  The operating system is a class,
      [Kernel].
    - [EventHandler]: the rest of [comms/event_handler.c], the loops of
      [comms/sys_socket.c], the switch of the workers and the body of the loop of
      [main.c]; [EventSafety] holds its theorems, with the laws of the system they
      rely on in [KernelLaws].
    - [Threads]: the handlers interleaved: configurations of any number of threads,
      their turns, races and executions.  [ThreadLogic], [ThreadHandlers] and
      [ThreadSafety] are the logic of one thread among others, and its application
      to the handlers of the adapter and to the event handlers; [Interleaving] holds
      the theorems about the configurations, and [Atomicity] shows that the critical
      sections of the mutexes happen one at a time.
    - [Startup]: [comms/server_init.c], the listeners of [comms/sys_socket.c], and
      [main] up to its loop.
    - [Agent]: the loop of [main.c], the queue and the threads together.
    - [Reservation]: what the agents of a cluster promise each other: the protocol of
      RESERVE, GRANTED and RELEASE as a step relation on jobs, reservations, waiting
      requests and messages in transit, and its invariant.
    - [Cluster]: the agents of EventHandler connected to each other, and their
      schedulers; [ClusterEvents] says what an agent does with each message,
      [ClusterSimulation] matches it with steps of Reservation, [ClusterSafety]
      holds the theorems about the cluster, and [ClusterOrder] who waits for whom in it.
    - [Scheduler]: [src/erlang/job_scheduler.erl], the client of an agent, and the
      processes of a client together; [Bridge]: [src/erlang/erlang_c_bridge.erl], its
      connection; [Erlang] is what they use of their language.  [Client] puts them
      together with the agents.

    The epoll loop pushes a task per ready descriptor; a worker takes it, reads
    lines and calls [resource_adapter_patch]; the adapter locks the component it
    needs, updates it and fills an outbox; the worker sends the outbox.

    ** How state and effects are represented

    - [unsigned] is a [Z] between 0 and 2^32, with [wrap32] written out wherever
      the C wraps; [int] is [to_int] of it.
    - An array indexed by resource is a list, a string is a [string] without the
      terminator, a table or queue passed by pointer is returned.
    - [None] is undefined behaviour (an access outside an array, the buffer
      overflow of an unbounded [%s], a null pointer, uninitialised memory) or
      exhausted fuel.  So a theorem that concludes [= Some _] states both safety
      and termination.  A value that the C returns as an error is a value here.
    - [time(NULL)], [rand()] and the contents of uninitialised buffers are
      arguments; theorems hold for all of them.
    - A handler is a tree of operations ([prog]): [Ret] its result, [Do] an operation
      and what follows each answer, [Fail] undefined behaviour, [Spin] a loop that
      outlives the fuel the model gave it.  The same tree is evaluated alone (the
      theorems of AdapterSafety, Protocol, Recovery and EventSafety) and
      interleaved with others at every operation (Interleaving).
    - A call on a component is one operation.  That is faithful as long as no other
      thread is in the middle of the same data, and [races] says when one is: an
      access without its lock to data another thread locks or is about to touch,
      or a traversal of [strtok] that another thread has taken over.  The
      executions considered are those without races, and [data_races] lists every
      place where one can occur.
    - In ThreadPool a critical section is one step, and waiting, signalling,
      spurious wake-ups and the scheduler are explicit steps.
    - An event handler also takes the fuel of its unbounded loops, asks the
      [Kernel] and writes a log of the bytes sent, the descriptors closed and the
      changes of the epoll list.  [returns] is its result with any fuel from some
      point on.
    - In Startup every system call is logged with its answer, and what is open is
      read off the log.
    - Left out everywhere: failure of [malloc] and [strdup], and [printf].

    - A cluster is a list of agents whose [Kernel] is a network card ([nic]): an event
      of one of them is its task run to the end, and what it sent arrives at the other
      ends of the connections, in order for each connection.

    ** What the theorems show

    - The cluster: the agents refine the protocol of Reservation ([cluster_refines]);
      what a job counts as granted is reserved for it, at that time, at the agent it
      was asked of ([cluster_reserved]), so that no unit of any resource of the cluster
      is counted twice ([cluster_never_overcommits]); every event of every agent
      returns ([cluster_progress]).  When the petitions are sorted no jobs wait for
      each other in a circle ([ordered_no_deadlock]), and the schedulers sort them
      ([schedulers_no_deadlock]).
    - The scheduler: it reads the answer to GET_NODES as the directory it was made from
      ([nodes_read_back]); the requests it draws from it are understood by its agent,
      ask for no more than what was announced, and are sorted ([client_round]); a job
      is requested and released at most once ([jobs_released_once]); nothing but the
      loss of the connection stops it ([scheduler_goes_on]).
    - All the threads: in every interleaving without races nothing is undefined, the
      components stay well formed and no resource is overcommitted
      ([interleaving_safe]); the RESERVEs of a job go out one at a time, in order
      ([interleaving_ordered]); the races are those of [strtok] and of the search for
      the first RESERVE at the end of a JOB_REQUEST ([data_races]); no set of threads
      waits for ever ([no_deadlock]); the critical sections of the mutexes are atomic
      ([sections_atomic]); a thread nobody interrupts does what it does alone
      ([uninterrupted]), which is what the other theorems are about.
    - One event at a time: from every state that events can lead to, every handler
      returns without undefined behaviour ([server_safe]); the periodic check ends
      and settles every timed-out job ([gc_settles]).
    - The whole adapter: no event and no message makes the dispatcher fail or loop,
      the invariant of the node survives and the outbox stays within bounds
      ([patch_safe]); free plus granted never exceeds the configured quantity
      ([agent_never_overcommits]); the locking protocol ([lock_discipline]).  All three
      groups leave out the RESERVE line with a word of 256 characters or more, which
      does overflow an array ([reserve_overflows]).
    - The protocol: a handler that reads a message of the protocol sends only messages
      of the protocol, which their receivers understand ([protocol_roundtrip]); an
      announcement is recorded as it was printed ([announce_roundtrip]); the state and
      outbox after JOB_REQUEST, RESERVE, GRANTED, DENIED, RELEASE and JOB_RELEASE.
    - Recovery: exactly which jobs end, what comes back and what is sent when a
      connection is lost ([disconnected_recovers]) and at the periodic check
      ([deadnodes_recovered]).
    - The sockets: partial sends are reassembled ([send_delivers]); the first
      message for a node opens the connection, is kept, and goes out once
      ([first_contact]).
    - The start: listeners leak nothing ([listeners_correct]) and [main] enters its
      loop in an initial state of the system ([main_start_correct]); the system put
      together refines the threads and the pool, and its workers run the tasks of the
      events that were served ([system_refines]).
    - The hash table: search, insertion with resizing, and removal with tombstones
      refine lookup, insertion and deletion of a finite map.
    - The inventory: the exact outcome of each operation, what it does to the
      quantity that is neither free nor recorded ([slack]), termination of the
      restarting traversal of the queues, and the invariant by induction on the
      operations ([never_overcommitted]).
    - The owned jobs: the life of a job under any sequence of calls
      ([job_lifecycle]), completion, the rollback list and the bounded collectors.
    - The directory: the answer to GET_NODES fits its buffer and is one line of
      complete records; exactly silent nodes are forgotten.
    - The pool: tasks come out once each in the order they went in, and no
      wake-up is lost.
    - Behaviour of the code that its comments do not announce:
      [duplicate_reserve_leaks], [chk_removes_other_request],
      [hidden_grant_is_lost], [reserve_overflows], [job_request_unlocked],
      [denied_unknown_job], [strtok_race], [next_reserve_race],
      [start_without_listeners] and [waiting_request_leaks]; [unordered_deadlock], the
      circle that requests in another order can form, and [timeout_leaks], what is left
      of it after the jobs have timed out.

    ** Bounds and fuel

    - [INSERT_FUEL] is 2: an insertion recurses once, after one resizing, since
      the doubled table is below the load limit ([insertar_refines]).  Probing
      loops take the capacity as fuel, and the invariant keeps a free slot.
    - The capacity of a hash table is an [unsigned] that doubles: [LOCAL_ROOM] and
      [NODE_ROOM] (2^28) are numbers of insertions after which the capacity of a
      fresh table is still at most 2^30, so that no doubling wraps.  Invariants
      carry the remaining number [k].
    - [purge_fuel], the square of one plus the length of the queue, bounds a
      traversal that restarts after each removal; [wake_fuel], one plus the number
      of waiting requests, bounds the wake-up loop of RELEASE, each round of which
      removes one request.
    - The loops of EventHandler have no fixed bound: [send_tcp_message] ends because
      the system does not answer [EAGAIN] for ever ([kl_again]), the periodic check
      because each round that sends something ends a job.  [EVENT_COST], the size of
      the receive buffer, bounds the insertions one event can cause.  In Threads a
      handler may be given any fuel, and one that runs out stays at [Spin], as a
      loop that goes on.
    - A loop over tokens has one more round than its text has characters; another
      thread can only make it longer through a race.
    - Printing a number takes 20 digits of fuel, more than a 64-bit one has.

    ** Not modelled

    [thread_pool_destroy] is never called.  What [epoll_wait] answers is free: any
    open descriptors, as often as they come.  The functional theorems are about
    handlers one at a time; in an interleaving only what Interleaving and Atomicity
    state is shown: a handler that locks several times is not atomic as a whole, and
    [sections_atomic] leaves out the executions in which somebody parses with [strtok]
    while another thread has [lock_owned].  The address [get_next_reserve] returns
    points into the job and is read after the unlock; here it is a copy.

    In Cluster the connections are given and stay open, every [recv] returns whole
    messages (one or several, [cl_joins]), no node is announced, and each agent handles
    one event at a time; the clients write petitions that fit the receive buffer, name
    a resource of a node once and use an identifier below 2^31 for one job only.  A
    message cut by the network, a connection lost in the middle of an exchange and a
    node that falls silent can make two agents disagree about a reservation for good
    ([duplicate_reserve_leaks], [timeout_leaks], and the findings on the receive loop
    and on the sweep), so the invariant of the cluster does not extend to them; what
    one agent does then is in EventSafety and Recovery.

    Of the Erlang side, the log ([event_logger.erl]), what is printed, and [init] of the
    bridge, which starts the processes in the state Scheduler begins with.
    Timers are the freedom of the steps.  A job identifier is a number the scheduler has
    not used before; that it fits 32 bits is a hypothesis where the agent reads it. *)

From stdpp Require Export base gmap strings list fin_maps sorting.
From Stdlib Require Export ZArith Lia.

#[export] Set Warnings "-clear-no-such-hyp".

(** ** Machine integers

    [unsigned] is 32 bits wide and [int] is its two's-complement reading. *)

Declare Scope c_scope.
Delimit Scope c_scope with C.

Definition UINT_RANGE : Z := 2 ^ 32.

(** Conversion to [unsigned]. *)
Definition wrap32 (z : Z) : Z := z `mod` UINT_RANGE.

(** Conversion of an [unsigned] to [int]. *)
Definition to_int (z : Z) : Z := if (z <? 2 ^ 31)%Z then z else (z - UINT_RANGE)%Z.

Definition in_u32 (z : Z) : Prop := (0 <= z < UINT_RANGE)%Z.

#[global] Instance in_u32_dec z : Decision (in_u32 z).
Proof. unfold in_u32. apply _. Defined.

Notation "a '+u' b" := (wrap32 (a + b)%Z) (at level 50, left associativity) : c_scope.
Notation "a '-u' b" := (wrap32 (a - b)%Z) (at level 50, left associativity) : c_scope.
Notation "a '*u' b" := (wrap32 (a * b)%Z) (at level 40, left associativity) : c_scope.

Lemma wrap32_small z : in_u32 z -> wrap32 z = z.
Proof. intros H. unfold wrap32. by apply Z.mod_small. Qed.

Lemma wrap32_range z : in_u32 (wrap32 z).
Proof. unfold wrap32, in_u32. by apply Z.mod_pos_bound. Qed.

Lemma to_int_small z : (z < 2 ^ 31)%Z -> to_int z = z.
Proof. intros H. unfold to_int. destruct (Z.ltb_spec z (2 ^ 31)); lia. Qed.

(** Casting to [int] and back to [unsigned] is the identity. *)
Lemma wrap32_to_int z : in_u32 z -> wrap32 (to_int z) = z.
Proof.
  intros H. unfold to_int. destruct (Z.ltb_spec z (2 ^ 31)) as [|Hge].
  - by apply wrap32_small.
  - unfold wrap32, in_u32, UINT_RANGE in *.
    replace (z - 2 ^ 32)%Z with (z + (-1) * 2 ^ 32)%Z by lia.
    rewrite Z.mod_add by lia. apply Z.mod_small. lia.
Qed.

(** ** Sums over lists *)

Definition sumZ {A} (f : A -> Z) (l : list A) : Z := foldr (fun a s => (f a + s)%Z) 0%Z l.

#[export] Instance sumZ_proper {A} (f : A -> Z) : Proper (Permutation ==> eq) (sumZ f).
Proof.
  intros l1 l2 Hp. unfold sumZ. induction Hp; simpl; try congruence; lia.
Qed.

Lemma sumZ_cons {A} (f : A -> Z) a l : sumZ f (a :: l) = (f a + sumZ f l)%Z.
Proof. done. Qed.

#[global] Arguments sumZ : simpl never.

Lemma sumZ_app {A} (f : A -> Z) l1 l2 : sumZ f (l1 ++ l2) = (sumZ f l1 + sumZ f l2)%Z.
Proof. induction l1 as [|a l1 IH]; simpl; [done|]. unfold sumZ in *; simpl; lia. Qed.

Lemma sumZ_nonneg {A} (f : A -> Z) l : Forall (fun a => 0 <= f a)%Z l -> (0 <= sumZ f l)%Z.
Proof. induction 1; unfold sumZ in *; simpl; lia. Qed.

(** Replacing one element. *)
Lemma sumZ_insert {A} (f : A -> Z) l (i : nat) a b :
  l !! i = Some a -> sumZ f (<[i := b]> l) = (sumZ f l - f a + f b)%Z.
Proof.
  intros Hi. rewrite insert_take_drop by (by eapply lookup_lt_Some).
  rewrite <- (take_drop_middle l i a Hi) at 3. rewrite !sumZ_app, !sumZ_cons. lia.
Qed.

(** A list split by a decidable predicate keeps its sum. *)
Lemma sumZ_filter {A} (f : A -> Z) (P : A -> Prop) `{!forall x, Decision (P x)} l :
  sumZ f l = (sumZ f (filter P l) + sumZ f (filter (fun x => ~ P x) l))%Z.
Proof.
  induction l as [|a l IH]; [done|].
  rewrite sumZ_cons, !filter_cons.
  destruct (decide (P a)), (decide (~ P a)); try tauto; rewrite sumZ_cons; lia.
Qed.

Lemma sumZ_zero {A} (f : A -> Z) l : Forall (fun a => f a = 0)%Z l -> sumZ f l = 0%Z.
Proof. induction 1; unfold sumZ in *; simpl; lia. Qed.

(** ** List lemmas shared by the components *)

Section list_lemmas.
Context {A B : Type}.
Implicit Types (l : list A) (f : A -> option B).

Lemma omap_insert_split l i a f :
  l !! i = Some a ->
  omap f l = omap f (take i l) ++ option_list (f a) ++ omap f (drop (S i) l).
Proof.
  intros Hi. rewrite <- (take_drop_middle l i a Hi) at 1.
  rewrite omap_app. simpl. by destruct (f a).
Qed.

Lemma omap_insert l i a f :
  i < length l ->
  omap f (<[i:=a]> l) = omap f (take i l) ++ option_list (f a) ++ omap f (drop (S i) l).
Proof.
  intros Hi. rewrite insert_take_drop by done. rewrite omap_app. simpl. by destruct (f a).
Qed.

Lemma elem_of_omap_lookup l f b :
  b ∈ omap f l <-> exists i a, l !! i = Some a /\ f a = Some b.
Proof.
  rewrite list_elem_of_omap. setoid_rewrite list_elem_of_lookup. naive_solver.
Qed.

Lemma filter_true l (P : A -> Prop) `{!forall x, Decision (P x)} :
  Forall P l -> filter P l = l.
Proof. induction 1 as [|a l Ha _ IH]; [done|]. rewrite filter_cons_True by done. by f_equal. Qed.

Lemma filter_false l (P : A -> Prop) `{!forall x, Decision (P x)} :
  Forall (fun x => ~ P x) l -> filter P l = [].
Proof. induction 1 as [|a l Ha _ IH]; [done|]. by rewrite filter_cons_False. Qed.

(** Collecting the visited elements gives the list back. *)
Lemma foldl_snoc l acc : foldl (fun s a => s ++ [a]) acc l = acc ++ l.
Proof.
  revert acc. induction l as [|a l IH]; intros acc; simpl; [by rewrite app_nil_r|].
  by rewrite IH, <- app_assoc.
Qed.
(** Bounded appending keeps a prefix of what was appended. *)
Lemma take_take_snoc (l : list A) m x : take m (take m l ++ [x]) = take m (l ++ [x]).
Proof.
  destruct (decide (m <= length l)%nat).
  - rewrite !take_app_le; [|done|rewrite length_take; lia]. by rewrite take_take, Nat.min_id.
  - rewrite (take_ge l) by lia. done.
Qed.

End list_lemmas.

(** A visitor that collects [f a] for the elements that satisfy [P] until it has
    [m] of them. *)
Lemma collect_filter {A B} (visit : A -> list B -> list B) (f : A -> B) (P : A -> Prop)
    `{!forall x, Decision (P x)} (m : nat) :
  (forall a acc, visit a acc =
     if (m <=? length acc)%nat then acc else if decide (P a) then acc ++ [f a] else acc) ->
  forall l acc, (length acc <= m)%nat ->
    foldl (fun acc a => visit a acc) acc l = acc ++ take (m - length acc) (f <$> filter P l).
Proof.
  intros Hv. induction l as [|a l IH]; intros acc Hacc; simpl.
  - by rewrite take_nil, app_nil_r.
  - rewrite Hv, filter_cons. destruct (Nat.leb_spec m (length acc)) as [Hm|Hm].
    + rewrite IH by done. replace (m - length acc)%nat with 0%nat by lia. by rewrite !take_0.
    + destruct (decide (P a)); [|by rewrite IH].
      rewrite IH by (rewrite length_app; simpl; lia). rewrite length_app; simpl.
      replace (m - length acc)%nat with (S (m - (length acc + 1))) by lia.
      simpl. by rewrite <- app_assoc.
Qed.

Create HintDb tabla.

(** ** The error monad

    Every modelled function that can reach undefined behaviour (an access out of
    an array's bounds, a division by zero, the dereference of a null pointer) or
    that needs fuel returns an [option]; [None] is that failure.  A theorem that
    a call returns [Some] therefore states that it terminates without undefined
    behaviour. *)

Definition assert_def (b : bool) : option () := if b then Some () else None.

Lemma assert_def_true b : b = true -> assert_def b = Some ().
Proof. by intros ->. Qed.

Lemma bind_Some_inv {A B} (o : option A) (k : A -> option B) b :
  (o ≫= k) = Some b -> exists a, o = Some a /\ k a = Some b.
Proof. apply bind_Some. Qed.

Ltac bind_step H :=
  let a := fresh "a" in let E := fresh "E" in
  apply bind_Some_inv in H; destruct H as [a [E H]].

(** Left fold of a fallible operation: the shape of a C loop over an array. *)
Fixpoint foldM {S A} (f : S -> A -> option S) (s : S) (l : list A) : option S :=
  match l with
  | [] => Some s
  | a :: l' => s' ← f s a; foldM f s' l'
  end.

Lemma foldM_app {S A} (f : S -> A -> option S) s l1 l2 :
  foldM f s (l1 ++ l2) = s' ← foldM f s l1; foldM f s' l2.
Proof. revert s; induction l1 as [|a l1 IH]; intros s; simpl; [done|]. by destruct (f s a); simpl. Qed.

(** Loop rule: an invariant on the processed prefix that every iteration
    extends gives totality and the invariant at the end. *)
Lemma foldM_inv {S A} (f : S -> A -> option S) (I : list A -> S -> Prop) l s :
  I [] s ->
  (forall pre a post s, l = pre ++ a :: post -> I pre s ->
     exists s', f s a = Some s' /\ I (pre ++ [a]) s') ->
  exists s', foldM f s l = Some s' /\ I l s'.
Proof.
  intros H0 Hstep.
  cut (forall post pre s, l = pre ++ post -> I pre s ->
        exists s', foldM f s post = Some s' /\ I l s').
  { intros H. by apply (H l []). }
  induction post as [|a post IH]; intros pre s' Hl HI; simpl.
  - exists s'. rewrite app_nil_r in Hl. by subst.
  - destruct (Hstep pre a post s' Hl HI) as (s'' & Hf & HI').
    rewrite Hf; simpl. apply (IH (pre ++ [a])); [|done].
    by rewrite <- app_assoc.
Qed.

Lemma foldM_nil {S A} (f : S -> A -> option S) s : foldM f s [] = Some s.
Proof. done. Qed.

Lemma foldM_cons {S A} (f : S -> A -> option S) s a l :
  foldM f s (a :: l) = s' ← f s a; foldM f s' l.
Proof. done. Qed.

(** An invariant of the successful iterations. *)
Lemma foldM_pres {S B} (f : S -> B -> option S) (P : S -> Prop) s l s' :
  (forall s b s1, P s -> f s b = Some s1 -> P s1) -> P s -> foldM f s l = Some s' -> P s'.
Proof.
  intros Hf. revert s. induction l as [|b l IH]; intros s HP H; [rewrite foldM_nil in H; by simplify_eq|].
  rewrite foldM_cons in H. bind_step H. eauto.
Qed.

#[global] Arguments foldM : simpl never.
