(* ===== verification/Queues.v ===== *)
(** * Queues: the linked queue of [src/c_agent/src/resources/queues.c]

    A [queue_t] is the list of the data pointers from the head node on, the null
    queue being []; each recursive C function is the [Fixpoint] with the same
    cases.  [copy] is kept as a parameter; a destructor only releases memory, so
    it appears where its calls are observable ([queue_destroy]). *)

From S2P Require Import Prelude.

Section Queue.
Context {A D : Type}.

Definition queue_t : Type := list A.

Definition queue_create : list A := [].

(** The loop calls the destructor on every element; [heap] is the state the
    destructor acts on. *)
Fixpoint queue_destroy {H : Type} (act_queue : list A) (destroy : A -> H -> H) (heap : H) : H :=
  match act_queue with
  | [] => heap
  | data :: next => queue_destroy next destroy (destroy data heap)
  end.

Definition queue_empty (act_queue : list A) : bool :=
  match act_queue with [] => true | _ => false end.

Fixpoint queue_add (act_queue : list A) (dato : A) (copy : A -> A) : list A :=
  match act_queue with
  | [] => [copy dato]
  | data :: next => data :: queue_add next dato copy
  end.

(** [None] is the null pointer returned for an empty queue. *)
Definition queue_first (act_queue : list A) (copy : A -> A) : option A :=
  if queue_empty act_queue then None
  else match act_queue with [] => None | data :: _ => Some (copy data) end.

Definition queue_remove (act_queue : list A) : list A :=
  match act_queue with
  | [] => []
  | _ :: next => next
  end.

Fixpoint queue_delete (act_queue : list A) (data : D) (compare : A -> D -> Z) : list A :=
  match act_queue with
  | [] => []
  | d :: next =>
      if (compare d data =? 0)%Z then queue_remove act_queue
      else d :: queue_delete next data compare
  end.

Fixpoint queue_update (act_queue : list A) (data : A) (compare : A -> A -> Z) (copy : A -> A)
  : list A :=
  match act_queue with
  | [] => []
  | d :: next =>
      if (compare d data =? 0)%Z then copy data :: next
      else d :: queue_update next data compare copy
  end.

Implicit Types (q : list A).

Lemma queue_add_app q a copy : queue_add q a copy = q ++ [copy a].
Proof. induction q as [|d q IH]; simpl; [done|by rewrite IH]. Qed.

Lemma queue_delete_none q d (compare : A -> D -> Z) :
  Forall (fun a => compare a d ≠ 0%Z) q -> queue_delete q d compare = q.
Proof.
  induction 1 as [|a q Ha _ IH]; simpl; [done|].
  destruct (Z.eqb_spec (compare a d) 0); [done|by rewrite IH].
Qed.

Lemma queue_delete_first q1 a q2 d (compare : A -> D -> Z) :
  Forall (fun a => compare a d ≠ 0%Z) q1 -> compare a d = 0%Z ->
  queue_delete (q1 ++ a :: q2) d compare = q1 ++ q2.
Proof.
  intros Hq Ha. induction Hq as [|b q Hb _ IH]; simpl.
  - by rewrite Ha.
  - destruct (Z.eqb_spec (compare b d) 0); [done|by rewrite IH].
Qed.

(** Either nothing matches, or the queue splits at the first match. *)
Lemma queue_delete_cases q d (compare : A -> D -> Z) :
  (Forall (fun a => compare a d ≠ 0%Z) q /\ queue_delete q d compare = q) \/
  (exists q1 a q2, q = q1 ++ a :: q2 /\ Forall (fun a => compare a d ≠ 0%Z) q1 /\
     compare a d = 0%Z /\ queue_delete q d compare = q1 ++ q2).
Proof.
  induction q as [|b q IH]; simpl; [left; split; [constructor|done]|].
  destruct (Z.eqb_spec (compare b d) 0) as [Hb|Hb].
  - right. exists [], b, q. repeat split; [constructor|done].
  - destruct IH as [[HF ->]|(q1 & a & q2 & -> & HF & Ha & ->)].
    + left. split; [by constructor|done].
    + right. exists (b :: q1), a, q2. repeat split; [by constructor|done].
Qed.

Lemma queue_delete_length q d (compare : A -> D -> Z) a :
  a ∈ q -> compare a d = 0%Z -> S (length (queue_delete q d compare)) = length q.
Proof.
  intros Hin Ha. destruct (queue_delete_cases q d compare) as [[HF _]|(q1&b&q2&->&_&_&->)].
  - rewrite Forall_forall in HF. by destruct (HF a Hin).
  - rewrite !length_app. simpl. lia.
Qed.
End Queue.
