(* ===== verification/TablaHash.v ===== *)
(** * TablaHash: the hash table of [src/c_agent/src/resources/tablahash.c]

    Open addressing with linear probing, tombstones ([fdelete] = 1) and doubling
    when the load exceeds 0.7.  The function pointers stored in the C structure
    are the class [TablaOps]; the contract the table needs from them (equality
    and hash agree on a key) is the class [HashKey].  The first half of the file
    holds the operations, the second the representation invariant [tabla_wf] and
    the specification of every operation in terms of [items], the list of the
    stored elements in slot order, and of [contenido], the finite map it denotes. *)

From S2P Require Import Prelude.
Local Open Scope Z_scope.
Local Open Scope c_scope.

(** ** Data *)

Record CasillaHash (A : Type) := Casilla { dato : option A; fdelete : Z }.
Arguments Casilla {_} _ _.
Arguments dato {_} _.
Arguments fdelete {_} _.

(** The function pointers [copia], [comp] and [hash] of the structure; [destr]
    only releases memory. *)
Class TablaOps (A : Type) := {
  copia : A -> A;
  comp : A -> A -> Z;
  hash : A -> Z
}.

Record TablaHash (A : Type) := Tabla {
  elems : list (CasillaHash A);
  numElems : Z;
  capacidad : Z
}.
Arguments Tabla {_} _ _ _.
Arguments elems {_} _.
Arguments numElems {_} _.
Arguments capacidad {_} _.

(** What the clients promise: [comp] is equality of keys, [hash] only depends on
    the key, [copia] keeps it. *)
Class HashKey (A K : Type) `{TablaOps A} := {
  tkey : A -> K;
  comp_key : forall a b, comp a b = 0 <-> tkey a = tkey b;
  hash_key : forall a b, tkey a = tkey b -> hash a = hash b;
  hash_range : forall a, in_u32 (hash a);
  copia_key : forall a, tkey (copia a) = tkey a
}.

(** ** Operations *)

Section Operations.
Context {A : Type} {ops : TablaOps A}.
Implicit Types (t : TablaHash A) (es : list (CasillaHash A)) (e : CasillaHash A).

Definition casilla_nula : CasillaHash A := Casilla None 0.

Definition tablahash_crear (capacidad : Z) : TablaHash A :=
  Tabla (replicate (Z.to_nat capacidad) casilla_nula) 0 capacidad.

Definition tablahash_nelems t : Z := to_int (numElems t).
Definition tablahash_capacidad t : Z := to_int (capacidad t).

(** [elem -> dato == NULL && elem -> fdelete == 0] *)
Definition fin_cluster e : bool :=
  match dato e with None => fdelete e =? 0 | Some _ => false end.

(** One visit of every slot, calling [show] on the stored data. *)
Definition tablahash_visitar_extra {S : Type} t (show : A -> S -> S) (extra : S) : option S :=
  foldM (fun s idx => e ← elems t !! idx;
                      match dato e with Some a => Some (show a s) | None => Some s end)
        extra (seq 0 (Z.to_nat (capacidad t))).

Definition tablahash_visitar {S : Type} t (show : A -> S -> S) (world : S) : option S :=
  tablahash_visitar_extra t show world.

(** [destr] is called on every stored datum, in slot order. *)
Definition tablahash_destruir {H : Type} t (destr : A -> H -> H) (heap : H) : option H :=
  tablahash_visitar_extra t destr heap.

(** The probing loop shared by the search and the removal: [Some (Some i)] when
    it stops with [cond = 2] at slot [i], [Some None] otherwise. *)
Fixpoint buscar_loop es (cap : Z) (d : A) (n : nat) (idx : Z) : option (option nat) :=
  match n with
  | O => Some None
  | S n' =>
      e ← es !! Z.to_nat idx;
      if fin_cluster e then Some None
      else if fdelete e =? 0 then
        x ← dato e;
        if comp x d =? 0 then Some (Some (Z.to_nat idx))
        else buscar_loop es cap d n' ((idx +u 1) `mod` cap)
      else buscar_loop es cap d n' ((idx +u 1) `mod` cap)
  end.

(** The slot whose element the returned pointer designates: clients that write
    through that pointer write to this slot. *)
Definition buscar_casilla t (d : A) : option (option nat) :=
  assert_def (negb (capacidad t =? 0));;
  buscar_loop (elems t) (capacidad t) d (Z.to_nat (capacidad t)) (hash d `mod` capacidad t).

Definition tablahash_buscar t (d : A) : option (option A) :=
  r ← buscar_casilla t d;
  match r with
  | None => Some None
  | Some i => e ← elems t !! i; Some (dato e)
  end.

(** A write through the pointer returned by [tablahash_buscar]. *)
Definition escribir_casilla t (i : nat) (a : A) : TablaHash A :=
  Tabla (alter (fun e => Casilla (Some a) (fdelete e)) i (elems t)) (numElems t) (capacidad t).

Definition th_eliminar t (d : A) : option (TablaHash A) :=
  r ← buscar_casilla t d;
  match r with
  | None => Some t
  | Some i => Some (Tabla (<[i := Casilla None 1]> (elems t)) (numElems t -u 1) (capacidad t))
  end.

Definition tablahash_eliminar t (d : A) : option (TablaHash A) := th_eliminar t d.

(** The loop of [th_insertar]: the final [idxprev] and slots. *)
Fixpoint insertar_loop (copy : A -> A) es (cap : Z) (d : A) (n : nat) (idx idxprev : Z)
  : option (Z * list (CasillaHash A)) :=
  match n with
  | O => Some (idxprev, es)
  | S n' =>
      e ← es !! Z.to_nat idx;
      let next prev := insertar_loop copy es cap d n' ((idx +u 1) `mod` cap) prev in
      if fin_cluster e then Some (if idxprev =? -1 then to_int idx else idxprev, es)
      else if fdelete e =? 0 then
        x ← dato e;
        if comp x d =? 0 then
          Some (-1, <[Z.to_nat idx := Casilla (Some (copy d)) (fdelete e)]> es)
        else next idxprev
      else if (fdelete e =? 1) && (idxprev =? -1) then next (to_int idx)
      else next idxprev
  end.

(** [numElems * 1.0 / capacidad > 0.7] in double precision.  The quotient of
    two 32-bit integers differs from 7/10 by at least 1/(10*2^32) when it is
    not 7/10, far more than a rounding error, and 7/10 itself rounds to the
    literal: the test is the exact comparison. *)
Definition carga_excedida (n cap : Z) : bool := 7 * cap <? 10 * n.

(** Doubling: fresh slots, then every old element inserted again through [ins]
    (the recursive call of [th_insertar] with [noDest] and [noCopy]). *)
Definition th_redimensionar (ins : TablaHash A -> A -> option (TablaHash A)) t
  : option (TablaHash A) :=
  let cap := capacidad t in
  let arr := elems t in
  let capacidad' := cap *u 2 in
  let t0 := Tabla (replicate (Z.to_nat capacidad') casilla_nula) 0 capacidad' in
  foldM (fun tabla idx =>
           e ← arr !! idx;
           match dato e with Some a => ins tabla a | None => Some tabla end)
        t0 (seq 0 (Z.to_nat cap)).

(** [th_insertar] and [th_redimensionar] call each other; [fuel] bounds the
    nesting of the resizings. *)
Fixpoint th_insertar (fuel : nat) (copy : A -> A) t (d : A) : option (TablaHash A) :=
  match fuel with
  | O => None
  | S fuel' =>
      let cap := capacidad t in
      assert_def (negb (cap =? 0));;
      '(idxprev, es) ← insertar_loop copy (elems t) cap d (Z.to_nat cap) (hash d `mod` cap) (-1);
      if idxprev =? -1 then Some (Tabla es (numElems t) cap)
      else
        assert_def ((0 <=? idxprev) && (idxprev <? Z.of_nat (length es)));;
        let t' := Tabla (<[Z.to_nat idxprev := Casilla (Some (copy d)) 0]> es)
                        (numElems t +u 1) cap in
        if carga_excedida (numElems t') (capacidad t')
        then th_redimensionar (th_insertar fuel' (fun x => x)) t'
        else Some t'
  end.

(** Two levels are enough: a resized table is never over the load again. *)
Definition INSERT_FUEL : nat := 2.

Definition tablahash_insertar t (d : A) : option (TablaHash A) :=
  th_insertar INSERT_FUEL copia t d.

(** The stored elements in slot order: what a visit sees. *)
Definition items t : list A := omap dato (elems t).
End Operations.

(** ** Representation invariant *)

Section Spec.
Context {A K : Type} {ops : TablaOps A} `{Countable K} {HK : HashKey A K}.
Implicit Types (t : TablaHash A) (es : list (CasillaHash A)) (e : CasillaHash A) (a d x : A).

(** A slot is free, a tombstone or full. *)
Definition casilla_ok e : Prop :=
  match dato e with
  | Some _ => fdelete e = 0
  | None => fdelete e = 0 \/ fdelete e = 1
  end.

Definition llena e : bool := match dato e with Some _ => true | None => false end.

(** The [k]-th slot probed from home [h]. *)
Definition pos (cap h : Z) (k : nat) : nat := Z.to_nat ((h + Z.of_nat k) `mod` cap).

Definition no_vacia es i : Prop := exists e, es !! i = Some e /\ fin_cluster e = false.

(** Every element is reached by probing from its home over slots that do not
    end a cluster. *)
Definition alcanzable es (cap : Z) : Prop :=
  forall i a, es !! i = Some (Casilla (Some a) 0) ->
    exists k, (k < Z.to_nat cap)%nat /\ i = pos cap (hash a) k /\
      forall j, (j < k)%nat -> no_vacia es (pos cap (hash a) j).

Record slots_wf (es : list (CasillaHash A)) (cap : Z) : Prop := {
  sw_len : length es = Z.to_nat cap;
  sw_cap : 0 < cap <= 2 ^ 31;
  sw_ok : Forall casilla_ok es;
  sw_keys : NoDup (tkey <$> omap dato es);
  sw_probe : alcanzable es cap
}.

Record tabla_wf t : Prop := {
  wf_slots : slots_wf (elems t) (capacidad t);
  wf_num : numElems t = Z.of_nat (length (items t));
  wf_load : 10 * numElems t <= 7 * capacidad t
}.

(** The finite map a table denotes. *)
Definition contenido t : gmap K A := list_to_map ((fun a => (tkey a, a)) <$> items t).

(** *** Positions *)

Lemma pos_lt cap h k : 0 < cap -> (pos cap h k < Z.to_nat cap)%nat.
Proof. intros Hc. unfold pos. pose proof (Z.mod_pos_bound (h + Z.of_nat k) cap Hc). lia. Qed.

Lemma pos_succ cap h k :
  0 < cap <= 2 ^ 31 ->
  ((h + Z.of_nat k) `mod` cap +u 1) `mod` cap = (h + Z.of_nat (S k)) `mod` cap.
Proof.
  intros Hc. pose proof (Z.mod_pos_bound (h + Z.of_nat k) cap).
  rewrite wrap32_small by (unfold in_u32, UINT_RANGE; lia).
  rewrite Zplus_mod_idemp_l. f_equal. lia.
Qed.

Lemma pos_inj cap h j k :
  0 < cap -> (j < Z.to_nat cap)%nat -> (k < Z.to_nat cap)%nat ->
  pos cap h j = pos cap h k -> j = k.
Proof.
  intros Hc Hj Hk. unfold pos.
  pose proof (Z.mod_pos_bound (h + Z.of_nat j) cap Hc).
  pose proof (Z.mod_pos_bound (h + Z.of_nat k) cap Hc).
  intros Heq. assert (Hm : (h + Z.of_nat j) `mod` cap = (h + Z.of_nat k) `mod` cap) by lia.
  pose proof (Z.div_mod (h + Z.of_nat j) cap) as Hdj.
  pose proof (Z.div_mod (h + Z.of_nat k) cap) as Hdk.
  assert ((h + Z.of_nat j) / cap = (h + Z.of_nat k) / cap); [|lia].
  set (qj := (h + Z.of_nat j) / cap) in *. set (qk := (h + Z.of_nat k) / cap) in *.
  assert (- cap < cap * (qj - qk) < cap) by lia. nia.
Qed.

(** Every slot is probed: the positions from a home cover the array. *)
Lemma pos_surj cap h i :
  0 < cap -> (i < Z.to_nat cap)%nat -> exists k, (k < Z.to_nat cap)%nat /\ pos cap h k = i.
Proof.
  intros Hc Hi. exists (Z.to_nat ((Z.of_nat i - h) `mod` cap)).
  pose proof (Z.mod_pos_bound (Z.of_nat i - h) cap Hc). split; [lia|].
  unfold pos. rewrite Z2Nat.id by lia. rewrite Zplus_mod_idemp_r.
  replace (h + (Z.of_nat i - h)) with (Z.of_nat i) by lia.
  rewrite Z.mod_small by lia. lia.
Qed.

(** *** Slots and items *)

Lemma lookup_pos es cap h k :
  length es = Z.to_nat cap -> 0 < cap -> exists e, es !! pos cap h k = Some e.
Proof. intros Hl Hc. apply lookup_lt_is_Some_2. rewrite Hl. by apply pos_lt. Qed.

Lemma slot_ok es i e : Forall casilla_ok es -> es !! i = Some e -> casilla_ok e.
Proof. intros HF Hi. rewrite Forall_forall in HF. apply HF. eapply list_elem_of_lookup_2; eauto. Qed.

(** The three shapes of a well-formed slot. *)
Lemma slot_cases e :
  casilla_ok e ->
  (fin_cluster e = true /\ e = Casilla None 0) \/
  (fin_cluster e = false /\ e = Casilla None 1) \/
  (exists a, fin_cluster e = false /\ e = Casilla (Some a) 0).
Proof.
  destruct e as [[a|] f]; unfold casilla_ok, fin_cluster; simpl.
  - intros ->. right; right. eauto.
  - intros [->| ->]; simpl; auto.
Qed.

Lemma items_slot es a :
  Forall casilla_ok es -> a ∈ omap dato es <-> exists i, es !! i = Some (Casilla (Some a) 0).
Proof.
  intros Hok. rewrite elem_of_omap_lookup. split.
  - intros (i & e & Hi & Hd). exists i. pose proof (slot_ok _ _ _ Hok Hi) as He.
    destruct e as [[b|] f]; simplify_eq/=. unfold casilla_ok in He; simpl in He. by rewrite Hi, He.
  - intros (i & Hi). eauto.
Qed.

(** With pairwise distinct keys, a slot's element is the only one of its key. *)
Lemma slot_key_unique es i a b :
  Forall casilla_ok es -> NoDup (tkey <$> omap dato es) ->
  es !! i = Some (Casilla (Some a) 0) -> b ∈ omap dato es -> tkey b = tkey a -> b = a.
Proof.
  intros Hok Hnd Hi Hb Hk.
  assert (Ha : a ∈ omap dato es) by (apply items_slot; eauto).
  apply list_elem_of_lookup in Ha as [m Hm]. apply list_elem_of_lookup in Hb as [n Hn].
  assert (m = n) as ->; [|congruence].
  eapply (NoDup_lookup _ _ _ (tkey a) Hnd); rewrite list_lookup_fmap.
  - by rewrite Hm.
  - rewrite Hn. simpl. by rewrite Hk.
Qed.



(** The keys probed so far, up to (excluding) the [k]-th slot, are live slots
    of other keys. *)
Definition recorrido es cap d (k : nat) : Prop :=
  forall j, (j < k)%nat -> exists e, es !! pos cap (hash d) j = Some e /\
    fin_cluster e = false /\ forall b, dato e = Some b -> tkey b ≠ tkey d.

Lemma recorrido_0 es cap d : recorrido es cap d 0.
Proof. intros j Hj. lia. Qed.

Lemma recorrido_S es cap d k e :
  recorrido es cap d k -> es !! pos cap (hash d) k = Some e -> fin_cluster e = false ->
  (forall b, dato e = Some b -> tkey b ≠ tkey d) -> recorrido es cap d (S k).
Proof.
  intros HR He Hf Hb j Hj. destruct (decide (j = k)) as [->|]; [by eauto|]. apply HR. lia.
Qed.

(** A key whose probe path was walked to its end, or to a free slot, is absent. *)
Lemma ausente es cap d k :
  slots_wf es cap -> recorrido es cap d k ->
  (Z.to_nat cap <= k)%nat \/
    (exists e, es !! pos cap (hash d) k = Some e /\ fin_cluster e = true) ->
  forall b, b ∈ omap dato es -> tkey b ≠ tkey d.
Proof.
  intros Hwf HR Hend b Hb Hk. destruct Hwf as [Hl Hc Hok Hnd Hp].
  apply items_slot in Hb as [i Hi]; [|done].
  destruct (Hp i b Hi) as (m & Hm & -> & Hbefore).
  rewrite (hash_key b d Hk) in Hi, Hbefore.
  destruct (decide (m < k)%nat) as [Hlt|Hge].
  - destruct (HR m Hlt) as (e & He & _ & Hne). rewrite Hi in He. simplify_eq.
    by apply (Hne b).
  - destruct Hend as [|(e & He & Hf)]; [lia|].
    destruct (decide (m = k)) as [->|].
    + rewrite Hi in He. by simplify_eq/=.
    + destruct (Hbefore k) as (e' & He' & Hf'); [lia|]. congruence.
Qed.

(** The slot probed at step [k], with its three shapes. *)
Lemma slot_probado es cap d k :
  slots_wf es cap ->
  exists e, es !! Z.to_nat ((hash d + Z.of_nat k) `mod` cap) = Some e /\
    ((fin_cluster e = true /\ e = Casilla None 0) \/
     (fin_cluster e = false /\ e = Casilla None 1) \/
     (exists a, fin_cluster e = false /\ e = Casilla (Some a) 0)).
Proof.
  intros [Hl Hc Hok _ _]. destruct (lookup_pos es cap (hash d) k Hl ltac:(lia)) as [e He].
  exists e. split; [done|]. apply slot_cases. by eapply slot_ok.
Qed.

Lemma buscar_loop_spec es cap d n k :
  slots_wf es cap -> (Z.to_nat cap <= k + n)%nat -> recorrido es cap d k ->
  exists r, buscar_loop es cap d n ((hash d + Z.of_nat k) `mod` cap) = Some r /\
    match r with
    | Some i => exists a, es !! i = Some (Casilla (Some a) 0) /\ tkey a = tkey d
    | None => forall b, b ∈ omap dato es -> tkey b ≠ tkey d
    end.
Proof.
  intros Hwf. revert k. induction n as [|n IH]; intros k Hk HR; simpl.
  { exists None. split; [done|]. eapply (ausente _ _ _ k); eauto. left. lia. }
  pose proof (sw_cap _ _ Hwf) as Hc.
  destruct (slot_probado es cap d k Hwf) as (e & He & Hsh). rewrite He; simpl.
  rewrite pos_succ by done.
  destruct Hsh as [[Hf ->]|[[Hf ->]|(a & Hf & ->)]]; simpl.
  - exists None. split; [done|]. eapply (ausente _ _ _ k); eauto.
  - apply IH; [lia|]. apply (recorrido_S _ _ _ _ _ HR He Hf). by intros b [=].
  - destruct (Z.eqb_spec (comp a d) 0) as [Heq|Hne].
    + eexists. split; [done|]. exists a. split; [done|]. by apply comp_key.
    + apply IH; [lia|]. eapply recorrido_S; eauto. intros b [= ->] Hbk.
      by apply Hne, comp_key.
Qed.

Lemma hash_pos0 cap d : hash d `mod` cap = (hash d + Z.of_nat 0) `mod` cap.
Proof. f_equal. lia. Qed.

Lemma buscar_casilla_spec t d :
  tabla_wf t ->
  exists r, buscar_casilla t d = Some r /\
    match r with
    | Some i => exists a, elems t !! i = Some (Casilla (Some a) 0) /\ tkey a = tkey d
    | None => forall b, b ∈ items t -> tkey b ≠ tkey d
    end.
Proof.
  intros Hwf. pose proof (wf_slots _ Hwf) as Hs. pose proof (sw_cap _ _ Hs) as Hc.
  unfold buscar_casilla. rewrite assert_def_true by lia. simpl. rewrite hash_pos0.
  apply buscar_loop_spec; [done|lia|apply recorrido_0].
Qed.

(** *** Replacing one slot *)

(** What the other slots hold. *)
Definition resto es (i : nat) : list A := omap dato (take i es) ++ omap dato (drop (S i) es).

Lemma items_resto es i e :
  es !! i = Some e -> omap dato es ≡ₚ option_list (dato e) ++ resto es i.
Proof.
  intros Hi. rewrite (omap_insert_split _ _ _ _ Hi). unfold resto.
  rewrite Permutation_app_comm, <- app_assoc. apply Permutation_app; [done|].
  apply Permutation_app_comm.
Qed.

Lemma items_insert_resto es i e :
  (i < length es)%nat -> omap dato (<[i:=e]> es) ≡ₚ option_list (dato e) ++ resto es i.
Proof.
  intros Hi. rewrite omap_insert by done. unfold resto.
  rewrite Permutation_app_comm, <- app_assoc. apply Permutation_app; [done|].
  apply Permutation_app_comm.
Qed.

(** Removing an element with a unique key is filtering its key out. *)
Lemma resto_filter es i a :
  NoDup (tkey <$> omap dato es) -> es !! i = Some (Casilla (Some a) 0) ->
  resto es i = filter (fun b => tkey b ≠ tkey a) (omap dato es).
Proof.
  intros Hnd Hi. rewrite (omap_insert_split _ _ _ _ Hi) in Hnd |- *. simpl in *.
  rewrite fmap_app, fmap_cons in Hnd. apply NoDup_app in Hnd as (Hn1 & Hx & Hn2).
  apply NoDup_cons in Hn2 as [Ha Hn2].
  rewrite filter_app, filter_cons_False by naive_solver.
  unfold resto. f_equal; symmetry; apply filter_true, Forall_forall; intros b Hb Hk.
  - apply (Hx (tkey b)); [by apply list_elem_of_fmap_2|]. rewrite Hk. apply elem_of_cons. by left.
  - apply Ha. rewrite <- Hk. by apply list_elem_of_fmap_2.
Qed.

Lemma keys_fresh_NoDup (l : list A) a :
  NoDup (tkey <$> l) -> (forall b, b ∈ l -> tkey b ≠ tkey a) -> NoDup (tkey <$> (a :: l)).
Proof.
  intros Hnd Hf. rewrite fmap_cons. apply NoDup_cons. split; [|done].
  intros (b & Hk & Hb)%list_elem_of_fmap. by apply (Hf b Hb).
Qed.

Lemma no_vacia_insert es i e j :
  fin_cluster e = false -> no_vacia es j -> no_vacia (<[i:=e]> es) j.
Proof.
  intros Hf (e' & He' & Hf'). destruct (decide (i = j)) as [->|].
  - exists e. split; [|done]. apply list_lookup_insert_eq. by eapply lookup_lt_Some.
  - exists e'. by rewrite list_lookup_insert_ne.
Qed.

(** Writing a non-free slot keeps the invariant when the keys stay distinct and
    the new element, if any, is reachable there. *)
Lemma slots_wf_insert es cap (i : nat) e :
  slots_wf es cap -> (i < length es)%nat -> casilla_ok e -> fin_cluster e = false ->
  NoDup (tkey <$> option_list (dato e) ++ resto es i) ->
  (forall c, dato e = Some c -> exists k, (k < Z.to_nat cap)%nat /\ i = pos cap (hash c) k /\
     forall j, (j < k)%nat -> no_vacia es (pos cap (hash c) j)) ->
  slots_wf (<[i:=e]> es) cap.
Proof.
  intros [Hl Hc Hok Hnd Hp] Hi He Hf Hk Hreach. split; [by rewrite length_insert|done| | |].
  - by apply Forall_insert.
  - by rewrite items_insert_resto.
  - intros j a Hj. destruct (decide (i = j)) as [->|Hne].
    + rewrite list_lookup_insert_eq in Hj by done. simplify_eq.
      destruct (Hreach a) as (k & Hkc & -> & Hb); [done|].
      exists k. split_and!; [done|done|]. intros m Hm. by apply no_vacia_insert; [|apply Hb].
    + rewrite list_lookup_insert_ne in Hj by done.
      destruct (Hp j a Hj) as (k & Hkc & -> & Hb).
      exists k. split_and!; [done|done|]. intros m Hm. by apply no_vacia_insert; [|apply Hb].
Qed.

Lemma slots_wf_remove es cap (i : nat) a :
  slots_wf es cap -> es !! i = Some (Casilla (Some a) 0) ->
  slots_wf (<[i := Casilla None 1]> es) cap /\
  omap dato (<[i := Casilla None 1]> es) = filter (fun b => tkey b ≠ tkey a) (omap dato es).
Proof.
  intros Hwf Hi. pose proof (lookup_lt_Some _ _ _ Hi) as Hlt.
  pose proof (sw_keys _ _ Hwf) as Hnd. split.
  - apply slots_wf_insert; try done; [by right|].
    simpl. rewrite (items_resto _ _ _ Hi) in Hnd. by apply NoDup_cons in Hnd as [_ ?].
  - rewrite <- (resto_filter _ _ _ Hnd Hi). by rewrite omap_insert.
Qed.

Lemma slots_wf_replace es cap (i : nat) a c :
  slots_wf es cap -> es !! i = Some (Casilla (Some a) 0) -> tkey c = tkey a ->
  slots_wf (<[i := Casilla (Some c) 0]> es) cap /\
  omap dato (<[i := Casilla (Some c) 0]> es)
    ≡ₚ c :: filter (fun b => tkey b ≠ tkey a) (omap dato es).
Proof.
  intros Hwf Hi Hk. pose proof (lookup_lt_Some _ _ _ Hi) as Hlt.
  pose proof (sw_keys _ _ Hwf) as Hnd. split.
  - apply slots_wf_insert; try done.
    + simpl. rewrite (items_resto _ _ _ Hi) in Hnd. simpl in Hnd. by rewrite Hk.
    + intros ? [= <-]. destruct (sw_probe _ _ Hwf i a Hi) as (k & ? & -> & ?).
      rewrite (hash_key c a Hk). eauto.
  - rewrite items_insert_resto by done. simpl. by rewrite (resto_filter _ _ _ Hnd Hi).
Qed.

Lemma slots_wf_place es cap (p : nat) e c :
  slots_wf es cap -> es !! p = Some e -> dato e = None ->
  (forall b, b ∈ omap dato es -> tkey b ≠ tkey c) ->
  (exists k, (k < Z.to_nat cap)%nat /\ p = pos cap (hash c) k /\
     forall j, (j < k)%nat -> no_vacia es (pos cap (hash c) j)) ->
  slots_wf (<[p := Casilla (Some c) 0]> es) cap /\
  omap dato (<[p := Casilla (Some c) 0]> es) ≡ₚ c :: omap dato es.
Proof.
  intros Hwf Hp He Hfresh Hreach. pose proof (lookup_lt_Some _ _ _ Hp) as Hlt.
  pose proof (sw_keys _ _ Hwf) as Hnd.
  assert (Hitems : omap dato es ≡ₚ resto es p) by (rewrite (items_resto _ _ _ Hp), He; done).
  split.
  - apply slots_wf_insert; try done.
    + simpl. rewrite <- Hitems. by apply keys_fresh_NoDup.
    + by intros ? [= <-].
  - rewrite items_insert_resto by done. simpl. by rewrite Hitems.
Qed.

(** *** Insertion *)

Definition llena_en es i : Prop := exists a, es !! i = Some (Casilla (Some a) 0).

(** What [idxprev] records after [k] probes: no tombstone seen, or one of them. *)
Definition previa_ok es cap d (k : nat) (prev : Z) : Prop :=
  (prev = -1 /\ forall j, (j < k)%nat -> llena_en es (pos cap (hash d) j)) \/
  (exists j, (j < k)%nat /\ prev = Z.of_nat (pos cap (hash d) j) /\
     es !! pos cap (hash d) j = Some (Casilla None 1)).

(** A slot where a new element may be stored. *)
Definition lugar es cap d (prev : Z) : Prop :=
  exists j e, (j < Z.to_nat cap)%nat /\ prev = Z.of_nat (pos cap (hash d) j) /\
    es !! pos cap (hash d) j = Some e /\ dato e = None /\
    forall m, (m < j)%nat -> no_vacia es (pos cap (hash d) m).

Definition insertar_result copy es cap d (prev : Z) (es' : list (CasillaHash A)) : Prop :=
  (prev = -1 /\ exists i a, es !! i = Some (Casilla (Some a) 0) /\ tkey a = tkey d /\
     es' = <[i := Casilla (Some (copy d)) 0]> es) \/
  (es' = es /\ (forall b, b ∈ omap dato es -> tkey b ≠ tkey d) /\
     (lugar es cap d prev \/
      (prev = -1 /\ forall j, (j < Z.to_nat cap)%nat -> llena_en es (pos cap (hash d) j)))).

Lemma recorrido_no_vacia es cap d k j :
  recorrido es cap d k -> (j < k)%nat -> no_vacia es (pos cap (hash d) j).
Proof. intros HR Hj. destruct (HR j Hj) as (e & ? & ? & _). by exists e. Qed.

Lemma previa_S es cap d k prev :
  previa_ok es cap d k prev ->
  llena_en es (pos cap (hash d) k) \/ prev ≠ -1 -> previa_ok es cap d (S k) prev.
Proof.
  intros [[-> Hall]|(j & Hj & -> & He)] Hk.
  - left. split; [done|]. intros j Hj. destruct (decide (j = k)) as [->|].
    + by destruct Hk.
    + apply Hall. lia.
  - right. exists j. split_and!; [lia|done|done].
Qed.

(** The free or exhausted end of the probe of an absent key. *)
Lemma previa_lugar es cap d k prev :
  (k <= Z.to_nat cap)%nat -> recorrido es cap d k -> previa_ok es cap d k prev ->
  prev ≠ -1 -> lugar es cap d prev.
Proof.
  intros Hk HR [[-> _]|(j & Hj & -> & He)] Hp; [done|].
  exists j, (Casilla None 1). split_and!; [lia|done|done|done|].
  intros m Hm. eapply recorrido_no_vacia; [done|lia].
Qed.

Lemma to_int_pos es cap h k :
  slots_wf es cap -> to_int ((h + Z.of_nat k) `mod` cap) = Z.of_nat (pos cap h k).
Proof.
  intros Hwf. pose proof (sw_cap _ _ Hwf). unfold pos.
  pose proof (Z.mod_pos_bound (h + Z.of_nat k) cap). rewrite to_int_small; lia.
Qed.

Lemma insertar_loop_spec copy es cap d n k prev :
  slots_wf es cap -> (k + n = Z.to_nat cap)%nat -> recorrido es cap d k ->
  previa_ok es cap d k prev ->
  exists prev' es',
    insertar_loop copy es cap d n ((hash d + Z.of_nat k) `mod` cap) prev = Some (prev', es') /\
    insertar_result copy es cap d prev' es'.
Proof.
  intros Hwf. pose proof (sw_cap _ _ Hwf) as Hc. revert k prev.
  induction n as [|n IH]; intros k prev Hk HR Hprev; simpl.
  { exists prev, es. split; [done|]. right. split_and!; [done| |].
    - eapply (ausente _ _ _ k); eauto. left. lia.
    - destruct (decide (prev = -1)) as [->|Hne].
      + destruct Hprev as [[_ Hall]|(j & _ & ? & _)]; [|lia].
        right. split; [done|]. intros j Hj. apply Hall. lia.
      + left. apply (previa_lugar _ _ _ k); [lia|done..]. }
  destruct (slot_probado es cap d k Hwf) as (e & He & Hsh). rewrite He; simpl.
  rewrite pos_succ, (to_int_pos es) by done.
  destruct Hsh as [[Hf ->]|[[Hf ->]|(a & Hf & ->)]]; simpl.
  - eexists _, es. split; [done|]. right. split_and!; [done| |].
    + eapply (ausente _ _ _ k); eauto.
    + left. destruct (Z.eqb_spec prev (-1)) as [->|Hne].
      * exists k, (Casilla None 0). split_and!; [lia|done|done|done|].
        intros m Hm. by eapply recorrido_no_vacia.
      * apply (previa_lugar _ _ _ k); [lia|done..].
  - assert (HR' : recorrido es cap d (S k)) by (apply (recorrido_S _ _ _ _ _ HR He Hf); by intros b [=]).
    destruct (Z.eqb_spec prev (-1)) as [->|Hne].
    + apply IH; [lia|done|]. right. exists k. split_and!; [lia|done|done].
    + apply IH; [lia|done|]. by apply previa_S; [|right].
  - destruct (Z.eqb_spec (comp a d) 0) as [Heq|Hne].
    + eexists _, _. split; [done|]. left. split; [done|].
      exists (pos cap (hash d) k), a. split_and!; [done| |done]. by apply comp_key.
    + apply IH; [lia| |].
      * apply (recorrido_S _ _ _ _ _ HR He Hf). intros b [= ->] Hbk. by apply Hne, comp_key.
      * apply previa_S; [done|]. left. by exists a.
Qed.

(** A table whose load is at most 0.7 has a slot that is not full. *)
Lemma no_toda_llena es cap h :
  length es = Z.to_nat cap -> 0 < cap -> (length (omap dato es) < length es)%nat ->
  ~ (forall j, (j < Z.to_nat cap)%nat -> llena_en es (pos cap h j)).
Proof.
  intros Hl Hc Hlt Hall.
  assert (Hfull : Forall (fun e => is_Some (dato e)) es).
  { apply Forall_lookup. intros i e Hi.
    destruct (pos_surj cap h i) as (k & Hk & <-); [done|rewrite <- Hl; by eapply lookup_lt_Some|].
    destruct (Hall k Hk) as [a Ha]. rewrite Hi in Ha. simplify_eq/=. by eexists. }
  assert (length (omap dato es) = length es); [|lia].
  clear -Hfull. induction Hfull as [|e es [a Ha] _ IH]; [done|]. simpl. rewrite Ha. simpl. by f_equal.
Qed.

(** The invariant without the load bound: the table between an insertion and
    the resizing it triggers. *)
Definition tabla_llena_wf t : Prop :=
  slots_wf (elems t) (capacidad t) /\ numElems t = Z.of_nat (length (items t)).

Lemma items_le_cap t : slots_wf (elems t) (capacidad t) -> Z.of_nat (length (items t)) <= capacidad t.
Proof.
  intros [Hl Hc _ _ _]. unfold items. enough (length (omap dato (elems t)) <= length (elems t))%nat by lia.
  clear. induction (elems t) as [|e es IH]; [done|]. simpl. destruct (dato e); simpl; [by apply le_n_S|by apply le_S].
Qed.

(** One insertion up to the load test. *)
Lemma th_insertar_step fuel copy t d :
  tabla_wf t -> (forall a, tkey (copy a) = tkey a) ->
  exists t1, tabla_llena_wf t1 /\ capacidad t1 = capacidad t /\
    items t1 ≡ₚ copy d :: filter (fun b => tkey b ≠ tkey d) (items t) /\
    th_insertar (S fuel) copy t d =
      if carga_excedida (numElems t1) (capacidad t1)
      then th_redimensionar (th_insertar fuel (fun x => x)) t1 else Some t1.
Proof.
  intros [Hwf Hnum Hload] Hcopy. pose proof (sw_cap _ _ Hwf) as Hc. pose proof (sw_len _ _ Hwf) as Hl.
  destruct t as [es n cap]. unfold items in *. simpl in *.
  rewrite assert_def_true by lia. simpl. rewrite hash_pos0.
  destruct (insertar_loop_spec copy es cap d (Z.to_nat cap) 0 (-1)) as (prev & es' & -> & Hres);
    [done|lia|apply recorrido_0|left; split; [done|lia]|]. simpl.
  destruct Hres as [(-> & i & a & Hi & Hk & ->)|(-> & Habs & [(j & e & Hj & -> & He & Hd & Hb)|[-> Hall]])]; simpl.
  - destruct (slots_wf_replace es cap i a (copy d) Hwf Hi) as [Hwf' Hit]; [by rewrite Hcopy|].
    exists (Tabla (<[i:=Casilla (Some (copy d)) 0]> es) n cap).
    unfold tabla_llena_wf, items; simpl. rewrite Hit.
    rewrite Hk in Hit |- *. split_and!; [done| |done|done|].
    + simpl. pose proof (items_resto _ _ _ Hi) as Hp. rewrite <- Hk.
      rewrite <- (resto_filter es i a (sw_keys _ _ Hwf) Hi). rewrite Hnum, Hp. simpl. lia.
    + unfold carga_excedida. destruct (Z.ltb_spec (7 * cap) (10 * n)); [lia|done].
  - destruct (slots_wf_place es cap _ e (copy d) Hwf He Hd) as [Hwf' Hit].
    { intros b Hb'. rewrite Hcopy. by apply Habs. }
    { exists j. rewrite (hash_key (copy d) d (Hcopy d)). done. }
    pose proof (pos_lt cap (hash d) j). 
    destruct (Z.eqb_spec (Z.of_nat (pos cap (hash d) j)) (-1)); [lia|].
    rewrite assert_def_true by lia. simpl. rewrite Nat2Z.id.
    exists (Tabla (<[pos cap (hash d) j := Casilla (Some (copy d)) 0]> es) (n +u 1) cap).
    unfold tabla_llena_wf, items; simpl. rewrite Hit.
    rewrite wrap32_small by (unfold in_u32, UINT_RANGE; lia).
    split_and!; [done|simpl; lia|done| |done].
    f_equiv. rewrite filter_true; [done|]. by apply Forall_forall.
  - exfalso. eapply (no_toda_llena es cap (hash d)); [done|lia|lia|done].
Qed.

(** *** Resizing *)

#[local] Arguments th_insertar : simpl never.

Lemma tabla_vacia_wf cap :
  0 < cap <= 2 ^ 31 -> tabla_wf (Tabla (replicate (Z.to_nat cap) casilla_nula) 0 cap) /\
  items (Tabla (replicate (Z.to_nat cap) casilla_nula) 0 cap : TablaHash A) = [].
Proof.
  intros Hc. assert (Hi : omap (@dato A) (replicate (Z.to_nat cap) casilla_nula) = []).
  { generalize (Z.to_nat cap). by induction n. }
  unfold items; simpl. split; [|done]. split; unfold items; simpl; [|by rewrite Hi|lia].
  split; [by rewrite length_replicate|done| |by rewrite Hi; constructor|].
  - apply Forall_replicate. by left.
  - intros i a Ha. apply lookup_replicate in Ha as [[=] _].
Qed.

(** An insertion of a fresh key below the load bound never resizes. *)
Lemma th_insertar_fresco fuel t d :
  tabla_wf t -> 10 * (numElems t + 1) <= 7 * capacidad t ->
  (forall b, b ∈ items t -> tkey b ≠ tkey d) ->
  exists t', th_insertar (S fuel) (fun x => x) t d = Some t' /\ tabla_wf t' /\
    capacidad t' = capacidad t /\ items t' ≡ₚ d :: items t.
Proof.
  intros Hwf Hload Hfr.
  destruct (th_insertar_step fuel (fun x => x) t d Hwf) as (t1 & [Hs Hn] & Hc & Hit & ->); [done|].
  rewrite filter_true in Hit by (by apply Forall_forall).
  assert (Hn' : numElems t1 = numElems t + 1).
  { rewrite Hn, Hit, (wf_num _ Hwf). simpl. lia. }
  unfold carga_excedida. destruct (Z.ltb_spec (7 * capacidad t1) (10 * numElems t1)); [lia|].
  exists t1. split_and!; [done| |done|done]. split; [done|done|lia].
Qed.

Lemma th_redimensionar_spec fuel t :
  tabla_llena_wf t -> capacidad t <= 2 ^ 30 ->
  exists t', th_redimensionar (th_insertar (S fuel) (fun x => x)) t = Some t' /\
    tabla_wf t' /\ capacidad t' = 2 * capacidad t /\ items t' ≡ₚ items t.
Proof.
  intros [Hs Hn] Hcap. pose proof (sw_cap _ _ Hs) as Hc. pose proof (sw_len _ _ Hs) as Hl.
  pose proof (items_le_cap t Hs) as Hle. destruct t as [es n cap]. unfold items in *; simpl in *.
  unfold th_redimensionar; simpl. rewrite wrap32_small by (unfold in_u32, UINT_RANGE; lia).
  assert (Hes : forall i, (i <= Z.to_nat cap)%nat ->
    take (S i) es = take i es ++ option_list (es !! i)).
  { intros i _. destruct (es !! i) as [e|] eqn:He; [by apply take_S_r|].
    apply lookup_ge_None in He. rewrite !take_ge by lia. by rewrite app_nil_r. }
  destruct (foldM_inv (fun tabla idx => e ← es !! idx;
      match dato e with Some a => th_insertar (S fuel) (fun x => x) tabla a | None => Some tabla end)
    (fun pre t' => tabla_wf t' /\ capacidad t' = cap * 2 /\
       items t' ≡ₚ omap dato (take (length pre) es))
    (seq 0 (Z.to_nat cap)) (Tabla (replicate (Z.to_nat (cap * 2)) casilla_nula) 0 (cap * 2)))
    as (t' & -> & Hwf' & Hc' & Hit').
  - destruct (tabla_vacia_wf (cap * 2)) as [Hw Hi]; [lia|]. by rewrite Hi.
  - intros pre i post s Hseq (Hw & Hcs & Hits).
    assert (i = length pre /\ (i < Z.to_nat cap)%nat) as [-> Hi].
    { pose proof (f_equal (lookup (length pre)) Hseq) as Hlk.
      rewrite list_lookup_middle in Hlk by done. apply lookup_seq in Hlk. lia. }
    destruct (lookup_lt_is_Some_2 es (length pre)) as [e He]; [lia|].
    rewrite He; simpl. rewrite length_app; simpl. rewrite Nat.add_1_r.
    rewrite (take_S_r _ _ _ He), omap_app; simpl.
    destruct (dato e) as [a|] eqn:Ha.
    + destruct (th_insertar_fresco fuel s a) as (s' & -> & Hw' & Hcs' & Hits'); [done| | |].
      * rewrite (wf_num _ Hw), Hits, Hcs. 
        enough (length (omap dato (take (length pre) es)) < length (omap dato es))%nat by lia.
        rewrite (omap_insert_split _ _ _ dato He), !length_app, Ha. simpl. lia.
      * intros b Hb. rewrite Hits in Hb. pose proof (sw_keys _ _ Hs) as Hnd.
        rewrite (omap_insert_split _ _ _ dato He), Ha in Hnd.
        rewrite fmap_app in Hnd. apply NoDup_app in Hnd as (_ & Hx & _).
        intros Hk. apply (Hx (tkey b)); [by apply list_elem_of_fmap_2|]. rewrite Hk. simpl. by left.
      * exists s'. split_and!; [done|done|lia|]. rewrite Hits', Hits. simpl.
        by rewrite Permutation_app_comm.
    + exists s. rewrite app_nil_r. done.
  - exists t'. rewrite length_seq, take_ge in Hit' by lia. split_and!; [done|done|lia|done].
Qed.

(** *** The specification of an insertion *)

Lemma tablahash_insertar_spec t d :
  tabla_wf t -> capacidad t <= 2 ^ 30 ->
  exists t', tablahash_insertar t d = Some t' /\ tabla_wf t' /\
    items t' ≡ₚ copia d :: filter (fun b => tkey b ≠ tkey d) (items t) /\
    (capacidad t' = capacidad t \/
     capacidad t' = 2 * capacidad t /\ 7 * capacidad t < 10 * numElems t').
Proof.
  intros Hwf Hcap. unfold tablahash_insertar, INSERT_FUEL.
  destruct (th_insertar_step 1 copia t d Hwf copia_key) as (t1 & [Hs Hn] & Hc & Hit & ->).
  unfold carga_excedida. destruct (Z.ltb_spec (7 * capacidad t1) (10 * numElems t1)) as [Hx|Hx].
  - destruct (th_redimensionar_spec 0 t1) as (t' & -> & Hwf' & Hc' & Hit'); [done|lia|].
    exists t'. split_and!; [done|done|by rewrite Hit'|]. right. split; [lia|].
    rewrite (wf_num _ Hwf'), Hit'. lia.
  - exists t1. split_and!; [done| |done|by left]. by split.
Qed.

(** *** The finite map view *)

Lemma contenido_lookup t k a :
  NoDup (tkey <$> items t) -> contenido t !! k = Some a <-> a ∈ items t /\ tkey a = k.
Proof.
  intros Hnd. unfold contenido. split.
  - intros Hl%elem_of_list_to_map_2. apply list_elem_of_fmap in Hl as (b & [= -> ->] & Hb). done.
  - intros [Ha <-]. apply elem_of_list_to_map_1.
    + rewrite <- list_fmap_compose. done.
    + apply list_elem_of_fmap. by exists a.
Qed.

Lemma contenido_lookup_None t k :
  contenido t !! k = None <-> forall a, a ∈ items t -> tkey a ≠ k.
Proof.
  unfold contenido. rewrite <- not_elem_of_list_to_map, <- list_fmap_compose. split.
  - intros Hn a Ha <-. apply Hn. apply list_elem_of_fmap. by exists a.
  - intros Hn (a & -> & Ha)%list_elem_of_fmap. by apply (Hn a).
Qed.

Lemma wf_items_NoDup t : tabla_wf t -> NoDup (tkey <$> items t).
Proof. intros Hwf. exact (sw_keys _ _ (wf_slots _ Hwf)). Qed.

Lemma buscar_casilla_contenido t d :
  tabla_wf t ->
  (exists i a, buscar_casilla t d = Some (Some i) /\ elems t !! i = Some (Casilla (Some a) 0) /\
     contenido t !! tkey d = Some a /\ tkey a = tkey d) \/
  (buscar_casilla t d = Some None /\ contenido t !! tkey d = None).
Proof.
  intros Hwf. pose proof (wf_items_NoDup _ Hwf) as Hnd.
  destruct (buscar_casilla_spec t d Hwf) as ([i|] & Hb & Hr).
  - destruct Hr as (a & Hi & Hk). left. exists i, a. split_and!; [done|done| |done].
    apply contenido_lookup; [done|]. split; [|done].
    apply items_slot; [by apply (sw_ok _ _ (wf_slots _ Hwf))|by exists i].
  - right. split; [done|]. by apply contenido_lookup_None.
Qed.

Lemma tablahash_buscar_contenido t d :
  tabla_wf t -> tablahash_buscar t d = Some (contenido t !! tkey d).
Proof.
  intros Hwf. unfold tablahash_buscar.
  destruct (buscar_casilla_contenido t d Hwf) as [(i & a & -> & Hi & -> & _)|[-> ->]]; simpl; [|done].
  by rewrite Hi.
Qed.

Lemma tablahash_eliminar_spec t d :
  tabla_wf t ->
  exists t', tablahash_eliminar t d = Some t' /\ tabla_wf t' /\ capacidad t' = capacidad t /\
    items t' = filter (fun b => tkey b ≠ tkey d) (items t).
Proof.
  intros Hwf. unfold tablahash_eliminar, th_eliminar.
  destruct (buscar_casilla_spec t d Hwf) as ([i|] & -> & Hr); simpl.
  - destruct Hr as (a & Hi & Hk). eexists. split; [done|]. destruct Hwf as [Hs Hn Hl].
    destruct (slots_wf_remove _ _ i a Hs Hi) as [Hs' Hit].
    assert (Hlen : length (items t) = S (length (filter (fun b => tkey b ≠ tkey a) (items t)))).
    { unfold items. rewrite (items_resto _ _ _ Hi) at 1. simpl.
      by rewrite (resto_filter _ _ _ (sw_keys _ _ Hs) Hi). }
    rewrite Hk in Hit, Hlen. pose proof (items_le_cap t Hs). pose proof (sw_cap _ _ Hs).
    assert (Hn' : wrap32 (numElems t - 1) = numElems t - 1).
    { apply wrap32_small. unfold in_u32, UINT_RANGE. lia. }
    unfold items in *; simpl in *. split_and!; [|done|done].
    split; unfold items; simpl; [done|rewrite Hit|]; lia.
  - exists t. split_and!; [done|done|done|]. symmetry. apply filter_true. by apply Forall_forall.
Qed.

(** Writing through the pointer to an element, without changing its key. *)
Lemma escribir_casilla_spec t (i : nat) a c :
  tabla_wf t -> elems t !! i = Some (Casilla (Some a) 0) -> tkey c = tkey a ->
  tabla_wf (escribir_casilla t i c) /\ capacidad (escribir_casilla t i c) = capacidad t /\
  items (escribir_casilla t i c) ≡ₚ c :: filter (fun b => tkey b ≠ tkey a) (items t).
Proof.
  intros [Hs Hn Hl] Hi Hk. destruct (slots_wf_replace _ _ i a c Hs Hi Hk) as [Hs' Hit].
  assert (Heq : alter (fun e => Casilla (Some c) (fdelete e)) i (elems t)
                = <[i := Casilla (Some c) 0]> (elems t)).
  { apply list_eq. intros j. destruct (decide (i = j)) as [<-|Hne].
    - rewrite list_lookup_alter_eq, Hi, list_lookup_insert_eq; [done|by eapply lookup_lt_Some].
    - by rewrite list_lookup_alter_ne, list_lookup_insert_ne. }
  unfold escribir_casilla. rewrite Heq. unfold items in *; simpl.
  split_and!; [|done|done]. split; unfold items; simpl; [done| |done].
  rewrite Hit, Hn. simpl. rewrite <- (resto_filter _ _ _ (sw_keys _ _ Hs) Hi).
  by rewrite (items_resto _ _ _ Hi).
Qed.

Lemma tablahash_visitar_extra_spec {S : Type} t (show : A -> S -> S) (extra : S) :
  length (elems t) = Z.to_nat (capacidad t) ->
  tablahash_visitar_extra t show extra = Some (foldl (fun s a => show a s) extra (items t)).
Proof.
  intros Hl. unfold tablahash_visitar_extra, items. rewrite <- Hl. clear Hl.
  generalize (elems t) as es. intros es.
  destruct (foldM_inv (fun s idx => e ← es !! idx;
      match dato e with Some a => Some (show a s) | None => Some s end)
    (fun pre s => s = foldl (fun s a => show a s) extra (omap dato (take (length pre) es)))
    (seq 0 (length es)) extra) as (s & -> & Hs); [done| |].
  - intros pre i post s Hseq ->.
    assert (i = length pre /\ (i < length es)%nat) as [-> Hi].
    { pose proof (f_equal (lookup (length pre)) Hseq) as Hlk.
      rewrite list_lookup_middle in Hlk by done. apply lookup_seq in Hlk. lia. }
    destruct (lookup_lt_is_Some_2 es (length pre)) as [e He]; [lia|]. rewrite He; simpl.
    rewrite length_app; simpl. rewrite Nat.add_1_r, (take_S_r _ _ _ He), omap_app, foldl_app.
    simpl. destruct (dato e); simpl; eauto.
  - rewrite length_seq, take_ge in Hs by lia. by subst.
Qed.

Lemma wf_visitar {S : Type} t (show : A -> S -> S) (extra : S) :
  tabla_wf t ->
  tablahash_visitar_extra t show extra = Some (foldl (fun s a => show a s) extra (items t)).
Proof. intros Hwf. apply tablahash_visitar_extra_spec. exact (sw_len _ _ (wf_slots _ Hwf)). Qed.

(** *** Room for further insertions

    [tabla_room t k]: [k] more insertions cannot take the capacity beyond the
    2^30 slots up to which an index fits in the [int] that [th_insertar] uses. *)
Definition tabla_room t (k : Z) : Prop :=
  0 <= k /\ capacidad t <= 2 ^ 30 /\ 20 * (numElems t + k) <= 7 * 2 ^ 30.

Lemma tabla_room_insertar t d k :
  tabla_wf t -> tabla_room t k -> 1 <= k ->
  exists t', tablahash_insertar t d = Some t' /\ tabla_wf t' /\ tabla_room t' (k - 1) /\
    items t' ≡ₚ copia d :: filter (fun b => tkey b ≠ tkey d) (items t).
Proof.
  intros Hwf (Hk & Hc & Hr) Hk1.
  destruct (tablahash_insertar_spec t d Hwf Hc) as (t' & Hins & Hwf' & Hit & Hcap).
  exists t'. split_and!; [done|done| |done].
  assert (Hn : numElems t' <= numElems t + 1).
  { rewrite (wf_num _ Hwf'), (wf_num _ Hwf), Hit. simpl.
    pose proof (length_filter (fun b => tkey b ≠ tkey d) (items t)). lia. }
  unfold tabla_room. lia.
Qed.

Lemma tabla_room_weaken t k k' : tabla_room t k -> 0 <= k' <= k -> tabla_room t k'.
Proof. unfold tabla_room. lia. Qed.

Lemma tabla_room_shrink t t' k k' :
  tabla_room t k -> capacidad t' = capacidad t -> 0 <= k' -> numElems t' + k' <= numElems t + k ->
  tabla_room t' k'.
Proof. unfold tabla_room. lia. Qed.

(** *** Effect of the operations on the map *)

Lemma contenido_insert_items t t' c :
  tabla_wf t -> tabla_wf t' ->
  items t' ≡ₚ c :: filter (fun b => tkey b ≠ tkey c) (items t) ->
  contenido t' = <[tkey c := c]> (contenido t).
Proof.
  intros Hwf Hwf' Hit. apply wf_items_NoDup in Hwf, Hwf'. apply map_eq. intros k.
  destruct (decide (k = tkey c)) as [->|Hne].
  - rewrite lookup_insert_eq. apply contenido_lookup; [done|]. rewrite Hit. split; [by left|done].
  - rewrite lookup_insert_ne by done. apply option_eq. intros a.
    rewrite !contenido_lookup by done. rewrite Hit, elem_of_cons, list_elem_of_filter. clear -Hne. naive_solver.
Qed.

Lemma contenido_delete_items t t' k :
  tabla_wf t -> tabla_wf t' ->
  items t' = filter (fun b => tkey b ≠ k) (items t) ->
  contenido t' = delete k (contenido t).
Proof.
  intros Hwf Hwf' Hit. apply wf_items_NoDup in Hwf, Hwf'. apply map_eq. intros k'.
  apply option_eq. intros a. rewrite lookup_delete_Some, !contenido_lookup by done.
  rewrite Hit, list_elem_of_filter. clear. naive_solver.
Qed.

Lemma contenido_room_insertar t d k :
  tabla_wf t -> tabla_room t k -> 1 <= k ->
  exists t', tablahash_insertar t d = Some t' /\ tabla_wf t' /\ tabla_room t' (k - 1) /\
    contenido t' = <[tkey d := copia d]> (contenido t).
Proof.
  intros Hwf Hr Hk. destruct (tabla_room_insertar t d k Hwf Hr Hk) as (t' & -> & Hwf' & Hr' & Hit).
  exists t'. split_and!; [done|done|done|]. rewrite <- (copia_key d).
  apply contenido_insert_items; [done|done|]. by rewrite copia_key.
Qed.

Lemma contenido_eliminar t d :
  tabla_wf t ->
  exists t', tablahash_eliminar t d = Some t' /\ tabla_wf t' /\ capacidad t' = capacidad t /\
    numElems t' <= numElems t /\ contenido t' = delete (tkey d) (contenido t).
Proof.
  intros Hwf. destruct (tablahash_eliminar_spec t d Hwf) as (t' & -> & Hwf' & Hc & Hit).
  exists t'. split_and!; [done|done|done| |by apply contenido_delete_items].
  rewrite (wf_num _ Hwf), (wf_num _ Hwf'), Hit.
  pose proof (length_filter (fun b => tkey b ≠ tkey d) (items t)). lia.
Qed.

(** Removing a list of elements. *)
Lemma eliminar_all t (ds : list A) :
  tabla_wf t ->
  exists t', foldM (fun t d => tablahash_eliminar t d) t ds = Some t' /\ tabla_wf t' /\
    capacidad t' = capacidad t /\ numElems t' <= numElems t /\ items t' `sublist_of` items t /\
    forall k, contenido t' !! k = if decide (k ∈ tkey <$> ds) then None else contenido t !! k.
Proof.
  intros Hwf.
  destruct (foldM_inv (fun t d => tablahash_eliminar t d)
    (fun pre t' => tabla_wf t' /\ capacidad t' = capacidad t /\ numElems t' <= numElems t /\
       items t' `sublist_of` items t /\
       forall k, contenido t' !! k = if decide (k ∈ tkey <$> pre) then None else contenido t !! k)
    ds t) as (t' & Hf & Hinv); [|intros pre d post t1 _ (Hw & Hc & Hn & Hs & Hm)|by exists t'].
  - split_and!; try done.
  - destruct (tablahash_eliminar_spec t1 d Hw) as (t2 & Hd & Hw2 & Hc2 & Hit2).
    exists t2. split_and!; [done|done|by rewrite Hc2| | |].
    + rewrite (wf_num _ Hw2), Hit2. rewrite (wf_num _ Hw) in Hn.
      pose proof (length_filter (fun b => tkey b ≠ tkey d) (items t1)). lia.
    + etrans; [|done]. rewrite Hit2. apply sublist_filter.
    + intros k. rewrite (contenido_delete_items t1 t2 (tkey d) Hw Hw2 Hit2), fmap_app. simpl.
      destruct (decide (k = tkey d)) as [->|Hne].
      * rewrite lookup_delete_eq, decide_True; [done|]. apply elem_of_app. right. by left.
      * rewrite lookup_delete_ne, Hm by done. apply decide_ext. rewrite elem_of_app, list_elem_of_singleton. naive_solver.
Qed.

Lemma items_contenido t : tabla_wf t -> items t ≡ₚ snd <$> map_to_list (contenido t).
Proof.
  intros Hwf. unfold contenido. rewrite map_to_list_to_map.
  - rewrite <- list_fmap_compose. unfold compose; simpl. by rewrite list_fmap_id.
  - rewrite <- list_fmap_compose. by apply wf_items_NoDup.
Qed.
End Spec.

#[export] Hint Resolve wf_items_NoDup : tabla.

(** ** The refinement theorems *)

Section Refinement.
Context {A K : Type} {ops : TablaOps A} `{Countable K} {HK : HashKey A K}.
Implicit Types (t : TablaHash A) (d : A).

(** C27: [tablahash_insertar] terminates without out-of-bounds access on every
    well-formed table whose capacity can still double, keeps the representation
    invariant through any resizing, and is map insertion: the new element
    replaces the one of the same key and every other key is untouched. *)
Theorem insertar_refines t d :
  tabla_wf t -> capacidad t <= 2 ^ 30 ->
  exists t', tablahash_insertar t d = Some t' /\ tabla_wf t' /\
    contenido t' = <[tkey d := copia d]> (contenido t).
Proof.
  intros Hwf Hc. destruct (tablahash_insertar_spec t d Hwf Hc) as (t' & -> & Hwf' & Hit & _).
  exists t'. split_and!; [done|done|]. rewrite <- (copia_key d).
  apply contenido_insert_items; [done|done|]. by rewrite copia_key.
Qed.

(** C36: [tablahash_buscar] is map lookup: it finds exactly the stored element of
    the searched key, past tombstones and wrapped clusters, and null otherwise. *)
Theorem buscar_refines t d :
  tabla_wf t -> tablahash_buscar t d = Some (contenido t !! tkey d).
Proof. apply tablahash_buscar_contenido. Qed.

(** C28: [tablahash_eliminar] is map deletion, keeps the invariant (its tombstone
    breaks no probe path) and the counter of elements. *)
Theorem eliminar_refines t d :
  tabla_wf t ->
  exists t', tablahash_eliminar t d = Some t' /\ tabla_wf t' /\
    contenido t' = delete (tkey d) (contenido t) /\
    numElems t' = Z.of_nat (size (contenido t')).
Proof.
  intros Hwf. destruct (contenido_eliminar t d Hwf) as (t' & -> & Hwf' & _ & _ & Hc).
  exists t'. split_and!; [done|done|done|].
  rewrite (wf_num _ Hwf'), (items_contenido _ Hwf'), length_fmap, length_map_to_list. done.
Qed.

(** Also: a traversal with [tablahash_visitar_extra] calls the visitor once on every
    element of the map and on nothing else (tombstones and free slots are skipped). *)
Theorem visitar_refines t :
  tabla_wf t ->
  exists l, tablahash_visitar_extra t (fun a seen => seen ++ [a]) [] = Some l /\
    l ≡ₚ snd <$> map_to_list (contenido t).
Proof.
  intros Hwf. exists (items t). rewrite (wf_visitar t _ _ Hwf). split; [|by apply items_contenido].
  by rewrite foldl_snoc.
Qed.
End Refinement.

(** ** A concrete table *)

Module Ejemplo.
(** Integers stored under themselves, hashed by their low 32 bits. *)
#[export] Instance Z_ops : TablaOps Z := {
  copia z := z;
  comp a b := if a =? b then 0 else 1;
  hash z := wrap32 z
}.

#[export] Instance Z_key : HashKey Z Z.
Proof.
  refine {| tkey z := z |}.
  - intros a b; simpl. destruct (Z.eqb_spec a b); naive_solver.
  - by intros a b ->.
  - intros a. apply wrap32_range.
  - done.
Defined.

(** Capacity 3: the home slots of 0, 3 and 6 collide, and the third insertion
    resizes the table. *)
Definition t0 : TablaHash Z := tablahash_crear 3.

Definition t3 : TablaHash Z :=
  Tabla [Casilla (Some 0) 0; Casilla (Some 6) 0; Casilla None 0; Casilla (Some 3) 0;
         Casilla None 0; Casilla None 0] 3 6.

Lemma t3_built : foldM tablahash_insertar t0 [0; 3; 6] = Some t3.
Proof. reflexivity. Qed.

Lemma t3_wf : tabla_wf t3.
Proof.
  pose proof (proj1 (tabla_vacia_wf 3 ltac:(lia)) : tabla_wf t0) as Hwf.
  destruct (tablahash_insertar_spec t0 0 Hwf ltac:(vm_compute; discriminate)) as (u & Hu & Hwu & _).
  vm_compute in Hu. injection Hu as <-.
  destruct (tablahash_insertar_spec _ 3 Hwu ltac:(vm_compute; discriminate)) as (v & Hv & Hwv & _).
  vm_compute in Hv. injection Hv as <-.
  destruct (tablahash_insertar_spec _ 6 Hwv ltac:(vm_compute; discriminate)) as (w & Hw & Hww & _).
  vm_compute in Hw. injection Hw as <-. exact Hww.
Qed.

Lemma insertar_refines_witness :
  exists t', tablahash_insertar t3 12 = Some t' /\ tabla_wf t' /\
    contenido t' = <[12 := 12]> (contenido t3).
Proof. exact (insertar_refines (K:=Z) t3 12 t3_wf ltac:(vm_compute; discriminate)). Defined.

Lemma buscar_refines_witness : tablahash_buscar t3 6 = Some (contenido t3 !! 6).
Proof. exact (buscar_refines (K:=Z) t3 6 t3_wf). Defined.

Lemma eliminar_refines_witness :
  exists t', tablahash_eliminar t3 0 = Some t' /\ tabla_wf t' /\
    contenido t' = delete 0 (contenido t3) /\
    numElems t' = Z.of_nat (size (contenido t')).
Proof. exact (eliminar_refines (K:=Z) t3 0 t3_wf). Defined.

Lemma visitar_refines_witness :
  exists l, tablahash_visitar_extra t3 (fun a seen => seen ++ [a]) [] = Some l /\
    l ≡ₚ snd <$> map_to_list (contenido t3).
Proof. exact (visitar_refines (K:=Z) t3 t3_wf). Defined.
End Ejemplo.
