(* ===== verification/CString.v ===== *)
(** * CString: the C text routines the agent uses

    Null-terminated strings are [string]s.  [strtok] and [strtok_r] with a single
    delimiter, [strncmp], [atoi], and interpreters of the [scanf] and [printf]
    format strings for the conversions that occur in the sources: the handlers
    below pass the very format strings of the C code.

    Numeric conversions follow glibc on a 64-bit platform: [%u] reads an
    optionally signed decimal with [strtoul] (saturating at 2^64 - 1) and stores
    its low 32 bits, [atoi] is [strtol] converted to [int]. *)

From S2P Require Import Prelude.
From Stdlib Require Import Ascii.
Local Open Scope Z_scope.

#[global] Arguments String.append !_ _ : simpl nomatch.

(** ** Characters *)

Definition is_digit (c : ascii) : bool :=
  (48 <=? Z.of_nat (nat_of_ascii c)) && (Z.of_nat (nat_of_ascii c) <=? 57).

Definition digit_val (c : ascii) : Z := Z.of_nat (nat_of_ascii c) - 48.

(** [isspace] in the C locale. *)
Definition is_space (c : ascii) : bool :=
  let n := Z.of_nat (nat_of_ascii c) in (n =? 32) || ((9 <=? n) && (n <=? 13)).

Definition ch_nl : ascii := ascii_of_nat 10.
Definition str_nl : string := String ch_nl EmptyString.

(** ** Comparison and tokens *)

Definition strcmp_eq (s1 s2 : string) : bool := String.eqb s1 s2.

(** [strncmp(s1, s2, n) == 0] *)
Fixpoint strncmp_eq (s1 s2 : string) (n : nat) : bool :=
  match n, s1, s2 with
  | O, _, _ => true
  | S _, EmptyString, EmptyString => true
  | S n', String a s1', String b s2' => Ascii.eqb a b && strncmp_eq s1' s2' n'
  | S _, _, _ => false
  end.

(** The successive results of [strtok] on one delimiter: maximal runs without it. *)
Fixpoint strtok_from (delim : ascii) (cur : string) (s : string) : list string :=
  match s with
  | EmptyString => match cur with EmptyString => [] | _ => [cur] end
  | String c r =>
      if Ascii.eqb c delim then
        match cur with EmptyString => [] | _ => [cur] end ++ strtok_from delim EmptyString r
      else strtok_from delim (cur +:+ String c EmptyString) r
  end.

Definition strtok_all (delim : ascii) (s : string) : list string := strtok_from delim EmptyString s.

(** [s + n], for [n] at most the length. *)
Fixpoint str_drop (n : nat) (s : string) : string :=
  match n, s with
  | S n', String _ r => str_drop n' r
  | _, _ => s
  end.

(** The first [n] characters. *)
Fixpoint str_take (n : nat) (s : string) : string :=
  match n, s with
  | S n', String c r => String c (str_take n' r)
  | _, _ => EmptyString
  end.

(** ** Reading numbers *)

Fixpoint skip_space (s : string) : string :=
  match s with
  | String c r => if is_space c then skip_space r else s
  | EmptyString => EmptyString
  end.

(** The value of the leading digits, added to [acc], and the rest. *)
Fixpoint read_digits (acc : Z) (s : string) : Z * string :=
  match s with
  | String c r => if is_digit c then read_digits (10 * acc + digit_val c) r else (acc, s)
  | EmptyString => (acc, EmptyString)
  end.

Definition starts_digit (s : string) : bool :=
  match s with String c _ => is_digit c | EmptyString => false end.

Definition read_sign (s : string) : bool * string :=
  match s with
  | String c r =>
      if Ascii.eqb c "-" then (true, r) else if Ascii.eqb c "+" then (false, r) else (false, s)
  | EmptyString => (false, s)
  end.

(** [strtoul] stored in an [unsigned]. *)
Definition u32_of_strtoul (neg : bool) (v : Z) : Z :=
  if 2 ^ 64 <=? v then wrap32 (2 ^ 64 - 1) else wrap32 (if neg then - v else v).

(** The conversion [%u] after white space: [None] when no digit follows. *)
Definition read_unsigned (s : string) : option (Z * string) :=
  let '(neg, s1) := read_sign s in
  if starts_digit s1 then
    let '(v, r) := read_digits 0 s1 in Some (u32_of_strtoul neg v, r)
  else None.

(** [(unsigned) atoi(s)] *)
Definition atoi_u (s : string) : Z :=
  let '(neg, s1) := read_sign (skip_space s) in
  let '(v, _) := read_digits 0 s1 in
  wrap32 (if neg then Z.max (- 2 ^ 63) (- v) else Z.min (2 ^ 63 - 1) v).

(** ** [sscanf] *)

Inductive directive :=
  | DLit (c : ascii)                            (* an ordinary character *)
  | DSpace                                      (* white space: skip any *)
  | DU                                          (* %u *)
  | DStr (width : option nat)                   (* %s, %9s *)
  | DSet (width : option nat) (stop : ascii).   (* %15[^:] *)

Inductive fmt_state :=
  | FNormal
  | FPct (width : option nat)
  | FSetOpen (width : option nat)
  | FSetNeg (width : option nat)
  | FSetChar (width : option nat) (stop : ascii).

Definition push_digit (width : option nat) (c : ascii) : option nat :=
  Some (10 * default 0%nat width + Z.to_nat (digit_val c))%nat.

Fixpoint parse_fmt (st : fmt_state) (f : string) : list directive :=
  match f with
  | EmptyString => []
  | String c r =>
      match st with
      | FNormal =>
          if Ascii.eqb c "%" then parse_fmt (FPct None) r
          else if is_space c then DSpace :: parse_fmt FNormal r
          else DLit c :: parse_fmt FNormal r
      | FPct w =>
          if is_digit c then parse_fmt (FPct (push_digit w c)) r
          else if Ascii.eqb c "u" then DU :: parse_fmt FNormal r
          else if Ascii.eqb c "s" then DStr w :: parse_fmt FNormal r
          else if Ascii.eqb c "[" then parse_fmt (FSetOpen w) r
          else []
      | FSetOpen w => if Ascii.eqb c "^" then parse_fmt (FSetNeg w) r else []
      | FSetNeg w => parse_fmt (FSetChar w c) r
      | FSetChar w stop => if Ascii.eqb c "]" then DSet w stop :: parse_fmt FNormal r else []
      end
  end.

(** The longest prefix of at most [width] characters that satisfy [ok]. *)
Fixpoint span (ok : ascii -> bool) (width : option nat) (s : string) : string * string :=
  match s with
  | EmptyString => (EmptyString, EmptyString)
  | String c r =>
      match width with
      | Some O => (EmptyString, s)
      | _ =>
          if ok c then
            let '(tok, rest) := span ok (pred <$> width) r in (String c tok, rest)
          else (EmptyString, s)
      end
  end.

Inductive scanned := VU (z : Z) | VS (s : string).

(** The assigned values, in order; its length is the value [sscanf] returns (0
    standing also for EOF, which the callers do not tell apart). *)
Fixpoint scan (ds : list directive) (s : string) : list scanned :=
  match ds with
  | [] => []
  | DLit c :: ds' =>
      match s with
      | String c' r => if Ascii.eqb c c' then scan ds' r else []
      | EmptyString => []
      end
  | DSpace :: ds' => scan ds' (skip_space s)
  | DU :: ds' =>
      match read_unsigned (skip_space s) with
      | Some (v, r) => VU v :: scan ds' r
      | None => []
      end
  | DStr w :: ds' =>
      let '(tok, r) := span (fun c => negb (is_space c)) w (skip_space s) in
      match tok with EmptyString => [] | _ => VS tok :: scan ds' r end
  | DSet w stop :: ds' =>
      let '(tok, r) := span (fun c => negb (Ascii.eqb c stop)) w s in
      match tok with EmptyString => [] | _ => VS tok :: scan ds' r end
  end.

Definition sscanf (buffer fmt : string) : list scanned := scan (parse_fmt FNormal fmt) buffer.

(** ** [snprintf] *)

Definition digit_char (z : Z) : ascii := ascii_of_nat (Z.to_nat (48 + z)).

(** Decimal digits of a non-negative number, prepended to [acc]; 20 digits are
    enough for 64 bits. *)
Fixpoint digits_of (fuel : nat) (z : Z) (acc : string) : string :=
  match fuel with
  | O => acc
  | S fuel' =>
      let acc' := String (digit_char (z `mod` 10)) acc in
      if z / 10 =? 0 then acc' else digits_of fuel' (z / 10) acc'
  end.

Definition utoa (z : Z) : string := digits_of 20 z EmptyString.
Definition itoa (z : Z) : string := if z <? 0 then String "-" (utoa (- z)) else utoa z.

Inductive printf_arg := PU (z : Z) | PD (z : Z) | PS (s : string).

Definition print_arg (conv : ascii) (a : printf_arg) : string :=
  match a with
  | PU z => if Ascii.eqb conv "u" then utoa z else EmptyString
  | PD z => if Ascii.eqb conv "d" then itoa z else EmptyString
  | PS s => if Ascii.eqb conv "s" then s else EmptyString
  end.

Fixpoint format (pct : bool) (f : string) (args : list printf_arg) : string :=
  match f with
  | EmptyString => EmptyString
  | String c r =>
      if pct then
        match args with
        | a :: args' => print_arg c a +:+ format false r args'
        | [] => EmptyString
        end
      else if Ascii.eqb c "%" then format true r args
      else String c (format false r args)
  end.

(** The contents of the buffer after [snprintf(buf, size, fmt, args)], and the
    length [snprintf] returns (that of the untruncated text). *)
Definition snprintf (size : nat) (fmt : string) (args : list printf_arg) : string :=
  str_take (size - 1) (format false fmt args).

Definition snprintf_len (fmt : string) (args : list printf_arg) : Z :=
  Z.of_nat (String.length (format false fmt args)).

(** ** Lemmas: printing and reading back *)

Lemma digit_char_is_digit z : 0 <= z < 10 -> is_digit (digit_char z) = true.
Proof.
  intros Hz. unfold is_digit, digit_char. rewrite nat_ascii_embedding by lia.
  rewrite Z2Nat.id by lia. apply andb_true_iff. lia.
Qed.

Lemma digit_char_val z : 0 <= z < 10 -> digit_val (digit_char z) = z.
Proof. intros Hz. unfold digit_val, digit_char. rewrite nat_ascii_embedding by lia. lia. Qed.

Lemma is_digit_not_space c : is_digit c = true -> is_space c = false.
Proof.
  unfold is_digit, is_space. rewrite andb_true_iff, orb_false_iff, andb_false_iff. lia.
Qed.

Lemma str_app_assoc (s1 s2 s3 : string) : (s1 +:+ s2) +:+ s3 = s1 +:+ s2 +:+ s3.
Proof. induction s1 as [|c s1 IH]; simpl; [done|]. by rewrite IH. Qed.

Lemma str_app_nil_r (s : string) : s +:+ EmptyString = s.
Proof. induction s as [|c s IH]; simpl; [done|]. by rewrite IH. Qed.

Lemma str_length_app (s1 s2 : string) :
  String.length (s1 +:+ s2) = (String.length s1 + String.length s2)%nat.
Proof. induction s1 as [|c s1 IH]; simpl; [done|]. by rewrite IH. Qed.

Lemma digits_of_app fuel z acc r : digits_of fuel z acc +:+ r = digits_of fuel z (acc +:+ r).
Proof.
  revert z acc. induction fuel as [|fuel IH]; intros z acc; simpl; [done|].
  destruct (z / 10 =? 0); [done|]. by rewrite IH.
Qed.

(** The first character of the digits of a number is a digit. *)
Lemma digits_of_head fuel z acc :
  exists c r, digits_of (S fuel) z acc = String c r /\ is_digit c = true.
Proof.
  revert z acc. induction fuel as [|fuel IH]; intros z acc.
  - pose proof (Z.mod_pos_bound z 10). simpl. destruct (z / 10 =? 0).
    all: eexists _, _; split; [done|apply digit_char_is_digit; lia].
  - pose proof (Z.mod_pos_bound z 10). simpl. destruct (z / 10 =? 0).
    + eexists _, _. split; [done|]. apply digit_char_is_digit. lia.
    + destruct (IH (z / 10) (String (digit_char (z `mod` 10)) acc)) as (c & r & Heq & Hc).
      simpl in Heq. rewrite Heq. eauto.
Qed.

(** Reading the digits of [z] accumulates [z]. *)
Lemma read_digits_digits_of fuel z acc :
  0 <= z < 10 ^ Z.of_nat fuel -> (fuel ≠ 0)%nat ->
  read_digits 0 (digits_of fuel z acc) = read_digits z acc.
Proof.
  revert z acc. induction fuel as [|fuel IH]; intros z acc Hz Hf; [done|].
  pose proof (Z.mod_pos_bound z 10). pose proof (Z.div_mod z 10).
  assert (Hstep : forall v, read_digits v (String (digit_char (z `mod` 10)) acc)
                           = read_digits (10 * v + z `mod` 10) acc).
  { intros v. simpl. rewrite digit_char_is_digit, digit_char_val by lia. done. }
  cbn [digits_of]. destruct (Z.eqb_spec (z / 10) 0) as [Hq|Hq].
  - rewrite Hstep. f_equal. lia.
  - destruct fuel as [|fuel].
    { change (10 ^ Z.of_nat 1) with 10 in Hz. assert (z / 10 = 0) by (apply Z.div_small; lia). done. }
    rewrite IH; [rewrite Hstep; f_equal; lia| |done].
    split; [apply Z.div_pos; lia|]. apply Z.div_lt_upper_bound; [lia|].
    replace (Z.of_nat (S (S fuel))) with (Z.of_nat (S fuel) + 1) in Hz by lia.
    rewrite Z.pow_add_r in Hz by lia. lia.
Qed.

Lemma read_digits_stop v r : starts_digit r = false -> read_digits v r = (v, r).
Proof. destruct r as [|c r]; simpl; [done|]. by intros ->. Qed.

Lemma u32_of_strtoul_small z : in_u32 z -> u32_of_strtoul false z = z.
Proof.
  intros Hz. unfold u32_of_strtoul. unfold in_u32, UINT_RANGE in *.
  destruct (Z.leb_spec (2 ^ 64) z); [lia|]. by apply wrap32_small.
Qed.

(** [%u] reads back what [%u] printed. *)
Lemma read_unsigned_utoa z r :
  in_u32 z -> starts_digit r = false -> read_unsigned (utoa z +:+ r) = Some (z, r).
Proof.
  intros Hz Hr. unfold read_unsigned, utoa. rewrite digits_of_app. simpl (EmptyString +:+ r).
  destruct (digits_of_head 19 z r) as (c & r' & Heq & Hc).
  assert (Hsign : read_sign (digits_of 20 z r) = (false, digits_of 20 z r)).
  { rewrite Heq. unfold read_sign.
    destruct (Ascii.eqb_spec c "-") as [->|]; [done|]. by destruct (Ascii.eqb_spec c "+") as [->|]. }
  rewrite Hsign. rewrite Heq at 1. cbn [starts_digit]. rewrite Hc.
  rewrite read_digits_digits_of by (unfold in_u32, UINT_RANGE in *; lia).
  rewrite read_digits_stop by done. by rewrite u32_of_strtoul_small.
Qed.

Lemma skip_space_utoa z r : skip_space (utoa z +:+ r) = utoa z +:+ r.
Proof.
  unfold utoa. rewrite digits_of_app. destruct (digits_of_head 19 z (EmptyString +:+ r)) as (c & r' & Heq & Hc).
  rewrite Heq. simpl. by rewrite is_digit_not_space.
Qed.

Lemma digits_of_length fuel z acc n :
  0 <= z < 10 ^ Z.of_nat n -> (n ≠ 0)%nat ->
  (String.length (digits_of fuel z acc) <= n + String.length acc)%nat.
Proof.
  revert z acc n. induction fuel as [|fuel IH]; intros z acc n Hz Hn; simpl; [lia|].
  destruct (Z.eqb_spec (z / 10) 0) as [Hq|Hq]; [simpl; lia|].
  destruct n as [|[|n]]; [done| |].
  - change (10 ^ Z.of_nat 1) with 10 in Hz. assert (z / 10 = 0) by (apply Z.div_small; lia). done.
  - pose proof (IH (z / 10) (String (digit_char (z `mod` 10)) acc) (S n)) as Hlen.
    simpl in Hlen. etrans; [apply Hlen; [|done]|lia].
    split; [apply Z.div_pos; lia|]. apply Z.div_lt_upper_bound; [lia|].
    replace (Z.of_nat (S (S n))) with (Z.of_nat (S n) + 1) in Hz by lia.
    rewrite Z.pow_add_r in Hz by lia. lia.
Qed.

(** An [unsigned] prints in at most ten characters. *)
Lemma utoa_length z : in_u32 z -> (String.length (utoa z) <= 10)%nat.
Proof.
  intros Hz. unfold utoa. etrans; [apply (digits_of_length _ _ _ 10)|simpl; lia].
  - unfold in_u32, UINT_RANGE in Hz. lia.
  - done.
Qed.

Lemma str_take_all n s : (String.length s <= n)%nat -> str_take n s = s.
Proof.
  revert n. induction s as [|c s IH]; intros n Hn; destruct n; simpl in *; try done; [lia|].
  rewrite IH; [done|lia].
Qed.

Lemma str_take_app s1 s2 : str_take (String.length s1) (s1 +:+ s2) = s1.
Proof. induction s1 as [|c s1 IH]; simpl; [by destruct s2|]. by rewrite IH. Qed.

Lemma str_take_app_le n s1 s2 : (n <= String.length s1)%nat -> str_take n (s1 +:+ s2) = str_take n s1.
Proof.
  revert n. induction s1 as [|c s1 IH]; intros [|n] Hn; simpl in *; try done; try lia; try (by destruct s2).
  rewrite IH; [done|lia].
Qed.

Lemma str_take_length n s : String.length (str_take n s) = (n `min` String.length s)%nat.
Proof. revert n. induction s as [|c s IH]; intros [|n]; simpl; try done. by rewrite IH. Qed.

Lemma str_take_take n m s : (n <= m)%nat -> str_take n (str_take m s) = str_take n s.
Proof.
  revert n m. induction s as [|c s IH]; intros [|n] [|m] Hn; simpl; try done; [lia|].
  rewrite IH; [done|lia].
Qed.

(** ** Lemmas: tokens *)

Fixpoint no_char (d : ascii) (s : string) : bool :=
  match s with
  | EmptyString => true
  | String c r => negb (Ascii.eqb c d) && no_char d r
  end.

Lemma no_char_app d s1 s2 : no_char d (s1 +:+ s2) = no_char d s1 && no_char d s2.
Proof. induction s1 as [|c s1 IH]; simpl; [done|]. rewrite IH. by rewrite andb_assoc. Qed.

Lemma no_char_digits_of d fuel z acc :
  is_digit d = false -> no_char d (digits_of fuel z acc) = no_char d acc.
Proof.
  intros Hd. revert z acc. induction fuel as [|fuel IH]; intros z acc; simpl; [done|].
  pose proof (Z.mod_pos_bound z 10) as Hm.
  assert (Hc : Ascii.eqb (digit_char (z `mod` 10)) d = false).
  { apply Ascii.eqb_neq. intros <-. rewrite digit_char_is_digit in Hd; [done|lia]. }
  destruct (z / 10 =? 0); [|rewrite IH]; simpl; by rewrite Hc.
Qed.

Lemma no_char_utoa d z : is_digit d = false -> no_char d (utoa z) = true.
Proof. intros Hd. unfold utoa. by rewrite no_char_digits_of. Qed.

Lemma strtok_from_run d cur s r :
  no_char d s = true -> strtok_from d cur (s +:+ r) = strtok_from d (cur +:+ s) r.
Proof.
  revert cur. induction s as [|c s IH]; intros cur; simpl; [by rewrite str_app_nil_r|].
  intros [Hc Hs]%andb_true_iff. apply negb_true_iff in Hc. rewrite Hc, IH by done.
  by rewrite str_app_assoc.
Qed.

(** The first line of a text is its first token. *)
Lemma strtok_all_cons d s r :
  s ≠ EmptyString -> no_char d s = true -> strtok_all d (s +:+ String d r) = s :: strtok_all d r.
Proof.
  intros Hne Hs. unfold strtok_all. rewrite strtok_from_run by done. simpl.
  rewrite Ascii.eqb_refl. by destruct s.
Qed.

(** A message terminated by its only delimiter is its only token. *)
Lemma strtok_all_line d s :
  s ≠ EmptyString -> no_char d s = true -> strtok_all d (s +:+ String d EmptyString) = [s].
Proof. apply (strtok_all_cons d s EmptyString). Qed.

Lemma str_take_drop n s : str_take n s +:+ str_drop n s = s.
Proof. revert n. induction s as [|c s IH]; intros [|n]; simpl; try done. by rewrite IH. Qed.

Lemma str_drop_drop n m s : str_drop m (str_drop n s) = str_drop (n + m) s.
Proof. revert n. induction s as [|c s IH]; intros [|n]; [done|by destruct m|done|apply IH]. Qed.

Lemma str_drop_length n s : String.length (str_drop n s) = (String.length s - n)%nat.
Proof. revert n. induction s as [|c s IH]; intros [|n]; try done. apply IH. Qed.

Lemma str_drop_all n s : (String.length s <= n)%nat -> str_drop n s = EmptyString.
Proof. revert n. induction s as [|c s IH]; intros [|n] Hn; try done; simpl in *; [lia|apply IH; lia]. Qed.

(** There are at most as many tokens as characters. *)
Lemma strtok_from_length d cur s :
  (length (strtok_from d cur s) <= String.length s + (if decide (cur = EmptyString) then 0 else 1))%nat.
Proof.
  revert cur. induction s as [|c s IH]; intros cur; simpl; [by destruct cur|].
  destruct (Ascii.eqb c d).
  - rewrite length_app. specialize (IH EmptyString). simpl in IH. destruct cur; simpl; lia.
  - etrans; [apply IH|]. destruct (decide (cur = EmptyString)), (decide (_ = _)); lia.
Qed.

Lemma strtok_all_length d s : (length (strtok_all d s) <= String.length s)%nat.
Proof. etrans; [apply strtok_from_length|]. rewrite decide_True by done. lia. Qed.
