(* ===== verification/CommonTypes.v ===== *)
(** * CommonTypes: [src/c_agent/include/resources/common_types.h]

    The resource types, their codes (the indices of the per-resource arrays) and
    the names they have in the messages. *)

From S2P Require Import Prelude CString.
Local Open Scope Z_scope.

Definition RES_NUM : nat := 3.

Inductive resource_t := CPU | GPU | RAM | INVALID_RES_TYPE.

#[export] Instance resource_t_eq_dec : EqDecision resource_t.
Proof. solve_decision. Defined.

(** The value of the enumerator. *)
Definition res_code (t : resource_t) : nat :=
  match t with CPU => 0 | GPU => 1 | RAM => 2 | INVALID_RES_TYPE => 3 end.

Definition res_of_code (n : nat) : resource_t :=
  match n with 0%nat => CPU | 1%nat => GPU | 2%nat => RAM | _ => INVALID_RES_TYPE end.

#[export] Instance resource_t_countable : Countable resource_t.
Proof.
  refine {| encode t := encode (res_code t); decode p := res_of_code <$> decode p |}.
  intros t. rewrite decode_encode. by destruct t.
Defined.

(** [for (resource_t type = 0; type < RES_NUM; type++)] *)
Definition resource_types : list resource_t := res_of_code <$> seq 0 RES_NUM.

#[global] Arguments resource_types : simpl never.

Definition valid_res (t : resource_t) : Prop := t ≠ INVALID_RES_TYPE.

#[export] Instance valid_res_dec t : Decision (valid_res t).
Proof. unfold valid_res. apply _. Defined.

(** [(type==CPU)?"cpu":(type==RAM)?"mem":"gpu"], the name used in every RESERVE
    and RELEASE message. *)
Definition res_name (t : resource_t) : string :=
  if decide (t = CPU) then "cpu" else if decide (t = RAM) then "mem" else "gpu".

Lemma res_code_inj t u : res_code t = res_code u -> t = u.
Proof. by destruct t, u. Qed.

Lemma valid_res_code t : valid_res t <-> (res_code t < RES_NUM)%nat.
Proof. unfold valid_res, RES_NUM. destruct t; simpl; split; try done; lia. Qed.

Lemma valid_res_types t : valid_res t <-> t ∈ resource_types.
Proof.
  rewrite <- (bool_decide_spec (valid_res t)), <- (bool_decide_spec (t ∈ resource_types)).
  by destruct t.
Qed.

Lemma resource_types_valid : Forall valid_res resource_types.
Proof. by repeat constructor. Qed.
