(* ===== verification/Erlang.v ===== *)
(** * Erlang: what the scheduler uses of its language and library

    Strings are lists of characters, here [string]; integers are unbounded.  An
    exception is [None].  [rand:uniform] and [erlang:unique_integer] draw from two
    sequences, arguments of the model, and a function that draws is a [gen]: it takes
    the number of draws already made. *)

From Stdlib Require Import Ascii.
From stdpp Require Import lexico orders.
From S2P Require Import Prelude CString.
Local Open Scope Z_scope.

(** ** Text *)

(** The characters below 256 that [string:trim] removes. *)
Definition erl_space (c : ascii) : bool :=
  let n := Z.of_nat (nat_of_ascii c) in (9 <=? n) && (n <=? 13) || (n =? 32) || (n =? 133).

Fixpoint trim_left (s : string) : string :=
  match s with
  | String c r => if erl_space c then trim_left r else s
  | EmptyString => EmptyString
  end.

Fixpoint trim_right (s : string) : string :=
  match s with
  | String c r =>
      match trim_right r with
      | EmptyString => if erl_space c then EmptyString else String c EmptyString
      | r' => String c r'
      end
  | EmptyString => EmptyString
  end.

(** [string:trim(S)] *)
Definition trim (s : string) : string := trim_right (trim_left s).

(** [string:split(S, [D], all)] *)
Fixpoint split_all (d : ascii) (s : string) : list string :=
  match s with
  | EmptyString => [EmptyString]
  | String c r =>
      if Ascii.eqb c d then EmptyString :: split_all d r
      else match split_all d r with
           | w :: ws => String c w :: ws
           | [] => [String c EmptyString]
           end
  end.

(** [<<Prefix, Rest/binary>> = S]: the rest. *)
Fixpoint after_prefix (prefix s : string) : option string :=
  match prefix, s with
  | EmptyString, _ => Some s
  | String a p, String b r => if Ascii.eqb a b then after_prefix p r else None
  | String _ _, EmptyString => None
  end.

Definition list_to_integer (s : string) : option Z :=
  let '(neg, r) := read_sign s in
  if starts_digit r then
    match read_digits 0 r with
    | (v, EmptyString) => Some (if neg then - v else v)
    | _ => None
    end
  else None.

(** As many rounds as the number has bits are enough for its digits. *)
Definition integer_to_list (z : Z) : string :=
  let digits z := digits_of (S (Z.to_nat (Z.log2 z))) z EmptyString in
  if z <? 0 then String "-" (digits (- z)) else digits z.

(** ** Draws *)

Create HintDb erlang.

Definition gen (A : Type) : Type := nat -> option (A * nat).

#[export] Instance gen_ret : MRet gen := fun A x i => Some (x, i).
#[export] Instance gen_bind : MBind gen := fun A B k m i => '(x, j) ← m i; k x j.

Definition gen_lift {A} (o : option A) : gen A := fun i => x ← o; Some (x, i).

Section draws.
Context (random : nat -> Z) (unique : nat -> Z).

(** [rand:uniform(N)], an integer from 1 to [N]. *)
Definition rand_uniform (n : Z) : gen Z := fun i => if n <? 1 then None else Some (1 + random i mod n, S i).

(** [rand:uniform()]: only the order of the results matters. *)
Definition rand_float : gen Z := fun i => Some (random i, S i).

(** [erlang:unique_integer([positive])] *)
Definition unique_integer : gen Z := fun i => Some (unique i, S i).

End draws.

Lemma gen_bind_Some {A B} (m : gen A) (k : A -> gen B) i r :
  (m ≫= k) i = Some r <-> exists x j, m i = Some (x, j) /\ k x j = Some r.
Proof.
  unfold mbind, gen_bind. split.
  - intros ([x j] & Hm & Hk)%bind_Some. eauto.
  - intros (x & j & -> & Hk). done.
Qed.

(** A property of the results of a draw. *)
Definition yields {A} (m : gen A) (Q : A -> Prop) : Prop :=
  forall i, exists x j, m i = Some (x, j) /\ Q x.

Lemma yields_bind {A B} (m : gen A) (k : A -> gen B) (P : A -> Prop) (Q : B -> Prop) :
  yields m P -> (forall x, P x -> yields (k x) Q) -> yields (m ≫= k) Q.
Proof.
  intros Hm Hk i. destruct (Hm i) as (x & j & E & HP). destruct (Hk x HP j) as (y & j' & E' & HQ).
  exists y, j'. split; [|done]. apply gen_bind_Some. eauto.
Qed.

Lemma yields_ret {A} (x : A) (Q : A -> Prop) : Q x -> yields (mret x) Q.
Proof. intros HQ i. by exists x, i. Qed.

Lemma yields_mono {A} (m : gen A) (P Q : A -> Prop) : yields m P -> (forall x, P x -> Q x) -> yields m Q.
Proof. intros Hm HPQ i. destruct (Hm i) as (x & j & E & HP). exists x, j. auto. Qed.

Lemma yields_mapM {A B} (f : A -> gen B) (P : A -> B -> Prop) l :
  Forall (fun x => yields (f x) (P x)) l -> yields (mapM f l) (Forall2 P l).
Proof.
  induction 1 as [|x l Hx _ IH]; simpl; [by apply yields_ret|].
  eapply yields_bind; [exact Hx|]. intros y Hy. eapply yields_bind; [exact IH|]. intros ys Hys.
  apply yields_ret. by constructor.
Qed.

Lemma yields_uniform random n : 1 <= n -> yields (rand_uniform random n) (fun x => 1 <= x <= n).
Proof.
  intros Hn i. unfold rand_uniform. destruct (Z.ltb_spec n 1); [lia|]. eexists _, _. split; [done|].
  pose proof (Z.mod_pos_bound (random i) n). lia.
Qed.

(** Draws are counted up. *)
Definition advances {A} (m : gen A) : Prop := forall i x j, m i = Some (x, j) -> (i <= j)%nat.

Lemma advances_bind {A B} (m : gen A) (k : A -> gen B) :
  advances m -> (forall x, advances (k x)) -> advances (m ≫= k).
Proof. intros Hm Hk i y j' (x & j & E & E')%gen_bind_Some. apply Hm in E. apply Hk in E'. lia. Qed.

Lemma advances_ret {A} (x : A) : advances (mret x).
Proof. intros i y j [= _ ->]. done. Qed.

Lemma advances_lift {A} (o : option A) : advances (gen_lift o).
Proof. intros i y j (x & _ & [= _ ->])%bind_Some. done. Qed.

Lemma advances_mapM {A B} (f : A -> gen B) l : (forall x, advances (f x)) -> advances (mapM f l).
Proof.
  intros Hf. induction l as [|x l IH]; simpl; [apply advances_ret|].
  apply advances_bind; [apply Hf|]. intros y. apply advances_bind; [apply IH|]. intros ys. apply advances_ret.
Qed.

Lemma advances_uniform random n : advances (rand_uniform random n).
Proof. intros i x j. unfold rand_uniform. destruct (n <? 1); [done|]. intros [= _ <-]. lia. Qed.

Lemma advances_float random : advances (rand_float random).
Proof. intros i x j [= _ <-]. lia. Qed.

#[export] Hint Resolve advances_bind advances_ret advances_lift advances_mapM advances_uniform advances_float : erlang.

(** ** Lemmas: text *)

Fixpoint no_space (s : string) : bool :=
  match s with EmptyString => true | String c r => negb (erl_space c) && no_space r end.

Lemma no_space_app s1 s2 : no_space (s1 +:+ s2) = no_space s1 && no_space s2.
Proof. induction s1 as [|c s1 IH]; simpl; [done|]. by rewrite IH, andb_assoc. Qed.

Lemma trim_right_word s r : no_space s = true -> trim_right r = EmptyString -> trim_right (s +:+ r) = s.
Proof.
  intros Hs Hr. induction s as [|c s IH]; simpl in *; [done|]. apply andb_true_iff in Hs as [Hc Hs].
  rewrite IH by done. apply negb_true_iff in Hc. rewrite Hc. by destruct s.
Qed.

(** A word and the end of its line. *)
Lemma trim_line s : no_space s = true -> trim (s +:+ str_nl) = s.
Proof.
  intros Hs. unfold trim. assert (Hl : s = EmptyString \/ trim_left (s +:+ str_nl) = s +:+ str_nl).
  { destruct s as [|c s]; [by left|right]. simpl in *. apply andb_true_iff in Hs as [Hc _].
    apply negb_true_iff in Hc. by rewrite Hc. }
  destruct Hl as [-> | ->]; [done|]. by apply trim_right_word.
Qed.

Lemma trim_word s : no_space s = true -> trim s = s.
Proof.
  intros Hs. unfold trim. assert (Hl : trim_left s = s).
  { destruct s as [|c s]; [done|]. simpl in *. apply andb_true_iff in Hs as [Hc _].
    apply negb_true_iff in Hc. by rewrite Hc. }
  rewrite Hl. rewrite <- (str_app_nil_r s) at 1. by apply trim_right_word.
Qed.

Lemma split_all_word d w : no_char d w = true -> split_all d w = [w].
Proof.
  induction w as [|c w IH]; simpl; [done|]. intros [Hc Hw]%andb_true_iff. apply negb_true_iff in Hc.
  by rewrite Hc, IH.
Qed.

Lemma split_all_cons d w r : no_char d w = true -> split_all d (w +:+ String d r) = w :: split_all d r.
Proof.
  induction w as [|c w IH]; simpl; [by rewrite Ascii.eqb_refl|]. intros [Hc Hw]%andb_true_iff.
  apply negb_true_iff in Hc. by rewrite Hc, IH.
Qed.

Lemma split_all_concat d w ws :
  Forall (fun w => no_char d w = true) (w :: ws) ->
  split_all d (String.concat (String d EmptyString) (w :: ws)) = w :: ws.
Proof.
  revert w. induction ws as [|w' ws IH]; intros w [Hw HF]%Forall_cons; [by apply split_all_word|].
  change (String.concat _ (w :: w' :: ws)) with
    (w +:+ String d (String.concat (String d EmptyString) (w' :: ws))).
  by rewrite split_all_cons, IH.
Qed.

Lemma after_prefix_app p s : after_prefix p (p +:+ s) = Some s.
Proof. induction p as [|c p IH]; simpl; [done|]. by rewrite Ascii.eqb_refl. Qed.

Lemma digit_not_space c : is_digit c = true -> erl_space c = false.
Proof.
  unfold is_digit, erl_space. rewrite andb_true_iff, !orb_false_iff, andb_false_iff. lia.
Qed.

Lemma no_space_digits fuel z acc : 0 <= z -> no_space (digits_of fuel z acc) = no_space acc.
Proof.
  revert z acc. induction fuel as [|fuel IH]; intros z acc Hz; simpl; [done|].
  pose proof (Z.mod_pos_bound z 10) as Hm.
  assert (Hc : erl_space (digit_char (z `mod` 10)) = false) by (apply digit_not_space, digit_char_is_digit; lia).
  destruct (z / 10 =? 0); [|rewrite IH by (apply Z.div_pos; lia)]; simpl; by rewrite Hc.
Qed.

Lemma no_space_utoa z : 0 <= z -> no_space (utoa z) = true.
Proof. intros Hz. unfold utoa. by rewrite no_space_digits. Qed.

(** The digits do not depend on the fuel. *)
Lemma digits_of_enough f1 f2 z acc :
  0 <= z < 10 ^ Z.of_nat f1 -> z < 10 ^ Z.of_nat f2 -> (f1 ≠ 0)%nat -> (f2 ≠ 0)%nat ->
  digits_of f1 z acc = digits_of f2 z acc.
Proof.
  revert f2 z acc. induction f1 as [|f1 IH]; intros [|f2] z acc H1 H2 N1 N2; try done. cbn [digits_of].
  destruct (Z.eqb_spec (z / 10) 0) as [|Hq]; [done|]. pose proof (Z.div_mod z 10 ltac:(lia)).
  pose proof (Z.mod_pos_bound z 10 ltac:(lia)).
  assert (Hd : forall f, z < 10 ^ Z.of_nat (S f) -> 0 <= z / 10 < 10 ^ Z.of_nat f /\ f ≠ 0%nat).
  { intros f Hf. rewrite Nat2Z.inj_succ, Z.pow_succ_r in Hf by lia. split; [split; [apply Z.div_pos; lia|apply Z.div_lt_upper_bound; lia]|].
    intros ->. change (10 ^ Z.of_nat 0) with 1 in Hf. lia. }
  destruct (Hd f1) as [? ?]; [lia|]. destruct (Hd f2) as [? ?]; [lia|]. apply IH; (done || lia).
Qed.

Lemma log2_digits z : 0 <= z -> z < 10 ^ Z.of_nat (S (Z.to_nat (Z.log2 z))).
Proof.
  intros Hz. pose proof (Z.log2_nonneg z). rewrite Nat2Z.inj_succ, Z2Nat.id by lia.
  destruct (Z.eqb_spec z 0) as [->|]; [done|]. pose proof (Z.log2_spec z ltac:(lia)).
  pose proof (Z.pow_le_mono_l 2 10 (Z.succ (Z.log2 z))). lia.
Qed.

Lemma integer_to_list_utoa z : 0 <= z < 10 ^ 20 -> integer_to_list z = utoa z.
Proof.
  intros Hz. unfold integer_to_list, utoa. destruct (Z.ltb_spec z 0); [lia|].
  apply digits_of_enough; [split; [lia|by apply log2_digits]|lia|done|done].
Qed.

Lemma integer_to_list_u32 z : in_u32 z -> integer_to_list z = utoa z.
Proof. unfold in_u32, UINT_RANGE. intros Hz. apply integer_to_list_utoa. lia. Qed.

Lemma list_to_integer_utoa z : in_u32 z -> list_to_integer (utoa z) = Some z.
Proof.
  intros Hz. unfold in_u32, UINT_RANGE in Hz. unfold list_to_integer, utoa.
  destruct (digits_of_head 19 z EmptyString) as (c & r & Heq & Hc).
  assert (Hs : read_sign (digits_of 20 z EmptyString) = (false, digits_of 20 z EmptyString)).
  { rewrite Heq. unfold read_sign. destruct (Ascii.eqb_spec c "-") as [->|]; [done|].
    by destruct (Ascii.eqb_spec c "+") as [->|]. }
  rewrite Hs. rewrite Heq at 1. cbn [starts_digit]. rewrite Hc.
  by rewrite read_digits_digits_of by (done || lia).
Qed.

(** ** Order *)

(** The comparison of strings, which are lists of characters. *)
Definition chars (s : string) : list N := N_of_ascii <$> String.list_ascii_of_string s.

#[local] Instance N_of_ascii_inj : Inj (=) (=) N_of_ascii.
Proof. intros a b Hab. by rewrite <- (ascii_N_embedding a), Hab, ascii_N_embedding. Qed.

#[export] Instance chars_inj : Inj (=) (=) chars.
Proof.
  intros s1 s2 H. apply (inj (fmap N_of_ascii)) in H.
  by rewrite <- (String.string_of_list_ascii_of_string s1), H, String.string_of_list_ascii_of_string.
Qed.
