(* ===== verification/Scheduler.v ===== *)
(** * Scheduler: [src/erlang/job_scheduler.erl], the client of an agent

    A process that asks its agent for the directory every five seconds, turns each
    answer into requests of jobs, and releases a job some time after it is granted.
    Its connection to the agent ([erlang_c_bridge.erl], see [Bridge]) is two more processes:
    the receiver forwards each line as [packet_received], the sender writes what it is
    told and reports the outcome.  The definitions follow the functions of the module,
    with the exceptions of [handle_packet] as [None]; the last part puts the processes
    together.  [inet:parse_strict_address] is an argument. *)

From Stdlib Require Import Ascii.
From stdpp Require Import lexico orders.
From S2P Require Import Prelude CString Erlang.
Local Open Scope Z_scope.

(** ** Data *)

(** [#node{}]: the fields [cpu], [mem] and [gpu] start [undefined]. *)
Record node := Node {
  en_ip : string;
  en_port : string;
  en_cpu : option Z;
  en_mem : option Z;
  en_gpu : option Z
}.

(** The atoms that name resources. *)
Inductive resource := Cpu | Mem | Gpu.

Definition atom_to_list (r : resource) : string :=
  match r with Cpu => "cpu" | Mem => "mem" | Gpu => "gpu" end.

(** [{Ip, Port, Resource, Amount}] *)
Record petition := Petition {
  pt_ip : string;
  pt_port : string;
  pt_resource : resource;
  pt_amount : Z
}.

Inductive kind := Request | Release.

(** What [handle_packet] returns, and the other terms its caller has clauses for. *)
Inductive packet_result :=
  | NodeRecords (l : list node)
  | JobGranted (JobId : Z)
  | JobDenied (JobId : Z)
  | JobTimeout (JobId : Z)
  | AckOk (JobId : Z) (k : kind)
  | AckError (JobId : Z) (k : kind) (Packet : string)
  | Skip (reason : string).

(** ** Reading the agent's messages *)

Section packets.
Context (parse_strict_address : string -> bool).

Fixpoint to_pairs (l : list string) : option (list (string * Z)) :=
  match l with
  | Key :: Value :: Rest =>
      v ← list_to_integer (trim Value);
      pairs ← to_pairs Rest;
      Some ((Key, v) :: pairs)
  | _ => Some []
  end.

Definition assign_resource (r : node) (pair : string * Z) : option node :=
  let '(Name, Amount) := pair in
  if String.eqb Name "cpu" then Some (Node (en_ip r) (en_port r) (Some Amount) (en_mem r) (en_gpu r))
  else if String.eqb Name "gpu" then Some (Node (en_ip r) (en_port r) (en_cpu r) (en_mem r) (Some Amount))
  else if String.eqb Name "mem" then Some (Node (en_ip r) (en_port r) (en_cpu r) (Some Amount) (en_gpu r))
  else None.

Definition validate_and_get_node (text : string) : option node :=
  match split_all ":" text with
  | Ip :: Port :: ResourceTokens =>
      assert_def (parse_strict_address Ip);;
      IntPort ← list_to_integer Port;
      assert_def ((1 <=? IntPort) && (IntPort <=? 65535));;
      ResourcePairs ← to_pairs ResourceTokens;
      foldM assign_resource (Node Ip Port None None None) ResourcePairs
  | _ => None
  end.

Definition get_node_list (Packet : string) : list string :=
  let TrimmedString := trim Packet in
  if String.eqb TrimmedString "" then [] else split_all ";" TrimmedString.

Definition do_handle_packet (P : string) : option packet_result :=
  match after_prefix "NODES " P with
  | Some Rest =>
      if String.eqb (trim Rest) "" then Some (Skip "No nodes available")
      else NodeRecords <$> mapM validate_and_get_node (get_node_list Rest)
  | None =>
  match after_prefix "JOB_GRANTED " P with
  | Some Rest => JobGranted <$> list_to_integer (trim Rest)
  | None =>
  match after_prefix "JOB_DENIED " P with
  | Some Rest => JobDenied <$> list_to_integer (trim Rest)
  | None =>
  match after_prefix "JOB_TIMEOUT " P with
  | Some Rest => JobTimeout <$> list_to_integer (trim Rest)
  | None => Some (Skip "Unknown packet")
  end end end end.

(** An exception is caught. *)
Definition handle_packet (P : string) : packet_result := default (Skip "Unknown packet") (do_handle_packet P).

End packets.

(** ** Writing a request *)

Definition resource_order (r : resource) : nat := match r with Cpu => 1 | Mem => 2 | Gpu => 3 end.

(** [{Ip, Port, resource_order(Resource)}], compared as a tuple: lists of characters
    and a number. *)
Definition rank (ip port : string) (r : resource) : list N * (list N * nat) :=
  (chars ip, (chars port, resource_order r)).
Definition petition_rank (p : petition) : list N * (list N * nat) := rank (pt_ip p) (pt_port p) (pt_resource p).
Definition rank_le (p q : petition) : Prop :=
  petition_rank p = petition_rank q \/ lexico (petition_rank p) (petition_rank q).

#[export] Instance rank_le_dec : RelDecision rank_le.
Proof. intros p q. unfold rank_le. apply _. Defined.

(** [lists:keysort(1, Pairs)] *)
Definition key_le {A} (p q : Z * A) : Prop := p.1 <= q.1.

#[export] Instance key_le_dec {A} : RelDecision (@key_le A).
Proof. intros p q. unfold key_le. apply _. Defined.

Section requests.
Context (random : nat -> Z).

Definition shuffle {A} (NodeRecordList : list A) : gen (list A) :=
  Pairs ← mapM (fun X => k ← rand_float random; mret (k, X)) NodeRecordList;
  mret (snd <$> merge_sort key_le Pairs).

Definition pick_random {A} (n : Z) (NodeRecordList : list A) : gen (list A) :=
  ShuffleList ← shuffle NodeRecordList;
  mret (take (Z.to_nat n) ShuffleList).

(** The resources of a node with something free. *)
Definition offered (n : node) : list (resource * Z) :=
  omap (fun '(r, a) => match a with Some m => if 0 <? m then Some (r, m) else None | None => None end)
    [(Cpu, en_cpu n); (Mem, en_mem n); (Gpu, en_gpu n)].

Definition pick_resources (n : node) : gen (option (list petition)) :=
  match offered n with
  | [] => mret None
  | Selected =>
      Resources ← mapM (fun '(Res, Max) =>
        Amount ← rand_uniform random Max;
        mret (Petition (en_ip n) (en_port n) Res Amount)) Selected;
      mret (Some Resources)
  end.

Definition build_job_request (Acc : string) (p : petition) : string :=
  Acc +:+ " @" +:+ pt_ip p +:+ ":" +:+ pt_port p +:+ ":" +:+ atom_to_list (pt_resource p) +:+ ":" +:+
  integer_to_list (pt_amount p).

Definition generate_job_request (JobId : Z) (NodeRecordList : list node) (Env : string) : gen (string * list petition) :=
  N ← rand_uniform random (Z.of_nat (length NodeRecordList));
  SelectedNodes ← pick_random N NodeRecordList;
  picked ← mapM pick_resources SelectedNodes;
  let AvailableResources := concat (omap id picked) in
  SortedResources ← gen_lift
    (if String.eqb Env "DEV" then Some (merge_sort rank_le AvailableResources)
     else if String.eqb Env "TEST" then Some AvailableResources else None);
  let JobRequest := "JOB_REQUEST " +:+ integer_to_list JobId in
  mret (foldl build_job_request JobRequest SortedResources +:+ str_nl, SortedResources).

End requests.

(** [erlang_c_bridge.erl] *)
Definition normalize_env (Env : string) : string :=
  if String.eqb Env "DEV" then "DEV" else if String.eqb Env "TEST" then "TEST" else "DEV".

(** ** The process *)

Abbreviation pid := nat (only parsing).

Inductive job_status := Dispatched | Pending | Granted.

(** The map [State]: its two atom keys, and the jobs. *)
Record scheduler := SchedulerState {
  sc_receiver : option pid;
  sc_sender : option pid;
  sc_jobs : gmap Z job_status
}.

Definition set_jobs (st : scheduler) (jobs : gmap Z job_status) : scheduler :=
  SchedulerState (sc_receiver st) (sc_sender st) jobs.

(** The messages of its mailbox.  The last two are what the sender reports of a
    directive. *)
Inductive message :=
  | ReceiverPid (p : pid)
  | SenderPid (p : pid)
  | JobRelease (JobId : Z)
  | DumpState
  | PacketReceived (Packet : string)
  | OkGetNodes
  | ErrorReason (Reason : string)
  | OkJob (JobId : Z) (k : kind)
  | ErrorJob (JobId : Z) (k : kind) (Packet : string).

(** The patterns of its [receive]: a tuple of three or four elements matches none. *)
Definition receivable (m : message) : bool :=
  match m with OkJob _ _ | ErrorJob _ _ _ => false | _ => true end.

(** The first message that matches, and the mailbox without it. *)
Fixpoint receive (mailbox : list message) : option (message * list message) :=
  match mailbox with
  | [] => None
  | m :: rest =>
      if receivable m then Some (m, rest)
      else '(m', rest') ← receive rest; Some (m', m :: rest')
  end.

(** What the sender is asked to write. *)
Inductive order := GetNodes | JobDirective (JobId : Z) (k : kind) (Packet : string).

Inductive effect :=
  | ELink (p : pid)
  | ESend (p : pid) (o : order)
  | ESpawnRequestNodes (p : pid)
  | ESpawnTick
  | ESpawnLoad (JobId : Z) (sender : option pid)
  | ESpawnRetry (p : pid) (JobId : Z) (Packet : string)
  | EHalt.

Definition release_text (JobId : Z) : string := "JOB_RELEASE " +:+ integer_to_list JobId +:+ str_nl.

Section process.
Context (parse_strict_address : string -> bool) (random unique : nat -> Z) (NRequests : nat) (Env : string).

(** One round of the fold over [lists:seq(1, NRequests)]. *)
Definition dispatch (st : scheduler) (NodeRecordList : list node) (acc : scheduler * list effect)
  : gen (scheduler * list effect) :=
  JobId ← unique_integer unique;
  '(JobRequest, _) ← generate_job_request random JobId NodeRecordList Env;
  SenderId ← gen_lift (sc_sender st);
  mret (set_jobs acc.1 (<[JobId := Dispatched]> (sc_jobs acc.1)),
        acc.2 ++ [ESend SenderId (JobDirective JobId Request JobRequest)]).

Fixpoint dispatch_all (n : nat) (st : scheduler) (NodeRecordList : list node) (acc : scheduler * list effect)
  : gen (scheduler * list effect) :=
  match n with
  | O => mret acc
  | S n' => acc' ← dispatch st NodeRecordList acc; dispatch_all n' st NodeRecordList acc'
  end.

Definition on_packet (st : scheduler) (r : packet_result) : gen (scheduler * list effect) :=
  match r with
  | NodeRecords l => dispatch_all NRequests st l (st, [])
  | JobGranted JobId =>
      match sc_jobs st !! JobId with
      | Some Pending | Some Dispatched =>
          mret (set_jobs st (<[JobId := Granted]> (sc_jobs st)), [ESpawnLoad JobId (sc_sender st)])
      | Some Granted | None => mret (st, [])
      end
  | JobDenied JobId | JobTimeout JobId => mret (set_jobs st (delete JobId (sc_jobs st)), [])
  | AckOk JobId Request =>
      match sc_jobs st !! JobId with
      | Some Dispatched => mret (set_jobs st (<[JobId := Pending]> (sc_jobs st)), [])
      | _ => mret (st, [])
      end
  | AckOk JobId Release => mret (st, [])
  | AckError JobId Request _ =>
      match sc_jobs st !! JobId with
      | Some Dispatched => mret (set_jobs st (delete JobId (sc_jobs st)), [])
      | _ => mret (st, [])
      end
  | AckError JobId Release Packet =>
      SenderId ← gen_lift (sc_sender st);
      mret (st, [ESpawnRetry SenderId JobId Packet])
  | Skip _ => mret (st, [])
  end.

(** One round of [init/3]. *)
Definition handle_message (st : scheduler) (m : message) : gen (scheduler * list effect) :=
  match m with
  | ReceiverPid p => mret (SchedulerState (Some p) (sc_sender st) (sc_jobs st), [ELink p])
  | SenderPid p => mret (SchedulerState (sc_receiver st) (Some p) (sc_jobs st), [ELink p; ESpawnRequestNodes p; ESpawnTick])
  | JobRelease JobId => mret (set_jobs st (delete JobId (sc_jobs st)), [])
  | DumpState | OkGetNodes => mret (st, [])
  | PacketReceived P => on_packet st (handle_packet parse_strict_address P)
  | ErrorReason _ => mret (st, [EHalt])
  | OkJob _ _ | ErrorJob _ _ _ => mret (st, [])
  end.

End process.

(** ** The processes together *)

(** The scheduler and its mailbox; the draws made; the jobs [simulate_load] is asleep
    for, with the sender it knows, and those it has released but not yet reported; the
    mailbox of the sender, and what it took from it with the outcome; the releases
    waiting to be retried; the packets the scheduler has read; whether [halt] was
    called. *)
Record client := Client {
  cx_state : scheduler;
  cx_mailbox : list message;
  cx_draws : nat;
  cx_loads : list (Z * option pid);
  cx_ending : list Z;
  cx_orders : list order;
  cx_log : list (order * bool);
  cx_retries : list (Z * string);
  cx_read : list string;
  cx_halted : bool
}.

Definition fresh_client : client := Client (SchedulerState None None ∅) [] 0 [] [] [] [] [] [] false.

Definition perform (c : client) (e : effect) : client :=
  let 'Client st mb i ld en os lg rt rd h := c in
  match e with
  | ELink _ | ESpawnRequestNodes _ | ESpawnTick => c
  | ESend _ o => Client st mb i ld en (os ++ [o]) lg rt rd h
  | ESpawnLoad JobId p => Client st mb i (ld ++ [(JobId, p)]) en os lg rt rd h
  | ESpawnRetry _ JobId P => Client st mb i ld en os lg (rt ++ [(JobId, P)]) rd h
  | EHalt => Client st mb i ld en os lg rt rd true
  end.

(** What other processes send: the connection its two, the receiver packets and the
    end of the connection, the timer its ticks. *)
Definition from_outside (m : message) : bool :=
  match m with ReceiverPid _ | SenderPid _ | DumpState | PacketReceived _ | ErrorReason _ => true | _ => false end.

Definition packet_of (m : message) : list string := match m with PacketReceived P => [P] | _ => [] end.

(** The report of the sender. *)
Definition report (o : order) (ok : bool) : message :=
  match o, ok with
  | GetNodes, true => OkGetNodes
  | GetNodes, false => ErrorReason "get_nodes"
  | JobDirective JobId k _, true => OkJob JobId k
  | JobDirective JobId k P, false => ErrorJob JobId k P
  end.

Section system.
Context (parse_strict_address : string -> bool) (random unique : nat -> Z) (NRequests : nat) (Env : string).

(** A process at a time: a message arrives, the scheduler reads one, the timer asks for
    the directory, [simulate_load] wakes up (with no sender it would fail) and then
    ends, the sender writes or fails to, a release is retried. *)
Inductive client_step : client -> client -> Prop :=
  | cs_arrives m st mb i ld en os lg rt rd :
      from_outside m = true ->
      client_step (Client st mb i ld en os lg rt rd false) (Client st (mb ++ [m]) i ld en os lg rt rd false)
  | cs_receives m mb' st' effs j st mb i ld en os lg rt rd :
      receive mb = Some (m, mb') ->
      handle_message parse_strict_address random unique NRequests Env st m i = Some ((st', effs), j) ->
      client_step (Client st mb i ld en os lg rt rd false)
        (foldl perform (Client st' mb' j ld en os lg rt (rd ++ packet_of m) false) effs)
  | cs_asks st mb i ld en os lg rt rd :
      client_step (Client st mb i ld en os lg rt rd false) (Client st mb i ld en (os ++ [GetNodes]) lg rt rd false)
  | cs_worked JobId p st mb i ld1 ld2 en os lg rt rd :
      client_step (Client st mb i (ld1 ++ (JobId, Some p) :: ld2) en os lg rt rd false)
        (Client st mb i (ld1 ++ ld2) (en ++ [JobId]) (os ++ [JobDirective JobId Release (release_text JobId)]) lg rt rd false)
  | cs_ends JobId st mb i ld en1 en2 os lg rt rd :
      client_step (Client st mb i ld (en1 ++ JobId :: en2) os lg rt rd false)
        (Client st (mb ++ [JobRelease JobId]) i ld (en1 ++ en2) os lg rt rd false)
  | cs_writes o ok st mb i ld en os lg rt rd :
      client_step (Client st mb i ld en (o :: os) lg rt rd false)
        (Client st (mb ++ [report o ok]) i ld en os (lg ++ [(o, ok)]) rt rd false)
  | cs_retries JobId P st mb i ld en os lg rt1 rt2 rd :
      client_step (Client st mb i ld en os lg (rt1 ++ (JobId, P) :: rt2) rd false)
        (Client st mb i ld en (os ++ [JobDirective JobId Release P]) lg (rt1 ++ rt2) rd false).

Definition client_reach : client -> Prop := rtc client_step fresh_client.

End system.

(** ** What a client has asked for *)

(** Everything the sender was told to write, in order. *)
Definition told (c : client) : list order := (cx_log c).*1 ++ cx_orders c.

Definition requested_of (o : order) : option Z := match o with JobDirective JobId Request _ => Some JobId | _ => None end.
Definition released_of (o : order) : option Z := match o with JobDirective JobId Release _ => Some JobId | _ => None end.

Definition requested (c : client) : list Z := omap requested_of (told c).
Definition released (c : client) : list Z := omap released_of (told c).

(** The reports of what was written that no [receive] takes. *)
Definition ack_of (r : order * bool) : option message :=
  match r.1 with GetNodes => None | JobDirective _ _ _ => Some (report r.1 r.2) end.

Lemma foldl_perform_last {A} (f : client -> A) effs :
  (forall c e, f (perform c e) = f c) -> forall c, f (foldl perform c effs) = f c.
Proof. intros Hf. induction effs as [|e effs IH]; intros c; simpl; [done|]. by rewrite IH, Hf. Qed.

Lemma perform_mailbox c e : cx_mailbox (perform c e) = cx_mailbox c.
Proof. by destruct c, e. Qed.
Lemma perform_log c e : cx_log (perform c e) = cx_log c.
Proof. by destruct c, e. Qed.
Lemma perform_read c e : cx_read (perform c e) = cx_read c.
Proof. by destruct c, e. Qed.

(** *** Reports are never read *)

Lemma receive_unread mb m mb' :
  receive mb = Some (m, mb') ->
  receivable m = true /\ filter (fun m => receivable m = false) mb' = filter (fun m => receivable m = false) mb.
Proof.
  revert m mb'. induction mb as [|x mb IH]; intros m mb' H; [done|]. simpl in H.
  destruct (receivable x) eqn:Hx.
  - injection H as <- <-. split; [done|]. rewrite filter_cons_False; [done|congruence].
  - apply bind_Some in H as ([m1 mb1] & H1 & [= <- <-]). destruct (IH m1 mb1 H1) as [Hm Hf]. split; [done|].
    by rewrite !filter_cons_True, Hf.
Qed.

Lemma filter_singleton {A} (P : A -> Prop) `{!forall x, Decision (P x)} x : filter P [x] = if decide (P x) then [x] else [].
Proof. rewrite filter_cons, filter_nil. done. Qed.

Lemma report_unread o ok :
  filter (fun m => receivable m = false) [report o ok] = option_list (ack_of (o, ok)).
Proof. rewrite filter_singleton. by destruct o, ok. Qed.

Lemma unread_reports p r u N E c :
  client_reach p r u N E c -> filter (fun m => receivable m = false) (cx_mailbox c) = omap ack_of (cx_log c).
Proof.
  apply (rtc_ind_r (fun c => filter _ (cx_mailbox c) = omap ack_of (cx_log c))); [done|].
  intros c1 c2 _ Hs IH. destruct Hs; simpl in *; rewrite ?filter_app, ?omap_app; try done.
  - rewrite IH. rewrite filter_singleton, decide_False by (by destruct m). by rewrite app_nil_r.
  - rewrite (foldl_perform_last cx_mailbox _ perform_mailbox), (foldl_perform_last cx_log _ perform_log). simpl.
    destruct (receive_unread _ _ _ H) as [_ ->]. done.
  - rewrite IH. rewrite filter_singleton, decide_False by done. by rewrite app_nil_r.
  - rewrite IH, report_unread. by f_equal.
Qed.

(** *** The life of a job *)

Section lifecycle.
Context (parse_strict_address : string -> bool) (random unique : nat -> Z) (NRequests : nat) (Env : string).
Context (Hunique : forall i j, unique i = unique j -> i = j).
Local Abbreviation reach := (client_reach parse_strict_address random unique NRequests Env).
Local Abbreviation parsed := (handle_packet parse_strict_address).

(** The jobs that were granted and not given back, or given back already. *)
Definition taken (c : client) : list Z := (cx_loads c).*1 ++ released c.

(** Nothing is released before it is requested, and with the text of its job. *)
Fixpoint well_ordered (asked : list Z) (os : list order) : Prop :=
  match os with
  | [] => True
  | JobDirective JobId Release P :: os' => JobId ∈ asked /\ P = release_text JobId /\ well_ordered asked os'
  | JobDirective JobId Request _ :: os' => well_ordered (JobId :: asked) os'
  | GetNodes :: os' => well_ordered asked os'
  end.

Record life_inv (c : client) : Prop := {
  li_fresh : forall id, id ∈ requested c -> exists i, (i < cx_draws c)%nat /\ id = unique i;
  li_requested : NoDup (requested c);
  li_jobs : forall id s, sc_jobs (cx_state c) !! id = Some s -> id ∈ requested c /\ s ≠ Pending /\ (s = Dispatched -> id ∉ taken c);
  li_taken : NoDup (taken c);
  li_granted : forall id, id ∈ taken c -> id ∈ requested c /\ Exists (fun P => parsed P = JobGranted id) (cx_read c);
  li_order : well_ordered [] (told c);
  li_retries : cx_retries c = []
}.

Lemma requested_snoc c c' o :
  told c' = told c ++ [o] -> requested c' = requested c ++ option_list (requested_of o).
Proof. unfold requested. intros ->. rewrite omap_app. by f_equal. Qed.

Lemma released_snoc c c' o :
  told c' = told c ++ [o] -> released c' = released c ++ option_list (released_of o).
Proof. unfold released. intros ->. rewrite omap_app. by f_equal. Qed.

Lemma well_ordered_snoc asked os o :
  well_ordered asked os ->
  match o with JobDirective id Release P => (id ∈ asked \/ id ∈ omap requested_of os) /\ P = release_text id | _ => True end ->
  well_ordered asked (os ++ [o]).
Proof.
  revert asked. induction os as [|[|id k P] os IH]; intros asked Hw Ho; simpl in *.
  - destruct o as [|id [] P]; [done..|]. set_solver.
  - by apply IH.
  - destruct k; simpl in *.
    + apply IH; [done|]. destruct o as [|id' [] P']; try done. destruct Ho as [Ho ->]. set_solver.
    + destruct Hw as (? & ? & Hw). split_and!; [done..|]. by apply IH.
Qed.

(** *** Each change keeps it *)

(** Forgetting jobs, drawing numbers and reading packets. *)
Lemma life_weaken c c' :
  life_inv c -> sc_jobs (cx_state c') ⊆ sc_jobs (cx_state c) -> (cx_draws c <= cx_draws c')%nat ->
  cx_loads c' = cx_loads c -> told c' = told c -> cx_retries c' = cx_retries c -> cx_read c ⊆ cx_read c' ->
  life_inv c'.
Proof.
  intros [Hf Hr Hj Ht Hg Ho Hre] Hs Hd Hl He Hret Hrd.
  assert (Hq : requested c' = requested c) by (unfold requested; by rewrite He).
  assert (Htk : taken c' = taken c) by (unfold taken, released; by rewrite He, Hl).
  split; rewrite ?Hq, ?Htk; try done; [| | |by rewrite He|by rewrite Hret].
  - intros id (i & Hi & ->)%Hf. exists i. split; [lia|done].
  - intros id s Hid. by eapply Hj, lookup_weaken.
  - intros id [Hin HE]%Hg. split; [done|]. apply Exists_exists in HE as (P & HP & HE).
    apply Exists_exists. exists P. split; [by apply Hrd|done].
Qed.

(** A fresh job is asked for. *)
Lemma life_request st mb i ld en os lg rt rd h p P j :
  life_inv (Client st mb i ld en os lg rt rd h) -> (i < j)%nat ->
  life_inv (perform (Client (set_jobs st (<[unique i := Dispatched]> (sc_jobs st))) mb j ld en os lg rt rd h)
    (ESend p (JobDirective (unique i) Request P))).
Proof.
  intros [Hf Hr Hj Ht Hg Ho Hre] Hi. simpl. set (c := Client st mb i ld en os lg rt rd h) in *. set (c' := Client _ _ _ _ _ _ _ _ _ _).
  assert (He : told c' = told c ++ [JobDirective (unique i) Request P]) by (unfold told; simpl; by rewrite app_assoc).
  pose proof (requested_snoc c c' _ He) as Hq. pose proof (released_snoc c c' _ He) as Hrel. simpl in Hq, Hrel.
  rewrite app_nil_r in Hrel. assert (Htk : taken c' = taken c) by (unfold taken; by rewrite Hrel).
  assert (Hnew : unique i ∉ requested c).
  { intros (i' & Hlt & Heq)%Hf. apply Hunique in Heq. simpl in Hlt. lia. }
  split; rewrite ?Hq, ?Htk; try done.
  - intros id [(i' & Hlt & ->)%Hf | ->%list_elem_of_singleton]%elem_of_app; [exists i'|exists i]; split; simpl in *; (done || lia).
  - apply NoDup_app. split_and!; [done| |apply NoDup_singleton]. intros id Hin ->%list_elem_of_singleton. done.
  - intros id s. simpl. destruct (decide (id = unique i)) as [->|Hne].
    + rewrite lookup_insert_eq. intros [= <-]. split; [set_solver|]. split; [done|]. intros _ [Hin _]%Hg. done.
    + rewrite lookup_insert_ne by done. intros (? & ? & ?)%Hj. split; [set_solver|done].
  - intros id [? ?]%Hg. split; [set_solver|done].
  - rewrite He. by apply well_ordered_snoc.
Qed.

(** A job that was waiting is granted. *)
Lemma life_grant st mb i ld en os lg rt rd h id P p :
  life_inv (Client st mb i ld en os lg rt rd h) -> sc_jobs st !! id = Some Dispatched -> parsed P = JobGranted id -> P ∈ rd ->
  life_inv (perform (Client (set_jobs st (<[id := Granted]> (sc_jobs st))) mb i ld en os lg rt rd h) (ESpawnLoad id p)).
Proof.
  intros [Hf Hr Hj Ht Hg Ho Hre] Hid HP Hrd. simpl. set (c := Client st mb i ld en os lg rt rd h) in *. set (c' := Client _ _ _ _ _ _ _ _ _ _).
  assert (He : told c' = told c) by done.
  assert (Htk : taken c' ≡ₚ id :: taken c).
  { unfold taken, released. rewrite He. simpl. rewrite fmap_app. simpl. by rewrite <- app_assoc, Permutation_middle. }
  destruct (Hj id Dispatched Hid) as (Hin & _ & Hnt). specialize (Hnt eq_refl).
  split; try done.
  - intros id' s. simpl. destruct (decide (id' = id)) as [->|Hne].
    + rewrite lookup_insert_eq. intros [= <-]. split; [done|]. split; [done|]. done.
    + rewrite lookup_insert_ne by done. intros (? & ? & Hn)%Hj. split_and!; [done..|]. intros Hd. rewrite Htk. set_solver.
  - rewrite Htk. by constructor.
  - intros id'. rewrite Htk. intros [->|Hin']%elem_of_cons; [|by apply Hg]. split; [done|]. apply Exists_exists. by exists P.
Qed.

(** The job is given back. *)
Lemma life_release st mb i ld1 ld2 en en' os lg rt rd h id p :
  life_inv (Client st mb i (ld1 ++ (id, p) :: ld2) en os lg rt rd h) ->
  life_inv (Client st mb i (ld1 ++ ld2) en' (os ++ [JobDirective id Release (release_text id)]) lg rt rd h).
Proof.
  intros [Hf Hr Hj Ht Hg Ho Hre]. set (c := Client st mb i _ en os lg rt rd h) in *. set (c' := Client _ _ _ _ _ _ _ _ _ _).
  assert (He : told c' = told c ++ [JobDirective id Release (release_text id)]) by (unfold told; simpl; by rewrite app_assoc).
  pose proof (requested_snoc c c' _ He) as Hq. pose proof (released_snoc c c' _ He) as Hrel. simpl in Hq, Hrel.
  rewrite app_nil_r in Hq.
  assert (Htk : taken c' ≡ₚ taken c).
  { unfold taken. rewrite Hrel. simpl. rewrite !fmap_app. simpl. rewrite <- !app_assoc. simpl. f_equiv.
    rewrite (Permutation_app_comm (released c)). simpl. by rewrite Permutation_middle. }
  split; rewrite ?Hq; try done.
  - intros id' s (? & ? & Hn)%Hj. split_and!; [done..|]. intros Hd. rewrite Htk. by apply Hn.
  - by rewrite Htk.
  - intros id'. rewrite Htk. apply Hg.
  - rewrite He. apply well_ordered_snoc; [done|]. split; [|done]. right. apply Hg. unfold taken. simpl. set_solver.
Qed.

Lemma advances_pick_resources n : advances (pick_resources random n).
Proof.
  unfold pick_resources. destruct (offered n); [auto with erlang|]. apply advances_bind; [|auto with erlang].
  apply advances_mapM. intros [Res Max]. auto with erlang.
Qed.

Lemma advances_generate id l : advances (generate_job_request random id l Env).
Proof.
  unfold generate_job_request, pick_random, shuffle.
  repeat (apply advances_bind; [|intros ?]); auto using advances_pick_resources with erlang.
Qed.

(** The effects do not look at the state of the scheduler. *)
Definition with_state (st : scheduler) (i : nat) (c : client) : client :=
  let 'Client _ mb _ ld en os lg rt rd h := c in Client st mb i ld en os lg rt rd h.

Lemma with_state_id c : with_state (cx_state c) (cx_draws c) c = c.
Proof. by destruct c. Qed.

Lemma perform_with_state st i c e : perform (with_state st i c) e = with_state st i (perform c e).
Proof. by destruct c, e. Qed.

Lemma perform_all_with_state st i effs c :
  foldl perform (with_state st i c) effs = with_state st i (foldl perform c effs).
Proof. revert c. induction effs as [|e effs IH]; intros c; simpl; [done|]. by rewrite perform_with_state, IH. Qed.

Lemma life_dispatch st l acc acc' i j c :
  life_inv (foldl perform (with_state acc.1 i c) acc.2) ->
  dispatch random unique Env st l acc i = Some (acc', j) ->
  life_inv (foldl perform (with_state acc'.1 j c) acc'.2).
Proof.
  intros Hinv (id & i1 & [= <- <-] & H)%gen_bind_Some.
  apply gen_bind_Some in H as ([P ps] & i2 & Hg%advances_generate & H).
  apply gen_bind_Some in H as (p & i3 & Hp & [= <- <-]). apply bind_Some in Hp as (p' & _ & [= <- <-]).
  rewrite perform_all_with_state in Hinv. simpl. rewrite foldl_app, perform_all_with_state. simpl.
  destruct (foldl perform c acc.2) as [st0 mb i0 ld en os lg rt rd h]. simpl in Hinv |- *.
  exact (life_request acc.1 mb i ld en os lg rt rd h p' P i2 Hinv ltac:(lia)).
Qed.

Lemma life_dispatch_all n st l acc acc' i j c :
  life_inv (foldl perform (with_state acc.1 i c) acc.2) ->
  dispatch_all random unique Env n st l acc i = Some (acc', j) ->
  life_inv (foldl perform (with_state acc'.1 j c) acc'.2).
Proof.
  revert acc i. induction n as [|n IH]; intros acc i Hinv H; [by injection H as <- <-|].
  apply gen_bind_Some in H as (acc1 & i1 & H1 & H). eapply IH; [|exact H]. by eapply life_dispatch.
Qed.

Lemma handle_packet_answers P k id P' : parsed P ≠ AckOk id k /\ parsed P ≠ AckError id k P'.
Proof.
  assert (Hs : forall r, do_handle_packet parse_strict_address P = Some r -> r ≠ AckOk id k /\ r ≠ AckError id k P').
  { unfold do_handle_packet. intros r H.
    destruct (after_prefix "NODES " P) as [R|].
    { destruct (trim R =? "")%string; [by injection H as <-|]. by apply fmap_Some in H as (? & _ & ->). }
    destruct (after_prefix "JOB_GRANTED " P) as [R|]; [by apply fmap_Some in H as (? & _ & ->)|].
    destruct (after_prefix "JOB_DENIED " P) as [R|]; [by apply fmap_Some in H as (? & _ & ->)|].
    destruct (after_prefix "JOB_TIMEOUT " P) as [R|]; [by apply fmap_Some in H as (? & _ & ->)|].
    by injection H as <-. }
  unfold handle_packet. destruct (do_handle_packet parse_strict_address P) as [r|]; [|done]. by apply Hs.
Qed.

Lemma life_receives st mb mb' i ld en os lg rt rd m st' effs j :
  life_inv (Client st mb i ld en os lg rt rd false) -> receivable m = true ->
  handle_message parse_strict_address random unique NRequests Env st m i = Some ((st', effs), j) ->
  life_inv (foldl perform (Client st' mb' j ld en os lg rt (rd ++ packet_of m) false) effs).
Proof.
  intros Hinv Hm H. set (c := Client st mb' i ld en os lg rt (rd ++ packet_of m) false).
  assert (Hc : life_inv c) by (apply (life_weaken _ _ Hinv); try done; simpl; set_solver).
  assert (Hdel : forall id, life_inv (with_state (set_jobs st (delete id (sc_jobs st))) i c)).
  { intros id. apply (life_weaken _ _ Hc); try done. simpl. apply delete_subseteq. }
  change (life_inv (foldl perform (with_state st' j c) effs)).
  destruct m as [p|p|id| |P| |reason| |]; simpl in H; try done; try (injection H as <- <- <-).
  - simpl. by apply (life_weaken _ _ Hc).
  - simpl. by apply (life_weaken _ _ Hc).
  - simpl. apply Hdel.
  - exact Hc.
  - assert (HP : P ∈ rd ++ packet_of (PacketReceived P)) by (simpl; set_solver).
    pose proof (handle_packet_answers P) as Hno. destruct (parsed P) as [l|id|id|id|id k|id k P'|reason] eqn:Hp.
    + simpl in H. exact (life_dispatch_all _ _ _ (st, []) (st', effs) _ _ c Hc H).
    + simpl in H. destruct (sc_jobs st !! id) as [[]|] eqn:Hid; injection H as <- <- <-; try exact Hc.
      * by apply (life_grant st mb' i ld en os lg rt (rd ++ [P]) false id P (sc_sender st)).
      * by destruct (li_jobs _ Hc id Pending Hid) as (_ & ? & _).
    + injection H as <- <- <-. apply Hdel.
    + injection H as <- <- <-. apply Hdel.
    + by destruct (Hno k id "") as [[] _].
    + by destruct (Hno k id P') as [_ []].
    + injection H as <- <- <-. exact Hc.
  - exact Hc.
  - by apply (life_weaken _ _ Hc).
Qed.

Lemma client_life_step c c' :
  client_step parse_strict_address random unique NRequests Env c c' -> life_inv c -> life_inv c'.
Proof.
  intros Hs Hinv. destruct Hs.
  - by apply (life_weaken _ _ Hinv).
  - by eapply life_receives; [exact Hinv|exact (proj1 (receive_unread _ _ _ H))|exact H0].
  - destruct Hinv as [Hf Hr Hj Ht Hg Ho Hre]. set (c := Client _ _ _ _ _ os _ _ _ _) in *. set (c' := Client _ _ _ _ _ _ _ _ _ _).
    assert (He : told c' = told c ++ [GetNodes]) by (unfold told; simpl; by rewrite app_assoc).
    pose proof (requested_snoc c c' _ He) as Hq. pose proof (released_snoc c c' _ He) as Hrel. simpl in Hq, Hrel.
    rewrite app_nil_r in Hq, Hrel. assert (Htk : taken c' = taken c) by (unfold taken; by rewrite Hrel).
    split; rewrite ?Hq, ?Htk, ?He; try done. by apply well_ordered_snoc.
  - by eapply life_release.
  - by apply (life_weaken _ _ Hinv).
  - apply (life_weaken _ _ Hinv); try done. unfold told. simpl. by rewrite fmap_app, <- app_assoc.
  - pose proof (li_retries _ Hinv) as Hr. simpl in Hr. by destruct rt1.
Qed.

End lifecycle.

(** ** What a request asks for *)

#[export] Instance rank_le_total : Total rank_le.
Proof.
  intros p q. unfold rank_le. destruct (trichotomy lexico (petition_rank p) (petition_rank q)) as [?|[?|?]]; auto.
Qed.

#[export] Instance rank_le_trans : Transitive rank_le.
Proof.
  intros p q r. unfold rank_le. intros [E1|H1] [E2|H2]; rewrite ?E1, <- ?E2; auto. right. by etrans.
Qed.

(** Some of each of the resources of [n] with something free, in a group. *)
Definition picked_from (n : node) (g : list petition) : Prop :=
  Forall2 (fun '(r, m) p => pt_ip p = en_ip n /\ pt_port p = en_port n /\ pt_resource p = r /\ 1 <= pt_amount p <= m)
    (offered n) g.

Record request_of (Env : string) (id : Z) (l : list node) (text : string) (ps : list petition) : Prop := {
  ro_text : text = foldl build_job_request ("JOB_REQUEST " +:+ integer_to_list id) ps +:+ str_nl;
  ro_picked : exists sel gs, sel ⊆+ l /\ sel ≠ [] /\ Forall2 picked_from sel gs /\ ps ≡ₚ concat gs;
  ro_sorted : Env = "DEV" -> StronglySorted rank_le ps
}.

Section generating.
Context (random : nat -> Z).

Lemma yields_float : yields (rand_float random) (fun _ => True).
Proof. intros i. by eexists _, _. Qed.

Lemma yields_shuffle {A} (l : list A) : yields (shuffle random l) (fun l' => l' ≡ₚ l).
Proof.
  unfold shuffle. eapply yields_bind.
  - apply (yields_mapM _ (fun X p => p.2 = X)). apply Forall_forall. intros X _.
    eapply yields_bind; [apply yields_float|]. intros k _. by apply yields_ret.
  - intros Pairs HP. apply yields_ret. rewrite merge_sort_Permutation. apply reflexive_eq.
    induction HP as [|X p l ps Hp _ IH]; [done|]. rewrite fmap_cons. by f_equal.
Qed.

Lemma offered_pos n : Forall (fun '(r, m) => 1 <= m) (offered n).
Proof.
  unfold offered. apply Forall_forall. intros [r m] ((r' & a) & _ & H)%list_elem_of_omap.
  destruct a as [a|]; [|done]. destruct (Z.ltb_spec 0 a); [|done]. injection H as <- <-. lia.
Qed.

Lemma yields_pick_resources n : yields (pick_resources random n) (fun o => picked_from n (default [] o)).
Proof.
  unfold pick_resources, picked_from. pose proof (offered_pos n) as Hpos. destruct (offered n) as [|x sel].
  - apply yields_ret. constructor.
  - eapply yields_bind; [|intros Resources HR; by apply yields_ret].
    apply yields_mapM. eapply Forall_impl; [exact Hpos|]. intros [r m] Hm.
    eapply yields_bind; [by apply yields_uniform|]. intros a Ha. by apply yields_ret.
Qed.

Lemma concat_omap_id {A} (os : list (option (list A))) : concat (omap id os) = concat (default [] <$> os).
Proof. induction os as [|[l|] os IH]; [done| |done]. rewrite fmap_cons. cbn [concat default from_option]. by rewrite <- IH. Qed.

Lemma yields_lift {A} (x : A) (Q : A -> Prop) : Q x -> yields (gen_lift (Some x)) Q.
Proof. intros HQ i. by eexists _, _. Qed.

Lemma generate_spec Env id l :
  l ≠ [] -> Env = "DEV" \/ Env = "TEST" ->
  yields (generate_job_request random id l Env) (fun '(text, ps) => request_of Env id l text ps).
Proof.
  intros Hl HE. unfold generate_job_request.
  eapply yields_bind; [apply yields_uniform; destruct l; [done|simpl; lia]|]. intros N HN. cbv beta in HN.
  eapply yields_bind.
  { eapply (yields_bind _ _ _ (fun sel => sel ⊆+ l /\ sel ≠ [])); [apply yields_shuffle|]. intros l' Hp. apply yields_ret. split.
    - rewrite <- Hp. apply sublist_submseteq, sublist_take.
    - destruct l' as [|x l']; [by apply Permutation_nil_l in Hp|]. by destruct (Z.to_nat N) eqn:?; [lia|]. }
  intros sel [Hsub Hne]. eapply yields_bind.
  { apply yields_mapM, Forall_true. intros n. apply yields_pick_resources. }
  intros picked Hpick. rewrite concat_omap_id. set (gs := default [] <$> picked).
  assert (Hgs : Forall2 picked_from sel gs).
  { subst gs. apply Forall2_fmap_r. eapply Forall2_impl; [exact Hpick|]. done. }
  eapply (yields_bind _ _ (fun ps => ps ≡ₚ concat gs /\ (Env = "DEV" -> StronglySorted rank_le ps))).
  - destruct HE as [-> | ->]; apply yields_lift; split; try done.
    + by rewrite merge_sort_Permutation.
    + intros _. apply (StronglySorted_merge_sort rank_le).
  - intros ps [Hps Hs]. apply yields_ret. split; [done| |done]. by exists sel, gs.
Qed.

End generating.

(** ** Nothing stops the scheduler but the loss of its connection *)

Section answering.
Context (parse_strict_address : string -> bool) (random unique : nat -> Z) (NRequests : nat).

Lemma split_all_nonempty d s : split_all d s ≠ [].
Proof. induction s as [|c s IH]; simpl; [done|]. destruct (Ascii.eqb c d); [done|]. by destruct (split_all d s). Qed.

Lemma records_nonempty P l : handle_packet parse_strict_address P = NodeRecords l -> l ≠ [].
Proof.
  unfold handle_packet, do_handle_packet. intros H.
  destruct (after_prefix "NODES " P) as [R|].
  - destruct (String.eqb_spec (trim R) "") as [|Hne]; [done|]. unfold get_node_list in H.
    rewrite (proj2 (String.eqb_neq _ _) Hne) in H. pose proof (split_all_nonempty ";" (trim R)) as Hs.
    destruct (mapM _ _) as [l'|] eqn:Hm; [|done]. injection H as <-. intros ->.
    apply length_mapM in Hm. by destruct (split_all ";" (trim R)).
  - exfalso. revert H.
    destruct (after_prefix "JOB_GRANTED " P) as [R|]; [by destruct (list_to_integer _)|].
    destruct (after_prefix "JOB_DENIED " P) as [R|]; [by destruct (list_to_integer _)|].
    by destruct (after_prefix "JOB_TIMEOUT " P) as [R|]; [destruct (list_to_integer _)|].
Qed.

Lemma normal_env E : normalize_env E = "DEV" \/ normalize_env E = "TEST".
Proof. unfold normalize_env. destruct (_ =? _)%string; [by left|]. destruct (_ =? _)%string; auto. Qed.

(** What is sent for the requests of one answer. *)
Definition asks (E : string) (l : list node) (p : pid) (e : effect) : Prop :=
  exists id text ps, e = ESend p (JobDirective id Request text) /\ request_of E id l text ps.

Lemma dispatch_all_spec E n st l p acc :
  l ≠ [] -> sc_sender st = Some p ->
  yields (dispatch_all random unique (normalize_env E) n st l acc) (fun acc' =>
    exists new, acc'.2 = acc.2 ++ new /\ length new = n /\ Forall (asks (normalize_env E) l p) new).
Proof.
  intros Hl Hp. revert acc. induction n as [|n IH]; intros acc; simpl.
  - apply yields_ret. exists []. by rewrite app_nil_r.
  - eapply yields_bind; [|intros acc1 H1; eapply yields_mono; [apply IH|]].
    + unfold dispatch. eapply (yields_bind _ _ (fun _ => True)); [intros i; by eexists _, _|]. intros id _.
      eapply yields_bind; [by apply generate_spec, normal_env|]. intros [text ps] Hreq. rewrite Hp.
      eapply (yields_bind _ _ (fun q => q = p)); [by apply yields_lift|]. intros q ->.
      apply yields_ret. instantiate (1 := fun acc1 => exists e, acc1.2 = acc.2 ++ [e] /\ asks (normalize_env E) l p e).
      eexists. split; [done|]. by exists id, text, ps.
    + intros acc' (new & Hn & Hlen & HF). destruct H1 as (e & He & Ha). exists (e :: new).
      rewrite Hn, He, <- app_assoc. split_and!; [done|simpl; by rewrite Hlen|by constructor].
Qed.

(** The effects of a packet that brings no nodes. *)
Local Ltac no_records Hskip := split_and!;
  [intros ? [= <-] Hn; apply Hskip in Hn; (done || congruence)|intros ? ? [= <-] ?; congruence|split; [by intros [? ?]|set_solver]].

(** C33: once the scheduler knows the sender of its connection, no message stops it but
    the loss of the connection: a line that is not a message of the protocol, whatever
    is wrong with it, is skipped and changes nothing, and an answer with nodes sends
    exactly [NRequests] requests. *)
Theorem scheduler_goes_on E st p m i :
  sc_sender st = Some p ->
  exists st' effs j, handle_message parse_strict_address random unique NRequests (normalize_env E) st m i = Some ((st', effs), j) /\
    (forall P, m = PacketReceived P -> do_handle_packet parse_strict_address P = None -> st' = st /\ effs = []) /\
    (forall P l, m = PacketReceived P -> handle_packet parse_strict_address P = NodeRecords l ->
       length effs = NRequests /\ Forall (asks (normalize_env E) l p) effs) /\
    ((exists reason, m = ErrorReason reason) <-> EHalt ∈ effs).
Proof.
  intros Hp.
  enough (Hy : yields (handle_message parse_strict_address random unique NRequests (normalize_env E) st m) (fun r =>
    (forall P, m = PacketReceived P -> do_handle_packet parse_strict_address P = None -> r.1 = st /\ r.2 = []) /\
    (forall P l, m = PacketReceived P -> handle_packet parse_strict_address P = NodeRecords l ->
       length r.2 = NRequests /\ Forall (asks (normalize_env E) l p) r.2) /\
    ((exists reason, m = ErrorReason reason) <-> EHalt ∈ r.2))).
  { destruct (Hy i) as ([st' effs] & j & ? & ?). by exists st', effs, j. }
  destruct m as [q|q|id| |P| |reason|id k|id k P]; simpl; try (apply yields_ret; split_and!; [done..|set_solver]).
  pose proof (records_nonempty P) as Hne. pose proof (handle_packet_answers parse_strict_address P) as Hno.
  assert (Hskip : do_handle_packet parse_strict_address P = None -> handle_packet parse_strict_address P = Skip "Unknown packet")
    by (unfold handle_packet; by intros ->).
  destruct (handle_packet parse_strict_address P) as [l|id|id|id|id k|id k P'|reason] eqn:HP.
  - simpl. eapply yields_mono; [apply (dispatch_all_spec E NRequests st l p (st, [])); [by apply Hne|done]|].
    intros r (new & Hn & Hlen & HF). simpl in Hn. rewrite Hn. split_and!.
    + intros ? [= <-] Hd%Hskip. congruence.
    + intros ? l' [= <-]. rewrite HP. intros [= <-]. done.
    + split; [by intros [? ?]|]. rewrite Forall_forall in HF. intros (? & ? & ? & ? & _)%HF. done.
  - simpl. destruct (sc_jobs st !! id) as [[]|]; apply yields_ret; no_records Hskip.
  - apply yields_ret; no_records Hskip.
  - apply yields_ret; no_records Hskip.
  - by destruct (Hno k id "") as [[] _].
  - by destruct (Hno k id P') as [_ []].
  - apply yields_ret; no_records Hskip.
Qed.

End answering.

(** ** The life of the jobs of a client *)

(** C8: whatever the agent answers, whatever the processes of a client do in whatever
    order: each job is requested at most once and released at most once, with the
    JOB_RELEASE of that job, only after it was requested and only if a JOB_GRANTED for
    it was read; the scheduler knows only jobs it has requested, one it knows as
    dispatched was not released, and none is ever known as pending, since the reports
    of the sender about jobs, all of them, stay unread in its mailbox. *)
Theorem jobs_released_once p random unique NRequests Env c :
  (forall i j, unique i = unique j -> i = j) -> client_reach p random unique NRequests Env c ->
  NoDup (requested c) /\ NoDup (released c) /\ well_ordered [] (told c) /\
  (forall id, id ∈ released c -> Exists (fun P => handle_packet p P = JobGranted id) (cx_read c)) /\
  (forall id s, sc_jobs (cx_state c) !! id = Some s ->
     id ∈ requested c /\ s ≠ Pending /\ (s = Dispatched -> id ∉ released c)) /\
  filter (fun m => receivable m = false) (cx_mailbox c) = omap ack_of (cx_log c).
Proof.
  intros Hu Hreach. assert (Hi : life_inv p unique c).
  { revert c Hreach. apply (rtc_ind_r (life_inv p unique)); [|intros c c' _ Hs; by apply (client_life_step p random unique NRequests Env Hu c c')].
    split; try done; try constructor; set_solver. }
  split_and!; [apply (li_requested _ _ _ Hi)| |apply (li_order _ _ _ Hi)| | |by eapply unread_reports].
  - pose proof (li_taken _ _ _ Hi) as Ht. unfold taken in Ht. by apply NoDup_app in Ht as (_ & _ & ?).
  - intros id Hin. apply (li_granted _ _ _ Hi). unfold taken. set_solver.
  - intros id s (? & ? & Hn)%(li_jobs _ _ _ Hi). split_and!; [done..|]. intros Hs Hin. apply (Hn Hs). unfold taken. set_solver.
Qed.

(** ** A run *)

Module SchedulerEjemplo.

(** Four numbers from 0 to 255. *)
Definition ipv4 (s : string) : bool :=
  let l := split_all "." s in
  (length l =? 4)%nat && forallb (fun w => match list_to_integer w with Some n => (0 <=? n) && (n <=? 255) | None => false end) l.
Definition azar (i : nat) : Z := 7 * Z.of_nat i.
Definition ids (i : nat) : Z := 1 + Z.of_nat i.

Definition respuesta : string := "NODES 10.0.0.1:8100:cpu:4:mem:8:gpu:0;10.0.0.2:8100:cpu:2:mem:8:gpu:1" +:+ str_nl.

Example parsed_nodes :
  handle_packet ipv4 respuesta =
    NodeRecords [Node "10.0.0.1" "8100" (Some 4) (Some 8) (Some 0); Node "10.0.0.2" "8100" (Some 2) (Some 8) (Some 1)].
Proof. vm_compute. reflexivity. Qed.

Example malformed_skipped :
  handle_packet ipv4 ("NODES 10.0.0.1:0:cpu:4" +:+ str_nl) = Skip "Unknown packet" /\
  handle_packet ipv4 ("JOB_GRANTED x" +:+ str_nl) = Skip "Unknown packet" /\
  handle_packet ipv4 ("NODES " +:+ str_nl) = Skip "No nodes available".
Proof. vm_compute. done. Qed.

Definition nodos : list node :=
  [Node "10.0.0.2" "8100" (Some 2) (Some 8) (Some 1); Node "10.0.0.1" "8100" (Some 4) (Some 8) (Some 0)].

(** Sorted by address and resource, or left as drawn. *)
Example sorted_request :
  fst <$> (fst <$> generate_job_request azar 7 nodos "DEV" 1%nat) =
    Some ("JOB_REQUEST 7 @10.0.0.1:8100:cpu:2 @10.0.0.1:8100:mem:1 @10.0.0.2:8100:cpu:1 @10.0.0.2:8100:mem:4 @10.0.0.2:8100:gpu:1" +:+ str_nl).
Proof. vm_compute. reflexivity. Qed.

Local Ltac arrives m := eapply rtc_l; [by apply (cs_arrives _ _ _ _ _ m)|]; simpl app.
Local Ltac reads := eapply rtc_l; [eapply cs_receives; [reflexivity|vm_compute; reflexivity]|]; cbn [foldl perform app packet_of].
Local Ltac writes := eapply rtc_l; [by apply (cs_writes _ _ _ _ _ _ true)|]; simpl app; cbn [report].

(** A job is asked for, granted, executed and released. *)
Lemma vida : exists c, client_reach ipv4 azar ids 1%nat "DEV" c /\ requested c = [1] /\ released c = [1] /\ sc_jobs (cx_state c) = ∅ /\
  cx_mailbox c = [OkJob 1 Request; OkJob 1 Release].
Proof.
  eexists. split.
  { unfold client_reach, fresh_client. arrives (SenderPid 1). reads. arrives (PacketReceived respuesta). reads. writes.
    arrives (PacketReceived ("JOB_GRANTED 1" +:+ str_nl)). reads.
    eapply rtc_l; [apply (cs_worked _ _ _ _ _ 1 1%nat _ _ _ [] [])|]. simpl app. writes.
    eapply rtc_l; [apply (cs_ends _ _ _ _ _ 1 _ _ _ _ [] [])|]. simpl app. reads. apply rtc_refl. }
  vm_compute. done.
Qed.

Lemma jobs_released_once_witness :
  exists c, released c = [1] /\ NoDup (requested c) /\ NoDup (released c) /\ well_ordered [] (told c) /\
  (forall id, id ∈ released c -> Exists (fun P => handle_packet ipv4 P = JobGranted id) (cx_read c)) /\
  (forall id s, sc_jobs (cx_state c) !! id = Some s ->
     id ∈ requested c /\ s ≠ Pending /\ (s = Dispatched -> id ∉ released c)) /\
  filter (fun m => receivable m = false) (cx_mailbox c) = omap ack_of (cx_log c).
Proof.
  destruct vida as (c & Hc & _ & Hrel & _). exists c. split; [exact Hrel|].
  exact (jobs_released_once ipv4 azar ids 1%nat "DEV" c ltac:(unfold ids; lia) Hc).
Defined.

Lemma scheduler_goes_on_witness :
  exists st' effs j, handle_message ipv4 azar ids 1%nat (normalize_env "PROD") (SchedulerState None (Some 1%nat) ∅)
      (PacketReceived respuesta) 0%nat = Some ((st', effs), j) /\
    (forall P, PacketReceived respuesta = PacketReceived P -> do_handle_packet ipv4 P = None ->
       st' = SchedulerState None (Some 1%nat) ∅ /\ effs = []) /\
    (forall P l, PacketReceived respuesta = PacketReceived P -> handle_packet ipv4 P = NodeRecords l ->
       length effs = 1%nat /\ Forall (asks (normalize_env "PROD") l 1%nat) effs) /\
    ((exists reason, PacketReceived respuesta = ErrorReason reason) <-> EHalt ∈ effs).
Proof.
  exact (scheduler_goes_on ipv4 azar ids 1%nat "PROD" (SchedulerState None (Some 1%nat) ∅) 1%nat
    (PacketReceived respuesta) 0%nat eq_refl).
Defined.

(** A directory with nothing free makes a request without petitions. *)
Example empty_request :
  generate_job_request azar 7 [Node "10.0.0.1" "8100" (Some 0) (Some 0) (Some 0)] "DEV" 0%nat =
    Some (("JOB_REQUEST 7" +:+ str_nl, []), 2%nat).
Proof. vm_compute. reflexivity. Qed.

(** The report of a request that was not written is not read: the job stays known. *)
Example failed_request_kept :
  receive [ErrorJob 1 Request "JOB_REQUEST 1"; DumpState] = Some (DumpState, [ErrorJob 1 Request "JOB_REQUEST 1"]).
Proof. reflexivity. Qed.

End SchedulerEjemplo.
