(* ===== verification/Bridge.v ===== *)
(** * Bridge: [src/erlang/erlang_c_bridge.erl], the connection of the scheduler

    [connect] with its retries, the two processes it starts, what the receiver makes
    of what arrives and the sender of what it is told, and [split_messages].  The
    answers of [gen_tcp] are arguments. *)

From Stdlib Require Import Ascii.
From S2P Require Import Prelude CString Erlang Scheduler.
Local Open Scope Z_scope.

(** ** Connecting *)

(** What [connect] does: ask for a connection, spawn the handler of its socket, tell
    the scheduler, wait, stop the program. *)
Inductive bridge_action :=
  | BConnect
  | BSpawnHandler (Socket : nat)
  | BTell (m : message)
  | BSleep
  | BHalt.

(** [answers i] is the socket of the [i]-th call of [gen_tcp:connect], if it succeeds. *)
Fixpoint connect (answers : nat -> option nat) (i : nat) (Nth_try : nat) : list bridge_action :=
  match Nth_try with
  | O => [BTell (ErrorReason "Out of tries"); BSleep; BHalt]
  | S n =>
      match answers i with
      | Some Socket => [BConnect; BSpawnHandler Socket]
      | None => [BConnect; BSleep] ++ connect answers (S i) n
      end
  end.

Definition TRIES : nat := 3.

(** The messages of [conn_handler] to the scheduler, after it has spawned both. *)
Definition conn_handler (ReceiverId SenderId : pid) : list message := [ReceiverPid ReceiverId; SenderPid SenderId].

(** ** Receiving and sending *)

Inductive recv_result := RPacket (Packet : string) | RClosed | RError (Reason : string).

(** The message of the receiver to the scheduler, and whether it goes on. *)
Definition receiver (r : recv_result) : message * bool :=
  match r with
  | RPacket P => (PacketReceived P, true)
  | RClosed => (ErrorReason "closed", false)
  | RError Reason => (ErrorReason Reason, false)
  end.

(** What the sender writes. *)
Definition packet_text (o : order) : string :=
  match o with
  | GetNodes => "GET_NODES" +:+ str_nl
  | JobDirective _ _ P => P
  end.

(** What it writes and what it then tells the scheduler, [ok] the result of
    [gen_tcp:send]. *)
Definition sender (o : order) (ok : bool) : string * message := (packet_text o, report o ok).

(** [binary:split(Buffer, <<"\n">>)], and the loop over its results. *)
Fixpoint split_line (s : string) : option (string * string) :=
  match s with
  | EmptyString => None
  | String c r =>
      if Ascii.eqb c ch_nl then Some (EmptyString, r)
      else '(Msg, Rest) ← split_line r; Some (String c Msg, Rest)
  end.

Fixpoint split_messages (fuel : nat) (Buffer : string) (Acc : list string) : option (list string * string) :=
  match fuel with
  | O => None
  | S fuel' =>
      match split_line Buffer with
      | None => Some (rev Acc, Buffer)
      | Some (Msg, Rest) =>
          if (0 <? String.length Msg)%nat then split_messages fuel' Rest (Msg :: Acc)
          else split_messages fuel' Rest Acc
      end
  end.

(** One round for each character and one for the rest. *)
Definition split_all_messages (Buffer : string) : option (list string * string) :=
  split_messages (S (String.length Buffer)) Buffer [].

(** ** What they do *)

(** [connect] asks at most [Nth_try] times, stops at the first success, and after the
    last failure tells the scheduler and stops the program. *)
Lemma connect_spec answers i n :
  (exists k s, (k < n)%nat /\ answers (i + k)%nat = Some s /\ (forall j, (j < k)%nat -> answers (i + j)%nat = None) /\
     connect answers i n = concat (replicate k [BConnect; BSleep]) ++ [BConnect; BSpawnHandler s]) \/
  ((forall j, (j < n)%nat -> answers (i + j)%nat = None) /\
     connect answers i n = concat (replicate n [BConnect; BSleep]) ++ [BTell (ErrorReason "Out of tries"); BSleep; BHalt]).
Proof.
  revert i. induction n as [|n IH]; intros i; simpl.
  - right. split; [lia|done].
  - destruct (answers i) as [s|] eqn:Hi.
    + left. exists 0%nat, s. rewrite Nat.add_0_r. split_and!; [lia|done|lia|done].
    + destruct (IH (S i)) as [(k & s & Hk & Hs & Hno & Hc)|[Hno Hc]]; rewrite Hc.
      * left. exists (S k), s. rewrite Nat.add_succ_r. split_and!; [lia|done| |done].
        intros [|j] Hj; [by rewrite Nat.add_0_r|]. rewrite Nat.add_succ_r. apply Hno. lia.
      * right. split; [|done]. intros [|j] Hj; [by rewrite Nat.add_0_r|]. rewrite Nat.add_succ_r. apply Hno. lia.
Qed.

Lemma split_line_spec s :
  match split_line s with
  | Some (Msg, Rest) => s = Msg +:+ String ch_nl Rest /\ no_char ch_nl Msg = true
  | None => no_char ch_nl s = true
  end.
Proof.
  induction s as [|c s IH]; [done|]. cbn [split_line]. destruct (Ascii.eqb_spec c ch_nl) as [->|Hne]; [done|].
  assert (Hc : negb (Ascii.eqb c ch_nl) = true) by (by apply negb_true_iff, Ascii.eqb_neq).
  destruct (split_line s) as [[Msg Rest]|]; cbn [mbind option_bind no_char]; rewrite Hc; [|done].
  destruct IH as [-> Hm]. done.
Qed.

(** The whole messages of a buffer, those that [strtok] would give, and what is left
    after the last end of line, to be put before what arrives next. *)
Lemma split_messages_spec fuel s Acc :
  (String.length s < fuel)%nat ->
  exists ms rest, split_messages fuel s Acc = Some (rev Acc ++ ms, rest) /\ no_char ch_nl rest = true /\
    exists pre, s = pre +:+ rest /\ strtok_all ch_nl pre = ms /\ (pre = EmptyString \/ exists p, pre = p +:+ str_nl).
Proof.
  revert s Acc. induction fuel as [|fuel IH]; intros s Acc Hf; [lia|]. simpl.
  pose proof (split_line_spec s) as Hs. destruct (split_line s) as [[Msg Rest]|].
  - destruct Hs as [-> Hm]. rewrite str_length_app in Hf. simpl in Hf.
    assert (Hend : forall pre, pre = EmptyString \/ (exists p, pre = p +:+ str_nl) ->
              exists p, Msg +:+ String ch_nl pre = p +:+ str_nl).
    { intros pre [->|[p ->]]; [by exists Msg|]. exists (Msg +:+ String ch_nl p). by rewrite str_app_assoc. }
    destruct (IH Rest (if (0 <? String.length Msg)%nat then Msg :: Acc else Acc)) as (ms & rest & He & Hr & pre & -> & Ht & Hpre);
      [lia|].
    exists (match Msg with EmptyString => [] | _ => [Msg] end ++ ms), rest. split_and!; [| |exists (Msg +:+ String ch_nl pre)].
    + destruct Msg as [|c Msg]; simpl in He |- *; [done|]. rewrite He. by rewrite <- app_assoc.
    + done.
    + split_and!; [by rewrite str_app_assoc| |right; by apply Hend].
      unfold strtok_all in *. rewrite strtok_from_run by done. cbn [String.append strtok_from].
      rewrite Ascii.eqb_refl, Ht. by destruct Msg.
  - exists [], s. rewrite app_nil_r. split_and!; [done..|]. exists EmptyString. split_and!; [done|done|by left].
Qed.

Lemma split_messages_acc fuel s Acc :
  split_messages fuel s Acc = '(ms, rest) ← split_messages fuel s []; Some (rev Acc ++ ms, rest).
Proof.
  revert s Acc. induction fuel as [|fuel IH]; intros s Acc; [done|]. simpl.
  destruct (split_line s) as [[Msg Rest]|]; [|simpl; by rewrite ?app_nil_r].
  destruct (0 <? String.length Msg)%nat; [|by apply IH].
  rewrite (IH Rest (Msg :: Acc)), (IH Rest [Msg]). destruct (split_messages fuel Rest []) as [[ms rest]|]; [|done].
  simpl. by rewrite <- app_assoc.
Qed.

Lemma split_messages_more fuel fuel' s Acc r :
  split_messages fuel s Acc = Some r -> (fuel <= fuel')%nat -> split_messages fuel' s Acc = Some r.
Proof.
  revert fuel' s Acc. induction fuel as [|fuel IH]; intros [|fuel'] s Acc H Hf; try done; [lia|]. simpl in *.
  destruct (split_line s) as [[Msg Rest]|]; [|done]. destruct (0 <? String.length Msg)%nat; apply IH; (done || lia).
Qed.

Lemma split_line_app A B Msg Rest : split_line A = Some (Msg, Rest) -> split_line (A +:+ B) = Some (Msg, Rest +:+ B).
Proof.
  revert Msg Rest. induction A as [|c A IH]; intros Msg Rest H; [done|]. simpl in *. destruct (Ascii.eqb c ch_nl).
  - by injection H as <- <-.
  - destruct (split_line A) as [[M R]|]; [|done]. injection H as <- <-. by rewrite (IH M R).
Qed.

Lemma split_messages_chunk fuel A Acc ms rest B fuel2 r :
  split_messages fuel A Acc = Some (ms, rest) -> split_messages fuel2 (rest +:+ B) (rev ms) = Some r ->
  exists fuel3, split_messages fuel3 (A +:+ B) Acc = Some r.
Proof.
  revert A Acc. induction fuel as [|fuel IH]; intros A Acc H H2; [done|]. simpl in H.
  destruct (split_line A) as [[Msg Rest]|] eqn:HA.
  - assert (Hr : exists fuel3, split_messages fuel3 (Rest +:+ B) (if (0 <? String.length Msg)%nat then Msg :: Acc else Acc) = Some r)
      by (destruct (0 <? String.length Msg)%nat; by eapply IH).
    destruct Hr as [fuel3 H3]. exists (S fuel3). simpl. rewrite (split_line_app A B Msg Rest HA).
    by destruct (0 <? String.length Msg)%nat.
  - injection H as <- <-. rewrite rev_involutive in H2. by exists fuel2.
Qed.

Lemma split_messages_total s : exists ms rest, split_all_messages s = Some (ms, rest) /\ no_char ch_nl rest = true.
Proof. destruct (split_messages_spec (S (String.length s)) s []) as (ms & rest & He & Hr & _); [lia|]. by exists ms, rest. Qed.

(** A message that arrives in pieces is put together: the messages of two chunks are
    those of the first, and those of its rest with the second. *)
Lemma split_messages_joins A B m1 r1 m2 r2 :
  split_all_messages A = Some (m1, r1) -> split_all_messages (r1 +:+ B) = Some (m2, r2) ->
  split_all_messages (A +:+ B) = Some (m1 ++ m2, r2).
Proof.
  intros H1 H2. destruct (split_messages_total (A +:+ B)) as (ms & rest & H & _). rewrite H.
  assert (H2' : split_messages (S (String.length (r1 +:+ B))) (r1 +:+ B) (rev m1) = Some (m1 ++ m2, r2)).
  { rewrite split_messages_acc, rev_involutive. unfold split_all_messages in H2. by rewrite H2. }
  destruct (split_messages_chunk _ _ _ _ _ _ _ _ H1 H2') as [fuel3 H3]. unfold split_all_messages in H.
  pose proof (split_messages_more _ (fuel3 + S (String.length (A +:+ B))) _ _ _ H ltac:(lia)) as Ha.
  pose proof (split_messages_more _ (fuel3 + S (String.length (A +:+ B))) _ _ _ H3 ltac:(lia)) as Hb. congruence.
Qed.

(** Once the connection is there the scheduler knows its sender. *)
Lemma connected parse random unique N E (ReceiverId SenderId : pid) :
  exists c, client_reach parse random unique N E c /\ cx_mailbox c = [] /\ sc_sender (cx_state c) = Some SenderId.
Proof.
  exists (Client (SchedulerState (Some ReceiverId) (Some SenderId) ∅) [] 0 [] [] [] [] [] [] false). split; [|done].
  unfold client_reach, fresh_client.
  eapply rtc_l; [by apply (cs_arrives _ _ _ _ _ (ReceiverPid ReceiverId))|]. simpl app.
  eapply rtc_l; [eapply cs_receives; [reflexivity|reflexivity]|]. cbn [foldl perform app packet_of].
  eapply rtc_l; [by apply (cs_arrives _ _ _ _ _ (SenderPid SenderId))|]. simpl app.
  eapply rtc_l; [eapply cs_receives; [reflexivity|reflexivity]|]. apply rtc_refl.
Qed.
