(* ===== verification/LocalResource.v ===== *)
(** * LocalResource: [src/c_agent/src/resources/local_resource.c]

    The inventory of this machine ([local_resources_t]: totals, available
    quantities and one waiting queue per resource) and the table of the jobs that
    hold some of it ([active_jobs_t], keyed by job, socket and resource type). *)

From S2P Require Import Prelude CString Queues TablaHash CommonTypes.
Local Open Scope Z_scope.
Local Open Scope c_scope.

(** ** Data *)

Record elem_active_job_t := ActiveJob {
  aj_job_id : Z;
  aj_socket : Z;
  aj_resource_quantity : Z;
  aj_resource_type : resource_t
}.

Record elem_job_request_t := JobRequest {
  jr_job_id : Z;
  jr_socket : Z;
  jr_resource_quantity : Z;
  jr_resource_type : resource_t
}.

(** The three arrays are indexed by [res_code]. *)
Record local_resources_t := LocalResources {
  total : list Z;
  avail : list Z;
  request_queue : list (list elem_job_request_t)
}.

(** ** Active jobs *)

Definition copy_active_job (elem : elem_active_job_t) : elem_active_job_t := elem.

Definition comp_active_job (a b : elem_active_job_t) : Z :=
  if negb (aj_job_id a =? aj_job_id b) || negb (aj_socket a =? aj_socket b)
     || negb (bool_decide (aj_resource_type a = aj_resource_type b))
  then 1 else 0.

Definition hash_active_job (elem : elem_active_job_t) : Z :=
  ((aj_job_id elem *u 31) +u aj_socket elem) *u Z.of_nat RES_NUM
    +u Z.of_nat (res_code (aj_resource_type elem)).

Definition create_elem_active_job (id socket quantity : Z) (type : resource_t) : elem_active_job_t :=
  ActiveJob id socket quantity type.

#[export] Instance active_job_ops : TablaOps elem_active_job_t := {
  copia := copy_active_job;
  comp := comp_active_job;
  hash := hash_active_job
}.

Abbreviation active_jobs_t := (TablaHash elem_active_job_t).

Definition create_active_jobs_table : active_jobs_t := tablahash_crear 11.

(** ** Pending requests *)

Definition copy_job_request (elem : elem_job_request_t) : elem_job_request_t := elem.

Definition comp_job_request (a b : elem_job_request_t) : Z :=
  if negb (jr_job_id a =? jr_job_id b)
     || negb (bool_decide (jr_resource_type a = jr_resource_type b))
     || negb (jr_socket a =? jr_socket b)
  then 1 else 0.

Definition comp_job_request_by_socket (a : elem_job_request_t) (target_socket : Z) : Z :=
  if negb (jr_socket a =? target_socket) then 1 else 0.

Definition create_job_request (id socket quantity : Z) (type : resource_t) : elem_job_request_t :=
  JobRequest id socket quantity type.

(** ** Inventory *)

Definition create_local_resource (cpu gpu ram : Z) : local_resources_t :=
  let total := <[res_code RAM := ram]> (<[res_code GPU := gpu]> (<[res_code CPU := cpu]>
                 (replicate RES_NUM 0))) in
  LocalResources total total (replicate RES_NUM queue_create).

(** The destructor runs on every pending request of every queue. *)
Definition delete_local_resource {H : Type} (r : local_resources_t)
    (dest_job_request : elem_job_request_t -> H -> H) (heap : H) : option H :=
  foldM (fun heap idx => q ← request_queue r !! idx; Some (queue_destroy q dest_job_request heap))
        heap (seq 0 RES_NUM).

(** Assignments to an array cell: the reads that precede them check the index. *)
Definition set_avail (r : local_resources_t) (type : resource_t) (v : Z) : local_resources_t :=
  LocalResources (total r) (<[res_code type := v]> (avail r)) (request_queue r).

Definition set_queue (r : local_resources_t) (type : resource_t) (q : list elem_job_request_t)
  : local_resources_t :=
  LocalResources (total r) (avail r) (<[res_code type := q]> (request_queue r)).

(** ** Reservations *)

(** Result: -1 denied, 0 queued, 1 granted. *)
Definition new_job_request (r : local_resources_t) (active_jobs : active_jobs_t)
    (id socket quantity : Z) (type : resource_t)
  : option (Z * local_resources_t * active_jobs_t) :=
  tot ← total r !! res_code type;
  if tot <? quantity then Some (-1, r, active_jobs)
  else
    av ← avail r !! res_code type;
    if av <? quantity then
      q ← request_queue r !! res_code type;
      Some (0, set_queue r type (queue_add q (create_job_request id socket quantity type)
                                   copy_job_request), active_jobs)
    else
      active_jobs' ← tablahash_insertar active_jobs (create_elem_active_job id socket quantity type);
      Some (1, set_avail r type (av -u quantity), active_jobs').

(** The variables of [chk_job_request] that its loops change. *)
Record chk_state := ChkState {
  chk_out : Z;                       (* the int [out], -1 while nothing is granted *)
  chk_out_socket : Z;                (* [*out_socket] *)
  chk_resources : local_resources_t;
  chk_active : active_jobs_t
}.

(** The do-while over one queue, from the node [act] on. *)
Fixpoint chk_queue (type : resource_t) (act : list elem_job_request_t) (s : chk_state)
  : option chk_state :=
  match act with
  | [] => Some s
  | act_elem :: next =>
      let r := chk_resources s in
      av ← avail r !! res_code type;
      if av <? jr_resource_quantity act_elem then chk_queue type next s
      else
        let r1 := set_avail r type (av -u jr_resource_quantity act_elem) in
        active' ← tablahash_insertar (chk_active s)
                    (create_elem_active_job (jr_job_id act_elem) (jr_socket act_elem)
                       (jr_resource_quantity act_elem) type);
        q ← request_queue r1 !! res_code type;
        Some (ChkState (to_int (jr_job_id act_elem)) (jr_socket act_elem)
                (set_queue r1 type (queue_delete q act_elem comp_job_request)) active')
  end.

(** One iteration of the loop over the resource types, skipped once [out != -1]. *)
Definition chk_type (init : Z) (s : chk_state) (idx : nat) : option chk_state :=
  if chk_out s =? -1 then
    let type := res_of_code (Z.to_nat ((init + Z.of_nat idx) `mod` Z.of_nat RES_NUM)) in
    act ← request_queue (chk_resources s) !! res_code type;
    chk_queue type act s
  else Some s.

(** [rnd] is the value of [rand()]; the result also holds the buffer [OUT], which
    is written only when a request was granted. *)
Definition chk_job_request (r : local_resources_t) (active_jobs : active_jobs_t) (rnd : Z)
    (OUT : string) (OUT_SIZE : nat) (out_socket : Z) : option (chk_state * string) :=
  let init := rnd `mod` Z.of_nat RES_NUM in
  s ← foldM (chk_type init) (ChkState (-1) out_socket r active_jobs) (seq 0 RES_NUM);
  Some (s, if chk_out s =? -1 then OUT
           else snprintf OUT_SIZE ("GRANTED %d" +:+ str_nl) [PD (chk_out s)]).

(** ** Release *)

Definition del_active_type (job_id socket : Z) (s : local_resources_t * active_jobs_t)
    (type : resource_t) : option (local_resources_t * active_jobs_t) :=
  let '(r, jobs) := s in
  let dummy := create_elem_active_job job_id socket 0 type in
  job_actual ← tablahash_buscar jobs dummy;
  match job_actual with
  | Some job =>
      av ← avail r !! res_code (aj_resource_type job);
      jobs' ← tablahash_eliminar jobs dummy;
      Some (set_avail r (aj_resource_type job) (av +u aj_resource_quantity job), jobs')
  | None => Some (r, jobs)
  end.

Definition del_active_job (r : local_resources_t) (jobs : active_jobs_t) (job_id socket : Z)
  : option (local_resources_t * active_jobs_t) :=
  foldM (del_active_type job_id socket) (r, jobs) resource_types.

(** The while loop that walks a queue from [act], deletes each matching element
    with [del] and restarts from the head after a deletion. *)
Fixpoint purge_loop (fuel : nat) (hit : elem_job_request_t -> bool)
    (del : list elem_job_request_t -> elem_job_request_t -> list elem_job_request_t)
    (q act : list elem_job_request_t) : option (list elem_job_request_t) :=
  match fuel with
  | O => None
  | S fuel' =>
      match act with
      | [] => Some q
      | elem :: next =>
          if hit elem then let q' := del q elem in purge_loop fuel' hit del q' q'
          else purge_loop fuel' hit del q next
      end
  end.

(** Enough for the (quadratic) restarts: see [purge_loop_filter]. *)
Definition purge_fuel (q : list elem_job_request_t) : nat := (S (length q) * S (length q))%nat.

Definition purge_queue (hit : elem_job_request_t -> bool)
    (del : list elem_job_request_t -> elem_job_request_t -> list elem_job_request_t)
    (r : local_resources_t) (type : resource_t) : option local_resources_t :=
  q ← request_queue r !! res_code type;
  q' ← purge_loop (purge_fuel q) hit del q q;
  Some (set_queue r type q').

Definition del_pending_job_requests (r : local_resources_t) (job_id socket : Z)
  : option local_resources_t :=
  foldM (purge_queue (fun elem => (jr_job_id elem =? job_id) && (jr_socket elem =? socket))
                     (fun q elem => queue_delete q elem comp_job_request))
        r resource_types.

(** The visitor of the sweep: [to_delete] holds the matches found, [max] its size. *)
Definition check_dead_socket (target_socket : Z) (max : nat) (job : elem_active_job_t)
    (to_delete : list elem_active_job_t) : list elem_active_job_t :=
  if (aj_socket job =? target_socket) && (length to_delete <? max)%nat
  then to_delete ++ [job] else to_delete.

Definition SWEEP_MAX : nat := 100.

Definition reclaim_job (s : local_resources_t * active_jobs_t) (dead_job : elem_active_job_t)
  : option (local_resources_t * active_jobs_t) :=
  let '(r, jobs) := s in
  av ← avail r !! res_code (aj_resource_type dead_job);
  jobs' ← tablahash_eliminar jobs dead_job;
  Some (set_avail r (aj_resource_type dead_job) (av +u aj_resource_quantity dead_job), jobs').

Definition free_all_resources_from_socket (r : local_resources_t) (jobs : active_jobs_t) (socket : Z)
  : option (local_resources_t * active_jobs_t) :=
  to_delete ← tablahash_visitar_extra jobs (check_dead_socket socket SWEEP_MAX) [];
  '(r1, jobs1) ← foldM reclaim_job (r, jobs) to_delete;
  r2 ← foldM (purge_queue (fun elem => jr_socket elem =? socket)
                          (fun q _ => queue_delete q socket comp_job_request_by_socket))
             r1 resource_types;
  Some (r2, jobs1).

(** ** Query *)

(** (cpu, gpu, mem) *)
Definition get_local_resources (r : local_resources_t) : option (Z * Z * Z) :=
  cpu ← avail r !! res_code CPU;
  gpu ← avail r !! res_code GPU;
  mem ← avail r !! res_code RAM;
  Some (cpu, gpu, mem).

(** ** Keys *)

Definition aj_key (a : elem_active_job_t) : Z * Z * resource_t :=
  (aj_job_id a, aj_socket a, aj_resource_type a).

Lemma comp_active_job_key a b : comp_active_job a b = 0 <-> aj_key a = aj_key b.
Proof.
  unfold comp_active_job, aj_key.
  destruct (Z.eqb_spec (aj_job_id a) (aj_job_id b)), (Z.eqb_spec (aj_socket a) (aj_socket b)),
    (bool_decide_reflect (aj_resource_type a = aj_resource_type b)); simpl; split; intros; congruence.
Qed.

#[export] Instance active_job_key : HashKey elem_active_job_t (Z * Z * resource_t).
Proof.
  refine {| tkey := aj_key; comp_key := comp_active_job_key |}.
  - intros a b [= H1 H2 H3]. simpl. unfold hash_active_job. by rewrite H1, H2, H3.
  - intros a. apply wrap32_range.
  - done.
Defined.

(** ** Reading the arrays *)

Definition tot (r : local_resources_t) (t : resource_t) : Z := default 0 (total r !! res_code t).
Definition av (r : local_resources_t) (t : resource_t) : Z := default 0 (avail r !! res_code t).
Definition pend (r : local_resources_t) (t : resource_t) : list elem_job_request_t :=
  default [] (request_queue r !! res_code t).

Definition shape (r : local_resources_t) : Prop :=
  length (total r) = RES_NUM /\ length (avail r) = RES_NUM /\ length (request_queue r) = RES_NUM.

Lemma array_lookup {B} (l : list B) (d : B) t :
  valid_res t -> length l = RES_NUM -> l !! res_code t = Some (default d (l !! res_code t)).
Proof.
  intros Ht Hl. apply valid_res_code in Ht. rewrite <- Hl in Ht.
  apply lookup_lt_is_Some_2 in Ht as [x ->]. done.
Qed.

Lemma tot_lookup r t : shape r -> valid_res t -> total r !! res_code t = Some (tot r t).
Proof. intros (H & _ & _) Ht. by apply array_lookup. Qed.
Lemma av_lookup r t : shape r -> valid_res t -> avail r !! res_code t = Some (av r t).
Proof. intros (_ & H & _) Ht. by apply array_lookup. Qed.
Lemma pend_lookup r t : shape r -> valid_res t -> request_queue r !! res_code t = Some (pend r t).
Proof. intros (_ & _ & H) Ht. by apply array_lookup. Qed.

Lemma shape_set_avail r t v : shape r -> shape (set_avail r t v).
Proof. intros (? & ? & ?). unfold shape; simpl. by rewrite length_insert. Qed.
Lemma shape_set_queue r t q : shape r -> shape (set_queue r t q).
Proof. intros (? & ? & ?). unfold shape; simpl. by rewrite length_insert. Qed.

Lemma array_insert {B} (l : list B) (d x : B) t t' :
  valid_res t -> length l = RES_NUM ->
  default d (<[res_code t := x]> l !! res_code t') = if decide (t' = t) then x else default d (l !! res_code t').
Proof.
  intros Ht Hl. destruct (decide (t' = t)) as [->|Hne].
  - rewrite list_lookup_insert_eq; [done|]. rewrite Hl. by apply valid_res_code.
  - rewrite list_lookup_insert_ne; [done|]. intros Hc. by apply Hne, res_code_inj.
Qed.

Lemma av_set_avail r t v t' :
  shape r -> valid_res t -> av (set_avail r t v) t' = if decide (t' = t) then v else av r t'.
Proof. intros (_ & H & _) Ht. by apply array_insert. Qed.
Lemma pend_set_queue r t q t' :
  shape r -> valid_res t -> pend (set_queue r t q) t' = if decide (t' = t) then q else pend r t'.
Proof. intros (_ & _ & H) Ht. by apply array_insert. Qed.

(** ** Accounting *)

(** The quantity of [t] a list of active jobs holds. *)
Definition active_qty (t : resource_t) (l : list elem_active_job_t) : Z :=
  sumZ (fun a => if decide (aj_resource_type a = t) then aj_resource_quantity a else 0) l.

(** The quantity recorded under a key. *)
Definition held (jobs : active_jobs_t) (k : Z * Z * resource_t) : Z :=
  match contenido jobs !! k with Some a => aj_resource_quantity a | None => 0 end.

(** What is neither available nor recorded as granted. *)
Definition slack (r : local_resources_t) (jobs : active_jobs_t) (t : resource_t) : Z :=
  tot r t - av r t - active_qty t (items jobs).

(** The number of waiting requests. *)
Definition queued (r : local_resources_t) : Z :=
  sumZ (fun t => Z.of_nat (length (pend r t))) resource_types.

Definition active_ok (a : elem_active_job_t) : Prop :=
  valid_res (aj_resource_type a) /\ in_u32 (aj_job_id a) /\ in_u32 (aj_socket a) /\
  0 <= aj_resource_quantity a.

Definition request_ok (r : local_resources_t) (t : resource_t) (e : elem_job_request_t) : Prop :=
  jr_resource_type e = t /\ in_u32 (jr_job_id e) /\ in_u32 (jr_socket e) /\
  0 <= jr_resource_quantity e <= tot r t.

(** The invariant of the component.  [k] is the number of further requests that
    the table of active jobs is guaranteed to have room for. *)
Record local_wf (k : Z) (r : local_resources_t) (jobs : active_jobs_t) : Prop := {
  lw_shape : shape r;
  lw_tabla : tabla_wf jobs;
  lw_room : tabla_room jobs (queued r + k);
  lw_k : 0 <= k;
  lw_items : Forall active_ok (items jobs);
  lw_total : forall t, valid_res t -> in_u32 (tot r t);
  lw_avail : forall t, valid_res t -> 0 <= av r t;
  lw_slack : forall t, valid_res t -> 0 <= slack r jobs t;
  lw_pend : forall t, valid_res t -> Forall (request_ok r t) (pend r t)
}.

Lemma active_qty_nonneg t l : Forall active_ok l -> 0 <= active_qty t l.
Proof.
  intros Hl. apply sumZ_nonneg. eapply Forall_impl; [exact Hl|].
  intros a (_ & _ & _ & Hq). simpl. destruct (decide _); lia.
Qed.

(** Splitting the entry of a key off the sum. *)
Lemma active_qty_key jobs t k :
  tabla_wf jobs ->
  active_qty t (items jobs) =
    active_qty t (filter (fun b => aj_key b ≠ k) (items jobs)) +
    (if decide (k.2 = t) then held jobs k else 0).
Proof.
  intros Hwf. unfold held. destruct (contenido jobs !! k) as [a|] eqn:Hk.
  - apply contenido_lookup in Hk as [Ha Hk]; [|by apply wf_items_NoDup].
    apply items_slot in Ha as [i Hi]; [|exact (sw_ok _ _ (wf_slots _ Hwf))].
    unfold active_qty, items. rewrite (items_resto _ _ _ Hi) at 1. simpl.
    rewrite (resto_filter _ _ _ (sw_keys _ _ (wf_slots _ Hwf)) Hi). simpl in Hk |- *. rewrite Hk.
    rewrite sumZ_cons. rewrite <- Hk. simpl. destruct (decide (aj_resource_type a = t)); lia.
  - rewrite filter_true.
    + destruct (decide _); lia.
    + apply Forall_forall. exact (proj1 (contenido_lookup_None jobs k) Hk).
Qed.

Lemma active_qty_cons t a l :
  active_qty t (a :: l) =
    (if decide (aj_resource_type a = t) then aj_resource_quantity a else 0) + active_qty t l.
Proof. done. Qed.

(** ** One change of the accounts *)

Lemma slack_bounds k r jobs t :
  local_wf k r jobs -> valid_res t ->
  0 <= av r t /\ 0 <= active_qty t (items jobs) /\
  av r t + active_qty t (items jobs) <= tot r t < UINT_RANGE.
Proof.
  intros Hwf Ht. pose proof (lw_avail _ _ _ Hwf t Ht). pose proof (lw_slack _ _ _ Hwf t Ht) as Hs.
  pose proof (active_qty_nonneg t _ (lw_items _ _ _ Hwf)). pose proof (lw_total _ _ _ Hwf t Ht) as Htot.
  unfold slack, in_u32 in *. lia.
Qed.

Lemma wf_av_lookup k r jobs t : local_wf k r jobs -> valid_res t -> avail r !! res_code t = Some (av r t).
Proof. intros Hwf. apply av_lookup, (lw_shape _ _ _ Hwf). Qed.
Lemma wf_pend_lookup k r jobs t :
  local_wf k r jobs -> valid_res t -> request_queue r !! res_code t = Some (pend r t).
Proof. intros Hwf. apply pend_lookup, (lw_shape _ _ _ Hwf). Qed.

Lemma queued_set_queue r t q :
  shape r -> valid_res t ->
  queued (set_queue r t q) = queued r + Z.of_nat (length q) - Z.of_nat (length (pend r t)).
Proof.
  intros Hs Ht. unfold queued, resource_types; simpl. unfold sumZ; simpl.
  rewrite !pend_set_queue by done. destruct t; simpl; try lia. done.
Qed.

Lemma queued_nonneg r : 0 <= queued r.
Proof. unfold queued, resource_types; simpl. unfold sumZ; simpl. lia. Qed.

Lemma queued_ge r t : valid_res t -> Z.of_nat (length (pend r t)) <= queued r.
Proof. intros Ht. unfold queued, resource_types; simpl. unfold sumZ; simpl. destruct t; try lia. done. Qed.

(** Granting [q] units of [t] under the key of [e]: the table gets the entry,
    the available quantity decreases, and what was recorded under that key
    before, if anything, is no longer accounted for. *)
Lemma grant_step n r jobs e :
  shape r -> tabla_wf jobs -> tabla_room jobs n -> 1 <= n ->
  Forall active_ok (items jobs) -> active_ok e ->
  (forall t, valid_res t -> in_u32 (tot r t) /\ 0 <= av r t /\ 0 <= slack r jobs t) ->
  aj_resource_quantity e <= av r (aj_resource_type e) ->
  exists jobs', tablahash_insertar jobs e = Some jobs' /\ tabla_wf jobs' /\ tabla_room jobs' (n - 1) /\
    Forall active_ok (items jobs') /\
    contenido jobs' = <[aj_key e := e]> (contenido jobs) /\
    forall r', r' = set_avail r (aj_resource_type e)
                      (wrap32 (av r (aj_resource_type e) - aj_resource_quantity e)) ->
      shape r' /\ forall t, valid_res t ->
        0 <= av r' t /\
        av r' t = av r t - (if decide (t = aj_resource_type e) then aj_resource_quantity e else 0) /\
        slack r' jobs' t = slack r jobs t + (if decide (t = aj_resource_type e) then held jobs (aj_key e) else 0).
Proof.
  intros Hsh Hwf Hroom Hn Hok He Hacc Hq.
  destruct (tabla_room_insertar jobs e n Hwf Hroom Hn) as (jobs' & Hins & Hwf' & Hroom' & Hit).
  change (items jobs' ≡ₚ e :: filter (fun b => aj_key b ≠ aj_key e) (items jobs)) in Hit.
  exists jobs'.
  split_and!; [done|done|done| |exact (contenido_insert_items jobs jobs' e Hwf Hwf' Hit)|].
  - rewrite Hit. constructor; [done|]. rewrite Forall_forall in Hok |- *.
    intros x [_ Hx]%list_elem_of_filter. by apply Hok.
  - pose proof He as (Hty & _ & _ & Hqe). intros r' ->.
    assert (Hwrap : wrap32 (av r (aj_resource_type e) - aj_resource_quantity e)
                    = av r (aj_resource_type e) - aj_resource_quantity e).
    { apply wrap32_small. destruct (Hacc _ Hty) as (Htot & Hav & Hsl).
      pose proof (active_qty_nonneg (aj_resource_type e) _ Hok).
      unfold in_u32, slack in *. lia. }
    rewrite Hwrap. split; [by apply shape_set_avail|]. intros t Ht.
    destruct (Hacc t Ht) as (_ & Hav & _).
    assert (Hav' : av (set_avail r (aj_resource_type e)
                   (av r (aj_resource_type e) - aj_resource_quantity e)) t
                 = av r t - (if decide (t = aj_resource_type e) then aj_resource_quantity e else 0)).
    { rewrite av_set_avail by done. destruct (decide (t = aj_resource_type e)) as [->|]; lia. }
    split_and!; [|done|].
    + rewrite Hav'. destruct (decide (t = aj_resource_type e)) as [->|]; lia.
    + unfold slack. rewrite Hav'. change (tot (set_avail _ _ _) t) with (tot r t).
      rewrite Hit, active_qty_cons, (active_qty_key jobs t (aj_key e) Hwf). simpl.
      destruct (decide (t = aj_resource_type e)) as [->|Hne].
      * rewrite !decide_True by done. lia.
      * rewrite !decide_False by congruence. lia.
Qed.

(** Returning an entry to the pool. *)
Lemma release_step n r jobs d a :
  shape r -> tabla_wf jobs -> tabla_room jobs n ->
  Forall active_ok (items jobs) ->
  (forall t, valid_res t -> in_u32 (tot r t) /\ 0 <= av r t /\ 0 <= slack r jobs t) ->
  contenido jobs !! aj_key d = Some a ->
  exists jobs', tablahash_eliminar jobs d = Some jobs' /\ tabla_wf jobs' /\ tabla_room jobs' n /\
    Forall active_ok (items jobs') /\
    items jobs' = filter (fun b => aj_key b ≠ aj_key d) (items jobs) /\
    contenido jobs' = delete (aj_key d) (contenido jobs) /\
    avail r !! res_code (aj_resource_type a) = Some (av r (aj_resource_type a)) /\
    forall r', r' = set_avail r (aj_resource_type a)
                      (wrap32 (av r (aj_resource_type a) + aj_resource_quantity a)) ->
      shape r' /\ forall t, valid_res t ->
        0 <= av r' t /\
        av r' t = av r t + (if decide (t = aj_resource_type a) then aj_resource_quantity a else 0) /\
        slack r' jobs' t = slack r jobs t.
Proof.
  intros Hsh Hwf Hroom Hok Hacc Hd.
  destruct (tablahash_eliminar_spec jobs d Hwf) as (jobs' & Hdel & Hwf' & Hcap & Hit).
  change (items jobs' = filter (fun b => aj_key b ≠ aj_key d) (items jobs)) in Hit.
  pose proof Hd as Hd'. apply contenido_lookup in Hd' as [Hin Hkey]; [|by apply wf_items_NoDup].
  change (tkey a) with (aj_key a) in Hkey.
  assert (Ha : active_ok a) by (rewrite Forall_forall in Hok; by apply Hok).
  pose proof Ha as (Hty & _ & _ & Hqa).
  assert (Hsum : forall t, active_qty t (items jobs) = active_qty t (items jobs') +
                   (if decide (t = aj_resource_type a) then aj_resource_quantity a else 0)).
  { intros t. rewrite (active_qty_key jobs t (aj_key d) Hwf), Hit. unfold held. rewrite Hd, <- Hkey. simpl.
    f_equal. destruct (decide (aj_resource_type a = t)) as [->|]; [by rewrite decide_True|].
    by rewrite decide_False. }
  assert (Hok' : Forall active_ok (items jobs')).
  { rewrite Hit. rewrite Forall_forall in Hok |- *. intros x [_ Hx]%list_elem_of_filter. by apply Hok. }
  assert (Hlen : numElems jobs' <= numElems jobs).
  { rewrite (wf_num _ Hwf), (wf_num _ Hwf'), Hit.
    pose proof (length_filter (fun b => aj_key b ≠ aj_key d) (items jobs)). lia. }
  exists jobs'. split_and!; [done|done| |done|done|
    exact (contenido_delete_items jobs jobs' (aj_key d) Hwf Hwf' Hit)|by apply av_lookup|].
  { pose proof Hroom as [? _]. eapply tabla_room_shrink; [done|done|done|lia]. }
  intros r' ->.
  assert (Hwrap : wrap32 (av r (aj_resource_type a) + aj_resource_quantity a)
                  = av r (aj_resource_type a) + aj_resource_quantity a).
  { apply wrap32_small. destruct (Hacc _ Hty) as (Htot & Hav & Hsl).
    pose proof (active_qty_nonneg (aj_resource_type a) _ Hok').
    unfold in_u32, slack in *. rewrite Hsum, decide_True in Hsl by done. lia. }
  rewrite Hwrap. split; [by apply shape_set_avail|]. intros t Ht.
  destruct (Hacc t Ht) as (_ & Hav & _). unfold slack. rewrite av_set_avail by done.
  change (tot (set_avail _ _ _) t) with (tot r t). rewrite (Hsum t).
  destruct (decide (t = aj_resource_type a)) as [->|]; split_and!; lia.
Qed.

(** ** Reservations: specification *)

Lemma wf_acc k r jobs :
  local_wf k r jobs ->
  forall t, valid_res t -> in_u32 (tot r t) /\ 0 <= av r t /\ 0 <= slack r jobs t.
Proof. intros [] t Ht. auto. Qed.

(** Shrinking or replacing a queue by valid requests, within the room. *)
Lemma local_wf_set_queue k k' r jobs t q :
  local_wf k r jobs -> valid_res t -> Forall (request_ok r t) q -> 0 <= k' ->
  Z.of_nat (length q) + k' <= Z.of_nat (length (pend r t)) + k ->
  local_wf k' (set_queue r t q) jobs.
Proof.
  intros Hwf Ht Hq Hk' Hlen. pose proof (lw_shape _ _ _ Hwf) as Hs. destruct Hwf.
  split; try done; [by apply shape_set_queue| |].
  - rewrite queued_set_queue by done. eapply tabla_room_weaken; [done|].
    pose proof (queued_ge r t Ht). lia.
  - intros t' Ht'. change (Forall (request_ok r t') (pend (set_queue r t q) t')).
    rewrite pend_set_queue by done. destruct (decide (t' = t)) as [->|]; auto.
Qed.

Lemma queued_set_avail r t v : queued (set_avail r t v) = queued r.
Proof. done. Qed.

(** Granting a request to a fresh or known key, as an effect on the invariant. *)
Lemma local_wf_grant k n r jobs e :
  local_wf k r jobs -> n = queued r + k -> 1 <= n ->
  active_ok e -> aj_resource_quantity e <= av r (aj_resource_type e) ->
  exists jobs', tablahash_insertar jobs e = Some jobs' /\ tabla_wf jobs' /\ tabla_room jobs' (n - 1) /\
    contenido jobs' = <[aj_key e := e]> (contenido jobs) /\
    forall r', r' = set_avail r (aj_resource_type e)
                      (wrap32 (av r (aj_resource_type e) - aj_resource_quantity e)) ->
      (forall k' r'', total r'' = total r' -> avail r'' = avail r' -> shape r'' ->
         (forall t, valid_res t -> Forall (request_ok r'' t) (pend r'' t)) ->
         0 <= k' -> tabla_room jobs' (queued r'' + k') -> local_wf k' r'' jobs') /\
      forall t, valid_res t ->
        av r' t = av r t - (if decide (t = aj_resource_type e) then aj_resource_quantity e else 0) /\
        slack r' jobs' t = slack r jobs t + (if decide (t = aj_resource_type e) then held jobs (aj_key e) else 0).
Proof.
  intros Hwf -> Hn He Hq.
  destruct (grant_step _ r jobs e (lw_shape _ _ _ Hwf) (lw_tabla _ _ _ Hwf) (lw_room _ _ _ Hwf) Hn
             (lw_items _ _ _ Hwf) He (wf_acc _ _ _ Hwf) Hq)
    as (jobs' & Hins & Hwf' & Hroom' & Hok' & Hc & Heff).
  exists jobs'. split_and!; [done|done|done|done|]. intros r' Hr'.
  destruct (Heff r' Hr') as [Hsh' Hacc']. split; [|intros t Ht; by apply Hacc'].
  intros k' r'' Htot Hav Hsh Hpend Hk' Hroom. pose proof Hwf as [? ? ? ? Hitems ? ? ? ?].
  split; try done.
  - intros t Ht. unfold tot. rewrite Htot. subst r'. by apply (lw_total _ _ _ Hwf).
  - intros t Ht. unfold av. rewrite Hav. by apply Hacc'.
  - intros t Ht. unfold slack, tot, av. rewrite Htot, Hav.
    change (0 <= slack r' jobs' t). destruct (Hacc' t Ht) as (_ & _ & ->).
    pose proof (lw_slack _ _ _ Hwf t Ht).
    enough (0 <= held jobs (aj_key e)) by (destruct (decide _); lia).
    unfold held. destruct (contenido jobs !! aj_key e) as [a|] eqn:Ha; [|done].
    apply contenido_lookup in Ha as [Ha _]; [|by apply wf_items_NoDup, (lw_tabla _ _ _ Hwf)].
    rewrite Forall_forall in Hitems. by apply Hitems.
Qed.

(** The three outcomes of a reservation. *)
Inductive new_job_outcome (r : local_resources_t) (jobs : active_jobs_t)
    (id socket quantity : Z) (type : resource_t) : Z -> local_resources_t -> active_jobs_t -> Prop :=
  | njr_denied :
      tot r type < quantity ->
      new_job_outcome r jobs id socket quantity type (-1) r jobs
  | njr_queued :
      av r type < quantity <= tot r type ->
      new_job_outcome r jobs id socket quantity type 0
        (set_queue r type (pend r type ++ [JobRequest id socket quantity type])) jobs
  | njr_granted r' jobs' :
      quantity <= av r type ->
      r' = set_avail r type (av r type - quantity) ->
      contenido jobs' = <[(id, socket, type) := ActiveJob id socket quantity type]> (contenido jobs) ->
      new_job_outcome r jobs id socket quantity type 1 r' jobs'.

Lemma new_job_request_spec k r jobs id socket quantity type :
  local_wf k r jobs -> 1 <= k -> valid_res type ->
  in_u32 id -> in_u32 socket -> in_u32 quantity ->
  exists z r' jobs', new_job_request r jobs id socket quantity type = Some (z, r', jobs') /\
    local_wf (k - 1) r' jobs' /\ new_job_outcome r jobs id socket quantity type z r' jobs' /\
    (forall t, valid_res t -> slack r' jobs' t = slack r jobs t +
       (if decide (z = 1 /\ t = type) then held jobs (id, socket, type) else 0)).
Proof.
  intros Hwf Hk Ht Hid Hso Hq. unfold new_job_request. pose proof (lw_shape _ _ _ Hwf) as Hs.
  rewrite (tot_lookup r type Hs Ht); simpl.
  destruct (Z.ltb_spec (tot r type) quantity) as [Hden|Hle].
  { exists (-1), r, jobs. split_and!; [done| |by constructor|].
    - destruct Hwf; split; try done; [|lia]. eapply tabla_room_weaken; [done|].
      pose proof (queued_nonneg r). lia.
    - intros t _. rewrite decide_False by naive_solver. lia. }
  rewrite (av_lookup r type Hs Ht); simpl.
  destruct (Z.ltb_spec (av r type) quantity) as [Hwait|Hok].
  - rewrite (pend_lookup r type Hs Ht); simpl. rewrite queue_add_app.
    eexists 0, _, jobs. split_and!; [done| |by constructor|].
    + eapply local_wf_set_queue; [done|done| |lia|].
      * apply Forall_app. split; [by apply (lw_pend _ _ _ Hwf)|].
        repeat constructor; simpl; unfold in_u32 in *; lia.
      * rewrite length_app. simpl. lia.
    + intros t _. rewrite decide_False by naive_solver. unfold slack. simpl.
      change (tot (set_queue _ _ _) t) with (tot r t). change (av (set_queue _ _ _) t) with (av r t). lia.
  - pose proof (queued_nonneg r).
    destruct (local_wf_grant k _ r jobs (create_elem_active_job id socket quantity type) Hwf eq_refl)
      as (jobs' & -> & Hwf' & Hroom' & Hc & Heff); [lia|unfold in_u32 in *; repeat split; simpl; try done; lia|done|].
    simpl in *. destruct (Heff _ eq_refl) as [Hlw Hacc].
    assert (Hwrap : wrap32 (av r type - quantity) = av r type - quantity).
    { apply wrap32_small. pose proof (slack_bounds _ _ _ type Hwf Ht). unfold in_u32 in *. lia. }
    eexists 1, _, jobs'. split_and!; [done| | |].
    + apply Hlw; try done; [by apply shape_set_avail|exact (lw_pend _ _ _ Hwf)|lia|].
      eapply tabla_room_weaken; [done|]. rewrite queued_set_avail. lia.
    + rewrite Hwrap. by econstructor.
    + intros t Ht'. rewrite (proj2 (Hacc t Ht')). f_equal.
      destruct (decide (t = type)); [by rewrite decide_True|by rewrite decide_False by naive_solver].
Qed.

(** ** The waiting queues: specification of [chk_job_request] *)

(** Nothing in a queue fits the available quantity. *)
Definition stuck (r : local_resources_t) (t : resource_t) (l : list elem_job_request_t) : Prop :=
  Forall (fun e => av r t < jr_resource_quantity e) l.

(** [chk_job_request] grants [e], the first request of the queue of [t] that fits. *)
Record chk_grants (r : local_resources_t) (jobs : active_jobs_t) (t : resource_t)
    (e : elem_job_request_t) (s : chk_state) : Prop := {
  cg_type : valid_res t;
  cg_first : exists pre next, pend r t = pre ++ e :: next /\ stuck r t pre;
  cg_fits : jr_resource_quantity e <= av r t;
  cg_out : chk_out s = to_int (jr_job_id e);
  cg_socket : chk_out_socket s = jr_socket e;
  cg_resources : chk_resources s =
    set_queue (set_avail r t (av r t - jr_resource_quantity e)) t
              (queue_delete (pend r t) e comp_job_request);
  cg_active : contenido (chk_active s) =
    <[(jr_job_id e, jr_socket e, t) := ActiveJob (jr_job_id e) (jr_socket e) (jr_resource_quantity e) t]>
      (contenido jobs);
  cg_slack : forall t', valid_res t' -> slack (chk_resources s) (chk_active s) t' =
    slack r jobs t' + (if decide (t' = t) then held jobs (jr_job_id e, jr_socket e, t) else 0);
  cg_queued : queued (chk_resources s) = queued r - 1
}.

Lemma comp_job_request_refl e : comp_job_request e e = 0.
Proof. unfold comp_job_request. rewrite !Z.eqb_refl, bool_decide_true by done. done. Qed.

Lemma queue_delete_Forall {D} (P : elem_job_request_t -> Prop) q (d : D) compare :
  Forall P q -> Forall P (queue_delete q d compare).
Proof.
  intros Hq. destruct (queue_delete_cases q d compare) as [[_ ->]|(q1 & a & q2 & -> & _ & _ & ->)]; [done|].
  apply Forall_app in Hq as [? Hq]. apply Forall_cons in Hq as [_ ?]. by apply Forall_app.
Qed.

Lemma chk_queue_spec k r jobs t so act done_ :
  local_wf k r jobs -> valid_res t -> pend r t = done_ ++ act -> stuck r t done_ ->
  exists s, chk_queue t act (ChkState (-1) so r jobs) = Some s /\
    ((s = ChkState (-1) so r jobs /\ stuck r t (pend r t)) \/
     (exists e, chk_grants r jobs t e s /\ local_wf k (chk_resources s) (chk_active s))).
Proof.
  intros Hwf Ht. revert done_. induction act as [|e next IH]; intros done_ Hp Hst; simpl.
  { eexists. split; [done|]. left. rewrite Hp, app_nil_r. done. }
  rewrite (wf_av_lookup _ _ _ _ Hwf Ht); simpl.
  destruct (Z.ltb_spec (av r t) (jr_resource_quantity e)) as [Hlt|Hle].
  { apply (IH (done_ ++ [e])); [by rewrite <- app_assoc|]. apply Forall_app. split; [done|].
    by repeat constructor. }
  pose proof (lw_pend _ _ _ Hwf t Ht) as Hpend. pose proof (lw_shape _ _ _ Hwf) as Hs.
  pose proof Hpend as He. rewrite Hp in He. apply Forall_app in He as [_ He].
  apply Forall_cons in He as [(Hty & Hid & Hso & Hqe) _].
  assert (Hin : e ∈ pend r t) by (rewrite Hp; apply elem_of_app; right; by left).
  pose proof (queue_delete_length _ _ _ _ Hin (comp_job_request_refl e)) as Hlen.
  pose proof (queued_ge r t Ht) as Hge. pose proof (lw_k _ _ _ Hwf) as Hk.
  destruct (local_wf_grant k _ r jobs
     (create_elem_active_job (jr_job_id e) (jr_socket e) (jr_resource_quantity e) t) Hwf eq_refl)
    as (jobs' & -> & Hwf' & Hroom' & Hc & Heff); [lia|repeat split; simpl; try done; try apply Hid; try apply Hso; lia|done|].
  simpl in Heff |- *. destruct (Heff _ eq_refl) as [Hlw Hacc]. clear Heff.
  assert (Hwrap : wrap32 (av r t - jr_resource_quantity e) = av r t - jr_resource_quantity e).
  { apply wrap32_small. pose proof (slack_bounds _ _ _ t Hwf Ht). unfold in_u32. lia. }
  rewrite Hwrap in *.
  set (r1 := set_avail r t (av r t - jr_resource_quantity e)) in *.
  change (request_queue r) with (request_queue r1).
  assert (Hs1 : shape r1) by (by apply shape_set_avail).
  rewrite (pend_lookup r1 t Hs1 Ht); simpl. change (pend r1 t) with (pend r t).
  eexists. split; [done|]. right. exists e.
  assert (Hq' : queued (set_queue r1 t (queue_delete (pend r t) e comp_job_request)) = queued r - 1).
  { rewrite queued_set_queue by done. change (queued r1) with (queued r). change (pend r1 t) with (pend r t). lia. }
  split.
  - split; try done; [by exists done_, next|].
    intros t' Ht'. exact (proj2 (Hacc t' Ht')).
  - simpl. apply Hlw; try done; [by apply shape_set_queue| |].
    + intros t' Ht'. rewrite pend_set_queue by done. destruct (decide (t' = t)) as [->|].
      * change (Forall (request_ok r t) (queue_delete (pend r t) e comp_job_request)).
        by apply queue_delete_Forall.
      * exact (lw_pend _ _ _ Hwf t' Ht').
    + rewrite Hq'. eapply tabla_room_weaken; [done|lia].
Qed.

(** The resource type of the [idx]-th iteration. *)
Definition chk_order (init : Z) (idx : nat) : resource_t :=
  res_of_code (Z.to_nat ((init + Z.of_nat idx) `mod` Z.of_nat RES_NUM)).

Lemma chk_order_valid init idx : valid_res (chk_order init idx).
Proof.
  apply valid_res_code. unfold chk_order.
  pose proof (Z.mod_pos_bound (init + Z.of_nat idx) (Z.of_nat RES_NUM) ltac:(done)) as Hm.
  assert (Hn : (Z.to_nat ((init + Z.of_nat idx) `mod` Z.of_nat RES_NUM) < RES_NUM)%nat) by lia.
  revert Hn. generalize (Z.to_nat ((init + Z.of_nat idx) `mod` Z.of_nat RES_NUM)). unfold RES_NUM.
  intros [|[|[|n]]]; simpl; lia.
Qed.

(** The three iterations cover the three types, whatever [rand()] returned. *)
Lemma chk_order_covers init t :
  0 <= init < 3 -> valid_res t -> t ∈ (chk_order init <$> seq 0 RES_NUM).
Proof.
  intros Hi Ht. assert (init = 0 \/ init = 1 \/ init = 2) as [->|[->| ->]] by lia;
    rewrite valid_res_types in Ht; revert Ht; apply (bool_decide_unpack (t ∈ _ -> t ∈ _)); by destruct t.
Qed.

(** The identifier whose grant is reported as "nothing granted": -1 as an [int]. *)
Definition JOB_ID_HIDDEN : Z := UINT_RANGE - 1.

Definition no_hidden (r : local_resources_t) : Prop :=
  forall t, valid_res t -> Forall (fun e => jr_job_id e ≠ JOB_ID_HIDDEN) (pend r t).

Lemma to_int_hidden z : in_u32 z -> to_int z = -1 <-> z = JOB_ID_HIDDEN.
Proof.
  unfold in_u32, to_int, JOB_ID_HIDDEN, UINT_RANGE. intros Hz.
  destruct (Z.ltb_spec z (2 ^ 31)); lia.
Qed.

(** What a call leaves: the invariant, and, when no hidden identifier waits,
    either an unchanged state in which nothing fits, or exactly one grant. *)
Record chk_result (k : Z) (r : local_resources_t) (jobs : active_jobs_t) (so : Z)
    (types : list resource_t) (s : chk_state) : Prop := {
  cr_wf : local_wf k (chk_resources s) (chk_active s);
  cr_queued : queued (chk_resources s) <= queued r;
  cr_progress : chk_out s ≠ -1 -> queued (chk_resources s) < queued r;
  cr_slack : forall t, valid_res t -> slack r jobs t <= slack (chk_resources s) (chk_active s) t;
  cr_exact : no_hidden r ->
    (s = ChkState (-1) so r jobs /\ Forall (fun t => stuck r t (pend r t)) types) \/
    (chk_out s ≠ -1 /\ exists t e, chk_grants r jobs t e s)
}.

Lemma held_nonneg jobs k : tabla_wf jobs -> Forall active_ok (items jobs) -> 0 <= held jobs k.
Proof.
  intros Hwf Hok. unfold held. destruct (contenido jobs !! k) as [a|] eqn:Ha; [|done].
  apply contenido_lookup in Ha as [Ha _]; [|by apply wf_items_NoDup].
  rewrite Forall_forall in Hok. by apply Hok.
Qed.

Lemma chk_type_step k r jobs so init pre idx s :
  chk_result k r jobs so (chk_order init <$> pre) s ->
  exists s', chk_type init s idx = Some s' /\ chk_result k r jobs so (chk_order init <$> (pre ++ [idx])) s'.
Proof.
  intros [Hwf Hq Hprog Hsl Hex]. unfold chk_type. fold (chk_order init idx).
  pose proof (chk_order_valid init idx) as Ht.
  destruct (Z.eqb_spec (chk_out s) (-1)) as [Hout|Hout]; last first.
  { exists s. split; [done|]. split; try done. intros Hn. destruct (Hex Hn) as [[-> _]|?]; [done|by right]. }
  rewrite (wf_pend_lookup _ _ _ _ Hwf Ht); simpl. destruct s as [out os r0 jobs0]; simpl in *. subst out.
  destruct (chk_queue_spec k r0 jobs0 _ os (pend r0 (chk_order init idx)) [] Hwf Ht eq_refl)
    as (s' & -> & Hs'); [constructor|].
  exists s'. split; [done|]. destruct Hs' as [[-> Hst]|(e & Hg & Hwf')].
  - split; simpl; try done. intros Hn. destruct (Hex Hn) as [[[= -> -> ->] HF]|[? _]]; [|done].
    left. split; [done|]. rewrite fmap_app. apply Forall_app. split; [done|]. by repeat constructor.
  - split; try done.
    + rewrite (cg_queued _ _ _ _ _ Hg). lia.
    + rewrite (cg_queued _ _ _ _ _ Hg). lia.
    + intros t Htv. rewrite (cg_slack _ _ _ _ _ Hg t Htv). pose proof (Hsl t Htv).
      pose proof (held_nonneg jobs0 (jr_job_id e, jr_socket e, chk_order init idx)
                   (lw_tabla _ _ _ Hwf) (lw_items _ _ _ Hwf)). destruct (decide _); lia.
    + intros Hn. destruct (Hex Hn) as [[[= -> -> ->] HF]|[? _]]; [|done]. right. split; [|by eexists _, e].
      rewrite (cg_out _ _ _ _ _ Hg).
      destruct (cg_first _ _ _ _ _ Hg) as (p & n & Hp & _).
      assert (Hin : e ∈ pend r (chk_order init idx)) by (rewrite Hp; apply elem_of_app; right; by left).
      pose proof (lw_pend _ _ _ Hwf _ Ht) as HP. pose proof (Hn _ Ht) as HN.
      rewrite Forall_forall in HP, HN. destruct (HP e Hin) as (_ & Hid & _).
      rewrite to_int_hidden by done. by apply HN.
Qed.

Lemma chk_job_request_spec k r jobs rnd OUT n so :
  local_wf k r jobs ->
  exists s msg, chk_job_request r jobs rnd OUT n so = Some (s, msg) /\
    chk_result k r jobs so resource_types s /\
    msg = if chk_out s =? -1 then OUT
          else snprintf n ("GRANTED %d" +:+ str_nl) [PD (chk_out s)].
Proof.
  intros Hwf. unfold chk_job_request.
  set (init := rnd `mod` Z.of_nat RES_NUM).
  assert (Hinit : 0 <= init < 3) by (apply Z.mod_pos_bound; done).
  destruct (foldM_inv (chk_type init) (fun pre s => chk_result k r jobs so (chk_order init <$> pre) s)
              (seq 0 RES_NUM) (ChkState (-1) so r jobs)) as (s & -> & Hs).
  - split; simpl; try done. intros _. left. split; [done|]. constructor.
  - intros pre idx post s _ Hs. by apply chk_type_step.
  - simpl. eexists s, _. split; [done|]. split; [|done]. destruct Hs as [? ? ? ? Hex].
    split; try done. intros Hn. destruct (Hex Hn) as [[? HF]|?]; [left|by right].
    split; [done|]. rewrite Forall_forall in HF |- *. intros t Ht.
    apply HF, chk_order_covers; [done|by apply valid_res_types].
Qed.

(** ** Releases: specification *)

(** An entry given back to the pool, as an effect on the invariant. *)
Lemma local_wf_release k r jobs d a :
  local_wf k r jobs -> contenido jobs !! aj_key d = Some a ->
  exists jobs', tablahash_eliminar jobs d = Some jobs' /\
    items jobs' = filter (fun b => aj_key b ≠ aj_key d) (items jobs) /\
    contenido jobs' = delete (aj_key d) (contenido jobs) /\
    avail r !! res_code (aj_resource_type a) = Some (av r (aj_resource_type a)) /\
    forall r', r' = set_avail r (aj_resource_type a)
                      (wrap32 (av r (aj_resource_type a) + aj_resource_quantity a)) ->
      local_wf k r' jobs' /\ (forall t, pend r' t = pend r t) /\
      forall t, valid_res t ->
        av r' t = av r t + (if decide (t = aj_resource_type a) then aj_resource_quantity a else 0) /\
        slack r' jobs' t = slack r jobs t.
Proof.
  intros Hwf Hd.
  destruct (release_step _ r jobs d a (lw_shape _ _ _ Hwf) (lw_tabla _ _ _ Hwf) (lw_room _ _ _ Hwf)
              (lw_items _ _ _ Hwf) (wf_acc _ _ _ Hwf) Hd)
    as (jobs' & Hdel & Hwf' & Hroom' & Hok' & Hit & Hc & Hav & Heff).
  exists jobs'. split_and!; [done|done|done|done|]. intros r' Hr'.
  destruct (Heff r' Hr') as [Hsh' Hacc']. split_and!; [|by subst r'|intros t Ht; by apply Hacc'].
  destruct Hwf as [? ? Hroom ? ? ? ? Hsl Hp]. subst r'. split; try done.
  - intros t Ht. by apply Hacc'.
  - intros t Ht. destruct (Hacc' t Ht) as (_ & _ & ->). by apply Hsl.
Qed.

(** [del_active_job] returns to the pool exactly what the table records for the
    job and socket, whatever its types, and forgets those entries. *)
Definition del_effect (k : Z) (r : local_resources_t) (jobs : active_jobs_t) (job_id socket : Z)
    (types : list resource_t) (s : local_resources_t * active_jobs_t) : Prop :=
  local_wf k s.1 s.2 /\
  (forall t, pend s.1 t = pend r t) /\
  (forall t, valid_res t -> av s.1 t = av r t + (if decide (t ∈ types) then held jobs (job_id, socket, t) else 0)) /\
  (forall t, valid_res t -> slack s.1 s.2 t = slack r jobs t) /\
  (forall key, contenido s.2 !! key =
     if decide (key.1 = (job_id, socket) /\ key.2 ∈ types) then None else contenido jobs !! key).

Lemma decide_snoc {T} (t type : resource_t) (pre : list resource_t) (x y : T) :
  type ∉ pre ->
  (if decide (t ∈ pre ++ [type]) then x else y) =
  if decide (t = type) then x else if decide (t ∈ pre) then x else y.
Proof.
  intros Hn. destruct (decide (t = type)) as [->|Hne].
  - rewrite decide_True; [done|]. apply elem_of_app. right. by left.
  - destruct (decide (t ∈ pre)).
    + rewrite decide_True; [done|]. apply elem_of_app. by left.
    + rewrite decide_False; [done|]. rewrite elem_of_app, elem_of_cons, elem_of_nil. tauto.
Qed.

Lemma del_active_type_step k r jobs job_id socket pre type s :
  type ∉ pre -> valid_res type -> del_effect k r jobs job_id socket pre s ->
  exists s', del_active_type job_id socket s type = Some s' /\
    del_effect k r jobs job_id socket (pre ++ [type]) s'.
Proof.
  intros Hnew Ht (Hwf & Hp & Hav & Hsl & Hc). destruct s as [r0 jobs0]; simpl in *.
  rewrite (tablahash_buscar_contenido (K:=Z * Z * resource_t) jobs0 _ (lw_tabla _ _ _ Hwf)). simpl.
  change (aj_key (create_elem_active_job job_id socket 0 type)) with (job_id, socket, type).
  assert (Hsame : contenido jobs0 !! (job_id, socket, type) = contenido jobs !! (job_id, socket, type)).
  { rewrite Hc. by rewrite decide_False by naive_solver. }
  assert (Hkeys : forall key : Z * Z * resource_t, key ≠ (job_id, socket, type) ->
     (key.1 = (job_id, socket) /\ key.2 ∈ pre ++ [type]) <-> (key.1 = (job_id, socket) /\ key.2 ∈ pre)).
  { intros [js t] Hne; simpl. rewrite elem_of_app, elem_of_cons, elem_of_nil. naive_solver. }
  destruct (contenido jobs0 !! (job_id, socket, type)) as [a|] eqn:Hl.
  - destruct (local_wf_release k r0 jobs0 (create_elem_active_job job_id socket 0 type) a Hwf Hl)
      as (jobs1 & -> & _ & Hc1 & -> & Heff). simpl.
    pose proof Hl as Hl'. apply contenido_lookup in Hl' as [_ Hka];
      [|by apply wf_items_NoDup, (lw_tabla _ _ _ Hwf)].
    assert (Hta : aj_resource_type a = type) by (by injection Hka).
    destruct (Heff _ eq_refl) as (Hwf1 & Hp1 & Hacc). rewrite Hta in *.
    eexists. split; [done|]. split_and!; simpl; [done|by intros t; rewrite Hp1| | |].
    + intros t Htv. destruct (Hacc t Htv) as [-> _]. rewrite Hav by done.
      rewrite (decide_snoc t type pre _ 0) by done.
      destruct (decide (t = type)) as [->|]; [|lia].
      rewrite decide_False by done. unfold held. rewrite <- Hsame. lia.
    + intros t Htv. destruct (Hacc t Htv) as [_ ->]. by apply Hsl.
    + intros key. rewrite Hc1. change (aj_key (create_elem_active_job job_id socket 0 type)) with (job_id, socket, type).
      destruct (decide (key = (job_id, socket, type))) as [->|Hne].
      * rewrite lookup_delete_eq, decide_True; [done|]. split; [done|]. apply elem_of_app. right. by left.
      * rewrite lookup_delete_ne, Hc by done. apply decide_ext. by rewrite Hkeys.
  - exists (r0, jobs0). split; [done|]. split_and!; simpl; try done.
    + intros t Htv. rewrite Hav by done. rewrite (decide_snoc t type pre _ 0) by done.
      destruct (decide (t = type)) as [->|]; [|done]. rewrite decide_False by done.
      unfold held. by rewrite <- Hsame.
    + intros key. rewrite Hc. destruct (decide (key = (job_id, socket, type))) as [->|Hne].
      * rewrite <- Hsame. by repeat destruct (decide _).
      * apply decide_ext. by rewrite Hkeys.
Qed.

Lemma resource_types_NoDup : NoDup resource_types.
Proof. apply (bool_decide_unpack _). by vm_compute. Qed.

Lemma del_active_job_spec k r jobs job_id socket :
  local_wf k r jobs ->
  exists s, del_active_job r jobs job_id socket = Some s /\
    del_effect k r jobs job_id socket resource_types s.
Proof.
  intros Hwf. unfold del_active_job.
  apply (foldM_inv (del_active_type job_id socket) (del_effect k r jobs job_id socket)).
  - split_and!; simpl; try done.
    + intros t _. lia.
    + intros key. rewrite decide_False; [done|]. intros [_ Hx]. by apply elem_of_nil in Hx.
  - intros pre type post s Hl Hs. pose proof resource_types_NoDup as Hnd. rewrite Hl in Hnd.
    apply NoDup_app in Hnd as (_ & Hx & _).
    apply del_active_type_step; [| |done].
    + intros Hin. apply (Hx type Hin). by left.
    + apply valid_res_types. rewrite Hl. apply elem_of_app. right. by left.
Qed.

(** *** The purge of a queue *)

Section Purge.
Variable hit : elem_job_request_t -> bool.
Variable del : list elem_job_request_t -> elem_job_request_t -> list elem_job_request_t.

(** [del] removes the first hit of a queue. *)
Hypothesis del_first : forall q1 e q2,
  Forall (fun x => hit x = false) q1 -> hit e = true -> del (q1 ++ e :: q2) e = q1 ++ q2.

Definition missed (q : list elem_job_request_t) : list elem_job_request_t :=
  filter (fun e => hit e = false) q.

Lemma missed_app q1 q2 : missed (q1 ++ q2) = missed q1 ++ missed q2.
Proof. apply filter_app. Qed.

Lemma purge_loop_missed fuel q1 act :
  Forall (fun x => hit x = false) q1 ->
  (length act + (length act - length (missed act)) * S (length (q1 ++ act)) < fuel)%nat ->
  purge_loop fuel hit del (q1 ++ act) act = Some (missed (q1 ++ act)).
Proof.
  revert q1 act. induction fuel as [|fuel IH]; intros q1 act Hq1 Hf; [lia|]. simpl.
  destruct act as [|e next].
  - rewrite app_nil_r. unfold missed. by rewrite filter_true.
  - destruct (hit e) eqn:He.
    + rewrite del_first by done.
      assert (Hm : missed (e :: next) = missed next).
      { unfold missed. apply filter_cons_False. congruence. }
      replace (missed (q1 ++ e :: next)) with (missed (q1 ++ next)) by (by rewrite !missed_app, Hm).
      assert (Hmn : (length (missed next) <= length next)%nat) by apply length_filter.
      apply (IH [] (q1 ++ next)); [constructor|]. rewrite Hm in Hf. simpl.
      rewrite missed_app. assert (Hq : missed q1 = q1) by (by apply filter_true).
      rewrite Hq. rewrite !length_app in *. simpl in *. nia.
    + replace (q1 ++ e :: next) with ((q1 ++ [e]) ++ next) by (by rewrite <- app_assoc).
      apply IH; [apply Forall_app; split; [done|by repeat constructor]|].
      assert (Hm : missed (e :: next) = e :: missed next) by (by apply filter_cons_True).
      rewrite Hm in Hf. rewrite !length_app in *. simpl in *. nia.
Qed.

Lemma purge_loop_filter q : purge_loop (purge_fuel q) hit del q q = Some (missed q).
Proof.
  apply (purge_loop_missed (purge_fuel q) [] q); [constructor|]. unfold purge_fuel. simpl.
  pose proof (length_filter (fun e => hit e = false) q). unfold missed. nia.
Qed.

#[local] Arguments purge_loop : simpl never.
#[local] Arguments purge_fuel : simpl never.

(** The effect of one purge per resource type. *)
Definition purge_effect (r : local_resources_t) (types : list resource_t) (r' : local_resources_t) : Prop :=
  total r' = total r /\ avail r' = avail r /\ shape r' /\ queued r' <= queued r /\
  forall t, pend r' t = if decide (t ∈ types) then missed (pend r t) else pend r t.

Lemma purge_all k r jobs :
  local_wf k r jobs ->
  exists r', foldM (purge_queue hit del) r resource_types = Some r' /\
    purge_effect r resource_types r' /\ local_wf k r' jobs.
Proof.
  intros Hwf. pose proof (lw_shape _ _ _ Hwf) as Hs.
  destruct (foldM_inv (purge_queue hit del) (fun pre r' => purge_effect r pre r')
              resource_types r) as (r' & -> & He).
  - split_and!; done.
  - intros pre type post r0 Hl (Ht & Ha & Hs0 & Hq & Hp).
    assert (Hty : valid_res type).
    { apply valid_res_types. rewrite Hl. apply elem_of_app. right. by left. }
    pose proof resource_types_NoDup as Hnd. rewrite Hl in Hnd. apply NoDup_app in Hnd as (_ & Hx & _).
    assert (Hnew : type ∉ pre) by (intros Hin; apply (Hx type Hin); by left).
    unfold purge_queue. rewrite (pend_lookup r0 type Hs0 Hty); simpl.
    rewrite purge_loop_filter; simpl. eexists. split; [done|].
    split_and!; [done|done|by apply shape_set_queue| |].
    + rewrite queued_set_queue by done.
      pose proof (length_filter (fun e => hit e = false) (pend r0 type)). unfold missed. lia.
    + intros t. rewrite (pend_set_queue r0 type _ t Hs0 Hty), (decide_snoc t type pre _ _ Hnew).
      destruct (decide (t = type)) as [->|]; [|by rewrite Hp].
      rewrite Hp. by rewrite decide_False.
  - exists r'. split_and!; [done|done|]. destruct He as (Ht & Ha & Hs' & Hq & Hp). destruct Hwf.
    split; try done.
    + eapply tabla_room_weaken; [done|]. pose proof (queued_nonneg r'). lia.
    + intros t Htv. unfold tot. rewrite Ht. by apply lw_total0.
    + intros t Htv. unfold av. rewrite Ha. by apply lw_avail0.
    + intros t Htv. unfold slack, tot, av. rewrite Ht, Ha. by apply lw_slack0.
    + intros t Htv. rewrite Hp, decide_True by (by apply valid_res_types).
      specialize (lw_pend0 t Htv). rewrite Forall_forall in lw_pend0 |- *.
      intros e [_ Hin]%list_elem_of_filter. unfold request_ok, tot. rewrite Ht. by apply lw_pend0.
Qed.
End Purge.

(** *** Purging by request and by socket *)

Lemma del_pending_spec k r jobs job_id socket :
  local_wf k r jobs ->
  exists r', del_pending_job_requests r job_id socket = Some r' /\ local_wf k r' jobs /\
    purge_effect (fun e => (jr_job_id e =? job_id) && (jr_socket e =? socket)) r resource_types r'.
Proof.
  intros Hwf.
  destruct (purge_all (fun e => (jr_job_id e =? job_id) && (jr_socket e =? socket))
              (fun q elem => queue_delete q elem comp_job_request)) with (k := k) (r := r) (jobs := jobs)
    as (r' & Hr & He & Hw); [|done|by exists r'].
  intros q1 e q2 HF He. apply queue_delete_first; [|apply comp_job_request_refl].
  eapply Forall_impl; [exact HF|]. intros a Ha Hc. unfold comp_job_request in Hc.
  destruct (Z.eqb_spec (jr_job_id a) (jr_job_id e)) as [Hj|]; simpl in Hc; [|done].
  destruct (bool_decide (jr_resource_type a = jr_resource_type e)); simpl in Hc; [|done].
  destruct (Z.eqb_spec (jr_socket a) (jr_socket e)) as [Hso|]; simpl in Hc; [|done].
  cbn beta in Ha. rewrite Hj, Hso in Ha. congruence.
Qed.

Lemma purge_socket_spec k r jobs socket :
  local_wf k r jobs ->
  exists r', foldM (purge_queue (fun elem => jr_socket elem =? socket)
      (fun q _ => queue_delete q socket comp_job_request_by_socket)) r resource_types = Some r' /\
    purge_effect (fun e => jr_socket e =? socket) r resource_types r' /\ local_wf k r' jobs.
Proof.
  intros Hwf. apply purge_all; [|done]. intros q1 e q2 HF He.
  apply queue_delete_first; [|unfold comp_job_request_by_socket; by rewrite He].
  eapply Forall_impl; [exact HF|]. intros a Ha. unfold comp_job_request_by_socket. by rewrite Ha.
Qed.

(** *** The sweep of the active jobs *)

Definition of_socket (socket : Z) (l : list elem_active_job_t) : list elem_active_job_t :=
  filter (fun a => aj_socket a = socket) l.

Lemma sweep_collects socket m l acc :
  (length acc <= m)%nat ->
  foldl (fun s a => check_dead_socket socket m a s) acc l
    = acc ++ take (m - length acc) (of_socket socket l).
Proof.
  intros Hacc. unfold of_socket. rewrite (collect_filter _ (fun a => a) (fun a => aj_socket a = socket) m).
  - by rewrite list_fmap_id.
  - intros a s. unfold check_dead_socket. rewrite Nat.leb_antisym.
    destruct (Z.eqb_spec (aj_socket a) socket), (Nat.ltb_spec (length s) m); simpl; try done.
    all: try (by rewrite decide_True); try (by rewrite decide_False).
  - done.
Qed.

Definition reclaim_effect (k : Z) (r : local_resources_t) (jobs : active_jobs_t)
    (dead : list elem_active_job_t) (s : local_resources_t * active_jobs_t) : Prop :=
  local_wf k s.1 s.2 /\
  (forall t, pend s.1 t = pend r t) /\
  (forall t, valid_res t -> av s.1 t = av r t + active_qty t dead) /\
  (forall t, valid_res t -> slack s.1 s.2 t = slack r jobs t) /\
  (forall key, contenido s.2 !! key =
     if decide (key ∈ aj_key <$> dead) then None else contenido jobs !! key).

Lemma reclaim_all k r jobs dead :
  local_wf k r jobs -> NoDup (aj_key <$> dead) -> (forall a, a ∈ dead -> a ∈ items jobs) ->
  exists s, foldM reclaim_job (r, jobs) dead = Some s /\ reclaim_effect k r jobs dead s.
Proof.
  intros Hwf Hnd Hin.
  apply (foldM_inv reclaim_job (reclaim_effect k r jobs)).
  { split_and!; simpl; try done. intros t _. unfold active_qty. unfold sumZ; simpl. lia. }
  intros pre a post [r0 jobs0] Hl (Hwf0 & Hp & Hav & Hsl & Hc); simpl in *.
  assert (Hfresh : aj_key a ∉ aj_key <$> pre).
  { rewrite Hl, fmap_app, fmap_cons in Hnd. apply NoDup_app in Hnd as (_ & Hx & _).
    intros Hi. apply (Hx _ Hi). by left. }
  assert (Hla : contenido jobs0 !! aj_key a = Some a).
  { rewrite Hc, decide_False by done. apply contenido_lookup; [by apply wf_items_NoDup, (lw_tabla _ _ _ Hwf)|].
    split; [|done]. apply Hin. rewrite Hl. apply elem_of_app. right. by left. }
  destruct (local_wf_release k r0 jobs0 a a Hwf0 Hla) as (jobs1 & Hdel & _ & Hc1 & Hlk & Heff).
  rewrite Hlk; simpl. rewrite Hdel; simpl. eexists. split; [done|].
  destruct (Heff _ eq_refl) as (Hwf1 & Hp1 & Hacc).
  split_and!; simpl; [done|by intros t; rewrite Hp1| | |].
  - intros t Ht. destruct (Hacc t Ht) as [-> _]. rewrite Hav by done. unfold active_qty.
    rewrite sumZ_app, sumZ_cons. unfold sumZ at 3; simpl.
    destruct (decide (t = aj_resource_type a)) as [->|]; [rewrite decide_True by done|rewrite decide_False by done]; lia.
  - intros t Ht. destruct (Hacc t Ht) as [_ ->]. by apply Hsl.
  - intros key. rewrite Hc1, fmap_app. destruct (decide (key = aj_key a)) as [->|Hne].
    + rewrite lookup_delete_eq, decide_True; [done|]. apply elem_of_app. right. by left.
    + rewrite lookup_delete_ne, Hc by done. apply decide_ext.
      rewrite elem_of_app. simpl. rewrite elem_of_cons, elem_of_nil. naive_solver.
Qed.

(** The entries a call reclaims: at most [SWEEP_MAX] of the socket. *)
Definition swept (jobs : active_jobs_t) (socket : Z) : list elem_active_job_t :=
  take SWEEP_MAX (of_socket socket (items jobs)).

Record free_all_effect (k : Z) (r : local_resources_t) (jobs : active_jobs_t) (socket : Z)
    (r' : local_resources_t) (jobs' : active_jobs_t) : Prop := {
  fa_wf : local_wf k r' jobs';
  fa_pend : forall t, valid_res t -> pend r' t = filter (fun e => jr_socket e ≠ socket) (pend r t);
  fa_avail : forall t, valid_res t -> av r' t = av r t + active_qty t (swept jobs socket);
  fa_slack : forall t, valid_res t -> slack r' jobs' t = slack r jobs t;
  fa_active : forall key, contenido jobs' !! key =
    if decide (key ∈ aj_key <$> swept jobs socket) then None else contenido jobs !! key
}.

Lemma filter_NoDup_keys (l : list elem_active_job_t) (P : elem_active_job_t -> Prop) `{!forall x, Decision (P x)} :
  NoDup (aj_key <$> l) -> NoDup (aj_key <$> filter P l).
Proof.
  induction l as [|a l IH]; [done|]. rewrite fmap_cons, filter_cons. intros [Ha Hl]%NoDup_cons.
  destruct (decide (P a)); [|by apply IH]. rewrite fmap_cons. apply NoDup_cons. split; [|by apply IH].
  intros (b & Hk & [_ Hb]%list_elem_of_filter)%list_elem_of_fmap. apply Ha. rewrite Hk.
  by apply list_elem_of_fmap_2.
Qed.

Lemma free_all_spec k r jobs socket :
  local_wf k r jobs ->
  exists r' jobs', free_all_resources_from_socket r jobs socket = Some (r', jobs') /\
    free_all_effect k r jobs socket r' jobs'.
Proof.
  intros Hwf. unfold free_all_resources_from_socket.
  rewrite (wf_visitar (K:=Z * Z * resource_t) jobs _ _ (lw_tabla _ _ _ Hwf)); simpl.
  rewrite sweep_collects by (simpl; lia). rewrite app_nil_l, Nat.sub_0_r. fold (swept jobs socket).
  assert (Hsub : forall a, a ∈ swept jobs socket -> a ∈ items jobs).
  { intros a Ha. eapply elem_of_take in Ha as (i & Hi & _). apply list_elem_of_lookup_2 in Hi.
    by apply list_elem_of_filter in Hi as [_ ?]. }
  destruct (reclaim_all k r jobs (swept jobs socket) Hwf) as ([r1 jobs1] & -> & Hw1 & Hp1 & Hav1 & Hsl1 & Hc1); [|done|].
  { unfold swept. rewrite fmap_take. eapply sublist_NoDup; [|apply sublist_take].
    apply filter_NoDup_keys. exact (wf_items_NoDup jobs (lw_tabla _ _ _ Hwf)). }
  simpl in *. destruct (purge_socket_spec k r1 jobs1 socket Hw1) as (r2 & -> & (Ht & Ha & _ & _ & Hp) & Hw2).
  simpl. exists r2, jobs1. split; [done|]. split; [done| | | |done].
  - intros t Htv. rewrite Hp, decide_True by (by apply valid_res_types). rewrite Hp1.
    unfold missed. apply list_filter_iff. intros e. destruct (Z.eqb_spec (jr_socket e) socket); naive_solver.
  - intros t Htv. rewrite <- Hav1 by done. unfold av. by rewrite Ha.
  - intros t Htv. rewrite <- Hsl1 by done. unfold slack, tot, av. by rewrite Ht, Ha.
Qed.

(** ** The initial state and the reachable ones *)

(** Reservations the table of 11 slots can take before its capacity could pass
    2^30: 7 * 2^30 / 20. *)
Definition LOCAL_ROOM : Z := 375809638.

Lemma create_local_wf k cpu gpu ram :
  in_u32 cpu -> in_u32 gpu -> in_u32 ram -> 0 <= k <= LOCAL_ROOM ->
  local_wf k (create_local_resource cpu gpu ram) create_active_jobs_table /\
  (forall t, valid_res t -> slack (create_local_resource cpu gpu ram) create_active_jobs_table t = 0) /\
  (forall t, pend (create_local_resource cpu gpu ram) t = []).
Proof.
  intros Hc Hg Hr Hk. unfold LOCAL_ROOM in Hk.
  destruct (tabla_vacia_wf (A:=elem_active_job_t) (K:=Z*Z*resource_t) 11) as [Hwf Hit]; [lia|].
  change (Tabla _ 0 11) with create_active_jobs_table in Hwf, Hit.
  assert (Hp : forall t, pend (create_local_resource cpu gpu ram) t = []) by (by intros []).
  assert (Hsl : forall t, valid_res t ->
    slack (create_local_resource cpu gpu ram) create_active_jobs_table t = 0).
  { intros t Ht. unfold slack. rewrite Hit. destruct t; cbn; unfold active_qty, sumZ; simpl; lia. }
  split_and!; [|done|done]. split; try done; try lia.
  - unfold tabla_room. change (queued (create_local_resource cpu gpu ram)) with 0. cbn. lia.
  - intros t Ht. by destruct t.
  - intros t Ht. destruct t; cbn; unfold in_u32 in *; lia.
  - intros t Ht. rewrite Hsl by done. done.
  - intros t _. rewrite Hp. constructor.
Qed.

(** A state of the component after some sequence of operations; the index counts
    the reservations still allowed. *)
Inductive local_reach (cpu gpu ram : Z) : Z -> local_resources_t -> active_jobs_t -> Prop :=
  | reach_create :
      local_reach cpu gpu ram LOCAL_ROOM (create_local_resource cpu gpu ram) create_active_jobs_table
  | reach_new k r jobs id socket quantity type z r' jobs' :
      local_reach cpu gpu ram k r jobs -> 1 <= k -> valid_res type ->
      in_u32 id -> in_u32 socket -> in_u32 quantity ->
      new_job_request r jobs id socket quantity type = Some (z, r', jobs') ->
      local_reach cpu gpu ram (k - 1) r' jobs'
  | reach_chk k r jobs rnd OUT n so s msg :
      local_reach cpu gpu ram k r jobs ->
      chk_job_request r jobs rnd OUT n so = Some (s, msg) ->
      local_reach cpu gpu ram k (chk_resources s) (chk_active s)
  | reach_del k r jobs job_id socket r' jobs' :
      local_reach cpu gpu ram k r jobs ->
      del_active_job r jobs job_id socket = Some (r', jobs') ->
      local_reach cpu gpu ram k r' jobs'
  | reach_del_pending k r jobs job_id socket r' :
      local_reach cpu gpu ram k r jobs ->
      del_pending_job_requests r job_id socket = Some r' ->
      local_reach cpu gpu ram k r' jobs
  | reach_free k r jobs socket r' jobs' :
      local_reach cpu gpu ram k r jobs ->
      free_all_resources_from_socket r jobs socket = Some (r', jobs') ->
      local_reach cpu gpu ram k r' jobs'.

(** The totals never change. *)
Lemma new_job_total r jobs id socket quantity type z r' jobs' :
  new_job_request r jobs id socket quantity type = Some (z, r', jobs') -> total r' = total r.
Proof.
  unfold new_job_request. intros H. repeat (bind_step H || case_match); by simplify_eq/=.
Qed.

Lemma chk_queue_total type act s s' :
  chk_queue type act s = Some s' -> total (chk_resources s') = total (chk_resources s).
Proof.
  induction act as [|e act IH]; simpl; intros H; [by simplify_eq|].
  bind_step H. case_match; [by apply IH|]. bind_step H. bind_step H. by simplify_eq/=.
Qed.

Lemma chk_job_total r jobs rnd OUT n so s msg :
  chk_job_request r jobs rnd OUT n so = Some (s, msg) -> total (chk_resources s) = total r.
Proof.
  unfold chk_job_request. intros H. bind_step H. simplify_eq.
  eapply (foldM_pres _ (fun s => total (chk_resources s) = total r)); [| |exact E]; [|done].
  intros s0 idx s1 <- Hs. unfold chk_type in Hs. case_match; [|by simplify_eq].
  bind_step Hs. by eapply chk_queue_total.
Qed.

Lemma del_active_total r jobs job_id socket r' jobs' :
  del_active_job r jobs job_id socket = Some (r', jobs') -> total r' = total r.
Proof.
  intros H. change (total (r', jobs').1 = total r).
  eapply (foldM_pres _ (fun s => total s.1 = total r)); [| |exact H]; [|done].
  intros [r0 j0] t [r1 j1] Hr Hs; simpl in *. rewrite <- Hr. clear Hr H.
  bind_step Hs. case_match; [|by simplify_eq]. bind_step Hs. bind_step Hs. by simplify_eq/=.
Qed.

Lemma purge_total hit del r r' :
  foldM (purge_queue hit del) r resource_types = Some r' -> total r' = total r.
Proof.
  intros H. eapply (foldM_pres _ (fun s => total s = total r)); [| |exact H]; [|done].
  intros r0 t r1 <- Hs. unfold purge_queue in Hs. bind_step Hs. bind_step Hs. by simplify_eq/=.
Qed.

Lemma free_all_total r jobs socket r' jobs' :
  free_all_resources_from_socket r jobs socket = Some (r', jobs') -> total r' = total r.
Proof.
  unfold free_all_resources_from_socket. intros H. bind_step H. bind_step H.
  destruct a0 as [r1 jobs1]. bind_step H. simplify_eq.
  rewrite (purge_total _ _ _ _ E1). change (total (r1, jobs').1 = total r).
  eapply (foldM_pres _ (fun s => total s.1 = total r)); [| |exact E0]; [|done].
  intros [r0 j0] t [r2 j2] Hr Hs; simpl in *. rewrite <- Hr. clear Hr.
  bind_step Hs. bind_step Hs. by simplify_eq/=.
Qed.

Lemma reach_inv cpu gpu ram k r jobs :
  in_u32 cpu -> in_u32 gpu -> in_u32 ram ->
  local_reach cpu gpu ram k r jobs ->
  local_wf k r jobs /\ total r = [cpu; gpu; ram].
Proof.
  intros Hc Hg Hr. induction 1 as [|k r jobs id so q t z r' jobs' _ [IH IHt] Hk Ht Hid Hso Hq Hn
    |k r jobs rnd OUT n so s msg _ [IH IHt] H|k r jobs j so r' jobs' _ [IH IHt] H
    |k r jobs j so r' _ [IH IHt] H|k r jobs so r' jobs' _ [IH IHt] H].
  - split; [|done]. by apply create_local_wf.
  - rewrite (new_job_total _ _ _ _ _ _ _ _ _ Hn). split; [|done].
    destruct (new_job_request_spec k r jobs id so q t) as (? & ? & ? & Hn' & Hw & _); try done.
    rewrite Hn' in Hn. by simplify_eq.
  - rewrite (chk_job_total _ _ _ _ _ _ _ _ H). split; [|done].
    destruct (chk_job_request_spec k r jobs rnd OUT n so IH) as (? & ? & H' & Hw & _).
    rewrite H' in H. simplify_eq. exact (cr_wf _ _ _ _ _ _ Hw).
  - rewrite (del_active_total _ _ _ _ _ _ H). split; [|done].
    destruct (del_active_job_spec k r jobs j so IH) as (? & H' & Hw & _).
    rewrite H' in H. by simplify_eq.
  - rewrite (purge_total _ _ _ _ H). split; [|done].
    destruct (del_pending_spec k r jobs j so IH) as (? & H' & Hw & _).
    rewrite H' in H. by simplify_eq.
  - rewrite (free_all_total _ _ _ _ _ H). split; [|done].
    destruct (free_all_spec k r jobs so IH) as (? & ? & H' & Hw).
    rewrite H' in H. simplify_eq. exact (fa_wf _ _ _ _ _ _ Hw).
Qed.

(** ** The properties of the component *)

(** Also: [new_job_request] has exactly the three documented outcomes: denied above
    the total, queued at the end of the FIFO when it does not fit now, granted
    otherwise with the inventory decreased and the holding recorded; it never
    fails, keeps the invariant, and the unaccounted quantity only grows by what
    the same key already held. *)
Theorem new_job_request_correct k r jobs id socket quantity type :
  local_wf k r jobs -> 1 <= k -> valid_res type ->
  in_u32 id -> in_u32 socket -> in_u32 quantity ->
  exists z r' jobs', new_job_request r jobs id socket quantity type = Some (z, r', jobs') /\
    local_wf (k - 1) r' jobs' /\ new_job_outcome r jobs id socket quantity type z r' jobs' /\
    (forall t, valid_res t -> slack r' jobs' t = slack r jobs t +
       (if decide (z = 1 /\ t = type) then held jobs (id, socket, type) else 0)).
Proof. apply new_job_request_spec. Qed.

(** C39: [chk_job_request] either reports -1, leaves everything unchanged and no
    waiting request of any type fits, or grants exactly one request, the first
    that fits in its queue, with the message for its owner; whatever type
    [rand()] makes it start from.  [no_hidden]: no request of the job 2^32 - 1 waits,
    which the code would grant without saying so ([hidden_grant_is_lost]). *)
Theorem chk_job_request_correct k r jobs rnd OUT n so :
  local_wf k r jobs -> no_hidden r ->
  exists s msg, chk_job_request r jobs rnd OUT n so = Some (s, msg) /\
    local_wf k (chk_resources s) (chk_active s) /\
    ((s = ChkState (-1) so r jobs /\ msg = OUT /\
      forall t, valid_res t -> stuck r t (pend r t)) \/
     (exists t e, chk_grants r jobs t e s /\
        msg = snprintf n ("GRANTED %d" +:+ str_nl) [PD (to_int (jr_job_id e))])).
Proof.
  intros Hwf Hn. destruct (chk_job_request_spec k r jobs rnd OUT n so Hwf) as (s & msg & Hc & Hr & ->).
  eexists s, _. split; [done|]. split; [by eapply cr_wf|].
  destruct (cr_exact _ _ _ _ _ _ Hr Hn) as [[-> HF]|(Hout & t & e & Hg)].
  - left. split_and!; [done|done|]. intros t Ht. rewrite Forall_forall in HF. by apply HF, valid_res_types.
  - right. exists t, e. split; [done|]. rewrite (proj2 (Z.eqb_neq _ _) Hout).
    by rewrite (cg_out _ _ _ _ _ Hg).
Qed.

(** Also: [del_active_job] gives back to each resource exactly what the table
    recorded for the job and the socket, forgets those entries and no other, and
    leaves the waiting queues alone. *)
Theorem del_active_job_correct k r jobs job_id socket :
  local_wf k r jobs ->
  exists r' jobs', del_active_job r jobs job_id socket = Some (r', jobs') /\ local_wf k r' jobs' /\
    (forall t, valid_res t -> av r' t = av r t + held jobs (job_id, socket, t)) /\
    (forall t, pend r' t = pend r t) /\
    (forall key, contenido jobs' !! key =
       if decide (key.1 = (job_id, socket) /\ valid_res key.2) then None else contenido jobs !! key).
Proof.
  intros Hwf. destruct (del_active_job_spec k r jobs job_id socket Hwf) as ([r' jobs'] & -> & Hw & Hp & Hav & _ & Hc).
  simpl in *. exists r', jobs'. split_and!; [done|done| |done|].
  - intros t Ht. rewrite (Hav t Ht). by rewrite decide_True by (by apply valid_res_types).
  - intros key. rewrite Hc. apply decide_ext. by rewrite valid_res_types.
Qed.

(** Also: [del_pending_job_requests], with its restarting traversal, terminates and
    removes from every queue exactly the requests of the job and the socket, in
    the order of the others. *)
Theorem del_pending_correct k r jobs job_id socket :
  local_wf k r jobs ->
  exists r', del_pending_job_requests r job_id socket = Some r' /\ local_wf k r' jobs /\
    forall t, valid_res t ->
      pend r' t = filter (fun e => ~ (jr_job_id e = job_id /\ jr_socket e = socket)) (pend r t).
Proof.
  intros Hwf. destruct (del_pending_spec k r jobs job_id socket Hwf) as (r' & -> & Hw & (_ & _ & _ & _ & Hp)).
  exists r'. split_and!; [done|done|]. intros t Ht.
  rewrite Hp, decide_True by (by apply valid_res_types). unfold missed. apply list_filter_iff. intros e.
  destruct (Z.eqb_spec (jr_job_id e) job_id), (Z.eqb_spec (jr_socket e) socket); simpl; naive_solver.
Qed.

(** Also: when a connection dies, [free_all_resources_from_socket] takes back every
    quantity it held and drops every request it had waiting, provided it held at
    most 100 chunks (the size of the sweep array). *)
Theorem free_all_correct k r jobs socket :
  local_wf k r jobs -> (length (of_socket socket (items jobs)) <= SWEEP_MAX)%nat ->
  exists r' jobs', free_all_resources_from_socket r jobs socket = Some (r', jobs') /\
    local_wf k r' jobs' /\
    (forall a, a ∈ items jobs' -> aj_socket a ≠ socket) /\
    (forall t, valid_res t ->
       pend r' t = filter (fun e => jr_socket e ≠ socket) (pend r t) /\
       av r' t = av r t + active_qty t (of_socket socket (items jobs)) /\
       slack r' jobs' t = slack r jobs t).
Proof.
  intros Hwf Hlen. destruct (free_all_spec k r jobs socket Hwf) as (r' & jobs' & -> & [Hw Hp Ha Hs Hc]).
  unfold swept in *. rewrite take_ge in * by done.
  exists r', jobs'. split_and!; [done|done| |intros t Ht; split_and!; auto].
  intros a Hin Hso.
  assert (Hl : contenido jobs' !! aj_key a = Some a).
  { apply contenido_lookup; [by apply wf_items_NoDup, (lw_tabla _ _ _ Hw)|done]. }
  rewrite Hc in Hl. case_decide as Hd; [done|]. apply Hd, list_elem_of_fmap. exists a. split; [done|].
  apply list_elem_of_filter. split; [done|].
  apply contenido_lookup in Hl as [? _]; [done|by apply wf_items_NoDup, (lw_tabla _ _ _ Hwf)].
Qed.

(** Also: the inventory is never over-committed: in every state the component can
    reach by any interleaving of reservations, grants from the queues, releases
    and disconnections, available plus granted stays within the configured
    total of each resource, and nothing is negative. *)
Theorem never_overcommitted cpu gpu ram k r jobs t :
  in_u32 cpu -> in_u32 gpu -> in_u32 ram -> valid_res t ->
  local_reach cpu gpu ram k r jobs ->
  0 <= av r t /\ 0 <= active_qty t (items jobs) /\
  av r t + active_qty t (items jobs) <= tot (create_local_resource cpu gpu ram) t.
Proof.
  intros Hc Hg Hr Ht H. apply reach_inv in H as [Hw Htot]; [|done..].
  pose proof (slack_bounds _ _ _ t Hw Ht). unfold tot in *. rewrite Htot in *. simpl.
  change (<[2%nat:=ram]> (<[1%nat:=gpu]> (<[0%nat:=cpu]> [0; 0; 0]))) with [cpu; gpu; ram]. lia.
Qed.

(** Also: a reservation granted under a fresh job is undone by [del_active_job]: the
    inventory and the table of active jobs are those of before. *)
Theorem reserve_release_roundtrip k r jobs id socket quantity type :
  local_wf k r jobs -> 1 <= k -> valid_res type ->
  in_u32 id -> in_u32 socket -> in_u32 quantity ->
  quantity <= av r type -> (forall t, contenido jobs !! (id, socket, t) = None) ->
  exists r1 jobs1 r2 jobs2,
    new_job_request r jobs id socket quantity type = Some (1, r1, jobs1) /\
    del_active_job r1 jobs1 id socket = Some (r2, jobs2) /\
    (forall t, valid_res t -> av r2 t = av r t) /\ contenido jobs2 = contenido jobs.
Proof.
  intros Hwf Hk Ht Hid Hso Hq Hfit Hfresh. pose proof (lw_shape _ _ _ Hwf) as Hsh.
  destruct (new_job_request_spec k r jobs id socket quantity type) as (z & r1 & jobs1 & Hn & Hw1 & Ho & _); try done.
  pose proof (slack_bounds _ _ _ type Hwf Ht) as Hb.
  destruct Ho as [|?|r1 jobs1 _ -> Hc]; [lia|lia|].
  destruct (del_active_job_spec (k - 1) _ jobs1 id socket Hw1) as ([r2 jobs2] & Hd & _ & _ & Hav & _ & Hc2).
  eexists _, jobs1, r2, jobs2. split_and!; [exact Hn|exact Hd| |]; simpl in *.
  - intros t Htv. rewrite Hav, decide_True by (done || by apply valid_res_types).
    rewrite av_set_avail by done. unfold held. rewrite Hc.
    destruct (decide (t = type)) as [->|Hne]; [rewrite lookup_insert_eq; simpl; lia|].
    rewrite lookup_insert_ne by congruence. rewrite Hfresh. lia.
  - apply map_eq. intros [[j s] t]. rewrite Hc2, Hc. simpl. case_decide as Hd'.
    + destruct Hd' as [[= -> ->] _]. by rewrite Hfresh.
    + rewrite lookup_insert_ne; [done|]. intros [= <- <- <-]. apply Hd'. split; [done|by apply valid_res_types].
Qed.

(** Also: a second grant under a key that already holds something (same job, same
    connection, same type) overwrites the entry: the first quantity is neither
    available nor recorded any more, and no later release can give it back. *)
Theorem duplicate_reserve_leaks k r jobs id socket quantity type a :
  local_wf k r jobs -> 1 <= k -> valid_res type ->
  in_u32 id -> in_u32 socket -> in_u32 quantity ->
  contenido jobs !! (id, socket, type) = Some a -> quantity <= av r type ->
  exists r1 jobs1 r2 jobs2,
    new_job_request r jobs id socket quantity type = Some (1, r1, jobs1) /\
    del_active_job r1 jobs1 id socket = Some (r2, jobs2) /\
    slack r2 jobs2 type = slack r jobs type + aj_resource_quantity a.
Proof.
  intros Hwf Hk Ht Hid Hso Hq Hheld Hfit.
  destruct (new_job_request_spec k r jobs id socket quantity type) as (z & r1 & jobs1 & Hn & Hw1 & Ho & Hsl); try done.
  pose proof (slack_bounds _ _ _ type Hwf Ht) as Hb.
  destruct Ho as [|?|r1 jobs1 _ -> Hc]; [lia|lia|].
  destruct (del_active_job_spec (k - 1) _ jobs1 id socket Hw1) as ([r2 jobs2] & Hd & _ & _ & _ & Hsl2 & _).
  eexists _, jobs1, r2, jobs2. split_and!; [exact Hn|exact Hd|]. simpl in Hsl2.
  rewrite Hsl2, Hsl, decide_True by done. unfold held. by rewrite Hheld.
Qed.

(** ** Concrete runs *)

Module LocalEjemplo.

Definition estado : Type := local_resources_t * active_jobs_t.

(** A reservation applied to a state. *)
Definition pedir (s : estado) (id socket quantity : Z) (type : resource_t) : estado :=
  match new_job_request s.1 s.2 id socket quantity type with
  | Some (_, r, jobs) => (r, jobs)
  | None => s
  end.

Lemma pedir_wf k s id socket quantity type :
  local_wf k s.1 s.2 -> bool_decide (1 <= k /\ valid_res type /\ in_u32 id /\ in_u32 socket /\ in_u32 quantity) = true ->
  local_wf (k - 1) (pedir s id socket quantity type).1 (pedir s id socket quantity type).2.
Proof.
  intros Hwf Hb. apply bool_decide_eq_true_1 in Hb as (? & ? & ? & ? & ?). unfold pedir.
  by destruct (new_job_request_spec k s.1 s.2 id socket quantity type) as (z & r & j & -> & Hw & _).
Qed.

(** 4 CPUs, 1 GPU, 8 of memory; job 7 of connection 5 holds 3 CPUs and job 8 of
    connection 6 waits for 2. *)
Definition inicio : estado := (create_local_resource 4 1 8, create_active_jobs_table).
Definition ocupado : estado := pedir inicio 7 5 3 CPU.
Definition en_espera : estado := pedir ocupado 8 6 2 CPU.

Lemma inicio_wf : local_wf 100 inicio.1 inicio.2.
Proof. by apply create_local_wf. Qed.
Lemma ocupado_wf : local_wf 99 ocupado.1 ocupado.2.
Proof. by apply (pedir_wf 100 inicio 7 5 3 CPU inicio_wf). Qed.
Lemma en_espera_wf : local_wf 98 en_espera.1 en_espera.2.
Proof. by apply (pedir_wf 99 ocupado 8 6 2 CPU ocupado_wf). Qed.

Lemma new_job_request_correct_witness :
  exists z r' jobs', new_job_request ocupado.1 ocupado.2 8 6 2 CPU = Some (z, r', jobs') /\
    local_wf 98 r' jobs' /\ new_job_outcome ocupado.1 ocupado.2 8 6 2 CPU z r' jobs' /\
    (forall t, valid_res t -> slack r' jobs' t = slack ocupado.1 ocupado.2 t +
       (if decide (z = 1 /\ t = CPU) then held ocupado.2 (8, 6, CPU) else 0)).
Proof. exact (new_job_request_correct 99 ocupado.1 ocupado.2 8 6 2 CPU ocupado_wf
  ltac:(lia) ltac:(done) ltac:(done) ltac:(done) ltac:(done)). Defined.

Lemma en_espera_no_hidden : no_hidden en_espera.1.
Proof. intros t _. by destruct t; repeat constructor. Qed.

Lemma chk_job_request_correct_witness :
  exists s msg, chk_job_request en_espera.1 en_espera.2 1 EmptyString 64 0 = Some (s, msg) /\
    local_wf 98 (chk_resources s) (chk_active s) /\
    ((s = ChkState (-1) 0 en_espera.1 en_espera.2 /\ msg = EmptyString /\
      forall t, valid_res t -> stuck en_espera.1 t (pend en_espera.1 t)) \/
     (exists t e, chk_grants en_espera.1 en_espera.2 t e s /\
        msg = snprintf 64 ("GRANTED %d" +:+ str_nl) [PD (to_int (jr_job_id e))])).
Proof. exact (chk_job_request_correct 98 en_espera.1 en_espera.2 1 EmptyString 64 0
  en_espera_wf en_espera_no_hidden). Defined.

Lemma del_active_job_correct_witness :
  exists r' jobs', del_active_job en_espera.1 en_espera.2 7 5 = Some (r', jobs') /\ local_wf 98 r' jobs' /\
    (forall t, valid_res t -> av r' t = av en_espera.1 t + held en_espera.2 (7, 5, t)) /\
    (forall t, pend r' t = pend en_espera.1 t) /\
    (forall key, contenido jobs' !! key =
       if decide (key.1 = (7, 5) /\ valid_res key.2) then None else contenido en_espera.2 !! key).
Proof. exact (del_active_job_correct 98 en_espera.1 en_espera.2 7 5 en_espera_wf). Defined.

Lemma del_pending_correct_witness :
  exists r', del_pending_job_requests en_espera.1 8 6 = Some r' /\ local_wf 98 r' en_espera.2 /\
    forall t, valid_res t ->
      pend r' t = filter (fun e => ~ (jr_job_id e = 8 /\ jr_socket e = 6)) (pend en_espera.1 t).
Proof. exact (del_pending_correct 98 en_espera.1 en_espera.2 8 6 en_espera_wf). Defined.

Lemma free_all_correct_witness :
  exists r' jobs', free_all_resources_from_socket en_espera.1 en_espera.2 5 = Some (r', jobs') /\
    local_wf 98 r' jobs' /\
    (forall a, a ∈ items jobs' -> aj_socket a ≠ 5) /\
    (forall t, valid_res t ->
       pend r' t = filter (fun e => jr_socket e ≠ 5) (pend en_espera.1 t) /\
       av r' t = av en_espera.1 t + active_qty t (of_socket 5 (items en_espera.2)) /\
       slack r' jobs' t = slack en_espera.1 en_espera.2 t).
Proof. exact (free_all_correct 98 en_espera.1 en_espera.2 5 en_espera_wf ltac:(apply Nat.leb_le; vm_compute; reflexivity)). Defined.

Lemma never_overcommitted_witness :
  0 <= av inicio.1 CPU /\ 0 <= active_qty CPU (items inicio.2) /\
  av inicio.1 CPU + active_qty CPU (items inicio.2) <= tot (create_local_resource 4 1 8) CPU.
Proof. exact (never_overcommitted 4 1 8 LOCAL_ROOM inicio.1 inicio.2 CPU
  ltac:(done) ltac:(done) ltac:(done) ltac:(done) (reach_create 4 1 8)). Defined.

Lemma reserve_release_roundtrip_witness :
  exists r1 jobs1 r2 jobs2,
    new_job_request ocupado.1 ocupado.2 9 6 1 CPU = Some (1, r1, jobs1) /\
    del_active_job r1 jobs1 9 6 = Some (r2, jobs2) /\
    (forall t, valid_res t -> av r2 t = av ocupado.1 t) /\ contenido jobs2 = contenido ocupado.2.
Proof. exact (reserve_release_roundtrip 99 ocupado.1 ocupado.2 9 6 1 CPU ocupado_wf ltac:(lia)
  ltac:(done) ltac:(done) ltac:(done) ltac:(done) ltac:(vm_compute; discriminate) ltac:(by intros [])). Defined.

Lemma duplicate_reserve_leaks_witness :
  exists r1 jobs1 r2 jobs2,
    new_job_request ocupado.1 ocupado.2 7 5 1 CPU = Some (1, r1, jobs1) /\
    del_active_job r1 jobs1 7 5 = Some (r2, jobs2) /\
    slack r2 jobs2 CPU = slack ocupado.1 ocupado.2 CPU + 3.
Proof. exact (duplicate_reserve_leaks 99 ocupado.1 ocupado.2 7 5 1 CPU (ActiveJob 7 5 3 CPU) ocupado_wf
  ltac:(lia) ltac:(done) ltac:(done) ltac:(done) ltac:(done) ltac:(vm_compute; reflexivity) ltac:(vm_compute; discriminate)). Defined.

(** All the CPUs are held, and two requests of one job that differ in the quantity
    only wait; then one CPU is released. *)
Definition dos_iguales : estado := pedir (pedir (pedir (pedir inicio 7 5 3 CPU) 9 5 1 CPU) 8 6 2 CPU) 8 6 1 CPU.

(** Also: the request [chk_job_request] removes from the queue is the first one of
    the same job, connection and type, not the one it granted: granting the
    second of two such requests (1 CPU) drops the first (2 CPUs) and leaves the
    granted one waiting, to be granted again. *)
Theorem chk_removes_other_request :
  exists r jobs s msg, del_active_job dos_iguales.1 dos_iguales.2 9 5 = Some (r, jobs) /\
    chk_job_request r jobs 0 EmptyString 64 0 = Some (s, msg) /\
    pend r CPU = [JobRequest 8 6 2 CPU; JobRequest 8 6 1 CPU] /\
    held (chk_active s) (8, 6, CPU) = 1 /\
    pend (chk_resources s) CPU = [JobRequest 8 6 1 CPU].
Proof.
  eexists _, _, _, _. split; [vm_compute; reflexivity|]. split; [vm_compute; reflexivity|]. by vm_compute.
Qed.

(** The job 2^32 - 1 waits for 2 CPUs. *)
Definition oculto_espera : estado := pedir (pedir inicio 7 5 4 CPU) JOB_ID_HIDDEN 6 2 CPU.

(** Also: granting a waiting request of the job 2^32 - 1 is reported as -1, "nothing
    granted": the CPUs are deducted and recorded, but no message is produced. *)
Theorem hidden_grant_is_lost :
  exists r jobs s msg,
    del_active_job oculto_espera.1 oculto_espera.2 7 5 = Some (r, jobs) /\
    chk_job_request r jobs 0 EmptyString 64 0 = Some (s, msg) /\
    chk_out s = -1 /\ msg = EmptyString /\
    av r CPU = 4 /\ av (chk_resources s) CPU = 2 /\ held (chk_active s) (JOB_ID_HIDDEN, 6, CPU) = 2.
Proof.
  eexists _, _, _, _. split; [vm_compute; reflexivity|]. split; [vm_compute; reflexivity|]. by vm_compute.
Qed.

End LocalEjemplo.
