(* ===== verification/OwnedJobs.v ===== *)
(** * OwnedJobs: [src/c_agent/src/resources/owned_jobs.c]

    The jobs the local Erlang scheduler started: for each one the ordered list of
    petitions to the nodes, the index of the next RESERVE to send and which
    petitions were granted.  The array [petitions] is the list of its initialised
    cells, so [petition_count] is its length and reading a cell at or beyond it
    (uninitialised memory) is undefined, [None]. *)

From S2P Require Import Prelude CString TablaHash CommonTypes.
Local Open Scope Z_scope.
Local Open Scope c_scope.

Definition MAX_JOB_RESOURCES : nat := 50.
Definition JOB_TIMEOUT : Z := 20.

(** ** Data *)

Record job_petition_t := Petition {
  jp_ip : string;
  jp_port : Z;
  jp_type : resource_t;
  jp_quantity : Z;
  jp_is_granted : Z
}.

Record elem_owned_job_t := OwnedJob {
  oj_job_id : Z;
  oj_owner_socket : Z;
  oj_grant_notified : Z;
  oj_created_at : Z;
  oj_next_reserve_idx : Z;
  oj_petitions : list job_petition_t
}.

Definition petition_count (job : elem_owned_job_t) : Z := Z.of_nat (length (oj_petitions job)).

Definition copy_owned_job (elem : elem_owned_job_t) : elem_owned_job_t := elem.
Definition comp_owned_job (a b : elem_owned_job_t) : Z :=
  if negb (oj_job_id a =? oj_job_id b) then 1 else 0.
Definition hash_owned_job (elem : elem_owned_job_t) : Z := wrap32 (oj_job_id elem).

#[export] Instance owned_job_ops : TablaOps elem_owned_job_t := {
  copia := copy_owned_job;
  comp := comp_owned_job;
  hash := hash_owned_job
}.

Abbreviation owned_jobs_t := (TablaHash elem_owned_job_t).

Definition create_owned_jobs : owned_jobs_t := tablahash_crear 11.

(** The destructor frees the strings of the petitions and the job. *)
Definition delete_owned_jobs {H : Type} (jobs : owned_jobs_t)
    (dest_owned_job : elem_owned_job_t -> H -> H) (heap : H) : option H :=
  tablahash_destruir jobs dest_owned_job heap.

(** [elem_owned_job_t dummy = { .job_id = job_id };] *)
Definition dummy_job (job_id : Z) : elem_owned_job_t := OwnedJob job_id 0 0 0 0 [].

(** The shape shared by the operations on one job: look it up, return [missing] if
    it is not there, otherwise run [body] on it through the returned pointer. *)
Definition with_job {R : Type} (jobs : owned_jobs_t) (job_id : Z) (missing : R)
    (body : elem_owned_job_t -> option (R * elem_owned_job_t)) : option (R * owned_jobs_t) :=
  r ← buscar_casilla jobs (dummy_job job_id);
  match r with
  | None => Some (missing, jobs)
  | Some i =>
      e ← elems jobs !! i;
      job ← dato e;
      '(res, job') ← body job;
      Some (res, escribir_casilla jobs i job')
  end.

(** ** Construction *)

(** [now] is the value of [time(NULL)]. *)
Definition add_new_owned_job (jobs : owned_jobs_t) (job_id owner_socket now : Z)
  : option (Z * owned_jobs_t) :=
  jobs' ← tablahash_insertar jobs (OwnedJob job_id owner_socket 0 now 0 []);
  Some (1, jobs').

Definition get_job_owner_socket (jobs : owned_jobs_t) (job_id : Z) : option Z :=
  job ← tablahash_buscar jobs (dummy_job job_id);
  Some match job with Some j => oj_owner_socket j | None => 0 end.

Definition append_body (ip : string) (port : Z) (type : resource_t) (quantity : Z)
    (job : elem_owned_job_t) : option (Z * elem_owned_job_t) :=
  if Z.of_nat MAX_JOB_RESOURCES <=? petition_count job then Some (0, job)
  else Some (1, OwnedJob (oj_job_id job) (oj_owner_socket job) (oj_grant_notified job)
                  (oj_created_at job) (oj_next_reserve_idx job)
                  (oj_petitions job ++ [Petition ip port type quantity 0])).

Definition append_petition_to_job (jobs : owned_jobs_t) (job_id : Z) (ip : string) (port : Z)
    (type : resource_t) (quantity : Z) : option (Z * owned_jobs_t) :=
  with_job jobs job_id 0 (append_body ip port type quantity).

(** ** Responses of the remote nodes *)

Definition set_granted (p : job_petition_t) : job_petition_t :=
  Petition (jp_ip p) (jp_port p) (jp_type p) (jp_quantity p) 1.

(** The loop that computes [all_granted]. *)
Definition all_granted (ps : list job_petition_t) : bool :=
  forallb (fun p => negb (jp_is_granted p =? 0)) ps.

Definition mark_body (ip : string) (port : Z) (job : elem_owned_job_t)
  : option (Z * elem_owned_job_t) :=
  if oj_next_reserve_idx job =? 0 then Some (-1, job)
  else
    let idx := Z.to_nat (oj_next_reserve_idx job -u 1) in
    p ← oj_petitions job !! idx;
    if negb (jp_port p =? port) || negb (strcmp_eq (jp_ip p) ip) then Some (-1, job)
    else if negb (jp_is_granted p =? 0) then Some (-1, job)
    else
      let ps := <[idx := set_granted p]> (oj_petitions job) in
      let notify := all_granted ps && (oj_grant_notified job =? 0) in
      Some (if notify then 1 else 0,
            OwnedJob (oj_job_id job) (oj_owner_socket job)
              (if notify then 1 else oj_grant_notified job)
              (oj_created_at job) (oj_next_reserve_idx job) ps).

(** Result: 1 complete, 0 pending, -1 no match. *)
Definition mark_petition_as_granted (jobs : owned_jobs_t) (job_id : Z) (ip : string) (port : Z)
  : option (Z * owned_jobs_t) :=
  with_job jobs job_id (-1) (mark_body ip port).

(** ** Outgoing requests *)

(** What a RESERVE or RELEASE message needs to know of a petition. *)
Record target := Target { tg_ip : string; tg_port : Z; tg_type : resource_t; tg_quantity : Z }.

Definition target_of (p : job_petition_t) : target :=
  Target (jp_ip p) (jp_port p) (jp_type p) (jp_quantity p).

Definition next_body (job : elem_owned_job_t) : option (option target * elem_owned_job_t) :=
  if petition_count job <=? oj_next_reserve_idx job then Some (None, job)
  else
    p ← oj_petitions job !! Z.to_nat (oj_next_reserve_idx job);
    Some (Some (target_of p),
          OwnedJob (oj_job_id job) (oj_owner_socket job) (oj_grant_notified job)
            (oj_created_at job) (oj_next_reserve_idx job +u 1) (oj_petitions job)).

(** [None] is the result 0, [Some] the result 1 with the four output parameters. *)
Definition get_next_reserve (jobs : owned_jobs_t) (job_id : Z) : option (option target * owned_jobs_t) :=
  with_job jobs job_id None next_body.

(** The loop over the dispatched petitions, stopped when [max_size] are collected. *)
Definition granted_loop (job : elem_owned_job_t) (max_size : nat) : option (list target) :=
  foldM (fun acc i =>
           if (length acc <? max_size)%nat then
             p ← oj_petitions job !! i;
             Some (if jp_is_granted p =? 1 then acc ++ [target_of p] else acc)
           else Some acc)
        [] (seq 0 (Z.to_nat (oj_next_reserve_idx job))).

Definition get_granted_resources (jobs : owned_jobs_t) (job_id : Z) (max_size : nat)
  : option (list target) :=
  job ← tablahash_buscar jobs (dummy_job job_id);
  match job with
  | None => Some []
  | Some j => granted_loop j max_size
  end.

Definition remove_owned_job (jobs : owned_jobs_t) (job_id : Z) : option owned_jobs_t :=
  tablahash_eliminar jobs (dummy_job job_id).

(** ** Fault tolerance

    The visitors collect identifiers until the output array is full. *)

Definition petition_to (ip : string) (port : Z) (p : job_petition_t) : bool :=
  (jp_port p =? port) && strcmp_eq (jp_ip p) ip.

Definition check_job_for_dead_node (dead_ip : string) (dead_port : Z) (max : nat)
    (job : elem_owned_job_t) (affected_jobs : list Z) : list Z :=
  if (max <=? length affected_jobs)%nat then affected_jobs
  else if existsb (petition_to dead_ip dead_port) (oj_petitions job)
       then affected_jobs ++ [oj_job_id job] else affected_jobs.

Definition get_jobs_affected_by_dead_node (jobs : owned_jobs_t) (dead_ip : string) (dead_port : Z)
    (max_size : nat) : option (list Z) :=
  tablahash_visitar_extra jobs (check_job_for_dead_node dead_ip dead_port max_size) [].

Definition check_timeout_job (now : Z) (max : nat) (job : elem_owned_job_t) (timeout_job_ids : list Z)
  : list Z :=
  if (max <=? length timeout_job_ids)%nat then timeout_job_ids
  else if negb (oj_grant_notified job =? 0) then timeout_job_ids
  else if JOB_TIMEOUT <? now - oj_created_at job then timeout_job_ids ++ [oj_job_id job]
  else timeout_job_ids.

Definition collect_timed_out_jobs (jobs : owned_jobs_t) (max_size : nat) (now : Z) : option (list Z) :=
  tablahash_visitar_extra jobs (check_timeout_job now max_size) [].

Definition check_orphaned_jobs (dead_socket : Z) (max : nat) (job : elem_owned_job_t)
    (orphaned_jobs : list Z) : list Z :=
  if (max <=? length orphaned_jobs)%nat then orphaned_jobs
  else if oj_owner_socket job =? dead_socket then orphaned_jobs ++ [oj_job_id job]
  else orphaned_jobs.

Definition get_jobs_by_owner_socket (jobs : owned_jobs_t) (socket : Z) (max_size : nat)
  : option (list Z) :=
  tablahash_visitar_extra jobs (check_orphaned_jobs socket max_size) [].

(** ** Keys and writes through the returned pointer *)

#[export] Instance owned_job_key : HashKey elem_owned_job_t Z.
Proof.
  refine {| tkey := oj_job_id |}.
  - intros a b. simpl. unfold comp_owned_job. destruct (Z.eqb_spec (oj_job_id a) (oj_job_id b)); naive_solver.
  - intros a b H. simpl. unfold hash_owned_job. by rewrite H.
  - intros a. apply wrap32_range.
  - done.
Defined.

(** The job table as a finite map. *)
Definition jobs_map (jobs : owned_jobs_t) : gmap Z elem_owned_job_t := contenido jobs.

(** The shape of a table that keeps its slots: updates and removals. *)
Definition same_slots (jobs jobs' : owned_jobs_t) : Prop :=
  capacidad jobs' = capacidad jobs /\ numElems jobs' <= numElems jobs.

Lemma same_slots_room jobs jobs' k : same_slots jobs jobs' -> tabla_room jobs k -> tabla_room jobs' k.
Proof. intros [Hc Hn] Hr. pose proof Hr as [? _]. eapply tabla_room_shrink; [done|done|done|lia]. Qed.

Lemma job_lookup_id jobs id j : tabla_wf jobs -> jobs_map jobs !! id = Some j -> oj_job_id j = id.
Proof. intros Hwf Hl. apply contenido_lookup in Hl as [_ Hk]; [done|by apply wf_items_NoDup]. Qed.

Lemma buscar_job jobs id :
  tabla_wf jobs -> tablahash_buscar jobs (dummy_job id) = Some (jobs_map jobs !! id).
Proof. intros Hwf. exact (tablahash_buscar_contenido jobs (dummy_job id) Hwf). Qed.

Lemma escribir_job jobs (i : nat) j j' :
  tabla_wf jobs -> elems jobs !! i = Some (Casilla (Some j) 0) -> oj_job_id j' = oj_job_id j ->
  tabla_wf (escribir_casilla jobs i j') /\ same_slots jobs (escribir_casilla jobs i j') /\
  jobs_map (escribir_casilla jobs i j') = <[oj_job_id j := j']> (jobs_map jobs).
Proof.
  intros Hwf Hi Hid. destruct (escribir_casilla_spec jobs i j j' Hwf Hi Hid) as (Hwf' & Hc & Hit).
  split_and!; [done|by split|]. unfold jobs_map.
  rewrite (contenido_insert_items (K:=Z) jobs _ j' Hwf Hwf'); [simpl; by rewrite Hid|].
  change (tkey j') with (oj_job_id j'). rewrite Hid. exact Hit.
Qed.

(** [with_job] on a job of the table is [body] on it, the result stored back. *)
Lemma with_job_found {R} jobs id (missing : R) body j r j' :
  tabla_wf jobs -> jobs_map jobs !! id = Some j -> body j = Some (r, j') -> oj_job_id j' = oj_job_id j ->
  exists jobs', with_job jobs id missing body = Some (r, jobs') /\ tabla_wf jobs' /\
    same_slots jobs jobs' /\ jobs_map jobs' = <[id := j']> (jobs_map jobs).
Proof.
  intros Hwf Hj Hb Hid. unfold with_job.
  destruct (buscar_casilla_contenido jobs (dummy_job id) Hwf) as [(i & a & -> & Hi & Ha & Hk)|[_ Hn]].
  - assert (a = j) as -> by (change (jobs_map jobs !! id = Some a) in Ha; congruence).
    simpl. rewrite Hi; simpl. rewrite Hb; simpl. eexists. split; [done|].
    destruct (escribir_job jobs i j j' Hwf Hi Hid) as (? & ? & Hm). split_and!; [done|done|].
    rewrite Hm. change (tkey j) with (oj_job_id j) in Hk. by rewrite Hk.
  - change (jobs_map jobs !! id = None) in Hn. congruence.
Qed.

Lemma with_job_missing {R} jobs id (missing : R) body :
  tabla_wf jobs -> jobs_map jobs !! id = None -> with_job jobs id missing body = Some (missing, jobs).
Proof.
  intros Hwf Hj. unfold with_job.
  destruct (buscar_casilla_contenido jobs (dummy_job id) Hwf) as [(i & a & _ & _ & Ha & _)|[-> _]]; [|done].
  change (jobs_map jobs !! id = Some a) in Ha. congruence.
Qed.

(** ** The invariant of a job *)

Record job_wf (j : elem_owned_job_t) : Prop := {
  jw_count : (length (oj_petitions j) <= MAX_JOB_RESOURCES)%nat;
  jw_next : 0 <= oj_next_reserve_idx j <= petition_count j;
  jw_bool : Forall (fun p => jp_is_granted p = 0 \/ jp_is_granted p = 1) (oj_petitions j);
  jw_unsent : Forall (fun p => jp_is_granted p = 0)
                (drop (Z.to_nat (oj_next_reserve_idx j)) (oj_petitions j));
  jw_notified : oj_grant_notified j = 0 \/ oj_grant_notified j = 1
}.

(** The petitions in the order of the request, those dispatched, those granted. *)
Definition targets (j : elem_owned_job_t) : list target := target_of <$> oj_petitions j.
Definition dispatched (j : elem_owned_job_t) : list target :=
  take (Z.to_nat (oj_next_reserve_idx j)) (targets j).
Definition granted (j : elem_owned_job_t) : list target :=
  target_of <$> filter (fun p => jp_is_granted p = 1) (oj_petitions j).

Lemma job_wf_new id socket now : job_wf (OwnedJob id socket 0 now 0 []).
Proof. split; simpl; unfold petition_count; simpl; try constructor; try lia; try done. Qed.

(** What the invariant says of the index of the next RESERVE. *)
Lemma next_bounds j :
  job_wf j -> 0 <= oj_next_reserve_idx j <= 50 /\
  (Z.to_nat (oj_next_reserve_idx j) <= length (oj_petitions j))%nat.
Proof.
  intros Hj. pose proof (jw_count _ Hj). pose proof (jw_next _ Hj).
  unfold petition_count, MAX_JOB_RESOURCES in *. lia.
Qed.

Lemma target_of_set_granted p : target_of (set_granted p) = target_of p.
Proof. done. Qed.

Lemma targets_set_granted (ps : list job_petition_t) (i : nat) p :
  ps !! i = Some p -> target_of <$> <[i := set_granted p]> ps = target_of <$> ps.
Proof.
  intros Hi. rewrite list_fmap_insert, target_of_set_granted. apply list_insert_id.
  by rewrite list_lookup_fmap, Hi.
Qed.

(** *** Effect of the bodies on a well-formed job *)

Lemma append_body_spec ip port type quantity j :
  job_wf j ->
  exists z j', append_body ip port type quantity j = Some (z, j') /\ job_wf j' /\
    oj_job_id j' = oj_job_id j /\ oj_owner_socket j' = oj_owner_socket j /\
    oj_created_at j' = oj_created_at j /\ oj_grant_notified j' = oj_grant_notified j /\
    dispatched j' = dispatched j /\ oj_next_reserve_idx j' = oj_next_reserve_idx j /\
    granted j' = granted j /\
    targets j' = take MAX_JOB_RESOURCES (targets j ++ [Target ip port type quantity]) /\
    z = (if (length (targets j) <? MAX_JOB_RESOURCES)%nat then 1 else 0).
Proof.
  intros Hj. destruct (next_bounds j Hj) as [Hn1 Hn2]. unfold append_body, petition_count.
  assert (Hlt : length (targets j) = length (oj_petitions j)) by apply length_fmap.
  destruct (Z.leb_spec (Z.of_nat MAX_JOB_RESOURCES) (Z.of_nat (length (oj_petitions j)))) as [Hge|Hlt'].
  - exists 0, j. split_and!; try done.
    + pose proof (jw_count _ Hj). rewrite take_app_le, take_ge by lia. done.
    + destruct (Nat.ltb_spec (length (targets j)) MAX_JOB_RESOURCES); lia || done.
  - exists 1. eexists. split; [done|]. split.
    { destruct Hj as [Hc Hx Hb Hu Hno]. split; simpl; unfold petition_count in *; simpl; try done.
      - rewrite length_app; simpl. lia.
      - rewrite length_app; simpl. lia.
      - apply Forall_app. split; [done|]. constructor; [by left|constructor].
      - rewrite drop_app_le by lia. apply Forall_app. split; [done|]. constructor; [done|constructor]. }
    split_and!; try done.
    + unfold dispatched, targets; simpl. rewrite fmap_app, take_app_le; [done|]. by rewrite length_fmap.
    + unfold granted; simpl. rewrite filter_app, filter_cons_False by done.
      by rewrite filter_nil, app_nil_r.
    + unfold targets; simpl. rewrite fmap_app, take_ge; [done|].
      rewrite length_app, length_fmap; simpl. lia.
    + destruct (Nat.ltb_spec (length (targets j)) MAX_JOB_RESOURCES); lia || done.
Qed.

Lemma next_body_spec j :
  job_wf j ->
  exists o j', next_body j = Some (o, j') /\ job_wf j' /\
    oj_job_id j' = oj_job_id j /\ oj_owner_socket j' = oj_owner_socket j /\
    oj_created_at j' = oj_created_at j /\ oj_grant_notified j' = oj_grant_notified j /\
    targets j' = targets j /\ granted j' = granted j /\ oj_petitions j' = oj_petitions j /\
    o = targets j !! Z.to_nat (oj_next_reserve_idx j) /\
    dispatched j' = dispatched j ++ option_list o /\
    oj_next_reserve_idx j' = oj_next_reserve_idx j + Z.of_nat (length (option_list o)).
Proof.
  intros Hj. destruct (next_bounds j Hj) as [Hn1 Hn2]. unfold next_body, petition_count.
  destruct (Z.leb_spec (Z.of_nat (length (oj_petitions j))) (oj_next_reserve_idx j)) as [Hge|Hlt].
  - exists None, j. split_and!; try done.
    + unfold targets. rewrite list_lookup_fmap, lookup_ge_None_2 by lia. done.
    + simpl. by rewrite app_nil_r.
    + simpl. lia.
  - destruct (lookup_lt_is_Some_2 (oj_petitions j) (Z.to_nat (oj_next_reserve_idx j))) as [p Hp]; [lia|].
    assert (Hw : wrap32 (oj_next_reserve_idx j + 1) = oj_next_reserve_idx j + 1).
    { apply wrap32_small. unfold in_u32, UINT_RANGE. lia. }
    rewrite Hp. simpl. rewrite Hw. eexists _, _. split; [done|]. split.
    { destruct Hj as [Hc Hx Hb Hu Hno]. split; simpl; unfold petition_count in *; simpl; try done; [lia|].
      rewrite (drop_S _ _ _ Hp) in Hu. apply Forall_cons in Hu as [_ Hu].
      by replace (Z.to_nat (oj_next_reserve_idx j + 1)) with (S (Z.to_nat (oj_next_reserve_idx j))) by lia. }
    split_and!; try done.
    + unfold targets. by rewrite list_lookup_fmap, Hp.
    + unfold dispatched, targets; simpl.
      replace (Z.to_nat (oj_next_reserve_idx j + 1)) with (S (Z.to_nat (oj_next_reserve_idx j))) by lia.
      rewrite (take_S_r _ _ (target_of p)); [done|]. by rewrite list_lookup_fmap, Hp.
Qed.

(** The petition whose answer is awaited: the last one dispatched. *)
Definition last_sent (j : elem_owned_job_t) : option job_petition_t :=
  if oj_next_reserve_idx j =? 0 then None
  else oj_petitions j !! Z.to_nat (oj_next_reserve_idx j - 1).

(** A GRANTED from [ip:port] answers it. *)
Definition awaits (ip : string) (port : Z) (j : elem_owned_job_t) : Prop :=
  exists p, last_sent j = Some p /\ jp_ip p = ip /\ jp_port p = port /\ jp_is_granted p = 0.

#[export] Instance awaits_dec ip port j : Decision (awaits ip port j).
Proof.
  destruct (last_sent j) as [p|] eqn:Hl.
  - destruct (decide (jp_ip p = ip /\ jp_port p = port /\ jp_is_granted p = 0)) as [Hp|Hp].
    + left. by exists p.
    + right. intros (q & Hq & Hqs). rewrite Hl in Hq. by simplify_eq.
  - right. intros (q & Hq & _). by rewrite Hl in Hq.
Defined.

Lemma granted_set (ps : list job_petition_t) (i : nat) p :
  ps !! i = Some p -> jp_is_granted p = 0 ->
  target_of <$> filter (fun p => jp_is_granted p = 1) (<[i := set_granted p]> ps)
    ≡ₚ target_of p :: (target_of <$> filter (fun p => jp_is_granted p = 1) ps).
Proof.
  intros Hi Hp. rewrite insert_take_drop by (by eapply lookup_lt_Some).
  rewrite <- (take_drop_middle ps i p Hi) at 3.
  rewrite !filter_app, !fmap_app, (filter_cons_True _ (set_granted p)) by done.
  rewrite (filter_cons_False _ p) by (rewrite Hp; discriminate). simpl.
  symmetry. apply Permutation_middle.
Qed.

Lemma all_granted_spec ps :
  Forall (fun p => jp_is_granted p = 0 \/ jp_is_granted p = 1) ps ->
  all_granted ps = true <-> Forall (fun p => jp_is_granted p = 1) ps.
Proof.
  intros Hb. unfold all_granted. rewrite forallb_forall, Forall_forall.
  rewrite Forall_forall in Hb. setoid_rewrite list_elem_of_In in Hb.
  setoid_rewrite list_elem_of_In. split; intros H p Hp; specialize (H p Hp).
  - apply negb_true_iff, Z.eqb_neq in H. destruct (Hb p Hp); done.
  - apply negb_true_iff, Z.eqb_neq. lia.
Qed.

(** Every petition is granted exactly when none is missing from [granted]. *)
Lemma all_granted_length j :
  Forall (fun p => jp_is_granted p = 1) (oj_petitions j) <-> length (granted j) = length (targets j).
Proof.
  unfold granted, targets. rewrite !length_fmap. induction (oj_petitions j) as [|p ps IH]; simpl; [done|].
  rewrite Forall_cons, IH, filter_cons. destruct (decide (jp_is_granted p = 1)); simpl; split; try tauto; try lia.
  pose proof (length_filter (fun p => jp_is_granted p = 1) ps). lia.
Qed.

Lemma mark_body_spec ip port j :
  job_wf j ->
  exists z j', mark_body ip port j = Some (z, j') /\ job_wf j' /\
    oj_job_id j' = oj_job_id j /\ oj_owner_socket j' = oj_owner_socket j /\
    oj_created_at j' = oj_created_at j /\ oj_next_reserve_idx j' = oj_next_reserve_idx j /\
    targets j' = targets j /\ dispatched j' = dispatched j /\
    ((~ awaits ip port j /\ z = -1 /\ j' = j) \/
     (awaits ip port j /\
      (exists q p p', Z.to_nat (oj_next_reserve_idx j) = S q /\
         oj_petitions j !! q = Some p /\ p' = set_granted p /\
         oj_petitions j' = <[q := p']> (oj_petitions j) /\
         granted j' ≡ₚ target_of p :: granted j) /\
      let complete := length (granted j') = length (targets j') /\ oj_grant_notified j = 0 in
      z = (if decide complete then 1 else 0) /\
      oj_grant_notified j' = (if decide complete then 1 else oj_grant_notified j))).
Proof.
  intros Hj. destruct (next_bounds j Hj) as [Hn1 Hn2]. unfold mark_body.
  destruct (Z.eqb_spec (oj_next_reserve_idx j) 0) as [H0|H0].
  { exists (-1), j. split_and!; try done. left. split_and!; try done.
    intros (p & Hl & _). unfold last_sent in Hl. by rewrite H0 in Hl. }
  rewrite wrap32_small by (unfold in_u32, UINT_RANGE; lia).
  assert (Hls : last_sent j = oj_petitions j !! Z.to_nat (oj_next_reserve_idx j - 1)).
  { unfold last_sent. by destruct (Z.eqb_spec (oj_next_reserve_idx j) 0). }
  destruct (lookup_lt_is_Some_2 (oj_petitions j) (Z.to_nat (oj_next_reserve_idx j - 1))) as [p Hp]; [lia|].
  rewrite Hp in Hls |- *. simpl.
  assert (Hbool : jp_is_granted p = 0 \/ jp_is_granted p = 1).
  { pose proof (jw_bool _ Hj) as Hb. rewrite Forall_lookup in Hb. by eapply Hb. }
  assert (Haw : awaits ip port j <-> jp_port p = port /\ strcmp_eq (jp_ip p) ip = true /\ jp_is_granted p = 0).
  { unfold awaits, strcmp_eq. rewrite Hls, String.eqb_eq. naive_solver. }
  destruct (decide (awaits ip port j)) as [Hd|Hd].
  2: { exists (-1), j. split_and!; try done; [|by left].
    destruct (Z.eqb_spec (jp_port p) port) as [E1|E1], (strcmp_eq (jp_ip p) ip) eqn:E2,
      (Z.eqb_spec (jp_is_granted p) 0) as [E3|E3]; simpl; try done.
    by destruct Hd; apply Haw. }
  pose proof (proj1 Haw Hd) as (E1 & E2 & E3).
  rewrite E2, (proj2 (Z.eqb_eq _ _) E1), (proj2 (Z.eqb_eq _ _) E3). simpl.
  set (q := Z.to_nat (oj_next_reserve_idx j - 1)) in *.
  set (ps := <[q := set_granted p]> (oj_petitions j)).
  assert (Hbs : Forall (fun p => jp_is_granted p = 0 \/ jp_is_granted p = 1) ps).
  { apply Forall_insert; [apply (jw_bool _ Hj)|by right]. }
  set (n := all_granted ps && (oj_grant_notified j =? 0)).
  eexists _, (OwnedJob _ _ (if n then 1 else oj_grant_notified j) _ _ ps). split; [done|]. split.
  { destruct Hj as [Hc Hx Hb Hu Hno]. split; simpl; unfold petition_count in *; simpl; subst ps; try done.
    - by rewrite length_insert.
    - by rewrite length_insert.
    - rewrite drop_insert_lt by lia. done.
    - subst n. destruct (all_granted _ && _); [by right|done]. }
  split_and!; try done.
  { by apply targets_set_granted. }
  { unfold dispatched, targets; simpl. subst ps. by rewrite targets_set_granted. }
  assert (Hall : n = true <-> length (granted (OwnedJob (oj_job_id j) (oj_owner_socket j)
         (if n then 1 else oj_grant_notified j) (oj_created_at j) (oj_next_reserve_idx j) ps))
           = length (target_of <$> ps) /\ oj_grant_notified j = 0).
  { rewrite <- (all_granted_length (OwnedJob _ _ _ _ _ ps)); simpl.
    unfold n. by rewrite andb_true_iff, Z.eqb_eq, all_granted_spec. }
  clearbody n. right. split_and!; [done| | |].
  { exists q, p, (set_granted p). split_and!; try done; [lia|]. by apply granted_set. }
  all: unfold targets; simpl; destruct (decide _) as [Hx|Hx];
      [rewrite (proj2 Hall Hx); done|destruct n; [by destruct Hx; apply Hall|done]].
Qed.

Lemma granted_take j :
  job_wf j ->
  granted j = target_of <$> filter (fun p => jp_is_granted p = 1)
                (take (Z.to_nat (oj_next_reserve_idx j)) (oj_petitions j)).
Proof.
  intros Hj. unfold granted. rewrite <- (take_drop (Z.to_nat (oj_next_reserve_idx j)) (oj_petitions j)) at 1.
  rewrite filter_app, (filter_false (drop _ _)); [by rewrite app_nil_r|].
  eapply Forall_impl; [apply (jw_unsent _ Hj)|]. intros p Hp Hq. simpl in *. lia.
Qed.

(** Collecting the granted petitions gives the first [m] of [granted]. *)
Lemma granted_loop_spec j m : job_wf j -> granted_loop j m = Some (take m (granted j)).
Proof.
  intros Hj. destruct (next_bounds j Hj) as [_ Hn]. rewrite granted_take by done. unfold granted_loop.
  set (n := Z.to_nat (oj_next_reserve_idx j)) in *. set (ps := oj_petitions j) in *.
  edestruct (foldM_inv (fun acc i =>
           if (length acc <? m)%nat then
             p ← ps !! i;
             Some (if jp_is_granted p =? 1 then acc ++ [target_of p] else acc)
           else Some acc)
    (fun pre acc => acc = take m (target_of <$> filter (fun p => jp_is_granted p = 1) (take (length pre) ps)))
    (seq 0 n) []) as (acc & Hf & Hacc); [by destruct m| |].
  - intros pre i post acc Hseq Hacc.
    assert (i = length pre /\ (i < n)%nat) as [-> Hi].
    { pose proof (f_equal (lookup (length pre)) Hseq) as Hlk.
      rewrite list_lookup_middle in Hlk by done. apply lookup_seq in Hlk. lia. }
    destruct (lookup_lt_is_Some_2 ps (length pre)) as [p Hp]; [lia|].
    rewrite length_app; simpl. rewrite Nat.add_1_r, (take_S_r _ _ _ Hp), filter_app, fmap_app.
    set (l := target_of <$> filter _ (take _ ps)) in *.
    assert (Hlen : length acc = (m `min` length l)%nat) by (subst acc; apply length_take).
    destruct (Nat.ltb_spec (length acc) m) as [Hlt|Hge].
    + rewrite Hp; simpl. eexists. split; [done|]. assert (acc = l) as ->.
      { subst acc. apply take_ge. lia. }
      rewrite filter_cons. destruct (Z.eqb_spec (jp_is_granted p) 1).
      * rewrite decide_True by done. rewrite (take_ge (l ++ _)); [done|]. rewrite length_app; simpl. lia.
      * rewrite decide_False by done. simpl. rewrite app_nil_r, take_ge; [done|lia].
    + eexists. split; [done|]. rewrite take_app_le by lia. done.
  - rewrite Hf, Hacc, length_seq. done.
Qed.

(** ** The invariant of the table *)

Record owned_wf (k : Z) (jobs : owned_jobs_t) : Prop := {
  ow_tabla : tabla_wf jobs;
  ow_room : tabla_room jobs k;
  ow_jobs : map_Forall (fun _ j => job_wf j) (jobs_map jobs)
}.

Lemma ow_job k jobs id j : owned_wf k jobs -> jobs_map jobs !! id = Some j -> job_wf j.
Proof. intros Hw Hj. exact (ow_jobs _ _ Hw id j Hj). Qed.

Lemma ow_items k jobs j : owned_wf k jobs -> j ∈ items jobs <-> jobs_map jobs !! oj_job_id j = Some j.
Proof.
  intros Hw. unfold jobs_map. rewrite contenido_lookup by (apply wf_items_NoDup, (ow_tabla _ _ Hw)).
  naive_solver.
Qed.

Lemma owned_with_job {R} k jobs id (missing : R) body j r j' :
  owned_wf k jobs -> jobs_map jobs !! id = Some j -> body j = Some (r, j') ->
  job_wf j' -> oj_job_id j' = oj_job_id j ->
  exists jobs', with_job jobs id missing body = Some (r, jobs') /\ owned_wf k jobs' /\
    jobs_map jobs' = <[id := j']> (jobs_map jobs).
Proof.
  intros [Hwf Hroom Hjobs] Hj Hb Hj' Hid.
  destruct (with_job_found jobs id missing body j r j') as (jobs' & -> & Hwf' & Hss & Hm); try done.
  exists jobs'. split_and!; [done| |done]. split; [done|by eapply same_slots_room|].
  rewrite Hm. by apply map_Forall_insert_2.
Qed.

Lemma create_owned_wf : owned_wf (2 ^ 28) create_owned_jobs /\ jobs_map create_owned_jobs = ∅.
Proof.
  assert (Hwf : tabla_wf create_owned_jobs) by exact (proj1 (tabla_vacia_wf 11 ltac:(lia))).
  assert (Hm : jobs_map create_owned_jobs = ∅) by reflexivity.
  split; [|done]. split; [done|unfold tabla_room; by vm_compute|]. rewrite Hm. apply map_Forall_empty.
Qed.

Lemma add_new_owned_job_spec k jobs id socket now :
  owned_wf k jobs -> 1 <= k ->
  exists jobs', add_new_owned_job jobs id socket now = Some (1, jobs') /\ owned_wf (k - 1) jobs' /\
    jobs_map jobs' = <[id := OwnedJob id socket 0 now 0 []]> (jobs_map jobs).
Proof.
  intros [Hwf Hroom Hjobs] Hk. unfold add_new_owned_job.
  destruct (contenido_room_insertar jobs (OwnedJob id socket 0 now 0 []) k Hwf Hroom Hk)
    as (jobs' & -> & Hwf' & Hroom' & Hm). simpl in *.
  exists jobs'. split_and!; [done| |done]. split; [done|done|]. unfold jobs_map. rewrite Hm.
  by apply map_Forall_insert_2; [apply job_wf_new|].
Qed.

Lemma remove_owned_job_spec k jobs id :
  owned_wf k jobs ->
  exists jobs', remove_owned_job jobs id = Some jobs' /\ owned_wf k jobs' /\
    jobs_map jobs' = delete id (jobs_map jobs).
Proof.
  intros [Hwf Hroom Hjobs]. unfold remove_owned_job.
  destruct (contenido_eliminar jobs (dummy_job id) Hwf) as (jobs' & -> & Hwf' & Hc & Hn & Hm). simpl in *.
  exists jobs'. split_and!; [done| |done]. split; [done|by eapply same_slots_room|].
  unfold jobs_map. rewrite Hm. by apply map_Forall_delete.
Qed.

Lemma get_job_owner_socket_spec k jobs id :
  owned_wf k jobs ->
  get_job_owner_socket jobs id =
    Some match jobs_map jobs !! id with Some j => oj_owner_socket j | None => 0 end.
Proof. intros Hw. unfold get_job_owner_socket. by rewrite (buscar_job jobs id (ow_tabla _ _ Hw)). Qed.

Lemma get_granted_resources_spec k jobs id m :
  owned_wf k jobs ->
  get_granted_resources jobs id m =
    Some match jobs_map jobs !! id with Some j => take m (granted j) | None => [] end.
Proof.
  intros Hw. unfold get_granted_resources. rewrite (buscar_job jobs id (ow_tabla _ _ Hw)). simpl.
  destruct (jobs_map jobs !! id) as [j|] eqn:Hj; [|done]. eapply granted_loop_spec, ow_job; done.
Qed.

Lemma append_petition_spec k jobs id ip port type quantity :
  owned_wf k jobs ->
  exists z jobs', append_petition_to_job jobs id ip port type quantity = Some (z, jobs') /\
    owned_wf k jobs' /\
    match jobs_map jobs !! id with
    | None => z = 0 /\ jobs' = jobs
    | Some j => exists j', jobs_map jobs' = <[id := j']> (jobs_map jobs) /\
                  append_body ip port type quantity j = Some (z, j')
    end.
Proof.
  intros Hw. unfold append_petition_to_job. destruct (jobs_map jobs !! id) as [j|] eqn:Hj.
  - destruct (append_body_spec ip port type quantity j) as (z & j' & Hb & Hj' & Hid & _); [by eapply ow_job|].
    destruct (owned_with_job k jobs id 0 _ j z j' Hw Hj Hb Hj' Hid) as (jobs' & -> & Hw' & Hm). eauto 10.
  - rewrite (with_job_missing jobs id 0 _ (ow_tabla _ _ Hw) Hj). eauto 10.
Qed.

Lemma get_next_reserve_spec k jobs id :
  owned_wf k jobs ->
  exists o jobs', get_next_reserve jobs id = Some (o, jobs') /\ owned_wf k jobs' /\
    match jobs_map jobs !! id with
    | None => o = None /\ jobs' = jobs
    | Some j => exists j', jobs_map jobs' = <[id := j']> (jobs_map jobs) /\ next_body j = Some (o, j')
    end.
Proof.
  intros Hw. unfold get_next_reserve. destruct (jobs_map jobs !! id) as [j|] eqn:Hj.
  - destruct (next_body_spec j) as (o & j' & Hb & Hj' & Hid & _); [by eapply ow_job|].
    destruct (owned_with_job k jobs id None _ j o j' Hw Hj Hb Hj' Hid) as (jobs' & -> & Hw' & Hm). eauto 10.
  - rewrite (with_job_missing jobs id None _ (ow_tabla _ _ Hw) Hj). eauto 10.
Qed.

Lemma mark_petition_spec k jobs id ip port :
  owned_wf k jobs ->
  exists z jobs', mark_petition_as_granted jobs id ip port = Some (z, jobs') /\ owned_wf k jobs' /\
    match jobs_map jobs !! id with
    | None => z = -1 /\ jobs' = jobs
    | Some j => exists j', jobs_map jobs' = <[id := j']> (jobs_map jobs) /\
                  mark_body ip port j = Some (z, j')
    end.
Proof.
  intros Hw. unfold mark_petition_as_granted. destruct (jobs_map jobs !! id) as [j|] eqn:Hj.
  - destruct (mark_body_spec ip port j) as (z & j' & Hb & Hj' & Hid & _); [by eapply ow_job|].
    destruct (owned_with_job k jobs id (-1) _ j z j' Hw Hj Hb Hj' Hid) as (jobs' & -> & Hw' & Hm). eauto 10.
  - rewrite (with_job_missing jobs id (-1) _ (ow_tabla _ _ Hw) Hj). eauto 10.
Qed.

(** ** The collectors *)

Definition uses_node (ip : string) (port : Z) (j : elem_owned_job_t) : Prop :=
  Exists (fun p => jp_port p = port /\ jp_ip p = ip) (oj_petitions j).
Definition timed_out (now : Z) (j : elem_owned_job_t) : Prop :=
  oj_grant_notified j = 0 /\ JOB_TIMEOUT < now - oj_created_at j.

#[export] Instance uses_node_dec ip port j : Decision (uses_node ip port j).
Proof. unfold uses_node. apply _. Defined.
#[export] Instance timed_out_dec now j : Decision (timed_out now j).
Proof. unfold timed_out. apply _. Defined.

(** The identifiers of the jobs that satisfy [P], at most [m] of them. *)
Definition job_ids (jobs : owned_jobs_t) (P : elem_owned_job_t -> Prop) `{!forall j, Decision (P j)}
    (m : nat) : list Z := take m (oj_job_id <$> filter P (items jobs)).

Lemma collect_jobs jobs visit (P : elem_owned_job_t -> Prop) `{!forall j, Decision (P j)} m :
  tabla_wf jobs ->
  (forall a acc, visit a acc =
     if (m <=? length acc)%nat then acc else if decide (P a) then acc ++ [oj_job_id a] else acc) ->
  tablahash_visitar_extra jobs visit [] = Some (job_ids jobs P m).
Proof.
  intros Hwf Hv. rewrite (wf_visitar jobs visit [] Hwf).
  rewrite (collect_filter visit oj_job_id P m Hv) by (simpl; lia). simpl. by rewrite Nat.sub_0_r.
Qed.

Lemma petition_to_spec ip port p : petition_to ip port p = true <-> jp_port p = port /\ jp_ip p = ip.
Proof. unfold petition_to, strcmp_eq. by rewrite andb_true_iff, Z.eqb_eq, String.eqb_eq. Qed.

Lemma affected_spec jobs ip port m :
  tabla_wf jobs -> get_jobs_affected_by_dead_node jobs ip port m = Some (job_ids jobs (uses_node ip port) m).
Proof.
  intros Hwf. apply collect_jobs; [done|]. intros j acc. unfold check_job_for_dead_node.
  destruct (m <=? length acc)%nat; [done|].
  assert (Hb : existsb (petition_to ip port) (oj_petitions j) = true <-> uses_node ip port j).
  { rewrite existsb_exists. unfold uses_node. rewrite Exists_exists. setoid_rewrite petition_to_spec.
    by setoid_rewrite list_elem_of_In. }
  destruct (existsb _ _), (decide (uses_node ip port j)); naive_solver.
Qed.

Lemma timed_out_spec jobs m now :
  tabla_wf jobs -> collect_timed_out_jobs jobs m now = Some (job_ids jobs (timed_out now) m).
Proof.
  intros Hwf. apply collect_jobs; [done|]. intros j acc. unfold check_timeout_job.
  destruct (m <=? length acc)%nat; [done|]. unfold timed_out.
  destruct (Z.eqb_spec (oj_grant_notified j) 0), (Z.ltb_spec JOB_TIMEOUT (now - oj_created_at j)),
    (decide _) as [[? ?]|Hn]; simpl; try done; try lia.
Qed.

Lemma orphans_spec jobs socket m :
  tabla_wf jobs ->
  get_jobs_by_owner_socket jobs socket m = Some (job_ids jobs (fun j => oj_owner_socket j = socket) m).
Proof.
  intros Hwf. apply collect_jobs; [done|]. intros j acc. unfold check_orphaned_jobs.
  destruct (m <=? length acc)%nat; [done|].
  destruct (Z.eqb_spec (oj_owner_socket j) socket), (decide _); done.
Qed.

Section job_ids.
Context (P : elem_owned_job_t -> Prop) `{!forall j, Decision (P j)}.

Lemma job_ids_length jobs m : (length (job_ids jobs P m) <= m)%nat.
Proof. unfold job_ids. rewrite length_take. lia. Qed.

Lemma job_ids_NoDup k jobs m : owned_wf k jobs -> NoDup (job_ids jobs P m).
Proof.
  intros Hw. unfold job_ids. apply (sublist_NoDup _ (oj_job_id <$> filter P (items jobs)));
    [|apply sublist_take].
  apply (sublist_NoDup _ (oj_job_id <$> items jobs)); [|apply fmap_sublist, sublist_filter].
  exact (wf_items_NoDup jobs (ow_tabla _ _ Hw)).
Qed.

Lemma job_ids_sound k jobs m id :
  owned_wf k jobs -> id ∈ job_ids jobs P m -> exists j, jobs_map jobs !! id = Some j /\ P j.
Proof.
  intros Hw Hin. unfold job_ids in Hin. apply elem_of_take in Hin as (i & Hi & _).
  apply list_elem_of_lookup_2, list_elem_of_fmap in Hi as (j & -> & Hj).
  apply list_elem_of_filter in Hj as [HP Hj]. exists j. split; [|done]. by apply (ow_items k).
Qed.

Lemma job_ids_complete k jobs m id j :
  owned_wf k jobs -> (size (jobs_map jobs) <= m)%nat -> jobs_map jobs !! id = Some j -> P j ->
  id ∈ job_ids jobs P m.
Proof.
  intros Hw Hm Hj HP. pose proof (job_lookup_id _ _ _ (ow_tabla _ _ Hw) Hj) as Hid. unfold job_ids.
  rewrite take_ge.
  - apply list_elem_of_fmap. exists j. split; [done|]. apply list_elem_of_filter. split; [done|].
    apply (ow_items k); [done|]. by rewrite Hid.
  - rewrite length_fmap. etrans; [apply length_filter|].
    rewrite (items_contenido jobs (ow_tabla _ _ Hw)), length_fmap, length_map_to_list. done.
Qed.
End job_ids.

(** ** The order of the protocol

    The callers ask for the next RESERVE only when the previous one was granted. *)

(** Every dispatched petition but the last is granted. *)
Definition job_seq (j : elem_owned_job_t) : Prop :=
  forall (i : nat) p, oj_petitions j !! i = Some p -> Z.of_nat (S i) < oj_next_reserve_idx j ->
    jp_is_granted p = 1.

(** No answer is awaited. *)
Definition settled (j : elem_owned_job_t) : Prop :=
  forall p, last_sent j = Some p -> jp_is_granted p = 1.

Lemma job_seq_append ip port type quantity j z j' :
  job_wf j -> job_seq j -> append_body ip port type quantity j = Some (z, j') -> job_seq j'.
Proof.
  intros Hj Hs Hb. unfold append_body in Hb. destruct (_ <=? _); simplify_eq; [done|].
  intros i p Hi Hlt. simpl in *. apply lookup_app_Some in Hi as [Hi|[Hge _]]; [by eapply Hs|].
  destruct (next_bounds j Hj) as [? ?]. lia.
Qed.

Lemma job_seq_next j o j' : job_wf j -> job_seq j -> settled j -> next_body j = Some (o, j') -> job_seq j'.
Proof.
  intros Hj Hs Hset Hb. destruct (next_body_spec j Hj) as (o2 & j2 & Hb2 & _ & _ & _ & _ & _ & _ & _ & Hp & _ & _ & Hn).
  assert (o2 = o /\ j2 = j') as [-> ->] by (split; congruence).
  intros i p Hi Hlt. rewrite Hp in Hi.
  destruct (decide (Z.of_nat (S i) < oj_next_reserve_idx j)) as [?|Hge]; [by eapply Hs|].
  assert (oj_next_reserve_idx j = Z.of_nat (S i)) as Heq by (destruct o; simpl in *; lia).
  apply Hset. unfold last_sent. rewrite Heq. destruct (Z.eqb_spec (Z.of_nat (S i)) 0); [lia|].
  by replace (Z.to_nat (Z.of_nat (S i) - 1)) with i by lia.
Qed.

Lemma job_seq_mark ip port j z j' : job_wf j -> job_seq j -> mark_body ip port j = Some (z, j') -> job_seq j'.
Proof.
  intros Hj Hs Hb. destruct (mark_body_spec ip port j Hj) as (z2 & j2 & Hb2 & _ & _ & _ & _ & Hn & _ & _ & Hcase).
  assert (z2 = z /\ j2 = j') as [-> ->] by (split; congruence).
  destruct Hcase as [(_ & _ & ->)|(_ & (q & p & p' & Hq & Hp & -> & Hps & _) & _)]; [done|].
  intros i pi Hi Hlt. rewrite Hn in Hlt. rewrite Hps in Hi.
  apply list_lookup_insert_Some in Hi as [(-> & <- & _)|[_ Hi]]; [done|]. by eapply Hs.
Qed.

(** After an accepted grant nothing is awaited. *)
Lemma settled_mark ip port j z j' :
  job_wf j -> mark_body ip port j = Some (z, j') -> z ≠ -1 -> settled j'.
Proof.
  intros Hj Hb Hz. destruct (mark_body_spec ip port j Hj) as (z2 & j2 & Hb2 & _ & _ & _ & _ & Hn & _ & _ & Hcase).
  assert (z2 = z /\ j2 = j') as [-> ->] by (split; congruence).
  destruct Hcase as [(_ & -> & _)|(_ & (q & p & p' & Hq & Hp & -> & Hps & _) & _)]; [done|].
  intros pl Hl. unfold last_sent in Hl. rewrite Hn, Hps in Hl.
  destruct (Z.eqb_spec (oj_next_reserve_idx j) 0); [done|].
  replace (Z.to_nat (oj_next_reserve_idx j - 1)) with q in Hl by lia.
  rewrite list_lookup_insert_eq in Hl by (by eapply lookup_lt_Some). by simplify_eq.
Qed.

(** *** The order in the whole table *)

Definition jobs_seq (jobs : owned_jobs_t) : Prop := map_Forall (fun _ j => job_seq j) (jobs_map jobs).

(** No RESERVE of the job was sent, if there is such a job. *)
Definition unsent_in (id : Z) (jobs : owned_jobs_t) : Prop :=
  forall j, jobs_map jobs !! id = Some j -> oj_next_reserve_idx j = 0.

(** From a table in order to one in order, without sending anything. *)
Record orderly (jobs jobs' : owned_jobs_t) : Prop := {
  od_seq : jobs_seq jobs';
  od_unsent id : unsent_in id jobs -> unsent_in id jobs'
}.

Lemma orderly_refl jobs : jobs_seq jobs -> orderly jobs jobs.
Proof. by split. Qed.

Lemma orderly_insert jobs jobs' id j' :
  jobs_seq jobs -> jobs_map jobs' = <[id := j']> (jobs_map jobs) -> job_seq j' ->
  (unsent_in id jobs -> oj_next_reserve_idx j' = 0) -> orderly jobs jobs'.
Proof.
  intros Hs Hm Hj Hu. split; [unfold jobs_seq; rewrite Hm; by apply map_Forall_insert_2|].
  intros id2 Hid j. rewrite Hm. destruct (decide (id = id2)) as [->|Hne].
  - rewrite lookup_insert_eq. intros [= <-]. by apply Hu.
  - rewrite lookup_insert_ne by done. apply Hid.
Qed.

Lemma orderly_new k jobs id socket now jobs' :
  owned_wf k jobs -> 1 <= k -> jobs_seq jobs -> add_new_owned_job jobs id socket now = Some (1, jobs') ->
  orderly jobs jobs' /\ unsent_in id jobs'.
Proof.
  intros Hw Hk Hs Ha. destruct (add_new_owned_job_spec k jobs id socket now Hw Hk) as (jobs2 & Ha2 & _ & Hm).
  rewrite Ha in Ha2. injection Ha2 as <-. split.
  - eapply orderly_insert; [done|exact Hm|by intros i p Hp|done].
  - intros j. rewrite Hm, lookup_insert_eq. by intros [= <-].
Qed.

Lemma orderly_remove k jobs id jobs' :
  owned_wf k jobs -> jobs_seq jobs -> remove_owned_job jobs id = Some jobs' -> orderly jobs jobs'.
Proof.
  intros Hw Hs Hr. destruct (remove_owned_job_spec k jobs id Hw) as (jobs2 & Hr2 & _ & Hm).
  rewrite Hr in Hr2. injection Hr2 as <-. split; [unfold jobs_seq; rewrite Hm; by apply map_Forall_delete|].
  intros id2 Hid j. rewrite Hm. intros [_ Hj]%lookup_delete_Some. by apply Hid.
Qed.

Lemma orderly_append k jobs id ip port type quantity z jobs' :
  owned_wf k jobs -> jobs_seq jobs -> append_petition_to_job jobs id ip port type quantity = Some (z, jobs') ->
  orderly jobs jobs'.
Proof.
  intros Hw Hs Ha. destruct (append_petition_spec k jobs id ip port type quantity Hw) as (z2 & jobs2 & Ha2 & _ & Hm).
  rewrite Ha in Ha2. injection Ha2 as <- <-. destruct (jobs_map jobs !! id) as [j|] eqn:Hj; [|by destruct Hm as [_ ->]].
  destruct Hm as (j' & Hm & Hb). pose proof (ow_job _ _ _ _ Hw Hj) as Hjw.
  eapply orderly_insert; [done|exact Hm|by eapply job_seq_append; [| |exact Hb]; [|by apply (Hs id)]|].
  intros Hu. destruct (append_body_spec ip port type quantity j Hjw) as (z2 & j2 & Hb2 & _ & _ & _ & _ & _ & _ & Hn & _).
  assert (j2 = j') as -> by congruence. rewrite Hn. by apply Hu.
Qed.

(** A grant that is accepted answers the last RESERVE, and nothing is awaited after it. *)
Lemma orderly_mark k jobs id ip port z jobs' :
  owned_wf k jobs -> jobs_seq jobs -> mark_petition_as_granted jobs id ip port = Some (z, jobs') ->
  orderly jobs jobs' /\
  (z ≠ -1 -> forall j, jobs_map jobs' !! id = Some j -> settled j /\ oj_next_reserve_idx j ≠ 0).
Proof.
  intros Hw Hs Ha. destruct (mark_petition_spec k jobs id ip port Hw) as (z2 & jobs2 & Ha2 & _ & Hm).
  rewrite Ha in Ha2. injection Ha2 as <- <-.
  destruct (jobs_map jobs !! id) as [j|] eqn:Hj; [|by destruct Hm as [-> ->]].
  destruct Hm as (j' & Hm & Hb). pose proof (ow_job _ _ _ _ Hw Hj) as Hjw.
  destruct (mark_body_spec ip port j Hjw) as (z2 & j2 & Hb2 & _ & _ & _ & _ & Hn & _ & _ & Hcase).
  assert (z2 = z /\ j2 = j') as [-> ->] by (split; congruence). split.
  - eapply orderly_insert; [done|exact Hm|by eapply job_seq_mark; [| |exact Hb]; [|by apply (Hs id)]|].
    intros Hu. rewrite Hn. by apply Hu.
  - intros Hz j3 Hj3. rewrite Hm, lookup_insert_eq in Hj3. injection Hj3 as <-.
    split; [by eapply settled_mark|]. rewrite Hn.
    destruct Hcase as [(_ & -> & _)|(_ & (q & _ & _ & Hq & _) & _)]; [done|]. lia.
Qed.

(** Sending the next RESERVE of a job that awaits no answer. *)
Lemma seq_next k jobs id o jobs' :
  owned_wf k jobs -> jobs_seq jobs -> get_next_reserve jobs id = Some (o, jobs') ->
  (forall j, jobs_map jobs !! id = Some j -> settled j) -> jobs_seq jobs'.
Proof.
  intros Hw Hs Ha Hset. destruct (get_next_reserve_spec k jobs id Hw) as (o2 & jobs2 & Ha2 & _ & Hm).
  rewrite Ha in Ha2. injection Ha2 as <- <-. unfold jobs_seq.
  destruct (jobs_map jobs !! id) as [j|] eqn:Hj; [|by destruct Hm as [_ ->]].
  destruct Hm as (j' & -> & Hb). apply map_Forall_insert_2; [|done].
  eapply job_seq_next; [exact (ow_job _ _ _ _ Hw Hj)|exact (Hs _ _ Hj)|by apply Hset|exact Hb].
Qed.

(** One that had some sent already. *)
Lemma orderly_next k jobs id o jobs' :
  owned_wf k jobs -> jobs_seq jobs -> get_next_reserve jobs id = Some (o, jobs') ->
  (forall j, jobs_map jobs !! id = Some j -> settled j /\ oj_next_reserve_idx j ≠ 0) -> orderly jobs jobs'.
Proof.
  intros Hw Hs Ha Hset. split; [eapply seq_next; [exact Hw|done|exact Ha|by intros j [? _]%Hset]|].
  intros id2 Hu. destruct (get_next_reserve_spec k jobs id Hw) as (o2 & jobs2 & Ha2 & _ & Hm).
  rewrite Ha in Ha2. injection Ha2 as <- <-.
  destruct (jobs_map jobs !! id) as [j|] eqn:Hj; [|by destruct Hm as [_ ->]].
  destruct Hm as (j' & Hm & _). intros j2. rewrite Hm. destruct (decide (id = id2)) as [->|Hne].
  - destruct (Hset j eq_refl) as [_ Hn]. by apply Hu in Hj.
  - rewrite lookup_insert_ne by done. apply Hu.
Qed.

Lemma unsent_settled id jobs : unsent_in id jobs -> forall j, jobs_map jobs !! id = Some j -> settled j.
Proof. intros Hu j Hj p Hp. unfold last_sent in Hp. by rewrite (Hu j Hj) in Hp. Qed.

(** In protocol order the granted petitions are the dispatched ones, but for the
    one that awaits its answer. *)
Lemma granted_dispatched j :
  job_wf j -> job_seq j -> oj_next_reserve_idx j ≠ 0 ->
  exists p, last_sent j = Some p /\
    (jp_is_granted p = 1 /\ granted j = dispatched j \/
     jp_is_granted p = 0 /\ dispatched j = granted j ++ [target_of p]).
Proof.
  intros Hj Hs H0. destruct (next_bounds j Hj) as [Hn1 Hn2].
  set (q := Z.to_nat (oj_next_reserve_idx j - 1)).
  destruct (lookup_lt_is_Some_2 (oj_petitions j) q) as [p Hp]; [lia|]. exists p. split.
  { unfold last_sent. by destruct (Z.eqb_spec (oj_next_reserve_idx j) 0). }
  assert (Hd : dispatched j = (target_of <$> take q (oj_petitions j)) ++ [target_of p]).
  { unfold dispatched, targets. rewrite <- fmap_take.
    replace (Z.to_nat (oj_next_reserve_idx j)) with (S q) by lia.
    by rewrite (take_S_r _ _ _ Hp), fmap_app. }
  assert (Hg : granted j = (target_of <$> take q (oj_petitions j)) ++
                 (if decide (jp_is_granted p = 1) then [target_of p] else [])).
  { rewrite granted_take by done. replace (Z.to_nat (oj_next_reserve_idx j)) with (S q) by lia.
    rewrite (take_S_r _ _ _ Hp), filter_app, fmap_app. f_equal.
    - f_equal. apply filter_true. apply Forall_lookup. intros i pi Hi.
      apply lookup_take_Some in Hi as [Hi Hlt]. apply (Hs i); [done|lia].
    - rewrite filter_cons, filter_nil. by destruct (decide _). }
  pose proof (jw_bool _ Hj) as Hb. rewrite Forall_lookup in Hb. destruct (Hb q p Hp) as [Hg0|Hg1].
  - right. rewrite decide_False, app_nil_r in Hg by lia. split; [done|]. by rewrite Hg.
  - left. rewrite decide_True in Hg by done. split; [done|]. by rewrite Hg.
Qed.

Lemma chain_order j :
  job_wf j -> job_seq j ->
  dispatched j = take (Z.to_nat (oj_next_reserve_idx j)) (targets j) /\
  (length (targets j) <= MAX_JOB_RESOURCES)%nat /\
  (oj_next_reserve_idx j = 0 /\ granted j = [] \/
   exists p, last_sent j = Some p /\
     (jp_is_granted p = 1 /\ granted j = dispatched j \/
      jp_is_granted p = 0 /\ dispatched j = granted j ++ [target_of p])).
Proof.
  intros Hj Hs. split; [done|]. split; [unfold targets; rewrite length_fmap; apply (jw_count _ Hj)|].
  destruct (decide (oj_next_reserve_idx j = 0)) as [H0|H0].
  - left. split; [done|]. by rewrite granted_take, H0.
  - right. by apply granted_dispatched.
Qed.

(** ** The life of a job

    Any sequence of the calls that the handlers make on one job. *)

Inductive job_call :=
  | CallAppend (t : target)
  | CallNext
  | CallMark (ip : string) (port : Z).

Inductive job_event := Sent (t : target) | Completed.

Definition do_call (id : Z) (s : list job_event * owned_jobs_t) (c : job_call)
  : option (list job_event * owned_jobs_t) :=
  let '(evs, jobs) := s in
  match c with
  | CallAppend t =>
      '(_, jobs') ← append_petition_to_job jobs id (tg_ip t) (tg_port t) (tg_type t) (tg_quantity t);
      Some (evs, jobs')
  | CallNext =>
      '(o, jobs') ← get_next_reserve jobs id;
      Some (evs ++ option_list (Sent <$> o), jobs')
  | CallMark ip port =>
      '(z, jobs') ← mark_petition_as_granted jobs id ip port;
      Some (if z =? 1 then evs ++ [Completed] else evs, jobs')
  end.

Definition appended (calls : list job_call) : list target :=
  omap (fun c => match c with CallAppend t => Some t | _ => None end) calls.
Definition sent (evs : list job_event) : list target :=
  omap (fun e => match e with Sent t => Some t | Completed => None end) evs.
Definition completions (evs : list job_event) : Z :=
  sumZ (fun e => match e with Completed => 1 | _ => 0 end) evs.

Record life (k id : Z) (jobs0 : owned_jobs_t) (pre : list job_call) (s : list job_event * owned_jobs_t)
    (j : elem_owned_job_t) : Prop := {
  lf_wf : owned_wf k s.2;
  lf_map : jobs_map s.2 = <[id := j]> (jobs_map jobs0);
  lf_targets : targets j = take MAX_JOB_RESOURCES (appended pre);
  lf_sent : sent s.1 = dispatched j;
  lf_once : completions s.1 = oj_grant_notified j
}.

Lemma life_lookup k id jobs0 pre s j : life k id jobs0 pre s j -> jobs_map s.2 !! id = Some j /\ job_wf j.
Proof.
  intros [Hw Hm _ _ _]. assert (Hj : jobs_map s.2 !! id = Some j) by (by rewrite Hm, lookup_insert_eq).
  split; [done|]. by eapply ow_job.
Qed.

(** A call on the job keeps the record of its life. *)
Lemma life_step k id jobs0 pre s j c :
  life k id jobs0 pre s j ->
  exists s' j', do_call id s c = Some s' /\ life k id jobs0 (pre ++ [c]) s' j'.
Proof.
  intros Hlf. destruct (life_lookup _ _ _ _ _ _ Hlf) as [Hj Hjw]. destruct Hlf as [Hw Hm Ht Hs Ho].
  destruct s as [evs jobs]; simpl in *.
  assert (Hmap : forall j' jobs', jobs_map jobs' = <[id:=j']> (jobs_map jobs) ->
            jobs_map jobs' = <[id:=j']> (jobs_map jobs0)).
  { intros j' jobs' ->. by rewrite Hm, insert_insert_eq. }
  destruct c as [t| |ip port]; simpl.
  - destruct (append_petition_spec k jobs id (tg_ip t) (tg_port t) (tg_type t) (tg_quantity t) Hw)
      as (z & jobs' & -> & Hw' & H). rewrite Hj in H. destruct H as (j' & Hm' & Hb). simpl.
    destruct (append_body_spec (tg_ip t) (tg_port t) (tg_type t) (tg_quantity t) j Hjw)
      as (z2 & j2 & Hb2 & _ & _ & _ & _ & Hno & Hd & _ & _ & Htg & _).
    assert (j2 = j') as -> by congruence.
    exists (evs, jobs'), j'. split; [done|]. split; simpl; [done|by apply Hmap| |by rewrite Hd|by rewrite Hno].
    unfold appended. rewrite omap_app; simpl. rewrite Htg, Ht, take_take_snoc. by destruct t.
  - destruct (get_next_reserve_spec k jobs id Hw) as (o & jobs' & -> & Hw' & H). rewrite Hj in H.
    destruct H as (j' & Hm' & Hb). simpl.
    destruct (next_body_spec j Hjw) as (o2 & j2 & Hb2 & _ & _ & _ & _ & Hno & Htg & _ & _ & _ & Hd & _).
    assert (j2 = j' /\ o2 = o) as [-> ->] by (split; congruence).
    eexists _, j'. split; [done|]. split; simpl; [done|by apply Hmap| | |].
    + unfold appended. rewrite omap_app; simpl. by rewrite app_nil_r, Htg.
    + unfold sent. rewrite omap_app, Hd. f_equal; [done|]. by destruct o.
    + unfold completions. rewrite sumZ_app, Hno. unfold completions in Ho. rewrite Ho.
      destruct o; unfold sumZ; simpl; lia.
  - destruct (mark_petition_spec k jobs id ip port Hw) as (z & jobs' & -> & Hw' & H). rewrite Hj in H.
    destruct H as (j' & Hm' & Hb). simpl.
    destruct (mark_body_spec ip port j Hjw) as (z2 & j2 & Hb2 & _ & _ & _ & _ & _ & Htg & Hd & Hcase).
    assert (j2 = j' /\ z2 = z) as [-> ->] by (split; congruence).
    assert (Ha : appended (pre ++ [CallMark ip port]) = appended pre).
    { unfold appended. rewrite omap_app; simpl. by rewrite app_nil_r. }
    assert (Hz : z = 1 /\ oj_grant_notified j = 0 /\ oj_grant_notified j' = 1 \/
                 z ≠ 1 /\ oj_grant_notified j' = oj_grant_notified j).
    { destruct Hcase as [(_ & -> & ->)|(_ & _ & -> & ->)]; [by right|]. destruct (decide _) as [[_ ?]|]; [left|right]; done. }
    eexists _, j'. split; [done|]. split; simpl; [done|by apply Hmap|by rewrite Ha, Htg| |].
    + rewrite Hd, <- Hs. destruct Hz as [(-> & _)|[Hz _]]; simpl; [|by rewrite (proj2 (Z.eqb_neq _ _) Hz)].
      unfold sent. rewrite omap_app. simpl. by rewrite app_nil_r.
    + destruct Hz as [(-> & H0 & ->)|[Hz ->]]; simpl; [|by rewrite (proj2 (Z.eqb_neq _ _) Hz)].
      unfold completions in *. rewrite sumZ_app, Ho, H0. done.
Qed.

Lemma life_run k jobs id socket now calls :
  owned_wf k jobs -> 1 <= k ->
  exists jobs0 s j, add_new_owned_job jobs id socket now = Some (1, jobs0) /\
    foldM (do_call id) ([], jobs0) calls = Some s /\ life (k - 1) id jobs calls s j.
Proof.
  intros Hw Hk. destruct (add_new_owned_job_spec k jobs id socket now Hw Hk) as (jobs0 & Hadd & Hw0 & Hm0).
  destruct (foldM_inv (do_call id) (fun pre s => exists j, life (k - 1) id jobs pre s j) calls ([], jobs0))
    as (s & Hf & j & Hlf).
  - eexists. split; simpl; [done|exact Hm0|done..].
  - intros pre c post s _ [j Hlf]. destruct (life_step _ _ _ _ _ _ c Hlf) as (s' & j' & Hd & Hlf'). eauto.
  - eauto 10.
Qed.

(** ** Properties *)

(** C35: after [add_new_owned_job], whatever calls follow on the job (petitions
    appended, next RESERVEs taken, GRANTED answers from any node), none fails; the
    RESERVEs handed out are a prefix, in order and without repetition, of the
    first 50 petitions appended; the completion is signalled at most once; and no
    other job changes. *)
Theorem job_lifecycle k jobs id socket now calls :
  owned_wf k jobs -> 1 <= k ->
  exists jobs0 evs jobs',
    add_new_owned_job jobs id socket now = Some (1, jobs0) /\
    foldM (do_call id) ([], jobs0) calls = Some (evs, jobs') /\
    owned_wf (k - 1) jobs' /\
    sent evs `prefix_of` take MAX_JOB_RESOURCES (appended calls) /\
    completions evs <= 1 /\
    (forall id', id' ≠ id -> jobs_map jobs' !! id' = jobs_map jobs !! id').
Proof.
  intros Hw Hk. destruct (life_run k jobs id socket now calls Hw Hk) as (jobs0 & [evs jobs'] & j & Hadd & Hf & Hlf).
  exists jobs0, evs, jobs'. destruct (life_lookup _ _ _ _ _ _ Hlf) as [_ Hjw].
  destruct Hlf as [Hw' Hm Ht Hs Ho]; simpl in *. split_and!; try done.
  - rewrite Hs, <- Ht. unfold dispatched. eexists. symmetry. apply take_drop.
  - rewrite Ho. destruct (jw_notified _ Hjw); lia.
  - intros id' Hne. by rewrite Hm, lookup_insert_ne.
Qed.

(** Also: [mark_petition_as_granted] accepts an answer only from the node of the
    last RESERVE sent for the job, and only once; it then returns 1 exactly when
    every petition of the job is granted and the client was not told yet, marking
    it as told; any other answer returns -1 and changes nothing. *)
Theorem mark_petition_correct k jobs id ip port j :
  owned_wf k jobs -> jobs_map jobs !! id = Some j ->
  exists z jobs' j', mark_petition_as_granted jobs id ip port = Some (z, jobs') /\ owned_wf k jobs' /\
    jobs_map jobs' = <[id := j']> (jobs_map jobs) /\
    ((~ awaits ip port j /\ z = -1 /\ j' = j) \/
     (awaits ip port j /\ ~ awaits ip port j' /\ length (granted j') = S (length (granted j)) /\
      (z = 1 <-> length (granted j') = length (targets j) /\ oj_grant_notified j = 0) /\
      (z = 0 \/ z = 1 /\ oj_grant_notified j' = 1))).
Proof.
  intros Hw Hj. destruct (mark_petition_spec k jobs id ip port Hw) as (z & jobs' & Hmk & Hw' & H).
  rewrite Hj in H. destruct H as (j' & Hm' & Hb). exists z, jobs', j'. split_and!; try done.
  pose proof (ow_job _ _ _ _ Hw Hj) as Hjw.
  destruct (mark_body_spec ip port j Hjw) as (z2 & j2 & Hb2 & _ & _ & _ & _ & Hn & Htg & _ & Hcase).
  assert (j2 = j' /\ z2 = z) as [-> ->] by (split; congruence).
  destruct Hcase as [?|(Haw & (q & p & p' & _ & _ & _ & _ & Hg) & Hz & Hno)]; [by left|right].
  assert (z ≠ -1) as Hz1 by (rewrite Hz; by destruct (decide _)).
  pose proof (settled_mark ip port j z j' Hjw Hb Hz1) as Hset.
  split_and!; [done| |by rewrite Hg| |].
  - intros (pl & Hl & _ & _ & H0). rewrite (Hset pl Hl) in H0. done.
  - rewrite <- Htg. rewrite Hz. by destruct (decide _) as [Hd|Hd]; split.
  - rewrite Hz, Hno. destruct (decide _); [by right|by left].
Qed.

(** Also: [get_granted_resources] with arrays for 50 petitions misses nothing: it
    returns every granted petition, in the order of the request. *)
Theorem get_granted_complete k jobs id m j :
  owned_wf k jobs -> jobs_map jobs !! id = Some j -> (MAX_JOB_RESOURCES <= m)%nat ->
  get_granted_resources jobs id m = Some (granted j) /\ granted j `sublist_of` dispatched j.
Proof.
  intros Hw Hj Hm. pose proof (ow_job _ _ _ _ Hw Hj) as Hjw.
  rewrite (get_granted_resources_spec k jobs id m Hw), Hj. split.
  - f_equal. apply take_ge. unfold granted. rewrite length_fmap.
    pose proof (length_filter (fun p => jp_is_granted p = 1) (oj_petitions j)). pose proof (jw_count _ Hjw). lia.
  - rewrite granted_take by done. unfold dispatched, targets. rewrite <- fmap_take.
    apply fmap_sublist, sublist_filter.
Qed.

(** Also: [get_jobs_affected_by_dead_node], [collect_timed_out_jobs] and
    [get_jobs_by_owner_socket] never overrun the caller's array, report no job
    twice and only jobs that meet their condition, and report all of them when
    the array is as large as the table. *)
Theorem collectors_exact k jobs ip port socket now m :
  owned_wf k jobs ->
  exists dead late orphan,
    get_jobs_affected_by_dead_node jobs ip port m = Some dead /\
    collect_timed_out_jobs jobs m now = Some late /\
    get_jobs_by_owner_socket jobs socket m = Some orphan /\
    Forall (fun l => (length l <= m)%nat /\ NoDup l) [dead; late; orphan] /\
    forall id,
      (id ∈ dead -> exists j, jobs_map jobs !! id = Some j /\ uses_node ip port j) /\
      (id ∈ late -> exists j, jobs_map jobs !! id = Some j /\ timed_out now j) /\
      (id ∈ orphan -> exists j, jobs_map jobs !! id = Some j /\ oj_owner_socket j = socket) /\
      forall j, (size (jobs_map jobs) <= m)%nat -> jobs_map jobs !! id = Some j ->
        (uses_node ip port j -> id ∈ dead) /\ (timed_out now j -> id ∈ late) /\
        (oj_owner_socket j = socket -> id ∈ orphan).
Proof.
  intros Hw. pose proof (ow_tabla _ _ Hw) as Ht. eexists _, _, _.
  split; [by apply affected_spec|]. split; [by apply timed_out_spec|]. split; [by apply orphans_spec|].
  split; [repeat constructor; (apply job_ids_length || by eapply job_ids_NoDup)|].
  intros id. split; [by eapply job_ids_sound|]. split; [by eapply job_ids_sound|].
  split; [by eapply job_ids_sound|].
  intros j Hm Hj. split_and!; intros ?; by eapply job_ids_complete.
Qed.

(** Also: in protocol order (each RESERVE after the previous GRANTED) the petitions
    [get_granted_resources] reports, those a failed job must give back, are all
    the dispatched ones except the one still without an answer. *)
Theorem rollback_set k jobs id j :
  owned_wf k jobs -> jobs_map jobs !! id = Some j -> job_seq j -> oj_next_reserve_idx j ≠ 0 ->
  exists p, last_sent j = Some p /\
    get_granted_resources jobs id MAX_JOB_RESOURCES =
      Some (if decide (jp_is_granted p = 1) then dispatched j
            else take (length (dispatched j) - 1) (dispatched j)).
Proof.
  intros Hw Hj Hs H0. pose proof (ow_job _ _ _ _ Hw Hj) as Hjw.
  destruct (granted_dispatched j Hjw Hs H0) as (p & Hp & Hcase). exists p. split; [done|].
  rewrite (get_granted_resources_spec k jobs id _ Hw), Hj. f_equal.
  rewrite take_ge.
  - destruct Hcase as [[-> ->]|[-> ->]]; [by rewrite decide_True|].
    rewrite decide_False by done. rewrite length_app; simpl. rewrite Nat.add_sub, take_app_length. done.
  - unfold granted. rewrite length_fmap. pose proof (jw_count _ Hjw).
    pose proof (length_filter (fun p => jp_is_granted p = 1) (oj_petitions j)). lia.
Qed.

(** ** A concrete job *)

Module OwnedEjemplo.

(** Two petitions, the first sent to 10.0.0.1:8100. *)
Definition llamadas : list job_call :=
  [CallAppend (Target "10.0.0.1" 8100 CPU 2); CallAppend (Target "10.0.0.2" 8100 GPU 1); CallNext].

Definition trabajos : owned_jobs_t :=
  match add_new_owned_job create_owned_jobs 7 5 1000 with
  | Some (_, jobs0) =>
      match foldM (do_call 7) ([], jobs0) llamadas with Some (_, jobs) => jobs | None => jobs0 end
  | None => create_owned_jobs
  end.

Definition trabajo : elem_owned_job_t :=
  OwnedJob 7 5 0 1000 1 [Petition "10.0.0.1" 8100 CPU 2 0; Petition "10.0.0.2" 8100 GPU 1 0].

Lemma trabajos_wf : owned_wf (2 ^ 28 - 1) trabajos.
Proof.
  destruct (life_run (2 ^ 28) create_owned_jobs 7 5 1000 llamadas (proj1 create_owned_wf) ltac:(lia))
    as (jobs0 & s & j & Ha & Hf & Hlf). unfold trabajos. rewrite Ha, Hf. destruct s. apply (lf_wf _ _ _ _ _ _ Hlf).
Qed.

Lemma trabajo_en : jobs_map trabajos !! 7 = Some trabajo.
Proof. vm_compute. reflexivity. Qed.

Lemma trabajo_seq : job_seq trabajo.
Proof. intros [|[|i]] p Hi Hlt; simpl in *; try lia; done. Qed.

Lemma job_lifecycle_witness :
  exists jobs0 evs jobs',
    add_new_owned_job create_owned_jobs 7 5 1000 = Some (1, jobs0) /\
    foldM (do_call 7) ([], jobs0) llamadas = Some (evs, jobs') /\
    owned_wf (2 ^ 28 - 1) jobs' /\
    sent evs `prefix_of` take MAX_JOB_RESOURCES (appended llamadas) /\
    completions evs <= 1 /\
    (forall id', id' ≠ 7 -> jobs_map jobs' !! id' = jobs_map create_owned_jobs !! id').
Proof. exact (job_lifecycle (2 ^ 28) create_owned_jobs 7 5 1000 llamadas (proj1 create_owned_wf) ltac:(lia)). Defined.

Lemma mark_petition_correct_witness :
  exists z jobs' j', mark_petition_as_granted trabajos 7 "10.0.0.1" 8100 = Some (z, jobs') /\
    owned_wf (2 ^ 28 - 1) jobs' /\ jobs_map jobs' = <[7 := j']> (jobs_map trabajos) /\
    ((~ awaits "10.0.0.1" 8100 trabajo /\ z = -1 /\ j' = trabajo) \/
     (awaits "10.0.0.1" 8100 trabajo /\ ~ awaits "10.0.0.1" 8100 j' /\
      length (granted j') = S (length (granted trabajo)) /\
      (z = 1 <-> length (granted j') = length (targets trabajo) /\ oj_grant_notified trabajo = 0) /\
      (z = 0 \/ z = 1 /\ oj_grant_notified j' = 1))).
Proof. exact (mark_petition_correct (2 ^ 28 - 1) trabajos 7 "10.0.0.1" 8100 trabajo trabajos_wf trabajo_en). Defined.

Lemma get_granted_complete_witness :
  get_granted_resources trabajos 7 50 = Some (granted trabajo) /\ granted trabajo `sublist_of` dispatched trabajo.
Proof. exact (get_granted_complete (2 ^ 28 - 1) trabajos 7 50 trabajo trabajos_wf trabajo_en ltac:(done)). Defined.

Lemma collectors_exact_witness :
  exists dead late orphan,
    get_jobs_affected_by_dead_node trabajos "10.0.0.1" 8100 20 = Some dead /\
    collect_timed_out_jobs trabajos 20 1021 = Some late /\
    get_jobs_by_owner_socket trabajos 5 20 = Some orphan /\
    Forall (fun l => (length l <= 20)%nat /\ NoDup l) [dead; late; orphan] /\
    forall id,
      (id ∈ dead -> exists j, jobs_map trabajos !! id = Some j /\ uses_node "10.0.0.1" 8100 j) /\
      (id ∈ late -> exists j, jobs_map trabajos !! id = Some j /\ timed_out 1021 j) /\
      (id ∈ orphan -> exists j, jobs_map trabajos !! id = Some j /\ oj_owner_socket j = 5) /\
      forall j, (size (jobs_map trabajos) <= 20)%nat -> jobs_map trabajos !! id = Some j ->
        (uses_node "10.0.0.1" 8100 j -> id ∈ dead) /\ (timed_out 1021 j -> id ∈ late) /\
        (oj_owner_socket j = 5 -> id ∈ orphan).
Proof. exact (collectors_exact (2 ^ 28 - 1) trabajos "10.0.0.1" 8100 5 1021 20 trabajos_wf). Defined.

Lemma rollback_set_witness :
  exists p, last_sent trabajo = Some p /\
    get_granted_resources trabajos 7 MAX_JOB_RESOURCES =
      Some (if decide (jp_is_granted p = 1) then dispatched trabajo
            else take (length (dispatched trabajo) - 1) (dispatched trabajo)).
Proof. exact (rollback_set (2 ^ 28 - 1) trabajos 7 trabajo trabajos_wf trabajo_en trabajo_seq ltac:(done)). Defined.

End OwnedEjemplo.
