(* ===== verification/KnownNodes.v ===== *)
(** * KnownNodes: [src/c_agent/src/resources/known_nodes.c]

    The directory of the cluster: for each node (address and TCP port) the
    resources it last announced and when.  It builds the answer to GET_NODES in a
    bounded buffer and forgets the nodes that stopped announcing. *)

From S2P Require Import Prelude CString TablaHash CommonTypes.
Local Open Scope Z_scope.
Local Open Scope c_scope.

Definition ANNOUNCE_TIMEOUT : Z := 15.

(** ** Data *)

(** [avail] is indexed by [res_code]. *)
Record elem_known_nodes_t := KnownNode {
  kn_node_ip : string;
  kn_node_port : Z;
  kn_avail : list Z;
  kn_time_stamp : Z
}.

Definition copy_known_node (elem : elem_known_nodes_t) : elem_known_nodes_t := elem.

Definition comp_known_node (a b : elem_known_nodes_t) : Z :=
  if negb (strcmp_eq (kn_node_ip a) (kn_node_ip b)) || negb (kn_node_port a =? kn_node_port b) then 1 else 0.

(** [hash = ((hash << 5) + hash) + c] *)
Definition hash_char (hash c : Z) : Z := (wrap32 (Z.shiftl hash 5) +u hash) +u c.

Fixpoint hash_ip (hash : Z) (ip : string) : Z :=
  match ip with
  | EmptyString => hash
  | String c ip' => hash_ip (hash_char hash (Z.of_nat (Ascii.nat_of_ascii c))) ip'
  end.

Definition hash_known_node (elem : elem_known_nodes_t) : Z :=
  hash_char (hash_ip 5381 (kn_node_ip elem)) (kn_node_port elem).

#[export] Instance known_node_ops : TablaOps elem_known_nodes_t := {
  copia := copy_known_node;
  comp := comp_known_node;
  hash := hash_known_node
}.

Abbreviation known_nodes_t := (TablaHash elem_known_nodes_t).

(** [now] is the value of [time(NULL)]. *)
Definition create_elem_known_node (ip : string) (port cpu ram gpu now : Z) : elem_known_nodes_t :=
  KnownNode ip port
    (<[res_code GPU := gpu]> (<[res_code RAM := ram]> (<[res_code CPU := cpu]> (replicate RES_NUM 0)))) now.

Definition create_known_nodes : known_nodes_t := tablahash_crear 11.

(** The destructor frees the address and the node. *)
Definition delete_known_nodes {H : Type} (nodes : known_nodes_t)
    (dest_known_node : elem_known_nodes_t -> H -> H) (heap : H) : option H :=
  tablahash_destruir nodes dest_known_node heap.

(** ** Directory updates *)

Definition update_known_node (nodes : known_nodes_t) (ip : string) (port cpu ram gpu now : Z)
  : option known_nodes_t :=
  tablahash_insertar nodes (create_elem_known_node ip port cpu ram gpu now).

(** ** The answer to GET_NODES *)

(** The text in the buffer and the write head. *)
Record payload_ctx_t := PayloadCtx { pc_buffer : string; pc_current_offset : Z }.

(** [snprintf(buffer + offset, size, fmt, args)]: the text after the call. *)
Definition snprintf_at (buffer : string) (offset size : Z) (fmt : string) (args : list printf_arg) : string :=
  if size =? 0 then buffer
  else str_take (Z.to_nat offset) buffer +:+ snprintf (Z.to_nat size) fmt args.

(** [node->avail[type]] for one of the three constant indices. *)
Definition node_avail (node : elem_known_nodes_t) (type : resource_t) : Z :=
  nth (res_code type) (kn_avail node) 0.

Definition NODE_FMT : string := "%s:%u:cpu:%u:mem:%u:gpu:%u;".
Definition node_args (node : elem_known_nodes_t) : list printf_arg :=
  [PS (kn_node_ip node); PU (kn_node_port node); PU (node_avail node CPU); PU (node_avail node RAM);
   PU (node_avail node GPU)].

Definition append_node_to_payload (max_size : Z) (node : elem_known_nodes_t) (ctx : payload_ctx_t)
  : payload_ctx_t :=
  if max_size <=? pc_current_offset ctx then ctx
  else
    let size := max_size -u pc_current_offset ctx in
    let buffer := snprintf_at (pc_buffer ctx) (pc_current_offset ctx) size NODE_FMT (node_args node) in
    let written := snprintf_len NODE_FMT (node_args node) in
    if (0 <? written) && (written <? to_int size)
    then PayloadCtx buffer (pc_current_offset ctx +u written)
    else PayloadCtx buffer (pc_current_offset ctx).

(** [buffer] is the previous content of the caller's array. *)
Definition get_known_nodes_payload (nodes : known_nodes_t) (buffer : string) (max_size : Z) : option string :=
  let ctx0 := PayloadCtx (snprintf_at buffer 0 max_size "NODES " []) (snprintf_len "NODES " []) in
  ctx ← tablahash_visitar_extra nodes (append_node_to_payload max_size) ctx0;
  let off := pc_current_offset ctx in
  if (6 <? off) && (off <? max_size)
  then Some (str_take (Z.to_nat (off - 1)) (pc_buffer ctx) +:+ str_nl)
  else Some (snprintf_at (pc_buffer ctx) 0 max_size ("NODES " +:+ str_nl) []).

(** ** Dead nodes *)

(** The visitor.  [elems_max] is the size of the array [to_delete]: writing past
    it would be undefined, [None]. *)
Definition check_inactive_node (now : Z) (max elems_max : nat) (node : elem_known_nodes_t)
    (to_delete : option (list elem_known_nodes_t)) : option (list elem_known_nodes_t) :=
  l ← to_delete;
  if (max <=? length l)%nat then Some l
  else if ANNOUNCE_TIMEOUT <? now - kn_time_stamp node then
    assert_def (length l <? elems_max)%nat;; Some (l ++ [node])
  else Some l.

(** The addresses and ports of the removed nodes, and the directory. *)
Definition remove_inactive_nodes (nodes : known_nodes_t) (max_size : nat) (now : Z)
  : option (list (string * Z) * known_nodes_t) :=
  let current_elems := wrap32 (tablahash_nelems nodes) in
  if current_elems =? 0 then Some ([], nodes)
  else
    r ← tablahash_visitar_extra nodes (check_inactive_node now max_size (Z.to_nat current_elems)) (Some []);
    to_delete ← r;
    nodes' ← foldM (fun nodes node => tablahash_eliminar nodes node) nodes to_delete;
    Some ((fun n => (kn_node_ip n, kn_node_port n)) <$> to_delete, nodes').

(** ** Keys and invariant *)

Definition node_key (n : elem_known_nodes_t) : string * Z := (kn_node_ip n, kn_node_port n).

#[export] Instance known_node_key : HashKey elem_known_nodes_t (string * Z).
Proof.
  refine {| tkey := node_key |}.
  - intros a b. simpl. unfold comp_known_node, node_key, strcmp_eq.
    destruct (String.eqb_spec (kn_node_ip a) (kn_node_ip b)), (Z.eqb_spec (kn_node_port a) (kn_node_port b));
      simpl; split; intros; congruence.
  - intros a b [= H1 H2]. simpl. unfold hash_known_node. by rewrite H1, H2.
  - intros a. apply wrap32_range.
  - done.
Defined.

Definition nodes_map (nodes : known_nodes_t) : gmap (string * Z) elem_known_nodes_t := contenido nodes.

Definition node_ok (n : elem_known_nodes_t) : Prop :=
  length (kn_avail n) = RES_NUM /\ in_u32 (kn_node_port n) /\ Forall in_u32 (kn_avail n).

Record known_wf (k : Z) (nodes : known_nodes_t) : Prop := {
  kw_tabla : tabla_wf nodes;
  kw_room : tabla_room nodes k;
  kw_nodes : Forall node_ok (items nodes)
}.

Lemma create_known_wf : known_wf (2 ^ 28) create_known_nodes /\ nodes_map create_known_nodes = ∅.
Proof.
  split; [|done]. split; [exact (proj1 (tabla_vacia_wf 11 ltac:(lia)))|unfold tabla_room; by vm_compute|].
  constructor.
Qed.

Lemma update_known_node_spec k nodes ip port cpu ram gpu now :
  known_wf k nodes -> 1 <= k -> in_u32 port -> in_u32 cpu -> in_u32 ram -> in_u32 gpu ->
  exists nodes', update_known_node nodes ip port cpu ram gpu now = Some nodes' /\ known_wf (k - 1) nodes' /\
    nodes_map nodes' = <[(ip, port) := KnownNode ip port [cpu; gpu; ram] now]> (nodes_map nodes).
Proof.
  intros [Hwf Hroom Hok] Hk Hp Hc Hr Hg. unfold update_known_node.
  set (n := create_elem_known_node ip port cpu ram gpu now).
  destruct (tabla_room_insertar nodes n k Hwf Hroom Hk) as (nodes' & -> & Hwf' & Hroom' & Hit).
  exists nodes'. split_and!; [done| |exact (contenido_insert_items nodes nodes' n Hwf Hwf' Hit)].
  split; [done|done|]. rewrite Hit. constructor.
  - split; [done|]. split; [done|]. by repeat (apply Forall_cons; split).
  - rewrite Forall_forall in Hok |- *. intros x [_ Hx]%list_elem_of_filter. by apply Hok.
Qed.

(** ** Dead nodes: specification *)

Definition expired (now : Z) (n : elem_known_nodes_t) : Prop := ANNOUNCE_TIMEOUT < now - kn_time_stamp n.

#[export] Instance expired_dec now n : Decision (expired now n).
Proof. unfold expired. apply _. Defined.

Lemma inactive_collect now m e l acc :
  (length acc + length l <= e)%nat -> (length acc <= m)%nat ->
  foldl (fun s n => check_inactive_node now m e n s) (Some acc) l
    = Some (acc ++ take (m - length acc) (filter (expired now) l)).
Proof.
  intros He Hm. rewrite <- (list_fmap_id (filter (expired now) l)).
  rewrite <- (collect_filter (fun n acc => if (m <=? length acc)%nat then acc
             else if decide (expired now n) then acc ++ [n] else acc) id (expired now) m) by done.
  clear Hm. revert acc He. induction l as [|n l IH]; intros acc He; [done|]. cbn [foldl].
  assert (Hstep : check_inactive_node now m e n (Some acc) =
            Some (if (m <=? length acc)%nat then acc
                  else if decide (expired now n) then acc ++ [n] else acc)).
  { unfold check_inactive_node, expired. simpl in He |- *. destruct (m <=? length acc)%nat; [done|].
    destruct (Z.ltb_spec ANNOUNCE_TIMEOUT (now - kn_time_stamp n)), (decide _); try lia; [|done].
    rewrite assert_def_true; [done|]. apply Nat.ltb_lt. lia. }
  rewrite Hstep. apply IH. simpl in He. destruct (m <=? length acc)%nat; [lia|].
  destruct (decide _); [rewrite length_app; simpl|]; lia.
Qed.

(** The nodes a sweep removes. *)
Definition swept_nodes (nodes : known_nodes_t) (m : nat) (now : Z) : list elem_known_nodes_t :=
  take m (filter (expired now) (items nodes)).

Lemma nelems_items nodes :
  tabla_wf nodes -> capacidad nodes <= 2 ^ 30 -> wrap32 (tablahash_nelems nodes) = Z.of_nat (length (items nodes)).
Proof.
  intros Hwf Hc. unfold tablahash_nelems. rewrite (wf_num _ Hwf).
  pose proof (items_le_cap nodes (wf_slots _ Hwf)). pose proof (sw_len _ _ (wf_slots _ Hwf)).
  rewrite to_int_small, wrap32_small; [done| |]; unfold in_u32, UINT_RANGE; lia.
Qed.

Lemma remove_inactive_spec k nodes m now :
  known_wf k nodes ->
  exists dead nodes', remove_inactive_nodes nodes m now = Some (dead, nodes') /\ known_wf k nodes' /\
    dead = node_key <$> swept_nodes nodes m now /\
    forall key, nodes_map nodes' !! key = if decide (key ∈ dead) then None else nodes_map nodes !! key.
Proof.
  intros [Hwf Hroom Hok]. unfold remove_inactive_nodes, swept_nodes. pose proof Hroom as (_ & Hcap & _).
  rewrite (nelems_items nodes Hwf Hcap). destruct (Z.eqb_spec (Z.of_nat (length (items nodes))) 0) as [H0|H0].
  - destruct (items nodes) eqn:Hit; [|simpl in H0; lia]. exists [], nodes.
    split_and!; [done| |by rewrite filter_nil, take_nil|done]. split; [done|done|]. by rewrite Hit.
  - rewrite (wf_visitar nodes _ _ Hwf). rewrite Nat2Z.id.
    rewrite (inactive_collect now m (length (items nodes)) (items nodes) []) by (simpl; lia). simpl.
    rewrite Nat.sub_0_r. set (ds := take m _).
    destruct (eliminar_all nodes ds Hwf) as (nodes' & -> & Hwf' & Hc & Hn & Hs & Hm). simpl.
    exists (node_key <$> ds), nodes'. split_and!; [done| |done|exact Hm]. split; [done| |].
    + pose proof Hroom as [? _]. eapply tabla_room_shrink; [done|done|done|lia].
    + rewrite Forall_forall in Hok |- *. intros n Hin. apply Hok. by eapply elem_of_submseteq, sublist_submseteq.
Qed.

(** ** The answer to GET_NODES: specification *)

(** The record of a node, without the separator. *)
Definition node_line (n : elem_known_nodes_t) : string :=
  format false "%s:%u:cpu:%u:mem:%u:gpu:%u" (node_args n).

(** The nodes whose records fit, in order, in the [room] that is left. *)
Fixpoint fitting (room : Z) (l : list elem_known_nodes_t) : list elem_known_nodes_t :=
  match l with
  | [] => []
  | n :: l' =>
      let len := Z.of_nat (String.length (node_line n)) + 1 in
      if len <? room then n :: fitting (room - len) l' else fitting room l'
  end.

Definition entry (n : elem_known_nodes_t) : string := node_line n +:+ ";".

Lemma format_entry n : format false NODE_FMT (node_args n) = entry n.
Proof.
  unfold entry, node_line, NODE_FMT, node_args. simpl.
  repeat (rewrite str_app_assoc; simpl). done.
Qed.

Lemma entry_length n : String.length (entry n) = S (String.length (node_line n)).
Proof. unfold entry. rewrite str_length_app. simpl. lia. Qed.

Lemma snprintf_len_entry n :
  snprintf_len NODE_FMT (node_args n) = Z.of_nat (String.length (node_line n)) + 1.
Proof. unfold snprintf_len. rewrite format_entry, entry_length. lia. Qed.

(** The text written so far is [body], which ends at the write head. *)
Definition payload_at (max_size : Z) (body : string) (ctx : payload_ctx_t) : Prop :=
  str_take (Z.to_nat (pc_current_offset ctx)) (pc_buffer ctx) = body /\
  Z.of_nat (String.length body) = pc_current_offset ctx /\ pc_current_offset ctx < max_size.

Lemma append_node_step max_size n body ctx :
  0 <= max_size < 2 ^ 31 -> payload_at max_size body ctx ->
  let fits := Z.of_nat (String.length (node_line n)) + 1 <? max_size - Z.of_nat (String.length body) in
  payload_at max_size (if fits then body +:+ entry n else body) (append_node_to_payload max_size n ctx).
Proof.
  intros Hm (Hb & Hlen & Hoff) fits. unfold append_node_to_payload.
  destruct (Z.leb_spec max_size (pc_current_offset ctx)); [lia|].
  set (size := max_size -u pc_current_offset ctx).
  assert (Hsz : size = max_size - pc_current_offset ctx).
  { subst size. apply wrap32_small. unfold in_u32, UINT_RANGE. lia. }
  rewrite Hsz, to_int_small by lia. clear size Hsz. rewrite snprintf_len_entry.
  unfold snprintf_at. destruct (Z.eqb_spec (max_size - pc_current_offset ctx) 0); [lia|].
  rewrite Hb. unfold snprintf. rewrite format_entry.
  assert (Hlb : Z.to_nat (pc_current_offset ctx) = String.length body) by lia.
  destruct (Z.ltb_spec 0 (Z.of_nat (String.length (node_line n)) + 1)); [|lia]. simpl.
  replace (Z.of_nat (String.length (node_line n)) + 1 <? max_size - pc_current_offset ctx) with fits
    by (subst fits; by rewrite Hlen).
  destruct fits eqn:Hf; unfold payload_at; simpl.
  - subst fits. apply Z.ltb_lt in Hf. pose proof (entry_length n).
    rewrite (str_take_all _ (entry n)) by lia.
    rewrite wrap32_small by (unfold in_u32, UINT_RANGE; lia). rewrite str_length_app. split_and!; [|lia|lia].
    replace (Z.to_nat _) with (String.length (body +:+ entry n)) by (rewrite str_length_app; lia).
    rewrite <- (str_app_nil_r (body +:+ entry n)) at 2. by rewrite str_take_app.
  - split_and!; [|done|done]. by rewrite Hlb, str_take_app.
Qed.

Fixpoint str_concat (l : list string) : string :=
  match l with [] => EmptyString | s :: l' => s +:+ str_concat l' end.

Lemma append_nodes max_size l body ctx :
  0 <= max_size < 2 ^ 31 -> payload_at max_size body ctx ->
  payload_at max_size
    (body +:+ str_concat (entry <$> fitting (max_size - Z.of_nat (String.length body)) l))
    (foldl (fun s n => append_node_to_payload max_size n s) ctx l).
Proof.
  intros Hm. revert body ctx. induction l as [|n l IH]; intros body ctx Hp; cbn [foldl fitting].
  - simpl. by rewrite str_app_nil_r.
  - pose proof (append_node_step max_size n body ctx Hm Hp) as Hstep. cbv zeta in Hstep.
    apply IH in Hstep. destruct (_ <? _).
    + rewrite str_length_app, entry_length, str_app_assoc in Hstep. simpl.
      replace (max_size - Z.of_nat (String.length body) - (Z.of_nat (String.length (node_line n)) + 1))
        with (max_size - Z.of_nat (String.length body + S (String.length (node_line n)))) by lia. done.
    + done.
Qed.

Lemma concat_entries n l :
  str_concat (entry <$> n :: l) = String.concat ";" (node_line <$> n :: l) +:+ ";".
Proof.
  revert n. induction l as [|m l IH]; intros n.
  - simpl. by rewrite str_app_nil_r.
  - change (str_concat (entry <$> n :: m :: l)) with (entry n +:+ str_concat (entry <$> m :: l)).
    rewrite IH. change (String.concat ";" (node_line <$> n :: m :: l)) with
      (node_line n +:+ ";" +:+ String.concat ";" (node_line <$> m :: l)).
    unfold entry. by rewrite !str_app_assoc.
Qed.

Lemma fitting_sublist room l : fitting room l `sublist_of` l.
Proof.
  revert room. induction l as [|n l IH]; intros room; cbn [fitting]; [done|].
  destruct (_ <? room); [by apply sublist_skip|by apply sublist_cons].
Qed.

Definition records_length (l : list elem_known_nodes_t) : Z :=
  sumZ (fun n => Z.of_nat (String.length (node_line n)) + 1) l.

Lemma fitting_all room l : records_length l < room -> fitting room l = l.
Proof.
  revert room. induction l as [|n l IH]; intros room Hl; cbn [fitting]; [done|].
  unfold records_length in Hl. rewrite sumZ_cons in Hl.
  assert (0 <= records_length l) by (apply sumZ_nonneg, Forall_forall; intros; simpl; lia).
  unfold records_length in *. rewrite (proj2 (Z.ltb_lt _ _)) by lia. rewrite IH; [done|]. lia.
Qed.

Lemma payload_spec k nodes buffer max_size :
  known_wf k nodes -> 8 <= max_size < 2 ^ 31 ->
  get_known_nodes_payload nodes buffer max_size =
    Some ("NODES " +:+ String.concat ";" (node_line <$> fitting (max_size - 6) (items nodes)) +:+ str_nl) /\
  (7 + String.length (String.concat ";" (node_line <$> fitting (max_size - 6) (items nodes)))
     < Z.to_nat max_size)%nat.
Proof.
  intros [Hwf _ _] Hm. unfold get_known_nodes_payload.
  rewrite (wf_visitar nodes _ _ Hwf). simpl.
  set (ctx0 := PayloadCtx _ _).
  assert (H0 : payload_at max_size "NODES " ctx0).
  { subst ctx0. unfold payload_at, snprintf_at, snprintf. simpl.
    destruct (Z.eqb_spec max_size 0); [lia|]. rewrite str_take_all by (simpl; lia).
    split_and!; [by destruct buffer|done|unfold snprintf_len; simpl; lia]. }
  apply (append_nodes max_size (items nodes)) in H0; [|lia].
  change (Z.of_nat (String.length "NODES ")) with 6 in H0.
  set (ctx := foldl _ ctx0 _) in *. clearbody ctx. clear ctx0. destruct H0 as (Hb & Hlen & Hoff).
  destruct (fitting (max_size - 6) (items nodes)) as [|n l].
  - simpl in *. rewrite <- Hlen. simpl. unfold snprintf_at, snprintf.
    destruct (Z.eqb_spec max_size 0); [lia|]. split; [|lia].
    rewrite (str_take_all (Z.to_nat max_size - 1)) by (change (7 <= Z.to_nat max_size - 1)%nat; lia).
    by destruct (pc_buffer ctx).
  - rewrite concat_entries in Hb, Hlen. set (j := String.concat ";" _) in *.
    rewrite !str_length_app in Hlen. simpl (String.length "NODES ") in Hlen. simpl (String.length ";") in Hlen.
    rewrite (proj2 (Z.ltb_lt 6 _)), (proj2 (Z.ltb_lt _ max_size)) by lia. simpl (true && true).
    split; [|lia]. do 2 f_equal.
    assert (Htk : str_take (Z.to_nat (pc_current_offset ctx - 1)) (pc_buffer ctx) = "NODES " +:+ j).
    { replace (Z.to_nat (pc_current_offset ctx - 1)) with (String.length ("NODES " +:+ j)) by (simpl; lia).
      pose proof (str_take_app ("NODES " +:+ j) ";") as Happ. rewrite str_app_assoc, <- Hb in Happ.
      rewrite str_take_take in Happ; [done|]. rewrite str_length_app. simpl. lia. }
    rewrite Htk. apply str_app_assoc.
Qed.

(** ** Properties *)

(** Also: [update_known_node] records the announcement under the address and port,
    replacing the previous one and its timestamp, and leaves every other node. *)
Theorem update_known_node_correct k nodes ip port cpu ram gpu now :
  known_wf k nodes -> 1 <= k -> in_u32 port -> in_u32 cpu -> in_u32 ram -> in_u32 gpu ->
  exists nodes', update_known_node nodes ip port cpu ram gpu now = Some nodes' /\ known_wf (k - 1) nodes' /\
    (exists n, nodes_map nodes' !! (ip, port) = Some n /\ kn_time_stamp n = now /\
       node_avail n CPU = cpu /\ node_avail n RAM = ram /\ node_avail n GPU = gpu) /\
    forall key, key ≠ (ip, port) -> nodes_map nodes' !! key = nodes_map nodes !! key.
Proof.
  intros Hw Hk Hp Hc Hr Hg.
  destruct (update_known_node_spec k nodes ip port cpu ram gpu now) as (nodes' & -> & Hw' & Hm); try done.
  exists nodes'. split_and!; [done|done| |].
  - eexists. rewrite Hm, lookup_insert_eq. by split_and!.
  - intros key Hne. by rewrite Hm, lookup_insert_ne.
Qed.

(** Also: the answer to GET_NODES never exceeds the caller's buffer, is one line
    ["NODES r1;...;rn\n"] made of complete records of distinct known nodes (a
    record that does not fit is left out as a whole), and lists every known node
    when their records fit. *)
Theorem get_known_nodes_payload_correct k nodes buffer max_size :
  known_wf k nodes -> 8 <= max_size < 2 ^ 31 ->
  exists l payload, get_known_nodes_payload nodes buffer max_size = Some payload /\
    payload = "NODES " +:+ String.concat ";" (node_line <$> l) +:+ str_nl /\
    (String.length payload < Z.to_nat max_size)%nat /\
    l = fitting (max_size - 6) (items nodes) /\ NoDup (node_key <$> l) /\
    (records_length (items nodes) < max_size - 6 -> l = items nodes).
Proof.
  intros Hw Hm. destruct (payload_spec k nodes buffer max_size Hw Hm) as [Hp Hlen].
  exists (fitting (max_size - 6) (items nodes)). eexists. split; [exact Hp|]. split_and!; [done| |done| |].
  - rewrite !str_length_app. simpl. lia.
  - apply (sublist_NoDup _ (node_key <$> items nodes)); [|apply fmap_sublist, fitting_sublist].
    exact (wf_items_NoDup nodes (kw_tabla _ _ Hw)).
  - apply fitting_all.
Qed.

(** C40: [remove_inactive_nodes] never overruns its arrays; it reports each node at
    most once, removes exactly the reported ones, only nodes silent for more than
    15 seconds, and all of those when the caller's arrays are large enough. *)
Theorem remove_inactive_exact k nodes m now :
  known_wf k nodes ->
  exists dead nodes', remove_inactive_nodes nodes m now = Some (dead, nodes') /\ known_wf k nodes' /\
    (length dead <= m)%nat /\ NoDup dead /\
    (forall key, nodes_map nodes' !! key = if decide (key ∈ dead) then None else nodes_map nodes !! key) /\
    (forall key, key ∈ dead -> exists n, nodes_map nodes !! key = Some n /\ expired now n) /\
    ((size (nodes_map nodes) <= m)%nat ->
       forall key n, nodes_map nodes !! key = Some n -> expired now n -> key ∈ dead).
Proof.
  intros Hw. destruct (remove_inactive_spec k nodes m now Hw) as (dead & nodes' & -> & Hw' & -> & Hm).
  pose proof (wf_items_NoDup nodes (kw_tabla _ _ Hw)) as Hnd.
  eexists _, nodes'. split_and!; [done|done| | |done| |].
  - unfold swept_nodes. rewrite length_fmap, length_take. lia.
  - unfold swept_nodes. apply (sublist_NoDup _ (node_key <$> items nodes)); [done|]. apply fmap_sublist.
    etrans; [apply sublist_take|apply sublist_filter].
  - intros key (n & -> & Hn)%list_elem_of_fmap. exists n. unfold swept_nodes in Hn.
    apply elem_of_take in Hn as (i & Hi & _). apply list_elem_of_lookup_2 in Hi.
    apply list_elem_of_filter in Hi as [He Hin]. split; [|done]. unfold nodes_map.
    by apply contenido_lookup.
  - intros Hsz key n Hl He. unfold nodes_map in Hl. apply contenido_lookup in Hl as [Hin <-]; [|done].
    apply list_elem_of_fmap. exists n. split; [done|]. unfold swept_nodes. rewrite take_ge.
    + by apply list_elem_of_filter.
    + etrans; [apply length_filter|].
      rewrite (items_contenido nodes (kw_tabla _ _ Hw)), length_fmap, length_map_to_list. done.
Qed.

(** ** A concrete directory *)

Module KnownEjemplo.

(** Two nodes, heard at times 100 and 110. *)
Definition nodos : known_nodes_t :=
  default create_known_nodes
    (n1 ← update_known_node create_known_nodes "10.0.0.1" 8100 4 16 1 100;
     update_known_node n1 "10.0.0.2" 8100 2 8 0 110).

Lemma nodos_wf : known_wf (2 ^ 28 - 2) nodos.
Proof.
  unfold nodos.
  destruct (update_known_node_spec (2 ^ 28) create_known_nodes "10.0.0.1" 8100 4 16 1 100)
    as (n1 & -> & Hw1 & _); try done; [exact (proj1 create_known_wf)|]. cbn [mbind option_bind].
  destruct (update_known_node_spec (2 ^ 28 - 1) n1 "10.0.0.2" 8100 2 8 0 110) as (n2 & -> & Hw2 & _); done.
Qed.

Example payload_of_nodos :
  get_known_nodes_payload nodos EmptyString 1024 =
    Some ("NODES 10.0.0.1:8100:cpu:4:mem:16:gpu:1;10.0.0.2:8100:cpu:2:mem:8:gpu:0" +:+ str_nl).
Proof. vm_compute. reflexivity. Qed.

Lemma update_known_node_correct_witness :
  exists nodes', update_known_node nodos "10.0.0.1" 8100 3 16 1 120 = Some nodes' /\
    known_wf (2 ^ 28 - 2 - 1) nodes' /\
    (exists n, nodes_map nodes' !! ("10.0.0.1", 8100) = Some n /\ kn_time_stamp n = 120 /\
       node_avail n CPU = 3 /\ node_avail n RAM = 16 /\ node_avail n GPU = 1) /\
    forall key, key ≠ ("10.0.0.1", 8100) -> nodes_map nodes' !! key = nodes_map nodos !! key.
Proof. exact (update_known_node_correct (2 ^ 28 - 2) nodos "10.0.0.1" 8100 3 16 1 120 nodos_wf
  ltac:(lia) ltac:(done) ltac:(done) ltac:(done) ltac:(done)). Defined.

Lemma get_known_nodes_payload_correct_witness :
  exists l payload, get_known_nodes_payload nodos EmptyString 1024 = Some payload /\
    payload = "NODES " +:+ String.concat ";" (node_line <$> l) +:+ str_nl /\
    (String.length payload < Z.to_nat 1024)%nat /\
    l = fitting (1024 - 6) (items nodos) /\ NoDup (node_key <$> l) /\
    (records_length (items nodos) < 1024 - 6 -> l = items nodos).
Proof. exact (get_known_nodes_payload_correct (2 ^ 28 - 2) nodos EmptyString 1024 nodos_wf ltac:(lia)). Defined.

Lemma remove_inactive_exact_witness :
  exists dead nodes', remove_inactive_nodes nodos 20 116 = Some (dead, nodes') /\
    known_wf (2 ^ 28 - 2) nodes' /\
    (length dead <= 20)%nat /\ NoDup dead /\
    (forall key, nodes_map nodes' !! key = if decide (key ∈ dead) then None else nodes_map nodos !! key) /\
    (forall key, key ∈ dead -> exists n, nodes_map nodos !! key = Some n /\ expired 116 n) /\
    ((size (nodes_map nodos) <= 20)%nat ->
       forall key n, nodes_map nodos !! key = Some n -> expired 116 n -> key ∈ dead).
Proof. exact (remove_inactive_exact (2 ^ 28 - 2) nodos 20 116 nodos_wf). Defined.

End KnownEjemplo.
