(* ===== verification/NodeStructures.v ===== *)
(** * NodeStructures: [src/c_agent/src/resources/node_structures.c]

    The state of the agent: the inventory and the active jobs, the directory of
    nodes and the owned jobs.  The three mutexes are the [component]s of the file
    Adapter, which records how they are used. *)

From S2P Require Import Prelude Queues TablaHash CommonTypes LocalResource OwnedJobs KnownNodes.
Local Open Scope Z_scope.

Record node_data_t := NodeData {
  nd_active_jobs : active_jobs_t;
  nd_resources : local_resources_t;
  nd_known_nodes : known_nodes_t;
  nd_owned_jobs : owned_jobs_t
}.

Definition init_node (cpu ram gpu : Z) : node_data_t :=
  NodeData create_active_jobs_table (create_local_resource cpu gpu ram) create_known_nodes create_owned_jobs.

(** The destructors act on [heap]; the modules are destroyed in the order of the
    code. *)
Definition dest_node {H : Type} (node : node_data_t)
    (dest_job_request : elem_job_request_t -> H -> H) (dest_active_job : elem_active_job_t -> H -> H)
    (dest_known_node : elem_known_nodes_t -> H -> H) (dest_owned_job : elem_owned_job_t -> H -> H)
    (heap : H) : option H :=
  heap1 ← delete_local_resource (nd_resources node) dest_job_request heap;
  heap2 ← tablahash_destruir (nd_active_jobs node) dest_active_job heap1;
  heap3 ← delete_known_nodes (nd_known_nodes node) dest_known_node heap2;
  delete_owned_jobs (nd_owned_jobs node) dest_owned_job heap3.

(** ** Invariant

    [k] bounds the further insertions each table has room for. *)

Record node_wf (k : Z) (node : node_data_t) : Prop := {
  nw_local : local_wf k (nd_resources node) (nd_active_jobs node);
  nw_known : known_wf k (nd_known_nodes node);
  nw_owned : owned_wf k (nd_owned_jobs node)
}.

(** The room of a fresh node. *)
Definition NODE_ROOM : Z := 2 ^ 28.

Lemma local_wf_weaken k k' r jobs : local_wf k r jobs -> 0 <= k' <= k -> local_wf k' r jobs.
Proof.
  intros Hw Hk. pose proof (queued_nonneg r). destruct Hw. split; try done; [|lia].
  eapply tabla_room_weaken; [done|lia].
Qed.
Lemma known_wf_weaken k k' nodes : known_wf k nodes -> 0 <= k' <= k -> known_wf k' nodes.
Proof. intros [] Hk. split; try done. by eapply tabla_room_weaken. Qed.
Lemma owned_wf_weaken k k' jobs : owned_wf k jobs -> 0 <= k' <= k -> owned_wf k' jobs.
Proof. intros [] Hk. split; try done. by eapply tabla_room_weaken. Qed.

Lemma node_wf_weaken k k' node : node_wf k node -> 0 <= k' <= k -> node_wf k' node.
Proof.
  intros [] Hk. split; [by eapply local_wf_weaken|by eapply known_wf_weaken|by eapply owned_wf_weaken].
Qed.

Lemma node_wf_k k node : node_wf k node -> 0 <= k.
Proof. intros [Hl _ _]. by destruct Hl. Qed.

Lemma init_node_wf cpu ram gpu :
  in_u32 cpu -> in_u32 ram -> in_u32 gpu -> node_wf NODE_ROOM (init_node cpu ram gpu).
Proof.
  intros Hc Hr Hg. split; [|exact (proj1 create_known_wf)|exact (proj1 create_owned_wf)].
  by apply create_local_wf.
Qed.

(** Passing a list to a destructor, in order. *)
Definition release_all {A H : Type} (destroy : A -> H -> H) (l : list A) (heap : H) : H :=
  foldl (fun h a => destroy a h) heap l.

Lemma queue_destroy_foldl {A H : Type} (q : list A) (destroy : A -> H -> H) heap :
  queue_destroy q destroy heap = release_all destroy q heap.
Proof. revert heap. induction q as [|a q IH]; intros heap; simpl; [done|]. by rewrite IH. Qed.

Lemma delete_local_resource_spec {H : Type} r (destroy : elem_job_request_t -> H -> H) heap :
  shape r ->
  delete_local_resource r destroy heap
    = Some (release_all destroy (concat (pend r <$> resource_types)) heap).
Proof.
  intros Hs. unfold delete_local_resource, RES_NUM. cbn [seq].
  pose proof (pend_lookup r CPU Hs ltac:(done)) as H0. pose proof (pend_lookup r GPU Hs ltac:(done)) as H1.
  pose proof (pend_lookup r RAM Hs ltac:(done)) as H2. simpl in H0, H1, H2.
  rewrite foldM_cons, H0. cbn [mbind option_bind].
  rewrite foldM_cons, H1. cbn [mbind option_bind].
  rewrite foldM_cons, H2. cbn [mbind option_bind]. rewrite foldM_nil.
  rewrite !queue_destroy_foldl. unfold release_all, resource_types. simpl.
  by rewrite app_nil_r, !foldl_app.
Qed.

(** Also: [dest_node] on a well-formed node releases everything exactly once: it
    passes to their destructors, in this order, every waiting request, every
    active job, every known node and every owned job, and nothing else. *)
Theorem dest_node_complete {H : Type} k node
    (dest_job_request : elem_job_request_t -> H -> H) (dest_active_job : elem_active_job_t -> H -> H)
    (dest_known_node : elem_known_nodes_t -> H -> H) (dest_owned_job : elem_owned_job_t -> H -> H) heap :
  node_wf k node ->
  dest_node node dest_job_request dest_active_job dest_known_node dest_owned_job heap =
    Some (release_all dest_owned_job (items (nd_owned_jobs node))
           (release_all dest_known_node (items (nd_known_nodes node))
             (release_all dest_active_job (items (nd_active_jobs node))
               (release_all dest_job_request (concat (pend (nd_resources node) <$> resource_types)) heap)))).
Proof.
  intros [Hl Hk Ho]. unfold dest_node.
  rewrite (delete_local_resource_spec _ _ _ (lw_shape _ _ _ Hl)). simpl.
  unfold tablahash_destruir, delete_known_nodes, delete_owned_jobs, tablahash_destruir.
  rewrite (wf_visitar _ _ _ (lw_tabla _ _ _ Hl)). simpl.
  rewrite (wf_visitar _ _ _ (kw_tabla _ _ Hk)). simpl.
  by rewrite (wf_visitar _ _ _ (ow_tabla _ _ Ho)).
Qed.

(** Also: [init_node] hands its three quantities to the right resources: the totals
    and the available amounts are those of the command line, every table and
    queue is empty, and the node is well formed. *)
Theorem init_node_correct cpu ram gpu :
  in_u32 cpu -> in_u32 ram -> in_u32 gpu ->
  let node := init_node cpu ram gpu in
  node_wf NODE_ROOM node /\
  tot (nd_resources node) CPU = cpu /\ tot (nd_resources node) RAM = ram /\ tot (nd_resources node) GPU = gpu /\
  get_local_resources (nd_resources node) = Some (cpu, gpu, ram) /\
  (forall t, pend (nd_resources node) t = []) /\
  contenido (nd_active_jobs node) = ∅ /\ nodes_map (nd_known_nodes node) = ∅ /\
  jobs_map (nd_owned_jobs node) = ∅.
Proof.
  intros Hc Hr Hg node. split_and!; try done.
  - by apply init_node_wf.
  - intros []; reflexivity.
Qed.

Module NodeEjemplo.

Definition nodo : node_data_t := init_node 4 8 1.

Lemma nodo_wf : node_wf NODE_ROOM nodo.
Proof. by apply init_node_wf. Qed.

Lemma init_node_correct_witness :
  node_wf NODE_ROOM nodo /\
  tot (nd_resources nodo) CPU = 4 /\ tot (nd_resources nodo) RAM = 8 /\ tot (nd_resources nodo) GPU = 1 /\
  get_local_resources (nd_resources nodo) = Some (4, 1, 8) /\
  (forall t, pend (nd_resources nodo) t = []) /\
  contenido (nd_active_jobs nodo) = ∅ /\ nodes_map (nd_known_nodes nodo) = ∅ /\
  jobs_map (nd_owned_jobs nodo) = ∅.
Proof. exact (init_node_correct 4 8 1 ltac:(done) ltac:(done) ltac:(done)). Defined.

(** Counting the destructor calls. *)
Lemma dest_node_complete_witness :
  dest_node nodo (fun _ n => S n) (fun _ n => S n) (fun _ n => S n) (fun _ n => S n) 0%nat =
    Some (release_all (fun _ n => S n) (items (nd_owned_jobs nodo))
           (release_all (fun _ n => S n) (items (nd_known_nodes nodo))
             (release_all (fun _ n => S n) (items (nd_active_jobs nodo))
               (release_all (fun _ n => S n) (concat (pend (nd_resources nodo) <$> resource_types)) 0%nat)))).
Proof. exact (dest_node_complete NODE_ROOM nodo (fun _ n => S n) (fun _ n => S n) (fun _ n => S n)
  (fun _ n => S n) 0%nat nodo_wf). Defined.

End NodeEjemplo.
