(* ===== verification/Connections.v ===== *)
(** * Connections: the table of open connections

    [src/c_agent/include/comms/server_types.h] and the two queries of
    [src/c_agent/src/comms/event_handler.c] on the array [active_connections],
    which the adapter uses to map a node to its connection and back. *)

From S2P Require Import Prelude CString.
Local Open Scope Z_scope.

Definition MAX_FDS : nat := 1024.
Definition BUFFER_SIZE : nat := 1024.
Definition MAX_OUTBOX : nat := 128.

(** [mynode] is a pointer to the node, which the model passes around itself: the
    field only says whether it is set. *)
Record ServerContext := Context {
  sc_port : Z;
  sc_lan_ip : string;
  sc_epollfd : Z;
  sc_tcp_public_fd : Z;
  sc_erlang_tcp_fd : Z;
  sc_udp_fd : Z;
  sc_tcp_timerfd : Z;
  sc_udp_timerfd : Z;
  sc_gc_timerfd : Z;
  sc_mynode : bool
}.

Record ConnectionState := Connection {
  cn_is_active : Z;
  cn_ip : string;
  cn_port : Z;
  cn_pending_message : string;
  cn_job_id : Z
}.

(** [target_ip] is the content of a 16-byte array, [target_port] and [target_fd]
    are [int]s. *)
Record out_msg_t := OutMsg {
  target_ip : string;
  target_port : Z;
  target_fd : Z;
  message : string
}.

(** The array [active_connections]; it has [MAX_FDS] entries. *)
Abbreviation connections := (list ConnectionState).

(** The global array starts zeroed. *)
Definition no_connections : connections := replicate MAX_FDS (Connection 0 EmptyString 0 EmptyString 0).

Definition conns_ok (conns : connections) : Prop := length conns = MAX_FDS.

(** The test of the loop of [find_fd_by_ip_port]. *)
Definition conn_matches (ip : string) (port : Z) (c : ConnectionState) : bool :=
  negb (cn_is_active c =? 0) && (cn_port c =? port) && strncmp_eq (cn_ip c) ip 15.

(** The loop from index [i] on, [n] iterations left. *)
Fixpoint find_fd_loop (conns : connections) (ip : string) (port : Z) (n i : nat) : option Z :=
  match n with
  | O => Some (-1)
  | S n' =>
      c ← conns !! i;
      if conn_matches ip port c then Some (Z.of_nat i) else find_fd_loop conns ip port n' (S i)
  end.

Definition find_fd_by_ip_port (conns : connections) (ip : string) (port : Z) : option Z :=
  find_fd_loop conns ip port MAX_FDS 0.

Definition get_connection_port (conns : connections) (fd : Z) : option Z :=
  if (fd <? 0) || (Z.of_nat MAX_FDS <=? fd) then Some 0
  else
    c ← conns !! Z.to_nat fd;
    Some (if negb (cn_is_active c =? 0) then cn_port c else 0).

(** ** Specification *)

Lemma find_fd_loop_spec conns ip port n i :
  (n + i)%nat = length conns ->
  exists z, find_fd_loop conns ip port n i = Some z /\
    ((z = -1 /\ Forall (fun c => conn_matches ip port c = false) (drop i conns)) \/
     exists j c, z = Z.of_nat j /\ (i <= j)%nat /\ conns !! j = Some c /\ conn_matches ip port c = true /\
       forall j' c', (i <= j' < j)%nat -> conns !! j' = Some c' -> conn_matches ip port c' = false).
Proof.
  revert i. induction n as [|n IH]; intros i Hi; simpl.
  - exists (-1). split; [done|]. left. rewrite drop_ge by lia. by constructor.
  - destruct (lookup_lt_is_Some_2 conns i) as [c Hc]; [lia|]. rewrite Hc; simpl.
    destruct (conn_matches ip port c) eqn:Hm.
    + eexists. split; [done|]. right. exists i, c. split_and!; try done. intros j' c' Hj. lia.
    + destruct (IH (S i) ltac:(lia)) as (z & -> & [[-> HF]|(j & d & -> & Hj & Hd & Hdm & Hmin)]).
      * exists (-1). split; [done|]. left. split; [done|]. rewrite (drop_S _ _ _ Hc). by constructor.
      * eexists. split; [done|]. right. exists j, d. split_and!; try done; [lia|].
        intros j' c' Hj' Hc'. destruct (decide (j' = i)) as [->|?]; [congruence|]. apply (Hmin j' c'); [lia|done].
Qed.

Lemma find_fd_total conns ip port :
  conns_ok conns -> exists z, find_fd_by_ip_port conns ip port = Some z /\ (z = -1 \/ 0 <= z < Z.of_nat MAX_FDS).
Proof.
  intros Hok. destruct (find_fd_loop_spec conns ip port MAX_FDS 0) as (z & Hz & H).
  { rewrite Hok. lia. }
  exists z. split; [done|]. destruct H as [[-> _]|(j & c & -> & _ & Hc & _)]; [by left|right].
  apply lookup_lt_Some in Hc. rewrite Hok in Hc. lia.
Qed.

Lemma get_connection_port_spec conns fd :
  conns_ok conns ->
  get_connection_port conns fd =
    Some (match (if decide (0 <= fd) then conns !! Z.to_nat fd else None) with
          | Some c => if decide (cn_is_active c = 0) then 0 else cn_port c
          | None => 0 end).
Proof.
  intros Hok. unfold get_connection_port. unfold conns_ok in Hok.
  destruct (Z.ltb_spec fd 0) as [Hn|Hn]; simpl; [by rewrite decide_False by lia|].
  rewrite decide_True by done. destruct (Z.leb_spec (Z.of_nat MAX_FDS) fd) as [Hge|Hlt]; simpl.
  - by rewrite lookup_ge_None_2 by lia.
  - destruct (lookup_lt_is_Some_2 conns (Z.to_nat fd)) as [c ->]; [lia|]. simpl. f_equal.
    destruct (Z.eqb_spec (cn_is_active c) 0), (decide _); done.
Qed.

(** Also: the two queries of the connection table agree: [find_fd_by_ip_port] never
    reads outside the table; a descriptor it returns is the lowest active one
    registered with that port and address, and [get_connection_port] maps it back
    to the port; it returns -1 exactly when there is none. *)
Theorem find_fd_inverse conns ip port :
  conns_ok conns ->
  exists z, find_fd_by_ip_port conns ip port = Some z /\
    ((z = -1 /\ Forall (fun c => conn_matches ip port c = false) conns) \/
     exists c, 0 <= z < Z.of_nat MAX_FDS /\ conns !! Z.to_nat z = Some c /\ conn_matches ip port c = true /\
       get_connection_port conns z = Some port /\
       forall (j : nat) c', Z.of_nat j < z -> conns !! j = Some c' -> conn_matches ip port c' = false).
Proof.
  intros Hok. destruct (find_fd_loop_spec conns ip port MAX_FDS 0) as (z & Hz & H).
  { rewrite Hok. lia. }
  exists z. split; [done|]. destruct H as [[-> HF]|(j & c & -> & _ & Hc & Hm & Hmin)]; [by left|right].
  pose proof (lookup_lt_Some _ _ _ Hc) as Hlt. rewrite Hok in Hlt. exists c.
  rewrite Nat2Z.id, get_connection_port_spec by done. rewrite decide_True, Nat2Z.id, Hc by lia.
  split_and!; try done; try lia.
  - unfold conn_matches in Hm. rewrite !andb_true_iff, negb_true_iff, Z.eqb_neq, Z.eqb_eq in Hm.
    destruct Hm as [[Ha Hp] _]. rewrite decide_False by done. by rewrite Hp.
  - intros j' c' Hj Hc'. apply (Hmin j' c'); [lia|done].
Qed.

Module ConnEjemplo.
(** Descriptor 7 is the connection this agent opened to 10.0.0.1:8100. *)
Definition tabla : connections :=
  <[7%nat := Connection 1 "10.0.0.1" 8100 EmptyString 0]>
    (replicate MAX_FDS (Connection 0 EmptyString 0 EmptyString 0)).

Lemma tabla_ok : conns_ok tabla.
Proof. reflexivity. Qed.

Example find_fd_7 : find_fd_by_ip_port tabla "10.0.0.1" 8100 = Some 7.
Proof. vm_compute. reflexivity. Qed.

Lemma find_fd_inverse_witness :
  exists z, find_fd_by_ip_port tabla "10.0.0.1" 8100 = Some z /\
    ((z = -1 /\ Forall (fun c => conn_matches "10.0.0.1" 8100 c = false) tabla) \/
     exists c, 0 <= z < Z.of_nat MAX_FDS /\ tabla !! Z.to_nat z = Some c /\
       conn_matches "10.0.0.1" 8100 c = true /\ get_connection_port tabla z = Some 8100 /\
       forall (j : nat) c', Z.of_nat j < z -> tabla !! j = Some c' -> conn_matches "10.0.0.1" 8100 c' = false).
Proof. exact (find_fd_inverse tabla "10.0.0.1" 8100 tabla_ok). Defined.
End ConnEjemplo.
