(* ===== verification/Program.v ===== *)
(** * Program: effectful programs as trees of operations

    A handler of the agent is a tree: the operations it performs on what it shares
    with the other threads, in order, each with the continuation of its answer.
    The same tree is evaluated alone (Adapter, Server) and interleaved with others
    (Threads). *)

From S2P Require Import Prelude.

(** [E X] is the type of the operations that answer an [X].  [Fail] is undefined
    behaviour; [Spin] is a loop of the source that outlives the fuel the model gave
    it. *)
Inductive prog (E : Set -> Type) (A : Type) : Type :=
  | Ret (a : A)
  | Fail
  | Spin
  | Do {X : Set} (e : E X) (k : X -> prog E A).

Arguments Ret {E A}.
Arguments Fail {E A}.
Arguments Spin {E A}.
Arguments Do {E A X}.

Fixpoint prog_bind {E A B} (m : prog E A) (f : A -> prog E B) : prog E B :=
  match m with
  | Ret a => f a
  | Fail => Fail
  | Spin => Spin
  | Do e k => Do e (fun x => prog_bind (k x) f)
  end.

#[export] Instance prog_mret E : MRet (prog E) := fun A a => Ret a.
#[export] Instance prog_mbind E : MBind (prog E) := fun A B f m => prog_bind m f.

(** One operation. *)
Definition trigger {E} {X : Set} (e : E X) : prog E X := Do e Ret.

(** ** Running a program alone

    [step] answers an operation and updates the state; [None] is undefined
    behaviour. *)
Section interp.
Context {E : Set -> Type} {S : Type} (step : forall X : Set, E X -> S -> option (X * S)).

Fixpoint interp {A} (m : prog E A) (s : S) : option (A * S) :=
  match m with
  | Ret a => Some (a, s)
  | Fail | Spin => None
  | Do e k => '(x, s') ← step _ e s; interp (k x) s'
  end.

Lemma interp_bind {A B} (m : prog E A) (f : A -> prog E B) s :
  interp (prog_bind m f) s = '(a, s') ← interp m s; interp (f a) s'.
Proof.
  revert s. induction m as [a| | |X e k IH]; intros s; simpl; try done.
  destruct (step X e s) as [[x s']|]; simpl; [apply IH|done].
Qed.

Lemma interp_bind_Some {A B} (m : prog E A) (f : A -> prog E B) s b s2 :
  interp (prog_bind m f) s = Some (b, s2) ->
  exists a s1, interp m s = Some (a, s1) /\ interp (f a) s1 = Some (b, s2).
Proof. rewrite interp_bind. destruct (interp m s) as [[a s1]|]; [|done]. simpl. eauto. Qed.
End interp.

#[global] Arguments interp : simpl never.
