(* ===== verification/Adapter.v ===== *)
(** * Adapter: the effects of the handlers

    The operations a handler of [src/c_agent/src/comms/resource_adapter.c] is a tree
    of: locks, calls on the components of the node, queries of the table of
    connections, [strtok], [close], and what it does to the outbox of its caller.

    [run] evaluates a handler alone, and records every lock, unlock and access and
    every [close] in a trace; [disciplined] is the locking protocol of the agent. *)

From Stdlib Require Import Ascii.
From S2P Require Import Prelude CString TablaHash LocalResource OwnedJobs KnownNodes NodeStructures Connections Program.
Local Open Scope Z_scope.

(** ** State *)

(** Each component of the node has its mutex: [lock_local] (active jobs and
    inventory), [lock_known], [lock_owned]. *)
Inductive component := Local | Known | Owned.

#[export] Instance component_eq_dec : EqDecision component.
Proof. solve_decision. Defined.

(** What a thread can hold: a mutex, or the lock of the table of connections for
    reading or for writing. *)
Inductive hold := Mutex (c : component) | Reading | Writing.

#[export] Instance hold_eq_dec : EqDecision hold.
Proof. solve_decision. Defined.

Coercion Mutex : component >-> hold.

(** What the threads of the agent share; [sh_tokens] are the tokens left to the
    next [strtok(NULL, " ")], whose position is a static variable of the C
    library. *)
Record shared := Shared {
  sh_node : node_data_t;
  sh_conns : connections;
  sh_tokens : list string
}.

(** The array the caller provides and the messages in it; [*count] is their
    number. *)
Record outbox_t := Outbox { ob_size : nat; ob_msgs : list out_msg_t }.

(** ** Operations *)

(** What a thread does to the shared state.  A call on a component is one
    operation. *)
Inductive op : Set -> Type :=
  | Lock (l : hold) : op unit
  | Unlock (l : hold) : op unit
  | OnLocal {A : Set}
      (f : local_resources_t -> active_jobs_t -> option (A * local_resources_t * active_jobs_t)) : op A
  | OnKnown {A : Set} (f : known_nodes_t -> option (A * known_nodes_t)) : op A
  | OnOwned {A : Set} (f : owned_jobs_t -> option (A * owned_jobs_t)) : op A
  | ReadTable {A : Set} (f : connections -> option A) : op A
  | WriteTable (f : connections -> option connections) : op unit
  | Strtok (s : option string) : op (option string)
  | Close (fd : Z) : op unit.

(** The adapter also works on the outbox of its caller, [None] when it is a null
    pointer. *)
Inductive adapter_op : Set -> Type :=
  | Common {A : Set} (o : op A) : adapter_op A
  | OnOutbox {A : Set} (f : option outbox_t -> option (A * option outbox_t)) : adapter_op A.

Definition adapter (A : Type) : Type := prog adapter_op A.

#[export] Instance adapter_ret : MRet adapter := fun A a => Ret a.
#[export] Instance adapter_bind : MBind adapter := fun A B f m => prog_bind m f.

Definition set_local (n : node_data_t) (r : local_resources_t) (jobs : active_jobs_t) : node_data_t :=
  NodeData jobs r (nd_known_nodes n) (nd_owned_jobs n).
Definition set_known (n : node_data_t) (nodes : known_nodes_t) : node_data_t :=
  NodeData (nd_active_jobs n) (nd_resources n) nodes (nd_owned_jobs n).
Definition set_owned (n : node_data_t) (jobs : owned_jobs_t) : node_data_t :=
  NodeData (nd_active_jobs n) (nd_resources n) (nd_known_nodes n) jobs.

Definition set_node (n : node_data_t) (s : shared) : shared := Shared n (sh_conns s) (sh_tokens s).
Definition set_tokens (ts : list string) (s : shared) : shared := Shared (sh_node s) (sh_conns s) ts.

(** [strtok] with the delimiter [" "]: a text starts a new traversal. *)
Definition strtok (text : option string) (s : shared) : option string * shared :=
  let ts := match text with Some t => strtok_all " "%char t | None => sh_tokens s end in
  (head ts, set_tokens (tail ts) s).

(** The answer to an operation and its effect on the shared state. *)
Definition op_step {X : Set} (o : op X) (s : shared) : option (X * shared) :=
  match o in op X return option (X * shared) with
  | Lock _ | Unlock _ | Close _ => Some ((), s)
  | OnLocal f =>
      '(a, r, jobs) ← f (nd_resources (sh_node s)) (nd_active_jobs (sh_node s));
      Some (a, set_node (set_local (sh_node s) r jobs) s)
  | OnKnown f => '(a, nodes) ← f (nd_known_nodes (sh_node s)); Some (a, set_node (set_known (sh_node s) nodes) s)
  | OnOwned f => '(a, jobs) ← f (nd_owned_jobs (sh_node s)); Some (a, set_node (set_owned (sh_node s) jobs) s)
  | ReadTable f => a ← f (sh_conns s); Some (a, s)
  | WriteTable f => conns ← f (sh_conns s); Some ((), Shared (sh_node s) conns (sh_tokens s))
  | Strtok text => Some (strtok text s)
  end.

(** ** Running a handler alone *)

Inductive event :=
  | EvLock (l : hold)
  | EvUnlock (l : hold)
  | EvAccess (c : component)
  | EvRead
  | EvWrite
  | EvClose (fd : Z).

Definition op_events {X : Set} (o : op X) : list event :=
  match o with
  | Lock l => [EvLock l]
  | Unlock l => [EvUnlock l]
  | OnLocal _ => [EvAccess Local]
  | OnKnown _ => [EvAccess Known]
  | OnOwned _ => [EvAccess Owned]
  | ReadTable _ => [EvRead]
  | WriteTable _ => [EvWrite]
  | Strtok _ => []
  | Close fd => [EvClose fd]
  end.

Record adapter_state := AdapterState {
  st_shared : shared;
  st_outbox : option outbox_t;
  st_trace : list event
}.

Abbreviation st_node st := (sh_node (st_shared st)).
Abbreviation st_conns st := (sh_conns (st_shared st)).

Definition adapter_step (X : Set) (o : adapter_op X) (st : adapter_state) : option (X * adapter_state) :=
  match o in adapter_op X return option (X * adapter_state) with
  | Common o => '(a, s) ← op_step o (st_shared st); Some (a, AdapterState s (st_outbox st) (st_trace st ++ op_events o))
  | OnOutbox f => '(a, ob) ← f (st_outbox st); Some (a, AdapterState (st_shared st) ob (st_trace st))
  end.

(** A handler is a function of the state it starts from. *)
Definition run {A} (m : adapter A) (st : adapter_state) : option (A * adapter_state) := interp adapter_step m st.

Coercion run : adapter >-> Funclass.

(** ** Primitives *)

Definition common {X : Set} (o : op X) : adapter X := trigger (Common o).

Definition lift {A} (o : option A) : adapter A := match o with Some a => mret a | None => Fail end.

Definition pthread_mutex_lock (c : component) : adapter () := common (Lock c).
Definition pthread_mutex_unlock (c : component) : adapter () := common (Unlock c).
Definition close (fd : Z) : adapter () := common (Close fd).

(** A call on the inventory and the active jobs. *)
Definition on_local {A : Set}
    (f : local_resources_t -> active_jobs_t -> option (A * local_resources_t * active_jobs_t)) : adapter A :=
  common (OnLocal f).
(** A call on the directory. *)
Definition on_known {A : Set} (f : known_nodes_t -> option (A * known_nodes_t)) : adapter A := common (OnKnown f).
(** A call on the owned jobs. *)
Definition on_owned {A : Set} (f : owned_jobs_t -> option (A * owned_jobs_t)) : adapter A := common (OnOwned f).

(** A query: the table is not changed. *)
Definition query {T A} (f : T -> option A) (t : T) : option (A * T) := a ← f t; Some (a, t).

(** A query of the table of connections, under its lock. *)
Definition read_table {A : Set} (f : connections -> option A) : adapter A :=
  common (Lock Reading);;
  a ← common (ReadTable f);
  common (Unlock Reading);;
  mret a.

Definition find_fd (ip : string) (port : Z) : adapter Z :=
  read_table (fun conns => find_fd_by_ip_port conns ip port).

Definition connection_port (fd : Z) : adapter Z :=
  if (fd <? 0) || (Z.of_nat MAX_FDS <=? fd) then mret 0
  else read_table (fun conns => get_connection_port conns fd).

(** A loop over an array. *)
Fixpoint for_each {A} (l : list A) (body : A -> adapter ()) : adapter () :=
  match l with
  | [] => mret ()
  | a :: l' => body a;; for_each l' body
  end.

(** A loop over the tokens left, [while (token != NULL)]; other threads can change
    them, so it is given fuel. *)
Fixpoint each_token {B} (fuel : nat) (body : B -> string -> adapter B) (acc : B) : adapter B :=
  match fuel with
  | O => Spin
  | S fuel' =>
      token ← common (Strtok None);
      match token with
      | None => mret acc
      | Some t => acc' ← body acc t; each_token fuel' body acc'
      end
  end.

(** [*count = 0], when the pointer is not null. *)
Definition reset_count : adapter () :=
  trigger (OnOutbox (fun ob => Some ((), (fun o => Outbox (ob_size o) []) <$> ob))).

(** [*count] *)
Definition get_count : adapter Z :=
  trigger (OnOutbox (fun ob => o ← ob; Some (Z.of_nat (length (ob_msgs o)), ob))).

#[global] Arguments common : simpl never.
#[global] Arguments on_local : simpl never.
#[global] Arguments on_known : simpl never.
#[global] Arguments on_owned : simpl never.
#[global] Arguments pthread_mutex_lock : simpl never.
#[global] Arguments pthread_mutex_unlock : simpl never.
#[global] Arguments close : simpl never.
#[global] Arguments find_fd : simpl never.
#[global] Arguments connection_port : simpl never.
#[global] Arguments reset_count : simpl never.
#[global] Arguments get_count : simpl never.
#[global] Arguments run : simpl never.

(** ** The locking protocol

    [run_locks held tr]: what is held after [tr], or [None] when [tr] takes a lock
    while holding one (no lock is ever taken inside another one, so there is no
    cycle of waiting threads), releases one it does not hold, or touches a
    component, or the table of connections, without holding its lock. *)
Fixpoint run_locks (held : option hold) (tr : list event) : option (option hold) :=
  match tr with
  | [] => Some held
  | EvLock l :: tr' => match held with None => run_locks (Some l) tr' | Some _ => None end
  | EvUnlock l :: tr' => if decide (held = Some l) then run_locks None tr' else None
  | EvAccess c :: tr' => if decide (held = Some (Mutex c)) then run_locks held tr' else None
  | EvRead :: tr' => if decide (held = Some Reading \/ held = Some Writing) then run_locks held tr' else None
  | EvWrite :: tr' => if decide (held = Some Writing) then run_locks held tr' else None
  | EvClose _ :: tr' => run_locks held tr'
  end.

Definition disciplined (tr : list event) : Prop := run_locks None tr = Some None.

Lemma run_locks_app held tr1 tr2 :
  run_locks held (tr1 ++ tr2) = h ← run_locks held tr1; run_locks h tr2.
Proof.
  revert held. induction tr1 as [|e tr1 IH]; intros held; simpl; [done|].
  destruct e; [destruct held; [done|]|destruct (decide _); [|done]..|]; apply IH.
Qed.

(** ** Reasoning about the effects

    What a call of the adapter is given: the size of the caller's array, [None]
    when it is null, and the table of connections, which no handler changes. *)
Record caller := Caller { cl_size : option nat; cl_conns : connections }.

(** The messages a handler sends are the list [ms]; the outbox keeps the first
    [MAX_OUTBOX] of them.  [view cl st n ms]: in [st] the node is [n] and the
    outbox of [cl] holds the messages [ms]. *)
Record view (cl : caller) (st : adapter_state) (n : node_data_t) (ms : list out_msg_t) : Prop := {
  vw_node : st_node st = n;
  vw_outbox : st_outbox st = (fun s => Outbox s (take MAX_OUTBOX ms)) <$> cl_size cl;
  vw_conns : st_conns st = cl_conns cl
}.

(** There is room for one more message, or the outbox is full and drops it. *)
Definition can_send (cl : caller) (ms : list out_msg_t) : Prop :=
  match cl_size cl with Some s => (MAX_OUTBOX <= s \/ length ms < s)%nat | None => False end.

(** [runs cl n ms m Q]: from a state with the node [n] and the messages [ms] the
    handler [m] returns, without undefined behaviour, and its result, node and
    messages satisfy [Q]. *)
Definition runs {A} (cl : caller) (n : node_data_t) (ms : list out_msg_t) (m : adapter A)
    (Q : A -> node_data_t -> list out_msg_t -> Prop) : Prop :=
  forall st, view cl st n ms ->
    exists a st' n' ms', m st = Some (a, st') /\ view cl st' n' ms' /\ Q a n' ms'.

Lemma run_bind {A B} (m : adapter A) (k : A -> adapter B) st :
  (m ≫= k) st = '(a, st') ← m st; k a st'.
Proof. apply interp_bind. Qed.

(** A handler that, alone, does what another does, tokens apart. *)
Definition same_run {A} (m m' : adapter A) : Prop :=
  forall st, exists ts, m st = '(a, st') ← m' st;
    Some (a, AdapterState (set_tokens ts (st_shared st')) (st_outbox st') (st_trace st')).

Lemma run_read_table {A : Set} (f : connections -> option A) st a :
  f (st_conns st) = Some a ->
  read_table f st = Some (a, AdapterState (st_shared st) (st_outbox st) (st_trace st ++ [EvLock Reading; EvRead; EvUnlock Reading])).
Proof.
  intros Hf. unfold run, interp, read_table, common, trigger. cbn. rewrite Hf. cbn. by rewrite <- !app_assoc.
Qed.

Section runs.
Context (cl : caller).
Implicit Types (n : node_data_t) (ms : list out_msg_t).

Lemma runs_ret {A} n ms (a : A) (Q : A -> node_data_t -> list out_msg_t -> Prop) :
  Q a n ms -> runs cl n ms (mret a) Q.
Proof. intros HQ st Hst. by exists a, st, n, ms. Qed.

Lemma runs_bind {A B} n ms (m : adapter A) (k : A -> adapter B) Q :
  runs cl n ms m (fun a n' ms' => runs cl n' ms' (k a) Q) -> runs cl n ms (m ≫= k) Q.
Proof.
  intros Hm st Hst. destruct (Hm st Hst) as (a & st1 & n1 & ms1 & E & Hst1 & Hk).
  destruct (Hk st1 Hst1) as (b & st2 & n2 & ms2 & E2 & Hst2 & HQ).
  exists b, st2, n2, ms2. split; [|done]. by rewrite run_bind, E.
Qed.

Lemma runs_mono {A} n ms (m : adapter A) (Q Q' : A -> node_data_t -> list out_msg_t -> Prop) :
  runs cl n ms m Q -> (forall a n' ms', Q a n' ms' -> Q' a n' ms') -> runs cl n ms m Q'.
Proof.
  intros Hm Himp st Hst. destruct (Hm st Hst) as (a & st1 & n1 & ms1 & E & Hst1 & HQ).
  exists a, st1, n1, ms1. auto.
Qed.

Lemma runs_same {A} n ms (m m' : adapter A) Q : same_run m m' -> runs cl n ms m' Q -> runs cl n ms m Q.
Proof.
  intros Hs Hm st Hst. destruct (Hm st Hst) as (a & st1 & n1 & ms1 & E & [Hn Ho Hc] & HQ).
  destruct (Hs st) as [ts ->]. rewrite E. simpl. eexists a, _, n1, ms1. split; [done|]. by split.
Qed.

Lemma runs_lift {A} n ms (o : option A) a (Q : A -> node_data_t -> list out_msg_t -> Prop) :
  o = Some a -> Q a n ms -> runs cl n ms (lift o) Q.
Proof. intros ->. apply runs_ret. Qed.

(** An operation on the shared state. *)
Lemma runs_common {X : Set} n ms (o : op X) (Q : X -> node_data_t -> list out_msg_t -> Prop) :
  (forall s, sh_node s = n -> sh_conns s = cl_conns cl ->
     exists a s', op_step o s = Some (a, s') /\ sh_conns s' = cl_conns cl /\ Q a (sh_node s') ms) ->
  runs cl n ms (common o) Q.
Proof.
  intros Ho st [Hn Hob Hc]. destruct (Ho (st_shared st) Hn Hc) as (a & s' & E & Hc' & HQ).
  eexists a, (AdapterState s' _ _), (sh_node s'), ms. split; [|by split].
  unfold run, common, trigger, interp, adapter_step. by rewrite E.
Qed.

Lemma runs_same_node {X : Set} n ms (o : op X) a (Q : X -> node_data_t -> list out_msg_t -> Prop) :
  (forall s, sh_node s = n -> sh_conns s = cl_conns cl ->
     exists s', op_step o s = Some (a, s') /\ sh_node s' = n /\ sh_conns s' = cl_conns cl) ->
  Q a n ms -> runs cl n ms (common o) Q.
Proof.
  intros Ho HQ. apply runs_common. intros s Hn Hc. destruct (Ho s Hn Hc) as (s' & E & Hn' & Hc').
  exists a, s'. by rewrite Hn'.
Qed.

Lemma runs_lock_any l n ms (Q : () -> node_data_t -> list out_msg_t -> Prop) :
  Q () n ms -> runs cl n ms (common (Lock l)) Q.
Proof. apply runs_same_node. eauto. Qed.
Lemma runs_unlock_any l n ms (Q : () -> node_data_t -> list out_msg_t -> Prop) :
  Q () n ms -> runs cl n ms (common (Unlock l)) Q.
Proof. apply runs_same_node. eauto. Qed.
Lemma runs_lock c n ms (Q : () -> node_data_t -> list out_msg_t -> Prop) :
  Q () n ms -> runs cl n ms (pthread_mutex_lock c) Q.
Proof. apply runs_lock_any. Qed.
Lemma runs_unlock c n ms (Q : () -> node_data_t -> list out_msg_t -> Prop) :
  Q () n ms -> runs cl n ms (pthread_mutex_unlock c) Q.
Proof. apply runs_unlock_any. Qed.
Lemma runs_close fd n ms (Q : () -> node_data_t -> list out_msg_t -> Prop) :
  Q () n ms -> runs cl n ms (close fd) Q.
Proof. apply runs_same_node. eauto. Qed.

Lemma runs_on_local {A : Set} n ms
    (f : local_resources_t -> active_jobs_t -> option (A * local_resources_t * active_jobs_t)) a r jobs
    (Q : A -> node_data_t -> list out_msg_t -> Prop) :
  f (nd_resources n) (nd_active_jobs n) = Some (a, r, jobs) -> Q a (set_local n r jobs) ms ->
  runs cl n ms (on_local f) Q.
Proof. intros Hf HQ. apply runs_common. intros s <- Hc. simpl. rewrite Hf. eexists _, _. by split_and!. Qed.

Lemma runs_on_known {A : Set} n ms (f : known_nodes_t -> option (A * known_nodes_t)) a nodes
    (Q : A -> node_data_t -> list out_msg_t -> Prop) :
  f (nd_known_nodes n) = Some (a, nodes) -> Q a (set_known n nodes) ms -> runs cl n ms (on_known f) Q.
Proof. intros Hf HQ. apply runs_common. intros s <- Hc. simpl. rewrite Hf. eexists _, _. by split_and!. Qed.

Lemma runs_on_owned {A : Set} n ms (f : owned_jobs_t -> option (A * owned_jobs_t)) a jobs
    (Q : A -> node_data_t -> list out_msg_t -> Prop) :
  f (nd_owned_jobs n) = Some (a, jobs) -> Q a (set_owned n jobs) ms -> runs cl n ms (on_owned f) Q.
Proof. intros Hf HQ. apply runs_common. intros s <- Hc. simpl. rewrite Hf. eexists _, _. by split_and!. Qed.

Lemma runs_read {A : Set} n ms (f : connections -> option A) a (Q : A -> node_data_t -> list out_msg_t -> Prop) :
  f (cl_conns cl) = Some a -> Q a n ms -> runs cl n ms (common (ReadTable f)) Q.
Proof.
  intros Hf. apply runs_same_node. intros s Hn Hc. exists s. simpl. by rewrite Hc, Hf.
Qed.

Lemma runs_read_table {A : Set} n ms (f : connections -> option A) a (Q : A -> node_data_t -> list out_msg_t -> Prop) :
  f (cl_conns cl) = Some a -> Q a n ms -> runs cl n ms (read_table f) Q.
Proof.
  intros Hf HQ. apply runs_bind, runs_lock_any, runs_bind. eapply runs_read; [exact Hf|].
  by apply runs_bind, runs_unlock_any, runs_ret.
Qed.

Lemma runs_find_fd n ms ip port fd (Q : Z -> node_data_t -> list out_msg_t -> Prop) :
  find_fd_by_ip_port (cl_conns cl) ip port = Some fd -> Q fd n ms -> runs cl n ms (find_fd ip port) Q.
Proof. exact (runs_read_table n ms (fun conns => find_fd_by_ip_port conns ip port) fd Q). Qed.

Lemma runs_connection_port n ms fd port (Q : Z -> node_data_t -> list out_msg_t -> Prop) :
  get_connection_port (cl_conns cl) fd = Some port -> Q port n ms -> runs cl n ms (connection_port fd) Q.
Proof.
  intros Hf HQ. pose proof Hf as Hf'. unfold get_connection_port in Hf'. unfold connection_port.
  destruct (_ || _); [simplify_eq; by apply runs_ret|].
  exact (runs_read_table n ms (fun conns => get_connection_port conns fd) port Q Hf HQ).
Qed.

Lemma runs_reset n ms (Q : () -> node_data_t -> list out_msg_t -> Prop) :
  Q () n [] -> runs cl n ms reset_count Q.
Proof.
  intros HQ st [Hn Ho Hc]. eexists _, _, n, []. split; [done|]. split; [|done]. split; [done| |done]. simpl.
  rewrite Ho. by destruct (cl_size cl).
Qed.

Lemma runs_get_count s n ms (Q : Z -> node_data_t -> list out_msg_t -> Prop) :
  cl_size cl = Some s -> Q (Z.of_nat (MAX_OUTBOX `min` length ms)) n ms -> runs cl n ms get_count Q.
Proof.
  intros Hs HQ st [Hn Ho Hc]. rewrite Hs in Ho. eexists _, (AdapterState _ (st_outbox st) _), n, ms.
  split; [|split; [|exact HQ]].
  - unfold run, get_count, trigger, interp, adapter_step. rewrite Ho. simpl. by rewrite length_take.
  - split; [done| |done]. simpl. by rewrite Ho, Hs.
Qed.

(** Loop rule, with an invariant on the processed prefix. *)
Lemma runs_for_each {A} n ms (l : list A) body (I : list A -> node_data_t -> list out_msg_t -> Prop)
    (Q : () -> node_data_t -> list out_msg_t -> Prop) :
  I [] n ms ->
  (forall pre a post n ms, l = pre ++ a :: post -> I pre n ms ->
     runs cl n ms (body a) (fun _ n' ms' => I (pre ++ [a]) n' ms')) ->
  (forall n ms, I l n ms -> Q () n ms) ->
  runs cl n ms (for_each l body) Q.
Proof.
  intros H0 Hstep HQ.
  cut (forall post pre n ms, l = pre ++ post -> I pre n ms -> runs cl n ms (for_each post body) Q).
  { intros H. by apply (H l []). }
  induction post as [|a post IH]; intros pre n' ms' Hl HI; simpl.
  - apply runs_ret, HQ. rewrite app_nil_r in Hl. by subst.
  - apply runs_bind. eapply runs_mono; [by apply (Hstep pre a post)|]. intros [] n1 ms1 HI1.
    apply (IH (pre ++ [a])); [|done]. by rewrite <- app_assoc.
Qed.
End runs.

(** *** Tokens *)

(** A program that never calls [strtok]. *)
Fixpoint tokenless {A} (m : adapter A) : Prop :=
  match m with
  | Do o k => match o with Common (Strtok _) => False | _ => True end /\ forall x, tokenless (k x)
  | _ => True
  end.

Definition with_tokens (ts : list string) (st : adapter_state) : adapter_state :=
  AdapterState (set_tokens ts (st_shared st)) (st_outbox st) (st_trace st).

(** [fold_tokens] is [each_token] on a list of its own. *)
Fixpoint fold_tokens {B} (ts : list string) (body : B -> string -> adapter B) (acc : B) : adapter B :=
  match ts with
  | [] => mret acc
  | t :: ts' => acc' ← body acc t; fold_tokens ts' body acc'
  end.

Lemma tokenless_bind {A B} (m : adapter A) (k : A -> adapter B) :
  tokenless m -> (forall a, tokenless (k a)) -> tokenless (m ≫= k).
Proof.
  intros Hm Hk. induction m as [a| | |X o g IH]; simpl; [apply Hk|done|done|].
  destruct Hm as [Ho Hg]. split; [done|]. intros x. by apply IH.
Qed.

Lemma tokenless_ret {A} (a : A) : tokenless (mret a).
Proof. done. Qed.

Lemma tokenless_fold {B} ts (body : B -> string -> adapter B) acc :
  (forall acc t, tokenless (body acc t)) -> tokenless (fold_tokens ts body acc).
Proof. intros Hb. revert acc. induction ts as [|t ts IH]; intros acc; [done|]. by apply tokenless_bind. Qed.

Lemma with_own_tokens st : with_tokens (sh_tokens (st_shared st)) st = st.
Proof. by destruct st as [[] ? ?]. Qed.

Lemma run_first_token {B} text (k : option string -> adapter B) st :
  (t ← common (Strtok (Some text)); k t) st =
    k (head (strtok_all " "%char text)) (with_tokens (tail (strtok_all " "%char text)) st).
Proof. rewrite run_bind. unfold run at 1, common, trigger, interp. simpl. by rewrite app_nil_r. Qed.

Lemma run_next_token {B} ts (k : option string -> adapter B) st :
  (t ← common (Strtok None); k t) (with_tokens ts st) = k (head ts) (with_tokens (tail ts) st).
Proof. rewrite run_bind. unfold run at 1, common, trigger, interp. simpl. by rewrite app_nil_r. Qed.

(** Such a program does the same whatever the tokens are, and leaves them. *)
Lemma run_tokenless {A} (m : adapter A) ts st :
  tokenless m -> m (with_tokens ts st) = '(a, st') ← m st; Some (a, with_tokens ts st').
Proof.
  revert st. induction m as [a| | |X o k IH]; intros st Hm; [done..|]. destruct Hm as [Ho Hk].
  assert (Hstep : adapter_step X o (with_tokens ts st) = '(x, st') ← adapter_step X o st; Some (x, with_tokens ts st')).
  { destruct o as [X o|X f]; [|simpl; by destruct (f (st_outbox st)) as [[]|]].
    destruct o as [| |X f|X f|X f|X f|f| |]; try done; simpl.
    - by destruct (f _ _) as [[[] ]|].
    - by destruct (f _) as [[]|].
    - by destruct (f _) as [[]|].
    - by destruct (f _).
    - by destruct (f _). }
  unfold run, interp. fold (@interp adapter_op adapter_state adapter_step A). rewrite Hstep.
  destruct (adapter_step X o st) as [[x st1]|]; [|done]. simpl. by apply (IH x st1).
Qed.

Lemma run_each_token {B} fuel (body : B -> string -> adapter B) acc ts st :
  (forall acc t, tokenless (body acc t)) -> (length ts < fuel)%nat ->
  each_token fuel body acc (with_tokens ts st)
    = '(a, st') ← fold_tokens ts body acc st; Some (a, with_tokens [] st').
Proof.
  intros Hb. revert fuel acc st. induction ts as [|t ts IH]; intros [|fuel] acc st Hf; simpl in Hf; try lia.
  - cbn [each_token fold_tokens]. by rewrite run_next_token.
  - cbn [each_token fold_tokens]. rewrite run_next_token. cbn [head tail]. rewrite !run_bind.
    rewrite (run_tokenless (body acc t)) by done.
    destruct (body acc t st) as [[acc' st1]|]; [|done]. apply IH. lia.
Qed.

(** A loop over the tokens of [buffer] but the first [2], and the rest of the
    handler. *)
Lemma same_run_tokens {B C} buffer fuel (body : B -> string -> adapter B) acc (rest : B -> adapter C) :
  (forall acc t, tokenless (body acc t)) -> (forall acc, tokenless (rest acc)) -> (String.length buffer < fuel)%nat ->
  same_run (_ ← common (Strtok (Some buffer)); _ ← common (Strtok None); acc' ← each_token fuel body acc; rest acc')
           (acc' ← fold_tokens (drop 2 (strtok_all " "%char buffer)) body acc; rest acc').
Proof.
  intros Hb Hr Hf st. exists []. rewrite run_first_token, run_next_token, !run_bind.
  set (ts := strtok_all _ _). pose proof (strtok_all_length " "%char buffer) as Hl. fold ts in Hl.
  replace (tail (tail ts)) with (drop 2 ts) by (by destruct ts as [|? []]).
  rewrite run_each_token by (try done; rewrite length_drop; lia).
  destruct (fold_tokens _ body acc st) as [[acc' st1]|]; [|done]. simpl. by rewrite run_tokenless.
Qed.

Lemma same_run_refl {A} (m : adapter A) : same_run m m.
Proof.
  intros st. destruct (m st) as [[a st']|]; [|by exists []]. exists (sh_tokens (st_shared st')). simpl.
  by rewrite <- (with_own_tokens st') at 1.
Qed.

Lemma same_run_bind {A B} (m : adapter A) (k k' : A -> adapter B) :
  (forall a, same_run (k a) (k' a)) -> same_run (m ≫= k) (m ≫= k').
Proof.
  intros Hk st. rewrite !run_bind. destruct (m st) as [[a st1]|]; [|by exists []]. simpl. apply Hk.
Qed.

Lemma same_run_then {A B} (m m' : adapter A) (k : A -> adapter B) :
  same_run m m' -> (forall a, tokenless (k a)) -> same_run (m ≫= k) (m' ≫= k).
Proof.
  intros Hm Hk st. rewrite !run_bind. destruct (Hm st) as [ts ->].
  destruct (m' st) as [[a st']|]; [|by exists []]. exists ts. by apply (run_tokenless (k a) ts st').
Qed.

Lemma same_run_trans {A} (m1 m2 m3 : adapter A) : same_run m1 m2 -> same_run m2 m3 -> same_run m1 m3.
Proof.
  intros H12 H23 st. destruct (H12 st) as [ts1 ->], (H23 st) as [ts2 ->]. destruct (m3 st) as [[a st']|]; [|by exists []].
  by exists ts1.
Qed.

Lemma same_run_fold_unit ts (body : string -> adapter ()) acc :
  same_run (fold_tokens ts (fun _ => body) acc) (for_each ts body).
Proof.
  revert acc. induction ts as [|t ts IH]; intros acc; simpl; [destruct acc; apply same_run_refl|].
  apply same_run_bind. intros a. apply IH.
Qed.

(** *** Lock specifications *)

(** Every run of [m] started with [h] held respects the protocol and ends with
    [h'] held. *)
Definition locks {A} (h h' : option hold) (m : adapter A) : Prop :=
  forall st a st', m st = Some (a, st') ->
    exists tr, st_trace st' = st_trace st ++ tr /\ run_locks h tr = Some h'.

Lemma locks_ret {A} h (a : A) : locks h h (mret a).
Proof. intros st b st' [= _ <-]. exists []. by rewrite app_nil_r. Qed.

Lemma locks_fail {A} h h' : locks h h' (Fail : adapter A).
Proof. by intros st b st' H. Qed.

Lemma locks_lift {A} h (o : option A) : locks h h (lift o).
Proof. destruct o; [apply locks_ret|apply locks_fail]. Qed.

Lemma locks_bind {A B} h h1 h' (m : adapter A) (k : A -> adapter B) :
  locks h h1 m -> (forall a, locks h1 h' (k a)) -> locks h h' (m ≫= k).
Proof.
  intros Hm Hk st b st' H. rewrite run_bind in H. destruct (m st) as [[a st1]|] eqn:E; [|done].
  destruct (Hm _ _ _ E) as (tr1 & Ht1 & Hr1). destruct (Hk a _ _ _ H) as (tr2 & Ht2 & Hr2).
  exists (tr1 ++ tr2). rewrite Ht2, Ht1, app_assoc. split; [done|]. by rewrite run_locks_app, Hr1.
Qed.

Lemma locks_common {X : Set} h h' (o : op X) : run_locks h (op_events o) = Some h' -> locks h h' (common o).
Proof.
  intros Hr st a st' H. unfold run, common, trigger, interp, adapter_step in H.
  destruct (op_step o (st_shared st)) as [[x s]|]; [|done]. injection H as <- <-. by exists (op_events o).
Qed.

Lemma locks_outbox {X : Set} h (f : option outbox_t -> option (X * option outbox_t)) : locks h h (trigger (OnOutbox f)).
Proof.
  intros st a st' H. unfold run, trigger, interp, adapter_step in H.
  destruct (f (st_outbox st)) as [[x ob]|]; [|done]. injection H as <- <-. exists []. by rewrite app_nil_r.
Qed.

Lemma locks_lock_any l : locks None (Some l) (common (Lock l)).
Proof. by apply locks_common. Qed.
Lemma locks_unlock_any l : locks (Some l) None (common (Unlock l)).
Proof. apply locks_common. simpl. by rewrite decide_True. Qed.
Lemma locks_lock c : locks None (Some (Mutex c)) (pthread_mutex_lock c).
Proof. apply locks_lock_any. Qed.
Lemma locks_unlock c : locks (Some (Mutex c)) None (pthread_mutex_unlock c).
Proof. apply locks_unlock_any. Qed.
Lemma locks_close h fd : locks h h (close fd).
Proof. by apply locks_common. Qed.
Lemma locks_on_local {A : Set} (f : local_resources_t -> active_jobs_t -> option (A * local_resources_t * active_jobs_t)) :
  locks (Some (Mutex Local)) (Some (Mutex Local)) (on_local f).
Proof. by apply locks_common. Qed.
Lemma locks_on_known {A : Set} (f : known_nodes_t -> option (A * known_nodes_t)) :
  locks (Some (Mutex Known)) (Some (Mutex Known)) (on_known f).
Proof. by apply locks_common. Qed.
Lemma locks_on_owned {A : Set} (f : owned_jobs_t -> option (A * owned_jobs_t)) :
  locks (Some (Mutex Owned)) (Some (Mutex Owned)) (on_owned f).
Proof. by apply locks_common. Qed.
Lemma locks_read {A : Set} (f : connections -> option A) : locks (Some Reading) (Some Reading) (common (ReadTable f)).
Proof. by apply locks_common. Qed.
Lemma locks_strtok h text : locks h h (common (Strtok text)).
Proof. by apply locks_common. Qed.
Lemma locks_reset h : locks h h reset_count.
Proof. apply locks_outbox. Qed.
Lemma locks_get_count h : locks h h get_count.
Proof. apply locks_outbox. Qed.

Lemma locks_for_each {A} h (l : list A) body : (forall a, locks h h (body a)) -> locks h h (for_each l body).
Proof.
  intros Hb. induction l as [|a l IH]; [apply locks_ret|]. eapply locks_bind; [apply Hb|]. by intros _.
Qed.

Lemma locks_each_token {B} h fuel (body : B -> string -> adapter B) acc :
  (forall acc t, locks h h (body acc t)) -> locks h h (each_token fuel body acc).
Proof.
  intros Hb. revert acc. induction fuel as [|fuel IH]; intros acc; [apply locks_fail|].
  eapply locks_bind; [apply locks_strtok|]. intros [t|]; [|apply locks_ret]. by eapply locks_bind.
Qed.

Create HintDb locks.
#[export] Hint Resolve locks_ret locks_lift locks_lock_any locks_unlock_any locks_lock locks_unlock locks_close
  locks_on_local locks_on_known locks_on_owned locks_read locks_strtok locks_reset locks_get_count : locks.

(** Walks through a handler; the lemmas of its calls come from the database. *)
Ltac solve_locks :=
  cbv beta zeta;
  lazymatch goal with
  | |- locks _ _ (mbind _ _) => eapply locks_bind; [solve_locks|intros ?; solve_locks]
  | |- locks _ _ (for_each _ _) => apply locks_for_each; intros ?; solve_locks
  | |- locks _ _ (each_token _ _ _) => apply locks_each_token; intros ? ?; solve_locks
  | |- locks _ _ (match ?x with _ => _ end) => destruct x; solve_locks
  | |- _ => eauto with locks
  end.

Lemma locks_find_fd ip port : locks None None (find_fd ip port).
Proof. unfold find_fd, read_table. solve_locks. Qed.
Lemma locks_connection_port fd : locks None None (connection_port fd).
Proof. unfold connection_port, read_table. solve_locks. Qed.

#[export] Hint Resolve locks_find_fd locks_connection_port : locks.
