(* ===== verification/ResourceAdapter.v ===== *)
(** * ResourceAdapter: [src/c_agent/src/comms/resource_adapter.c]

    The protocol of the agent: one definition per handler, a tree of the operations
    of the file Adapter, and the dispatcher [resource_adapter_patch].  The values of
    [time(NULL)] and [rand()] are arguments; a handler that runs [time] twice has
    two of them.  Calls to [printf] are left out. *)

From Stdlib Require Import Ascii.
From S2P Require Import Prelude CString TablaHash CommonTypes LocalResource OwnedJobs KnownNodes NodeStructures Connections Program Adapter.
Local Open Scope Z_scope.
Local Open Scope c_scope.

Inductive JuaniAction :=
  | ACTION_RESPOND
  | ACTION_CHECK_DEADNODES
  | ACTION_GET_RESOURCES
  | ACTION_NEW_NODE_DISCOVERED
  | ACTION_DISCONNECTED
  | ACTION_NONE.

(** ** The outbox *)

(** [ip] is [None] for a null pointer; [target_fd] is an [int], [port] an
    [unsigned] stored in an [int].  Writing past the caller's array is
    undefined. *)
Definition add_to_outbox (msg : string) (target_fd : Z) (ip : option string) (port : Z) : adapter () :=
  trigger (OnOutbox (fun ob =>
    o ← ob;
    let count := length (ob_msgs o) in
    if (MAX_OUTBOX <=? count)%nat then Some ((), ob)
    else
      assert_def (count <? ob_size o)%nat;;
      let m := OutMsg (match ip with Some ip => str_take 15 ip | None => EmptyString end)
                 (to_int port) target_fd (snprintf BUFFER_SIZE "%s" [PS msg]) in
      Some ((), Some (Outbox (ob_size o) (ob_msgs o ++ [m]))))).

#[global] Arguments add_to_outbox : simpl never.

(** ** Messages *)

Definition reserve_msg (job_id : Z) (t : target) : string :=
  snprintf 128 ("RESERVE %u %s %u" +:+ str_nl) [PU job_id; PS (res_name (tg_type t)); PU (tg_quantity t)].

Definition release_msg (job_id : Z) (t : target) : string :=
  snprintf 128 ("RELEASE %u %s %u" +:+ str_nl) [PU job_id; PS (res_name (tg_type t)); PU (tg_quantity t)].

(** A message routed to the node of a petition, or to a descriptor. *)
Definition send_to_target (msg : string) (t : target) : adapter () :=
  add_to_outbox msg (-1) (Some (tg_ip t)) (tg_port t).

Definition send_to_socket (msg : string) (socket : Z) : adapter () :=
  add_to_outbox msg (to_int socket) None 0.

#[global] Arguments send_to_target : simpl never.
#[global] Arguments send_to_socket : simpl never.

(** ** Handlers of messages *)

Definition handle_get_nodes_response (socket : Z) : adapter () :=
  pthread_mutex_lock Known;;
  msg ← on_known (query (fun nodes => get_known_nodes_payload nodes EmptyString (Z.of_nat BUFFER_SIZE)));
  pthread_mutex_unlock Known;;
  send_to_socket (snprintf (BUFFER_SIZE + 1) "%s" [PS msg]) socket.

(** One token ["@ip:port:res:qty"] of a JOB_REQUEST; anything else is skipped. *)
Definition parse_petition (job_id : Z) (token : string) : adapter () :=
  match sscanf token "@%15[^:]:%u:%9[^:]:%u" with
  | [VS ip; VU port; VS res; VU cant] =>
      let type := if strcmp_eq res "cpu" then CPU else if strcmp_eq res "mem" then RAM else GPU in
      _ ← on_owned (fun jobs => append_petition_to_job jobs job_id ip port type cant);
      mret ()
  | _ => mret ()
  end.

Definition handle_job_request (now socket : Z) (buffer : string) : adapter () :=
  match sscanf buffer "JOB_REQUEST %u" with
  | [VU job_id] =>
      pthread_mutex_lock Owned;;
      _ ← on_owned (fun jobs => add_new_owned_job jobs job_id socket now);
      _ ← common (Strtok (Some buffer));
      _ ← common (Strtok None);
      each_token (S (String.length buffer)) (fun _ => parse_petition job_id) ();;
      pthread_mutex_unlock Owned;;
      next ← on_owned (fun jobs => get_next_reserve jobs job_id);
      match next with
      | Some t => send_to_target (reserve_msg job_id t) t
      | None => mret ()
      end
  | _ => mret ()
  end.

(** [%s] has no width: a token of 256 characters overflows [res[256]], even when
    the rest of the line does not match. *)
Definition reserve_overflow (scanned : list scanned) : bool :=
  match scanned with
  | _ :: VS res :: _ => (256 <=? String.length res)%nat
  | _ => false
  end.

Definition handle_reserve (socket : Z) (buffer : string) : adapter () :=
  let args := sscanf buffer "RESERVE %u %s %u" in
  lift (assert_def (negb (reserve_overflow args)));;
  match args with
  | [VU job_id; VS res; VU cant] =>
      let valid_length := (String.length res =? 3)%nat in
      let type := if strcmp_eq res "cpu" then CPU else if strcmp_eq res "mem" then RAM
                  else if strcmp_eq res "gpu" then GPU else INVALID_RES_TYPE in
      pthread_mutex_lock Local;;
      result ← (if negb (bool_decide (type = INVALID_RES_TYPE)) && valid_length
                then on_local (fun r jobs => new_job_request r jobs job_id socket cant type)
                else mret (-1));
      (if result =? 1 then
         send_to_socket (snprintf 64 ("GRANTED %u" +:+ str_nl) [PU job_id]) socket
       else if result =? -1 then
         send_to_socket (snprintf 64 ("DENIED %u" +:+ str_nl) [PU job_id]) socket
       else mret ());;
      pthread_mutex_unlock Local
  | _ => mret ()
  end.

(** [sender_ip] must not be null. *)
Definition handle_granted (sender_ip : option string) (sender_port : Z) (buffer : string) : adapter () :=
  match sscanf buffer "GRANTED %u" with
  | [VU job_id] =>
      if sender_port =? 0 then mret ()
      else
        pthread_mutex_lock Owned;;
        ip ← lift sender_ip;
        grant_result ← on_owned (fun jobs => mark_petition_as_granted jobs job_id ip sender_port);
        (if grant_result =? 1 then
           owner_socket ← on_owned (query (fun jobs => get_job_owner_socket jobs job_id));
           send_to_socket (snprintf 64 ("JOB_GRANTED %u" +:+ str_nl) [PU job_id]) owner_socket
         else if grant_result =? 0 then
           next ← on_owned (fun jobs => get_next_reserve jobs job_id);
           match next with
           | Some t => send_to_target (reserve_msg job_id t) t
           | None => mret ()
           end
         else mret ());;
        pthread_mutex_unlock Owned
  | _ => mret ()
  end.

(** The loop that sends a RELEASE for each petition. *)
Definition send_releases (job_id : Z) (granted : list target) : adapter () :=
  for_each granted (fun t => send_to_target (release_msg job_id t) t).

Definition handle_denied (buffer : string) : adapter () :=
  match sscanf buffer "DENIED %u" with
  | [VU job_id] =>
      pthread_mutex_lock Owned;;
      granted ← on_owned (query (fun jobs => get_granted_resources jobs job_id MAX_JOB_RESOURCES));
      owner_socket ← on_owned (query (fun jobs => get_job_owner_socket jobs job_id));
      send_releases job_id granted;;
      send_to_socket (snprintf 64 ("JOB_DENIED %u" +:+ str_nl) [PU job_id]) owner_socket;;
      on_owned (fun jobs => jobs' ← remove_owned_job jobs job_id; Some ((), jobs'));;
      pthread_mutex_unlock Owned
  | _ => mret ()
  end.

(** The loop of [handle_release]: [msg] and [queued_socket] are the variables the
    calls of [chk_job_request] write, [rnd i] the i-th value of [rand()]. *)
Fixpoint wake_loop (fuel : nat) (rnd : nat -> Z) (msg : string) (queued_socket : Z) : adapter () :=
  match fuel with
  | O => Fail
  | S fuel' =>
      '(out, msg', queued_socket') ←
        on_local (fun r jobs =>
          '(s, m) ← chk_job_request r jobs (rnd fuel') msg 64 queued_socket;
          Some ((chk_out s, m, chk_out_socket s), chk_resources s, chk_active s));
      if out =? -1 then mret ()
      else
        send_to_socket msg' queued_socket';;
        wake_loop fuel' rnd msg' queued_socket'
  end.

(** Each iteration but the last removes a waiting request. *)
Definition wake_fuel : adapter nat := on_local (fun r jobs => Some (S (Z.to_nat (queued r)), r, jobs)).

(** [msg] is the uninitialised content of the local array. *)
Definition handle_release (rnd : nat -> Z) (msg : string) (socket : Z) (buffer : string) : adapter () :=
  match sscanf buffer "RELEASE %u %9s %u" with
  | [VU job_id; VS _; VU _] =>
      pthread_mutex_lock Local;;
      on_local (fun r jobs => '(r', jobs') ← del_active_job r jobs job_id socket; Some ((), r', jobs'));;
      fuel ← wake_fuel;
      wake_loop fuel rnd msg 0;;
      pthread_mutex_unlock Local
  | _ => mret ()
  end.

Definition handle_job_release (buffer : string) : adapter () :=
  match sscanf buffer "JOB_RELEASE %u" with
  | [VU job_id] =>
      pthread_mutex_lock Owned;;
      granted ← on_owned (query (fun jobs => get_granted_resources jobs job_id MAX_JOB_RESOURCES));
      send_releases job_id granted;;
      on_owned (fun jobs => jobs' ← remove_owned_job jobs job_id; Some ((), jobs'));;
      pthread_mutex_unlock Owned
  | _ => mret ()
  end.

(** ** Handlers of events *)

(** The rollback of one job of a dead node: RELEASE for the petitions in
    [keep], JOB_DENIED to the owner, removal. *)
Definition abort_job (keep : target -> bool) (job_id : Z) : adapter () :=
  granted ← on_owned (query (fun jobs => get_granted_resources jobs job_id MAX_JOB_RESOURCES));
  owner_socket ← on_owned (query (fun jobs => get_job_owner_socket jobs job_id));
  for_each granted (fun t => if keep t then send_to_target (release_msg job_id t) t else mret ());;
  send_to_socket (snprintf 64 ("JOB_DENIED %u" +:+ str_nl) [PU job_id]) owner_socket;;
  on_owned (fun jobs => jobs' ← remove_owned_job jobs job_id; Some ((), jobs')).

Definition free_socket (socket : Z) : adapter () :=
  on_local (fun r jobs => '(r', jobs') ← free_all_resources_from_socket r jobs socket; Some ((), r', jobs')).

(** The body of the loop over the dead nodes. *)
Definition bury_node (dead : string * Z) : adapter () :=
  let '(dead_ip, dead_port) := dead in
  zombie_fd ← find_fd dead_ip dead_port;
  (if negb (zombie_fd =? -1) then
     pthread_mutex_lock Local;;
     free_socket (wrap32 zombie_fd);;
     close zombie_fd;;
     pthread_mutex_unlock Local
   else mret ());;
  pthread_mutex_lock Owned;;
  affected ← on_owned (query (fun jobs => get_jobs_affected_by_dead_node jobs dead_ip dead_port 20));
  for_each affected (abort_job (fun _ => true));;
  pthread_mutex_unlock Owned.

(** The loop over the timed-out jobs, left when the outbox has no room for all the
    messages of the next one. *)
Fixpoint timeout_loop (ids : list Z) : adapter () :=
  match ids with
  | [] => mret ()
  | job_id :: ids' =>
      granted ← on_owned (query (fun jobs => get_granted_resources jobs job_id MAX_JOB_RESOURCES));
      owner_socket ← on_owned (query (fun jobs => get_job_owner_socket jobs job_id));
      count ← get_count;
      if Z.of_nat MAX_OUTBOX <? count + Z.of_nat (length granted) + 1 then mret ()
      else
        send_releases job_id granted;;
        send_to_socket (snprintf 64 ("JOB_TIMEOUT %u" +:+ str_nl) [PU job_id]) owner_socket;;
        on_owned (fun jobs => jobs' ← remove_owned_job jobs job_id; Some ((), jobs'));;
        timeout_loop ids'
  end.

Definition handle_check_deadnodes (now1 now2 : Z) : adapter () :=
  pthread_mutex_lock Known;;
  dead ← on_known (fun nodes => remove_inactive_nodes nodes 10 now1);
  pthread_mutex_unlock Known;;
  for_each dead bury_node;;
  pthread_mutex_lock Owned;;
  late ← on_owned (query (fun jobs => collect_timed_out_jobs jobs 20 now2));
  timeout_loop late;;
  pthread_mutex_unlock Owned.

(** The loop over the resources of an ANNOUNCE; (cpu, ram, gpu). *)
Definition announce_token (acc : Z * Z * Z) (token : string) : Z * Z * Z :=
  let '(cpu, ram, gpu) := acc in
  if strncmp_eq token "cpu:" 4 then (atoi_u (str_drop 4 token), ram, gpu)
  else if strncmp_eq token "mem:" 4 || strncmp_eq token "ram:" 4 then (cpu, atoi_u (str_drop 4 token), gpu)
  else if strncmp_eq token "gpu:" 4 then (cpu, ram, atoi_u (str_drop 4 token))
  else acc.

(** The update of the directory at the end. *)
Definition record_announce (now : Z) (sender_ip : option string) (port : Z) (amounts : Z * Z * Z) : adapter () :=
  let '(cpu, ram, gpu) := amounts in
  if 0 <? port then
    pthread_mutex_lock Known;;
    ip ← lift sender_ip;
    on_known (fun nodes => nodes' ← update_known_node nodes ip port cpu ram gpu now; Some ((), nodes'));;
    pthread_mutex_unlock Known
  else mret ().

(** [sender_ip] must not be null. *)
Definition handle_node_announced (now : Z) (sender_ip : option string) (buffer : string) : adapter () :=
  first ← common (Strtok (Some buffer));
  match first with
  | Some word =>
      if strcmp_eq word "ANNOUNCE" then
        token ← common (Strtok None);
        match token with
        | Some port =>
            amounts ← each_token (S (String.length buffer)) (fun acc t => mret (announce_token acc t)) (0, 0, 0);
            record_announce now sender_ip (atoi_u port) amounts
        | None => mret ()
        end
      else mret ()
  | None => mret ()
  end.

Definition handle_get_resources (port : Z) : adapter () :=
  pthread_mutex_lock Local;;
  '(cpu, gpu, ram) ← on_local (fun r jobs => a ← get_local_resources r; Some (a, r, jobs));
  pthread_mutex_unlock Local;;
  add_to_outbox (snprintf 128 "ANNOUNCE %d cpu:%u mem:%u gpu:%u" [PD port; PU cpu; PU ram; PU gpu]) (-1) None 0.

(** ** The dispatcher *)

(** The clock, the random numbers and the uninitialised array of one call. *)
Record environment := Env { now1 : Z; now2 : Z; rnd : nat -> Z; garbage : string }.

(** The body of the loop over the orphaned jobs. *)
Definition drop_orphan (job_id : Z) : adapter () :=
  granted ← on_owned (query (fun jobs => get_granted_resources jobs job_id MAX_JOB_RESOURCES));
  send_releases job_id granted;;
  on_owned (fun jobs => jobs' ← remove_owned_job jobs job_id; Some ((), jobs')).

Definition handle_disconnected (SENDER_IP : option string) (SOCKET : Z) : adapter () :=
  pthread_mutex_lock Local;;
  free_socket SOCKET;;
  pthread_mutex_unlock Local;;
  pthread_mutex_lock Owned;;
  orphans ← on_owned (query (fun jobs => get_jobs_by_owner_socket jobs SOCKET 50));
  for_each orphans drop_orphan;;
  pthread_mutex_unlock Owned;;
  port ← connection_port (to_int SOCKET);
  match SENDER_IP with
  | Some ip =>
      if 0 <? port then
        pthread_mutex_lock Owned;;
        affected ← on_owned (query (fun jobs => get_jobs_affected_by_dead_node jobs ip port 20));
        for_each affected (abort_job (fun t => negb (strcmp_eq (tg_ip t) ip && (tg_port t =? port))));;
        pthread_mutex_unlock Owned
      else mret ()
  | None => mret ()
  end.

Definition respond (env : environment) (SENDER_IP : option string) (SOCKET : Z)
    (BUFFER : string) : adapter () :=
  if strncmp_eq BUFFER "GET_NODES" 9 then handle_get_nodes_response SOCKET
  else if strncmp_eq BUFFER "JOB_REQUEST" 11 then handle_job_request (now1 env) SOCKET BUFFER
  else if strncmp_eq BUFFER "RESERVE" 7 then handle_reserve SOCKET BUFFER
  else if strncmp_eq BUFFER "GRANTED" 7 then
    port ← connection_port (to_int SOCKET);
    handle_granted SENDER_IP port BUFFER
  else if strncmp_eq BUFFER "DENIED" 6 then handle_denied BUFFER
  else if strncmp_eq BUFFER "RELEASE" 7 then handle_release (rnd env) (garbage env) SOCKET BUFFER
  else if strncmp_eq BUFFER "JOB_RELEASE" 11 then handle_job_release BUFFER
  else mret ().

Definition resource_adapter_patch (env : environment) (ctx : option ServerContext)
    (SENDER_IP : option string) (SOCKET : Z) (BUFFER : option string) (action : JuaniAction) : adapter () :=
  match ctx with
  | None => mret ()
  | Some c =>
      if negb (sc_mynode c) then mret ()
      else
        reset_count;;
        match action with
        | ACTION_GET_RESOURCES => handle_get_resources (sc_port c)
        | ACTION_NEW_NODE_DISCOVERED =>
            match BUFFER with
            | Some buffer => handle_node_announced (now1 env) SENDER_IP buffer
            | None => mret ()
            end
        | ACTION_CHECK_DEADNODES => handle_check_deadnodes (now1 env) (now2 env)
        | ACTION_DISCONNECTED => handle_disconnected SENDER_IP SOCKET
        | ACTION_RESPOND =>
            match BUFFER with
            | Some buffer => respond env SENDER_IP SOCKET buffer
            | None => mret ()
            end
        | ACTION_NONE => mret ()
        end
  end.

(** ** Locking *)

Lemma locks_add_to_outbox h msg fd ip port : locks h h (add_to_outbox msg fd ip port).
Proof. apply locks_outbox. Qed.

#[export] Hint Resolve locks_add_to_outbox : locks.

Lemma locks_to_target h msg t : locks h h (send_to_target msg t).
Proof. apply locks_add_to_outbox. Qed.
Lemma locks_to_socket h msg socket : locks h h (send_to_socket msg socket).
Proof. apply locks_add_to_outbox. Qed.
Lemma locks_free_socket socket : locks (Some (Mutex Local)) (Some (Mutex Local)) (free_socket socket).
Proof. apply locks_on_local. Qed.
Lemma locks_wake_fuel : locks (Some (Mutex Local)) (Some (Mutex Local)) wake_fuel.
Proof. apply locks_on_local. Qed.

#[export] Hint Resolve locks_to_target locks_to_socket locks_free_socket locks_wake_fuel : locks.

Lemma locks_abort keep job_id : locks (Some (Mutex Owned)) (Some (Mutex Owned)) (abort_job keep job_id).
Proof. unfold abort_job. solve_locks. Qed.
Lemma locks_orphan job_id : locks (Some (Mutex Owned)) (Some (Mutex Owned)) (drop_orphan job_id).
Proof. unfold drop_orphan, send_releases. solve_locks. Qed.
Lemma locks_wake fuel rnd msg qs : locks (Some (Mutex Local)) (Some (Mutex Local)) (wake_loop fuel rnd msg qs).
Proof. revert msg qs. induction fuel as [|fuel IH]; intros msg qs; cbn [wake_loop]; [apply locks_fail|solve_locks]. Qed.
Lemma locks_timeout ids : locks (Some (Mutex Owned)) (Some (Mutex Owned)) (timeout_loop ids).
Proof. induction ids as [|id ids IH]; cbn [timeout_loop]; unfold send_releases; solve_locks. Qed.

#[export] Hint Resolve locks_abort locks_orphan locks_wake locks_timeout : locks.

Lemma locks_bury dead : locks None None (bury_node dead).
Proof. unfold bury_node. solve_locks. Qed.

#[export] Hint Resolve locks_bury : locks.

(** Every action but the handling of a JOB_REQUEST. *)
Lemma locks_patch env ctx SENDER_IP SOCKET BUFFER action :
  (action = ACTION_RESPOND -> forall b, BUFFER = Some b -> strncmp_eq b "JOB_REQUEST" 11 = false) ->
  locks None None (resource_adapter_patch env ctx SENDER_IP SOCKET BUFFER action).
Proof.
  intros Hjob. unfold resource_adapter_patch.
  destruct ctx as [c|]; [|solve_locks]. destruct (negb _); [solve_locks|].
  eapply locks_bind; [apply locks_reset|intros _].
  destruct action; try solve [solve_locks].
  - destruct BUFFER as [b|]; [|solve_locks]. unfold respond. rewrite (Hjob eq_refl b eq_refl).
    unfold handle_get_nodes_response, handle_reserve, handle_granted, handle_denied, handle_release,
      handle_job_release, send_releases. solve_locks.
  - unfold handle_check_deadnodes. solve_locks.
  - unfold handle_get_resources. solve_locks.
  - unfold handle_node_announced, record_announce. solve_locks.
  - unfold handle_disconnected. solve_locks.
Qed.

(** ** Tokens

    A handler that runs alone sees the tokens of its own text, whatever traversal
    was left unfinished before: the two handlers that call [strtok] are these
    loops over a list. *)

Definition job_request_of_tokens (now socket : Z) (buffer : string) : adapter () :=
  match sscanf buffer "JOB_REQUEST %u" with
  | [VU job_id] =>
      pthread_mutex_lock Owned;;
      _ ← on_owned (fun jobs => add_new_owned_job jobs job_id socket now);
      for_each (drop 2 (strtok_all " "%char buffer)) (parse_petition job_id);;
      pthread_mutex_unlock Owned;;
      next ← on_owned (fun jobs => get_next_reserve jobs job_id);
      match next with
      | Some t => send_to_target (reserve_msg job_id t) t
      | None => mret ()
      end
  | _ => mret ()
  end.

Definition announced_of_tokens (now : Z) (sender_ip : option string) (buffer : string) : adapter () :=
  match strtok_all " "%char buffer with
  | word :: port :: tokens =>
      if strcmp_eq word "ANNOUNCE"
      then record_announce now sender_ip (atoi_u port) (foldl announce_token (0, 0, 0) tokens)
      else mret ()
  | _ => mret ()
  end.

Lemma tokenless_petition job_id t : tokenless (parse_petition job_id t).
Proof. unfold parse_petition. repeat case_match; try done. Qed.

Lemma job_request_alone now socket buffer :
  same_run (handle_job_request now socket buffer) (job_request_of_tokens now socket buffer).
Proof.
  unfold handle_job_request, job_request_of_tokens.
  destruct (sscanf buffer "JOB_REQUEST %u") as [|[job_id|?] [|? ?]]; try apply same_run_refl.
  apply same_run_bind. intros []. apply same_run_bind. intros u.
  set (rest := fun _ : () => _). eapply same_run_trans.
  - apply (same_run_tokens buffer (S (String.length buffer)) (fun _ => parse_petition job_id) () rest); [| |lia].
    + intros _ t. apply tokenless_petition.
    + intros acc. subst rest. apply tokenless_bind; [done|]. intros _. apply tokenless_bind; [done|].
      intros [t|]; [|done]. by split.
  - apply same_run_then; [apply same_run_fold_unit|]. intros acc. subst rest. apply tokenless_bind; [done|]. intros _.
    apply tokenless_bind; [done|]. intros [t|]; [|done]. by split.
Qed.

Lemma tokenless_record now ip port amounts : tokenless (record_announce now ip port amounts).
Proof.
  destruct amounts as [[cpu ram] gpu]. unfold record_announce. destruct (0 <? port); [|done].
  by destruct ip; repeat split.
Qed.

Lemma run_pure_fold {B} ts (f : B -> string -> B) acc st :
  fold_tokens ts (fun acc t => mret (f acc t)) acc st = Some (foldl f acc ts, st).
Proof. revert acc. induction ts as [|t ts IH]; intros acc; [done|]. apply (IH (f acc t)). Qed.

Lemma announced_alone now ip buffer :
  same_run (handle_node_announced now ip buffer) (announced_of_tokens now ip buffer).
Proof.
  unfold handle_node_announced, announced_of_tokens. intros st. rewrite run_first_token.
  pose proof (strtok_all_length " "%char buffer) as Hl.
  destruct (strtok_all " " buffer) as [|word ts]; cbn [head tail]; [by exists []|].
  destruct (strcmp_eq word "ANNOUNCE").
  - rewrite run_next_token. destruct ts as [|port ts]; cbn [head tail]; [by exists []|]. simpl in Hl.
    rewrite run_bind, run_each_token by (done || lia). rewrite run_pure_fold. simpl.
    rewrite run_tokenless by apply tokenless_record.
    destruct (record_announce _ _ _ _ st) as [[a st']|]; [|by exists []]. by exists [].
  - destruct ts; by eexists.
Qed.
