(* ===== verification/AdapterSafety.v ===== *)
(** * AdapterSafety: the handlers return, and keep the invariant of the node

    For every handler of [src/c_agent/src/comms/resource_adapter.c] and every
    input its callers pass: it terminates without undefined behaviour and keeps
    [agent_inv], the invariant of the node together with the order of the RESERVE
    chains and the totals of the inventory. *)

From Stdlib Require Import Ascii.
From S2P Require Import Prelude CString TablaHash CommonTypes LocalResource OwnedJobs KnownNodes NodeStructures Connections Program Adapter ResourceAdapter.
Local Open Scope Z_scope.

(** ** Sending *)

Definition queue_out (msg : string) (fd : Z) (ip : option string) (port : Z) : out_msg_t :=
  OutMsg (match ip with Some ip => str_take 15 ip | None => EmptyString end)
         (to_int port) fd (snprintf BUFFER_SIZE "%s" [PS msg]).

Lemma runs_add cl n ms msg fd ip port (Q : () -> node_data_t -> list out_msg_t -> Prop) :
  can_send cl ms -> Q () n (ms ++ [queue_out msg fd ip port]) ->
  runs cl n ms (add_to_outbox msg fd ip port) Q.
Proof.
  intros Hsz HQ st [Hn Ho Hc]. unfold can_send in Hsz. destruct (cl_size cl) as [s|] eqn:Hs; [|done]. simpl in Ho.
  unfold add_to_outbox, run, trigger, interp, adapter_step. rewrite Ho. cbn [mbind option_bind ob_msgs].
  rewrite length_take. destruct (Nat.leb_spec MAX_OUTBOX (MAX_OUTBOX `min` length ms)) as [Hfull|Hroom].
  - eexists _, _, n, _. split; [done|]. split; [|exact HQ]. split; [done| |done].
    rewrite Hs. simpl. rewrite take_app_le by lia. done.
  - assert (Hlt : (length ms < MAX_OUTBOX)%nat) by lia.
    assert (Hb : (MAX_OUTBOX `min` length ms <? s)%nat = true) by (apply Nat.ltb_lt; lia).
    cbn [ob_size]. rewrite Hb. cbn [assert_def mbind option_bind].
    eexists _, _, n, _. split; [done|]. split; [|exact HQ]. split; [done| |done]. rewrite Hs. simpl.
    unfold queue_out. rewrite (take_ge ms) by lia. rewrite take_ge; [done|]. rewrite length_app; simpl. lia.
Qed.

Lemma runs_wake_fuel cl n ms (Q : nat -> node_data_t -> list out_msg_t -> Prop) :
  Q (S (Z.to_nat (queued (nd_resources n)))) n ms -> runs cl n ms wake_fuel Q.
Proof. intros HQ. eapply runs_on_local; [done|]. by destruct n. Qed.

(** The arrays of [MAX_OUTBOX] entries of the event handlers. *)
Definition full_outbox (cl : caller) : Prop :=
  match cl_size cl with Some s => (MAX_OUTBOX <= s)%nat | None => False end.

Lemma full_can_send cl ms : full_outbox cl -> can_send cl ms.
Proof. unfold full_outbox, can_send. destruct (cl_size cl); [by left|done]. Qed.

(** ** The invariant of the agent *)

Record agent_inv (k : Z) (totals : list Z) (n : node_data_t) : Prop := {
  ai_wf : node_wf k n;
  ai_seq : map_Forall (fun _ j => job_seq j) (jobs_map (nd_owned_jobs n));
  ai_total : total (nd_resources n) = totals
}.

Lemma agent_inv_weaken k k' totals n : agent_inv k totals n -> 0 <= k' <= k -> agent_inv k' totals n.
Proof. intros [Hw Hs Ht] Hk. split; [by eapply node_wf_weaken|done..]. Qed.

Lemma inv_k k totals n : agent_inv k totals n -> 0 <= k.
Proof. intros [Hw _ _]. by eapply node_wf_k. Qed.

Lemma inv_local k k' totals n r jobs :
  agent_inv k totals n -> local_wf k' r jobs -> 0 <= k' <= k -> total r = totals ->
  agent_inv k' totals (set_local n r jobs).
Proof.
  intros [[Hl Hkn Ho] Hs Ht] Hw Hk Htot. split; [|done|done].
  split; [done|by eapply known_wf_weaken|by eapply owned_wf_weaken].
Qed.

Lemma inv_known k k' totals n nodes :
  agent_inv k totals n -> known_wf k' nodes -> 0 <= k' <= k -> agent_inv k' totals (set_known n nodes).
Proof.
  intros [[Hl Hkn Ho] Hs Ht] Hw Hk. split; [|done|done].
  split; [by eapply local_wf_weaken|done|by eapply owned_wf_weaken].
Qed.

Lemma inv_owned k k' totals n jobs :
  agent_inv k totals n -> owned_wf k' jobs -> map_Forall (fun _ j => job_seq j) (jobs_map jobs) ->
  0 <= k' <= k -> agent_inv k' totals (set_owned n jobs).
Proof.
  intros [[Hl Hkn Ho] Hs Ht] Hw Hseq Hk. split; [|done|done].
  split; [by eapply local_wf_weaken|by eapply known_wf_weaken|done].
Qed.

(** ** Calls on the components *)

(** [keeps cl k m]: [m] runs from any node that satisfies the invariant and keeps it. *)
Definition keeps {A} (cl : caller) (k k' : Z) (m : adapter A) : Prop :=
  forall totals n ms, agent_inv k totals n ->
    runs cl n ms m (fun _ n' _ => agent_inv k' totals n').

Section keeps.
Context (cl : caller) (Hcl : full_outbox cl).

Lemma keeps_ret {A} k (a : A) : keeps cl k k (mret a).
Proof. intros totals n ms Hi. by apply runs_ret. Qed.

Lemma keeps_bind {A B} k k1 k' (m : adapter A) (f : A -> adapter B) :
  keeps cl k k1 m -> (forall a, keeps cl k1 k' (f a)) -> keeps cl k k' (m ≫= f).
Proof.
  intros Hm Hf totals n ms Hi. apply runs_bind. eapply runs_mono; [by apply Hm|].
  intros a n1 ms1 Hi1. by apply Hf.
Qed.

Lemma keeps_lock k c : keeps cl k k (pthread_mutex_lock c).
Proof. intros totals n ms Hi. by apply runs_lock. Qed.
Lemma keeps_unlock k c : keeps cl k k (pthread_mutex_unlock c).
Proof. intros totals n ms Hi. by apply runs_unlock. Qed.
Lemma keeps_close k fd : keeps cl k k (close fd).
Proof. intros totals n ms Hi. by apply runs_close. Qed.

Lemma keeps_add k msg fd ip port : keeps cl k k (add_to_outbox msg fd ip port).
Proof. intros totals n ms Hi. apply runs_add; [by apply full_can_send|done]. Qed.

Lemma keeps_for_each {A} k (l : list A) body :
  (forall a, a ∈ l -> keeps cl k k (body a)) -> keeps cl k k (for_each l body).
Proof.
  intros Hb totals n ms Hi.
  apply (runs_for_each cl n ms l body (fun _ n' _ => agent_inv k totals n')); [done| |done].
  intros pre a post n' ms' -> Hi'. apply Hb; [|done]. apply elem_of_app. right. by left.
Qed.

Lemma keeps_lift {A} k (o : option A) : is_Some o -> keeps cl k k (lift o).
Proof. intros [a ->] totals n ms Hi. by eapply runs_lift. Qed.

(** A query on the owned jobs that returns. *)
Lemma keeps_query_owned {A} k (f : owned_jobs_t -> option A) :
  (forall jobs, owned_wf k jobs -> is_Some (f jobs)) -> keeps cl k k (on_owned (query f)).
Proof.
  intros Hf totals n ms Hi. pose proof (nw_owned _ _ (ai_wf _ _ _ Hi)) as Ho. destruct (Hf _ Ho) as [a Ha].
  eapply runs_on_owned; [unfold query; rewrite Ha; done|].
  eapply inv_owned; [done|done|apply (ai_seq _ _ _ Hi)|]. pose proof (inv_k _ _ _ Hi). lia.
Qed.

Lemma keeps_get_count k : keeps cl k k get_count.
Proof. intros totals n ms Hi. unfold full_outbox in Hcl. destruct (cl_size cl) as [s|] eqn:Hs; [|done]. by eapply runs_get_count. Qed.
End keeps.

(** ** What the parsers return *)

Definition scanned_ok (v : scanned) : Prop := match v with VU z => in_u32 z | VS _ => True end.

Lemma read_unsigned_u32 s v r : read_unsigned s = Some (v, r) -> in_u32 v.
Proof.
  unfold read_unsigned. destruct (read_sign s) as [neg s1]. destruct (starts_digit s1); [|done].
  destruct (read_digits 0 s1) as [z r1]. intros [= <- _]. unfold u32_of_strtoul.
  destruct (2 ^ 64 <=? z); apply wrap32_range.
Qed.

(** Every number [sscanf] stores is an [unsigned]. *)
Lemma sscanf_u32 buffer fmt : Forall scanned_ok (sscanf buffer fmt).
Proof.
  unfold sscanf. generalize (parse_fmt FNormal fmt) as ds. intros ds. revert buffer.
  induction ds as [|d ds IH]; intros s; simpl; [constructor|].
  destruct d as [c| | |w|w stop].
  - destruct s as [|c' r]; [constructor|]. destruct (Ascii.eqb c c'); [apply IH|constructor].
  - apply IH.
  - destruct (read_unsigned (skip_space s)) as [[v r]|] eqn:E; [|constructor].
    constructor; [by eapply read_unsigned_u32|apply IH].
  - destruct (span _ w _) as [[|] r]; constructor; [done|apply IH].
  - destruct (span _ w _) as [[|] r]; constructor; [done|apply IH].
Qed.

Lemma atoi_u32 s : in_u32 (atoi_u s).
Proof.
  unfold atoi_u. destruct (read_sign _) as [neg s1]. destruct (read_digits 0 s1) as [v r]. apply wrap32_range.
Qed.

(** ** The handlers *)

Create HintDb keeps.

Section safety.
Context (cl : caller) (Hcl : full_outbox cl).

#[local] Hint Resolve keeps_ret keeps_lock keeps_unlock keeps_close keeps_add keeps_get_count : keeps.

Lemma keeps_granted k job_id m :
  keeps cl k k (on_owned (query (fun jobs => get_granted_resources jobs job_id m))).
Proof. apply keeps_query_owned. intros jobs Hj. rewrite (get_granted_resources_spec _ _ _ _ Hj). eauto. Qed.

Lemma keeps_owner k job_id :
  keeps cl k k (on_owned (query (fun jobs => get_job_owner_socket jobs job_id))).
Proof. apply keeps_query_owned. intros jobs Hj. rewrite (get_job_owner_socket_spec _ _ _ Hj). eauto. Qed.

Lemma keeps_remove k job_id :
  keeps cl k k (on_owned (fun jobs => jobs' ← remove_owned_job jobs job_id; Some ((), jobs'))).
Proof.
  intros totals n ms Hi. pose proof (nw_owned _ _ (ai_wf _ _ _ Hi)) as Ho. pose proof (inv_k _ _ _ Hi).
  destruct (remove_owned_job_spec k _ job_id Ho) as (jobs' & Hr & Hw & Hm).
  eapply runs_on_owned; [by rewrite Hr|]. eapply inv_owned; [done|done| |lia].
  rewrite Hm. apply map_Forall_delete, (ai_seq _ _ _ Hi).
Qed.

Lemma keeps_free_socket k socket : keeps cl k k (free_socket socket).
Proof.
  intros totals n ms Hi. pose proof (nw_local _ _ (ai_wf _ _ _ Hi)) as Hl. pose proof (inv_k _ _ _ Hi).
  destruct (free_all_spec k _ _ socket Hl) as (r' & jobs' & Hf & Heff).
  eapply runs_on_local; [by rewrite Hf|]. eapply inv_local; [done|exact (fa_wf _ _ _ _ _ _ Heff)|lia|].
  rewrite (free_all_total _ _ _ _ _ Hf). apply (ai_total _ _ _ Hi).
Qed.

#[local] Hint Resolve keeps_granted keeps_owner keeps_remove keeps_free_socket : keeps.

(** Walks through a handler whose calls are in the database. *)
Ltac solve_keeps :=
  cbv beta zeta;
  lazymatch goal with
  | |- keeps _ _ _ (mbind _ _) => eapply keeps_bind; [solve_keeps|intros ?; solve_keeps]
  | |- keeps _ _ _ (for_each _ _) => apply keeps_for_each; intros ? ?; solve_keeps
  | |- keeps _ _ _ (match ?x with _ => _ end) => destruct x; solve_keeps
  | |- _ => eauto with keeps
  end.

Lemma keeps_to_target k msg t : keeps cl k k (send_to_target msg t).
Proof. by apply keeps_add. Qed.
Lemma keeps_to_socket k msg socket : keeps cl k k (send_to_socket msg socket).
Proof. by apply keeps_add. Qed.
#[local] Hint Resolve keeps_to_target keeps_to_socket : keeps.

Lemma keeps_releases k job_id granted : keeps cl k k (send_releases job_id granted).
Proof. unfold send_releases. solve_keeps. Qed.
#[local] Hint Resolve keeps_releases : keeps.

Lemma keeps_denied k buffer : keeps cl k k (handle_denied buffer).
Proof. unfold handle_denied. solve_keeps. Qed.

Lemma keeps_job_release k buffer : keeps cl k k (handle_job_release buffer).
Proof. unfold handle_job_release. solve_keeps. Qed.

Lemma keeps_abort k keep job_id : keeps cl k k (abort_job keep job_id).
Proof. unfold abort_job. solve_keeps. Qed.

Lemma keeps_orphan k job_id : keeps cl k k (drop_orphan job_id).
Proof. unfold drop_orphan. solve_keeps. Qed.

Lemma keeps_affected k ip port m :
  keeps cl k k (on_owned (query (fun jobs => get_jobs_affected_by_dead_node jobs ip port m))).
Proof. apply keeps_query_owned. intros jobs Hj. rewrite (affected_spec _ _ _ _ (ow_tabla _ _ Hj)). eauto. Qed.

Lemma keeps_orphans k socket m :
  keeps cl k k (on_owned (query (fun jobs => get_jobs_by_owner_socket jobs socket m))).
Proof. apply keeps_query_owned. intros jobs Hj. rewrite (orphans_spec _ _ _ (ow_tabla _ _ Hj)). eauto. Qed.

Lemma keeps_late k m now :
  keeps cl k k (on_owned (query (fun jobs => collect_timed_out_jobs jobs m now))).
Proof. apply keeps_query_owned. intros jobs Hj. rewrite (timed_out_spec _ _ _ (ow_tabla _ _ Hj)). eauto. Qed.

#[local] Hint Resolve keeps_abort keeps_orphan keeps_affected keeps_orphans keeps_late : keeps.

Lemma keeps_find_fd k ip port : conns_ok (cl_conns cl) -> keeps cl k k (find_fd ip port).
Proof.
  intros Hc totals n ms Hi. destruct (find_fd_total (cl_conns cl) ip port Hc) as (z & Hz & _). by eapply runs_find_fd.
Qed.

Lemma keeps_connection_port k fd : conns_ok (cl_conns cl) -> keeps cl k k (connection_port fd).
Proof.
  intros Hc totals n ms Hi. eapply runs_connection_port; [by rewrite get_connection_port_spec|done].
Qed.

Lemma keeps_bury k dead : conns_ok (cl_conns cl) -> keeps cl k k (bury_node dead).
Proof.
  intros Hc. destruct dead as [ip port]. unfold bury_node.
  eapply keeps_bind; [by apply keeps_find_fd|intros zombie; solve_keeps].
Qed.

Lemma keeps_timeout k ids : keeps cl k k (timeout_loop ids).
Proof. induction ids as [|id ids IH]; cbn [timeout_loop]; solve_keeps. Qed.

Lemma keeps_remove_inactive k m now :
  keeps cl k k (on_known (fun nodes => remove_inactive_nodes nodes m now)).
Proof.
  intros totals n ms Hi. pose proof (nw_known _ _ (ai_wf _ _ _ Hi)) as Hkn. pose proof (inv_k _ _ _ Hi).
  destruct (remove_inactive_spec k _ m now Hkn) as (dead & nodes' & Hr & Hw & _).
  eapply runs_on_known; [exact Hr|]. eapply inv_known; [done|done|lia].
Qed.

#[local] Hint Resolve keeps_bury keeps_timeout keeps_remove_inactive : keeps.

Lemma keeps_check_deadnodes k now1 now2 :
  conns_ok (cl_conns cl) -> keeps cl k k (handle_check_deadnodes now1 now2).
Proof. intros Hc. unfold handle_check_deadnodes. solve_keeps. Qed.

Lemma keeps_disconnected k ip socket :
  conns_ok (cl_conns cl) -> keeps cl k k (handle_disconnected ip socket).
Proof.
  intros Hc. pose proof (keeps_connection_port k (to_int socket) Hc) as Hk. unfold handle_disconnected. solve_keeps.
Qed.

Lemma keeps_get_nodes k socket : keeps cl k k (handle_get_nodes_response socket).
Proof.
  unfold handle_get_nodes_response. eapply keeps_bind; [apply keeps_lock|intros _].
  eapply (keeps_bind _ _ k); [|intros msg; solve_keeps].
  intros totals n ms Hi. pose proof (nw_known _ _ (ai_wf _ _ _ Hi)) as Hkn. pose proof (inv_k _ _ _ Hi).
  destruct (payload_spec k _ EmptyString (Z.of_nat BUFFER_SIZE) Hkn) as [Hp _]; [unfold BUFFER_SIZE; lia|].
  eapply runs_on_known; [unfold query; rewrite Hp; done|]. eapply inv_known; [done|done|lia].
Qed.

(** *** Requests of the local scheduler *)

Lemma keeps_append k job_id ip port type cant :
  keeps cl k k (on_owned (fun jobs => append_petition_to_job jobs job_id ip port type cant)).
Proof.
  intros totals n ms Hi. pose proof (nw_owned _ _ (ai_wf _ _ _ Hi)) as Ho. pose proof (inv_k _ _ _ Hi).
  destruct (append_petition_spec k _ job_id ip port type cant Ho) as (z & jobs' & Ha & Hw & Hm).
  eapply runs_on_owned; [exact Ha|]. eapply inv_owned; [done|done| |lia]. pose proof (ai_seq _ _ _ Hi) as Hseq.
  destruct (jobs_map (nd_owned_jobs n) !! job_id) as [j|] eqn:Hj; [|by destruct Hm as [_ ->]].
  destruct Hm as (j' & -> & Hb). apply map_Forall_insert_2; [|done].
  eapply job_seq_append; [exact (ow_job _ _ _ _ Ho Hj)|exact (Hseq _ _ Hj)|exact Hb].
Qed.

Lemma keeps_petition k job_id token : keeps cl k k (parse_petition job_id token).
Proof. unfold parse_petition. pose proof (keeps_append k job_id). solve_keeps. Qed.

(** Sending the next RESERVE of a job that awaits no answer. *)
Lemma runs_next k totals n ms job_id (k' : option target -> adapter ()) (Q : () -> node_data_t -> list out_msg_t -> Prop) :
  agent_inv k totals n ->
  (forall j, jobs_map (nd_owned_jobs n) !! job_id = Some j -> settled j) ->
  (forall o n', agent_inv k totals n' -> runs cl n' ms (k' o) Q) ->
  runs cl n ms (next ← on_owned (fun jobs => get_next_reserve jobs job_id); k' next) Q.
Proof.
  intros Hi Hset HQ. pose proof (nw_owned _ _ (ai_wf _ _ _ Hi)) as Ho. pose proof (inv_k _ _ _ Hi).
  destruct (get_next_reserve_spec k _ job_id Ho) as (o & jobs' & Hn & Hw & Hm).
  apply runs_bind. eapply runs_on_owned; [exact Hn|]. apply HQ. eapply inv_owned; [done|done| |lia].
  pose proof (ai_seq _ _ _ Hi) as Hseq.
  destruct (jobs_map (nd_owned_jobs n) !! job_id) as [j|] eqn:Hj; [|by destruct Hm as [_ ->]].
  destruct Hm as (j' & -> & Hb). apply map_Forall_insert_2; [|done].
  eapply job_seq_next; [exact (ow_job _ _ _ _ Ho Hj)|exact (Hseq _ _ Hj)|by apply Hset|exact Hb].
Qed.

(** No petition of the job was dispatched yet. *)
Definition unsent (job_id : Z) (n : node_data_t) : Prop :=
  exists j, jobs_map (nd_owned_jobs n) !! job_id = Some j /\ oj_next_reserve_idx j = 0.

Lemma unsent_append k totals n ms job_id ip port type cant :
  agent_inv k totals n -> unsent job_id n ->
  runs cl n ms (on_owned (fun jobs => append_petition_to_job jobs job_id ip port type cant))
    (fun _ n' _ => agent_inv k totals n' /\ unsent job_id n').
Proof.
  intros Hi (j & Hj & H0). pose proof (nw_owned _ _ (ai_wf _ _ _ Hi)) as Ho. pose proof (inv_k _ _ _ Hi).
  destruct (append_petition_spec k _ job_id ip port type cant Ho) as (z & jobs' & Ha & Hw & Hm).
  rewrite Hj in Hm. destruct Hm as (j' & Hm & Hb). pose proof (ow_job _ _ _ _ Ho Hj) as Hjw.
  destruct (append_body_spec ip port type cant j Hjw) as (z2 & j2 & Hb2 & _ & _ & _ & _ & _ & _ & Hn & _).
  assert (j2 = j') as -> by congruence.
  eapply runs_on_owned; [exact Ha|]. split.
  - eapply inv_owned; [done|done| |lia]. rewrite Hm. apply map_Forall_insert_2; [|apply (ai_seq _ _ _ Hi)].
    eapply job_seq_append; [done|exact (ai_seq _ _ _ Hi _ _ Hj)|exact Hb].
  - exists j'. simpl. rewrite Hm, lookup_insert_eq, Hn. done.
Qed.

Lemma keeps_job_request k now socket buffer :
  1 <= k -> keeps cl k (k - 1) (handle_job_request now socket buffer).
Proof.
  intros Hk totals n ms Hi. eapply runs_same; [apply job_request_alone|]. unfold job_request_of_tokens.
  assert (Hskip : runs cl n ms (mret ()) (fun _ n' _ => agent_inv (k - 1) totals n')).
  { apply runs_ret. eapply agent_inv_weaken; [done|lia]. }
  destruct (sscanf buffer "JOB_REQUEST %u") as [|[job_id|?] [|? ?]]; try exact Hskip.
  apply runs_bind, runs_lock. pose proof (nw_owned _ _ (ai_wf _ _ _ Hi)) as Ho.
  destruct (add_new_owned_job_spec k _ job_id socket now Ho Hk) as (jobs' & Ha & Hw & Hm).
  apply runs_bind. eapply runs_on_owned; [exact Ha|]. apply runs_bind.
  apply (runs_for_each cl _ _ _ _ (fun _ n' _ => agent_inv (k - 1) totals n' /\ unsent job_id n')).
  - split.
    + eapply inv_owned; [done|done| |lia]. rewrite Hm. apply map_Forall_insert_2; [|apply (ai_seq _ _ _ Hi)].
      by intros i p Hp.
    + eexists. simpl. rewrite Hm, lookup_insert_eq. done.
  - intros _ token _ n' ms' _ [Hi' Hun]. unfold parse_petition.
    repeat case_match; try (by apply runs_ret).
    all: apply runs_bind; eapply runs_mono; [by apply unsent_append|]; intros; by apply runs_ret.
  - intros n' ms' [Hi' (j & Hj & H0)]. apply runs_bind, runs_unlock. eapply runs_next; [done| |].
    + intros j' Hj'. assert (j' = j) as -> by congruence. intros p Hp. unfold last_sent in Hp. by rewrite H0 in Hp.
    + intros o n2 Hi2. destruct o; [by apply keeps_to_target|by apply runs_ret].
Qed.

Lemma keeps_granted_msg k sender_ip port buffer :
  is_Some sender_ip -> keeps cl k k (handle_granted sender_ip port buffer).
Proof.
  intros [ip ->] totals n ms Hi. unfold handle_granted.
  assert (Hskip : runs cl n ms (mret ()) (fun _ n' _ => agent_inv k totals n')) by (by apply runs_ret).
  destruct (sscanf buffer "GRANTED %u") as [|[job_id|?] [|? ?]]; try exact Hskip.
  destruct (port =? 0); [exact Hskip|]. apply runs_bind, runs_lock, runs_bind. eapply runs_lift; [done|].
  pose proof (nw_owned _ _ (ai_wf _ _ _ Hi)) as Ho. pose proof (inv_k _ _ _ Hi).
  destruct (mark_petition_spec k _ job_id ip port Ho) as (z & jobs' & Hmk & Hw & Hm).
  apply runs_bind. eapply runs_on_owned; [exact Hmk|].
  set (n1 := set_owned n jobs').
  assert (Hn1 : agent_inv k totals n1 /\
    (z ≠ -1 -> forall j, jobs_map (nd_owned_jobs n1) !! job_id = Some j -> settled j)).
  { pose proof (ai_seq _ _ _ Hi) as Hseq. subst n1. simpl.
    destruct (jobs_map (nd_owned_jobs n) !! job_id) as [j|] eqn:Hj.
    - destruct Hm as (j' & Hm & Hb). pose proof (ow_job _ _ _ _ Ho Hj) as Hjw. split.
      + eapply inv_owned; [done|done| |lia]. rewrite Hm. apply map_Forall_insert_2; [|done].
        eapply job_seq_mark; [done|exact (Hseq _ _ Hj)|exact Hb].
      + intros Hz j2 Hj2. rewrite Hm, lookup_insert_eq in Hj2. simplify_eq. by eapply settled_mark.
    - destruct Hm as [-> ->]. split; [|done]. eapply inv_owned; [done|done|done|lia]. }
  destruct Hn1 as [Hi1 Hset]. clearbody n1. apply runs_bind.
  apply (runs_mono _ _ _ _ (fun _ n' _ => agent_inv k totals n')); [|intros _ n' ms' Hi'; by apply runs_unlock].
  destruct (Z.eqb_spec z 1) as [->|_].
  - revert Hi1. generalize n1 ms. apply (keeps_bind cl k k k); [apply keeps_owner|intros; by apply keeps_to_socket].
  - destruct (Z.eqb_spec z 0) as [->|_]; [|by apply runs_ret]. eapply runs_next; [done|by apply Hset|].
    intros o n2 Hi2. destruct o; [by apply keeps_to_target|by apply runs_ret].
Qed.

(** *** Requests of the remote nodes *)

Lemma keeps_new_job k id socket quantity type :
  1 <= k -> valid_res type -> in_u32 id -> in_u32 socket -> in_u32 quantity ->
  keeps cl k (k - 1) (on_local (fun r jobs => new_job_request r jobs id socket quantity type)).
Proof.
  intros Hk Ht Hid Hso Hq totals n ms Hi. pose proof (nw_local _ _ (ai_wf _ _ _ Hi)) as Hl.
  destruct (new_job_request_spec k _ _ id socket quantity type Hl Hk Ht Hid Hso Hq) as (z & r' & jobs' & Hn & Hw & _).
  eapply runs_on_local; [exact Hn|]. eapply inv_local; [done|done|lia|].
  rewrite (new_job_total _ _ _ _ _ _ _ _ _ Hn). apply (ai_total _ _ _ Hi).
Qed.

Lemma keeps_weaken {A} k k' (m : adapter A) : 0 <= k' <= k -> keeps cl k k m -> keeps cl k k' m.
Proof.
  intros Hk Hm totals n ms Hi. eapply runs_mono; [by apply Hm|]. intros ? ? ? H. exact (agent_inv_weaken _ _ _ _ H Hk).
Qed.

Lemma keeps_reserve k socket buffer :
  1 <= k -> in_u32 socket -> reserve_overflow (sscanf buffer "RESERVE %u %s %u") = false ->
  keeps cl k (k - 1) (handle_reserve socket buffer).
Proof.
  intros Hk Hso Hov. unfold handle_reserve. rewrite Hov.
  eapply keeps_bind; [apply keeps_lift; by eexists|intros _]. cbv zeta.
  pose proof (sscanf_u32 buffer "RESERVE %u %s %u") as Hu.
  assert (Hskip : keeps cl k (k - 1) (mret ())) by (apply keeps_weaken; [lia|apply keeps_ret]).
  destruct (sscanf buffer "RESERVE %u %s %u") as [|[id|?] [|[?|res] [|[cant|?] [|? ?]]]]; try exact Hskip.
  apply Forall_cons in Hu as [Hid Hu]. apply Forall_cons in Hu as [_ Hu]. apply Forall_cons in Hu as [Hq _].
  eapply keeps_bind; [apply keeps_lock|intros _].
  set (type := if strcmp_eq res "cpu" then _ else _). clearbody type.
  eapply (keeps_bind _ _ (k - 1)).
  - destruct (bool_decide_reflect (type = INVALID_RES_TYPE)) as [->|Hne]; simpl;
      [apply keeps_weaken; [lia|apply keeps_ret]|].
    destruct (_ =? 3)%nat; [by apply keeps_new_job|apply keeps_weaken; [lia|apply keeps_ret]].
  - intros result. solve_keeps.
Qed.

(** The loop ends: every call that grants something takes a request off a queue. *)
Lemma keeps_wake k totals n ms fuel rnd msg qs :
  agent_inv k totals n -> queued (nd_resources n) < Z.of_nat fuel ->
  runs cl n ms (wake_loop fuel rnd msg qs) (fun _ n' _ => agent_inv k totals n').
Proof.
  revert n ms msg qs. induction fuel as [|fuel IH]; intros n ms msg qs Hi Hq.
  { pose proof (queued_nonneg (nd_resources n)). lia. }
  pose proof (nw_local _ _ (ai_wf _ _ _ Hi)) as Hl. pose proof (inv_k _ _ _ Hi).
  destruct (chk_job_request_spec k _ _ (rnd fuel) msg 64 qs Hl) as (s & m & Hc & Hr & _).
  cbn [wake_loop]. apply runs_bind. eapply runs_on_local; [by rewrite Hc|]. cbv beta iota.
  set (n1 := set_local _ _ _).
  assert (Hi1 : agent_inv k totals n1).
  { eapply inv_local; [done|exact (cr_wf _ _ _ _ _ _ Hr)|lia|].
    rewrite (chk_job_total _ _ _ _ _ _ _ _ Hc). apply (ai_total _ _ _ Hi). }
  destruct (Z.eqb_spec (chk_out s) (-1)) as [_|Hout]; [by apply runs_ret|].
  pose proof (cr_progress _ _ _ _ _ _ Hr Hout). apply runs_bind. apply runs_add; [by apply full_can_send|].
  apply IH; [done|]. subst n1. simpl. lia.
Qed.

Lemma keeps_release k rnd msg socket buffer :
  in_u32 socket -> keeps cl k k (handle_release rnd msg socket buffer).
Proof.
  intros Hso totals n ms Hi. unfold handle_release.
  assert (Hskip : runs cl n ms (mret ()) (fun _ n' _ => agent_inv k totals n')) by (by apply runs_ret).
  destruct (sscanf buffer "RELEASE %u %9s %u") as [|[id|?] [|[?|res] [|[cant|?] [|? ?]]]]; try exact Hskip.
  apply runs_bind, runs_lock. pose proof (nw_local _ _ (ai_wf _ _ _ Hi)) as Hl. pose proof (inv_k _ _ _ Hi).
  destruct (del_active_job_spec k _ _ id socket Hl) as ([r' jobs'] & Hd & Hw & _).
  apply runs_bind. eapply runs_on_local; [by rewrite Hd|].
  set (n1 := set_local _ _ _).
  assert (Hi1 : agent_inv k totals n1).
  { eapply inv_local; [done|exact Hw|lia|]. rewrite (del_active_total _ _ _ _ _ _ Hd). apply (ai_total _ _ _ Hi). }
  clearbody n1. apply runs_bind, runs_wake_fuel, runs_bind.
  eapply runs_mono; [apply (keeps_wake k totals); [done|]|intros; by apply runs_unlock].
  pose proof (queued_nonneg (nd_resources n1)). lia.
Qed.

Lemma keeps_respond k env ip socket buffer :
  1 <= k -> conns_ok (cl_conns cl) -> in_u32 socket -> is_Some ip ->
  reserve_overflow (sscanf buffer "RESERVE %u %s %u") = false ->
  keeps cl k (k - 1) (respond env ip socket buffer).
Proof.
  intros Hk Hc Hso Hip Hov. unfold respond.
  destruct (strncmp_eq buffer "GET_NODES" 9); [apply keeps_weaken; [lia|apply keeps_get_nodes]|].
  destruct (strncmp_eq buffer "JOB_REQUEST" 11); [by apply keeps_job_request|].
  destruct (strncmp_eq buffer "RESERVE" 7); [by apply keeps_reserve|].
  destruct (strncmp_eq buffer "GRANTED" 7).
  { apply keeps_weaken; [lia|]. eapply keeps_bind; [by apply keeps_connection_port|intros; by apply keeps_granted_msg]. }
  destruct (strncmp_eq buffer "DENIED" 6); [apply keeps_weaken; [lia|apply keeps_denied]|].
  destruct (strncmp_eq buffer "RELEASE" 7); [apply keeps_weaken; [lia|by apply keeps_release]|].
  destruct (strncmp_eq buffer "JOB_RELEASE" 11); [apply keeps_weaken; [lia|apply keeps_job_release]|].
  apply keeps_weaken; [lia|apply keeps_ret].
Qed.

End safety.

(** *** Announcements

    These two handlers are called with smaller outboxes: none, and one of a
    single message. *)

Lemma announce_tokens_u32 tokens acc :
  in_u32 acc.1.1 -> in_u32 acc.1.2 -> in_u32 acc.2 ->
  let '(cpu, ram, gpu) := foldl announce_token acc tokens in in_u32 cpu /\ in_u32 ram /\ in_u32 gpu.
Proof.
  revert acc. induction tokens as [|tk tokens IH]; intros [[c r] g] Hc Hr Hg; simpl; [done|].
  apply IH; unfold announce_token; repeat case_match; simpl in *; try done; apply atoi_u32.
Qed.

Lemma keeps_node_announced cl k now ip buffer :
  1 <= k -> is_Some ip -> keeps cl k (k - 1) (handle_node_announced now ip buffer).
Proof.
  intros Hk [a ->]. cut (keeps cl k (k - 1) (announced_of_tokens now (Some a) buffer)).
  { intros H totals n ms Hi. eapply runs_same; [apply announced_alone|by apply H]. }
  unfold announced_of_tokens, record_announce.
  assert (Hskip : keeps cl k (k - 1) (mret ())).
  { apply keeps_weaken; [lia|apply keeps_ret]. }
  destruct (strtok_all " "%char buffer) as [|first [|token tokens]]; try exact Hskip.
  destruct (strcmp_eq first "ANNOUNCE"); [|exact Hskip]. cbv zeta.
  pose proof (announce_tokens_u32 tokens (0, 0, 0) ltac:(done) ltac:(done) ltac:(done)) as Hu.
  destruct (foldl announce_token (0, 0, 0) tokens) as [[cpu ram] gpu]. destruct Hu as (Hc & Hr & Hg).
  destruct (0 <? atoi_u token); [|exact Hskip].
  eapply keeps_bind; [apply keeps_lock|intros _]. eapply keeps_bind; [apply keeps_lift; by eexists|intros ip].
  eapply keeps_bind; [|intros ?; apply keeps_unlock].
  intros totals n ms Hi. pose proof (nw_known _ _ (ai_wf _ _ _ Hi)) as Hkn.
  destruct (update_known_node_spec k _ ip (atoi_u token) cpu ram gpu now Hkn Hk (atoi_u32 token) Hc Hr Hg)
    as (nodes' & Hup & Hw & _).
  eapply runs_on_known; [by rewrite Hup|]. eapply inv_known; [done|done|lia].
Qed.

Lemma get_local_resources_spec k r jobs :
  local_wf k r jobs -> get_local_resources r = Some (av r CPU, av r GPU, av r RAM).
Proof.
  intros Hl. unfold get_local_resources.
  rewrite (wf_av_lookup _ _ _ CPU Hl), (wf_av_lookup _ _ _ GPU Hl), (wf_av_lookup _ _ _ RAM Hl) by done. done.
Qed.

Lemma runs_get_resources cl k totals n ms port :
  agent_inv k totals n -> can_send cl ms ->
  runs cl n ms (handle_get_resources port) (fun _ n' ms' => n' = n /\
    ms' = ms ++ [queue_out (snprintf 128 "ANNOUNCE %d cpu:%u mem:%u gpu:%u"
                   [PD port; PU (av (nd_resources n) CPU); PU (av (nd_resources n) RAM);
                    PU (av (nd_resources n) GPU)]) (-1) None 0]).
Proof.
  intros Hi Hs. pose proof (nw_local _ _ (ai_wf _ _ _ Hi)) as Hl. unfold handle_get_resources.
  apply runs_bind, runs_lock, runs_bind. eapply runs_on_local.
  { by rewrite (get_local_resources_spec _ _ _ Hl). }
  cbv beta iota. apply runs_bind, runs_unlock. apply runs_add; [done|]. split; [by destruct n|done].
Qed.

(** ** The dispatcher *)

(** What the event handlers pass: a null outbox only with an ANNOUNCE, an outbox
    of one entry for the local resources, one of [MAX_OUTBOX] otherwise. *)
Definition outbox_for (action : JuaniAction) (cl : caller) : Prop :=
  match action with
  | ACTION_NEW_NODE_DISCOVERED | ACTION_NONE => True
  | ACTION_GET_RESOURCES => match cl_size cl with Some s => (1 <= s)%nat | None => False end
  | _ => full_outbox cl
  end.

(** The sender is known where a message is processed, and no token of a RESERVE
    overflows the local array. *)
Definition input_ok (SENDER_IP BUFFER : option string) (action : JuaniAction) : Prop :=
  match action with
  | ACTION_NEW_NODE_DISCOVERED => is_Some SENDER_IP
  | ACTION_RESPOND => is_Some SENDER_IP /\
      forall b, BUFFER = Some b -> reserve_overflow (sscanf b "RESERVE %u %s %u") = false
  | _ => True
  end.

Lemma patch_keeps cl k env c SENDER_IP SOCKET BUFFER action :
  1 <= k -> conns_ok (cl_conns cl) -> in_u32 SOCKET -> outbox_for action cl -> input_ok SENDER_IP BUFFER action ->
  keeps cl k (k - 1) (resource_adapter_patch env c SENDER_IP SOCKET BUFFER action).
Proof.
  intros Hk Hc Hso Hsz Hin. unfold resource_adapter_patch.
  assert (Hskip : keeps cl k (k - 1) (mret ())) by (apply keeps_weaken; [lia|apply keeps_ret]).
  destruct c as [c|]; [|exact Hskip]. destruct (negb (sc_mynode c)); [exact Hskip|].
  intros totals n ms Hi. apply runs_bind, runs_reset. revert Hi.
  destruct action; simpl in Hsz, Hin; intros Hi.
  - destruct BUFFER as [b|]; [|by apply Hskip]. destruct Hin as [Hip Hov]. apply keeps_respond; auto.
  - assert (H : keeps cl k (k - 1) (handle_check_deadnodes (now1 env) (now2 env)))
      by (apply keeps_weaken; [lia|by apply keeps_check_deadnodes]).
    by apply H.
  - eapply runs_mono; [eapply runs_get_resources; [done|]|].
    + unfold can_send. destruct (cl_size cl) as [s|]; [|done]. right. simpl. lia.
    + intros _ n' ms' [-> _]. eapply agent_inv_weaken; [done|lia].
  - destruct BUFFER as [b|]; [|by apply Hskip]. by apply keeps_node_announced.
  - assert (H : keeps cl k (k - 1) (handle_disconnected SENDER_IP SOCKET))
      by (apply keeps_weaken; [lia|by apply keeps_disconnected]).
    by apply H.
  - by apply Hskip.
Qed.

(** ** Reachable states *)

(** The state of a call: the caller's outbox is empty. *)
Definition start (n : node_data_t) (cl : caller) : adapter_state :=
  AdapterState (Shared n (cl_conns cl) []) ((fun s => Outbox s []) <$> cl_size cl) [].

(** The nodes the agent can have after some calls of the dispatcher; the index
    counts the calls the tables surely have room for. *)
Inductive agent_reach (cpu ram gpu : Z) : Z -> node_data_t -> Prop :=
  | agent_init : agent_reach cpu ram gpu NODE_ROOM (init_node cpu ram gpu)
  | agent_call k n cl env c SENDER_IP SOCKET BUFFER action u st' :
      agent_reach cpu ram gpu k n -> 1 <= k -> conns_ok (cl_conns cl) -> in_u32 SOCKET ->
      outbox_for action cl -> input_ok SENDER_IP BUFFER action ->
      resource_adapter_patch env c SENDER_IP SOCKET BUFFER action (start n cl) = Some (u, st') ->
      agent_reach cpu ram gpu (k - 1) (st_node st').

Lemma start_view n cl : view cl (start n cl) n [].
Proof. by split. Qed.

Lemma agent_reach_inv cpu ram gpu k n :
  in_u32 cpu -> in_u32 ram -> in_u32 gpu -> agent_reach cpu ram gpu k n -> agent_inv k [cpu; gpu; ram] n.
Proof.
  intros Hc Hr Hg. induction 1 as [|k n cl env c ip so b action u st' _ IH Hk Hco Hso Hsz Hin Hp].
  - split; [by apply init_node_wf|by intros id j Hj|done].
  - destruct (patch_keeps cl k env c ip so b action Hk Hco Hso Hsz Hin _ _ [] IH (start n cl))
      as (u' & st2 & n' & ms' & Hp2 & [Hn _ _] & Hi'); [by apply start_view|].
    rewrite Hp2 in Hp. injection Hp as -> ->. by rewrite Hn.
Qed.

(** ** Properties *)

(** C15: the dispatcher never crashes: from every state the agent can reach, on
    every event and every message (parsed, malformed or hostile, but for a RESERVE
    token of 256 characters), [resource_adapter_patch] returns, without undefined
    behaviour, with a node of which all this holds again, and with an outbox
    within both the caller's array and [MAX_OUTBOX]. *)
Theorem patch_safe cpu ram gpu k n cl env c SENDER_IP SOCKET BUFFER action :
  in_u32 cpu -> in_u32 ram -> in_u32 gpu -> agent_reach cpu ram gpu k n -> 1 <= k ->
  conns_ok (cl_conns cl) -> in_u32 SOCKET -> outbox_for action cl -> input_ok SENDER_IP BUFFER action ->
  exists st', resource_adapter_patch env c SENDER_IP SOCKET BUFFER action (start n cl) = Some ((), st') /\
    agent_reach cpu ram gpu (k - 1) (st_node st') /\ node_wf (k - 1) (st_node st') /\
    forall o, st_outbox st' = Some o -> (length (ob_msgs o) <= MAX_OUTBOX)%nat.
Proof.
  intros Hc Hr Hg Hreach Hk Hco Hso Hsz Hin.
  pose proof (agent_reach_inv _ _ _ _ _ Hc Hr Hg Hreach) as Hi.
  destruct (patch_keeps cl k env c SENDER_IP SOCKET BUFFER action Hk Hco Hso Hsz Hin _ _ [] Hi
    (start n cl)) as ([] & st' & n' & ms' & Hp & [Hn Ho _] & Hi'); [by apply start_view|].
  exists st'. split; [done|]. split; [by eapply agent_call|]. rewrite Hn. split; [apply (ai_wf _ _ _ Hi')|].
  intros o Hob. rewrite Ho in Hob. destruct (cl_size cl) as [s|]; simplify_eq/=. rewrite length_take. lia.
Qed.

(** C10: whatever messages arrive in whatever order (but a RESERVE token of 256
    characters, [input_ok]), the agent never promises more than it has: for every
    resource what is free plus what is granted to the jobs of any node stays within the
    quantity it was started with. *)
Theorem agent_never_overcommits cpu ram gpu k n t :
  in_u32 cpu -> in_u32 ram -> in_u32 gpu -> agent_reach cpu ram gpu k n -> valid_res t ->
  0 <= av (nd_resources n) t /\
  av (nd_resources n) t + active_qty t (items (nd_active_jobs n))
    <= (if decide (t = CPU) then cpu else if decide (t = RAM) then ram else gpu).
Proof.
  intros Hc Hr Hg Hreach Ht. destruct (agent_reach_inv _ _ _ _ _ Hc Hr Hg Hreach) as [[Hl _ _] _ Htot].
  destruct (slack_bounds _ _ _ t Hl Ht) as (Hav & _ & Hle & _). split; [done|].
  etrans; [exact Hle|]. unfold tot. rewrite Htot. by destruct t.
Qed.

(** Also: the RESERVEs of a job are sent one at a time, in the order of the request:
    in every reachable state each dispatched petition except the last is granted,
    no petition beyond the next index is, and the rollback list the failure
    handlers use is everything dispatched but the one still unanswered. *)
Theorem reserve_chain_ordered cpu ram gpu k n id j :
  in_u32 cpu -> in_u32 ram -> in_u32 gpu -> agent_reach cpu ram gpu k n ->
  jobs_map (nd_owned_jobs n) !! id = Some j ->
  dispatched j = take (Z.to_nat (oj_next_reserve_idx j)) (targets j) /\
  (length (targets j) <= MAX_JOB_RESOURCES)%nat /\
  (oj_next_reserve_idx j = 0 /\ granted j = [] \/
   exists p, last_sent j = Some p /\
     (jp_is_granted p = 1 /\ granted j = dispatched j \/
      jp_is_granted p = 0 /\ dispatched j = granted j ++ [target_of p])).
Proof.
  intros Hc Hr Hg Hreach Hj. destruct (agent_reach_inv _ _ _ _ _ Hc Hr Hg Hreach) as [[_ _ Ho] Hs _].
  apply chain_order; [exact (ow_job _ _ _ _ Ho Hj)|exact (Hs id j Hj)].
Qed.

(** C31: the locking protocol: in every run of every action but the handling of a
    JOB_REQUEST, each mutex is taken while no other is held (the threads cannot
    deadlock on them), every access to a component happens under its mutex, and
    none is left locked. *)
Theorem lock_discipline env c SENDER_IP SOCKET BUFFER action st u st' :
  (action = ACTION_RESPOND -> forall b, BUFFER = Some b -> strncmp_eq b "JOB_REQUEST" 11 = false) ->
  resource_adapter_patch env c SENDER_IP SOCKET BUFFER action st = Some (u, st') ->
  exists tr, st_trace st' = st_trace st ++ tr /\ disciplined tr.
Proof. intros Hjob Hp. by eapply locks_patch. Qed.

(** ** Concrete runs *)

Module SafetyEjemplo.

Definition entorno : environment := Env 1000 1000 (fun i => Z.of_nat i) EmptyString.
Definition contexto : option ServerContext := Some (Context 8100 "10.0.0.9" 3 4 5 6 7 8 9 true).
Definition conexiones : connections := ConnEjemplo.tabla.
Definition nodo : node_data_t := init_node 4 8 1.
Definition salida : caller := Caller (Some MAX_OUTBOX) conexiones.

(** One call of the dispatcher on a message from 10.0.0.1 on descriptor 7. *)
Definition recibir (n : node_data_t) (msg : string) : option (() * adapter_state) :=
  resource_adapter_patch entorno contexto (Some "10.0.0.1") 7 (Some msg) ACTION_RESPOND (start n salida).

Lemma patch_safe_witness :
  exists st', recibir nodo "RESERVE 7 cpu 2" = Some ((), st') /\
    agent_reach 4 8 1 (NODE_ROOM - 1) (st_node st') /\ node_wf (NODE_ROOM - 1) (st_node st') /\
    forall o, st_outbox st' = Some o -> (length (ob_msgs o) <= MAX_OUTBOX)%nat.
Proof.
  exact (patch_safe 4 8 1 NODE_ROOM nodo salida entorno contexto (Some "10.0.0.1") 7
    (Some "RESERVE 7 cpu 2") ACTION_RESPOND ltac:(done) ltac:(done) ltac:(done) (agent_init 4 8 1) ltac:(done)
    ConnEjemplo.tabla_ok ltac:(done) ltac:(unfold outbox_for, full_outbox; simpl; lia)
    ltac:(split; [by eexists|intros b [= <-]; reflexivity])).
Defined.

(** The node after it granted 3 of its 4 cpus. *)
Definition concedido : node_data_t :=
  match recibir nodo "RESERVE 7 cpu 3" with Some (_, st) => st_node st | None => nodo end.

Lemma concedido_reach : agent_reach 4 8 1 (NODE_ROOM - 1) concedido.
Proof.
  unfold concedido. destruct (recibir nodo "RESERVE 7 cpu 3") as [[u st]|] eqn:E; [|by vm_compute in E].
  eapply (agent_call 4 8 1 NODE_ROOM nodo salida entorno contexto (Some "10.0.0.1") 7 (Some "RESERVE 7 cpu 3")
    ACTION_RESPOND u st); [apply agent_init|done|apply ConnEjemplo.tabla_ok|done|unfold outbox_for, full_outbox; simpl; lia| |exact E].
  split; [by eexists|]. intros b [= <-]. reflexivity.
Qed.

Lemma agent_never_overcommits_witness :
  (av (nd_resources concedido) CPU, active_qty CPU (items (nd_active_jobs concedido))) = (1, 3) /\
  0 <= av (nd_resources concedido) CPU /\
  av (nd_resources concedido) CPU + active_qty CPU (items (nd_active_jobs concedido))
    <= (if decide (CPU = CPU) then 4 else if decide (CPU = RAM) then 8 else 1).
Proof.
  split; [vm_compute; reflexivity|].
  exact (agent_never_overcommits 4 8 1 (NODE_ROOM - 1) concedido CPU ltac:(done) ltac:(done) ltac:(done)
    concedido_reach ltac:(done)).
Defined.

(** The node after a JOB_REQUEST for two nodes. *)
Definition pedido : string := "JOB_REQUEST 9 @10.0.0.1:8100:cpu:2 @10.0.0.2:8100:gpu:1".
Definition con_trabajo : node_data_t :=
  match recibir nodo pedido with Some (_, st) => st_node st | None => nodo end.
Definition trabajo_9 : elem_owned_job_t :=
  OwnedJob 9 7 0 1000 1 [Petition "10.0.0.1" 8100 CPU 2 0; Petition "10.0.0.2" 8100 GPU 1 0].

Lemma con_trabajo_reach : agent_reach 4 8 1 (NODE_ROOM - 1) con_trabajo.
Proof.
  unfold con_trabajo. destruct (recibir nodo pedido) as [[u st]|] eqn:E; [|by vm_compute in E].
  eapply (agent_call 4 8 1 NODE_ROOM nodo salida entorno contexto (Some "10.0.0.1") 7 (Some pedido)
    ACTION_RESPOND u st); [apply agent_init|..|exact E]; clear E.
  - done.
  - apply ConnEjemplo.tabla_ok.
  - done.
  - unfold outbox_for, full_outbox. simpl. lia.
  - split; [by eexists|]. intros b [= <-]. reflexivity.
Qed.

Lemma reserve_chain_ordered_witness :
  dispatched trabajo_9 = take (Z.to_nat (oj_next_reserve_idx trabajo_9)) (targets trabajo_9) /\
  (length (targets trabajo_9) <= MAX_JOB_RESOURCES)%nat /\
  (oj_next_reserve_idx trabajo_9 = 0 /\ granted trabajo_9 = [] \/
   exists p, last_sent trabajo_9 = Some p /\
     (jp_is_granted p = 1 /\ granted trabajo_9 = dispatched trabajo_9 \/
      jp_is_granted p = 0 /\ dispatched trabajo_9 = granted trabajo_9 ++ [target_of p])).
Proof. exact (reserve_chain_ordered 4 8 1 (NODE_ROOM - 1) con_trabajo 9 trabajo_9 ltac:(done) ltac:(done)
  ltac:(done) con_trabajo_reach ltac:(vm_compute; reflexivity)). Defined.

(** The run of a GRANTED. *)
Definition tras_granted : () * adapter_state :=
  default ((), start con_trabajo salida) (recibir con_trabajo "GRANTED 9").

Lemma lock_discipline_witness :
  exists tr, st_trace tras_granted.2 = st_trace (start con_trabajo salida) ++ tr /\ disciplined tr.
Proof. exact (lock_discipline entorno contexto (Some "10.0.0.1") 7 (Some "GRANTED 9") ACTION_RESPOND
  (start con_trabajo salida) () tras_granted.2 ltac:(intros _ b [= <-]; reflexivity)
  ltac:(vm_compute; reflexivity)). Defined.

(** Also: a JOB_REQUEST takes its first RESERVE from the job after it released
    [lock_owned]: its run is not disciplined. *)
Theorem job_request_unlocked :
  exists st', recibir nodo pedido = Some ((), st') /\
    st_trace st' = [EvLock Owned; EvAccess Owned; EvAccess Owned; EvAccess Owned; EvUnlock Owned; EvAccess Owned] /\
    ~ disciplined (st_trace st').
Proof. eexists. split; [vm_compute; reflexivity|]. split; [vm_compute; reflexivity|]. by vm_compute. Qed.

Fixpoint repetir (n : nat) : string := match n with O => EmptyString | S n' => String (Ascii.ascii_of_nat 97) (repetir n') end.

(** Also: a RESERVE line of 267 characters, far shorter than the receive buffer of
    1024, whose resource has 256 of them, overruns the local array [res]. *)
Theorem reserve_overflows :
  recibir nodo ("RESERVE 7 " +:+ repetir 256 +:+ " 1") = None /\
  (String.length ("RESERVE 7 " +:+ repetir 256 +:+ " 1") < BUFFER_SIZE)%nat.
Proof. split; [vm_compute; reflexivity|]. apply Nat.ltb_lt. vm_compute. reflexivity. Qed.

End SafetyEjemplo.
