(* ===== verification/Protocol.v ===== *)
(** * Protocol: what the handlers of [resource_adapter.c] do

    The text protocol (every message an agent prints is read back by its peer)
    and the functional behaviour of the handlers: the state they leave and the
    messages they send. *)

From Stdlib Require Import Ascii.
From S2P Require Import Prelude CString TablaHash CommonTypes LocalResource OwnedJobs KnownNodes NodeStructures Connections Program Adapter ResourceAdapter AdapterSafety.
Local Open Scope Z_scope.

(** ** Reading the messages back *)

(** The lines the receiver cuts a message into. *)
Definition lines (msg : string) : list string := strtok_all ch_nl msg.

Definition reserve_line (job_id : Z) (t : target) : string :=
  "RESERVE " +:+ utoa job_id +:+ " " +:+ res_name (tg_type t) +:+ " " +:+ utoa (tg_quantity t).
Definition release_line (job_id : Z) (t : target) : string :=
  "RELEASE " +:+ utoa job_id +:+ " " +:+ res_name (tg_type t) +:+ " " +:+ utoa (tg_quantity t).

Definition target_ok (t : target) : Prop := in_u32 (tg_quantity t) /\ valid_res (tg_type t).

Lemma res_name_length t : String.length (res_name t) = 3%nat.
Proof. by destruct t. Qed.

Lemma no_nl_res_name t : no_char ch_nl (res_name t) = true.
Proof. by destruct t. Qed.

(** The text printed by a format whose arguments are numbers and resource names. *)
Lemma reserve_msg_line job_id t :
  in_u32 job_id -> target_ok t -> reserve_msg job_id t = reserve_line job_id t +:+ str_nl.
Proof.
  intros Hid [Hq _]. unfold reserve_msg, snprintf.
  assert (Hf : format false ("RESERVE %u %s %u" +:+ str_nl)
                 [PU job_id; PS (res_name (tg_type t)); PU (tg_quantity t)]
               = reserve_line job_id t +:+ str_nl).
  { unfold reserve_line. simpl. repeat (rewrite ?str_app_assoc; simpl). done. }
  rewrite Hf. apply str_take_all. unfold reserve_line. rewrite !str_length_app, res_name_length.
  pose proof (utoa_length job_id Hid). pose proof (utoa_length (tg_quantity t) Hq). simpl. lia.
Qed.

Lemma release_msg_line job_id t :
  in_u32 job_id -> target_ok t -> release_msg job_id t = release_line job_id t +:+ str_nl.
Proof.
  intros Hid [Hq _]. unfold release_msg, snprintf.
  assert (Hf : format false ("RELEASE %u %s %u" +:+ str_nl)
                 [PU job_id; PS (res_name (tg_type t)); PU (tg_quantity t)]
               = release_line job_id t +:+ str_nl).
  { unfold release_line. simpl. repeat (rewrite ?str_app_assoc; simpl). done. }
  rewrite Hf. apply str_take_all. unfold release_line. rewrite !str_length_app, res_name_length.
  pose proof (utoa_length job_id Hid). pose proof (utoa_length (tg_quantity t) Hq). simpl. lia.
Qed.

(** [%u] after white space. *)
Lemma scan_unsigned z r ds :
  in_u32 z -> starts_digit r = false ->
  scan (DSpace :: DU :: ds) (" " +:+ utoa z +:+ r) = VU z :: scan ds r.
Proof.
  intros Hz Hr. simpl. rewrite !skip_space_utoa. by rewrite read_unsigned_utoa.
Qed.

Lemma scan_unsigned_end z ds : in_u32 z -> scan (DSpace :: DU :: ds) (" " +:+ utoa z) = VU z :: scan ds EmptyString.
Proof. intros Hz. rewrite <- (str_app_nil_r (utoa z)). by apply scan_unsigned. Qed.

(** [%s] (or [%9s]) on a resource name. *)
Lemma scan_res_name t r ds w :
  w = None \/ w = Some 9%nat ->
  scan (DSpace :: DStr w :: ds) (" " +:+ res_name t +:+ " " +:+ r) = VS (res_name t) :: scan ds (" " +:+ r).
Proof. intros [-> | ->]; by destruct t. Qed.

(** Skipping the literal keyword. *)
Lemma scan_lits (kw : list ascii) ds s :
  scan ((DLit <$> kw) ++ ds) (foldr String EmptyString kw +:+ s) = scan ds s.
Proof. induction kw as [|c kw IH]; simpl; [done|]. by rewrite Ascii.eqb_refl. Qed.

Lemma scan_reserve job_id t :
  in_u32 job_id -> target_ok t ->
  sscanf (reserve_line job_id t) "RESERVE %u %s %u" = [VU job_id; VS (res_name (tg_type t)); VU (tg_quantity t)].
Proof.
  intros Hid [Hq _]. unfold sscanf.
  change (parse_fmt FNormal "RESERVE %u %s %u") with
    ((DLit <$> String.list_ascii_of_string "RESERVE") ++ [DSpace; DU; DSpace; DStr None; DSpace; DU]).
  change (reserve_line job_id t) with
    (foldr String EmptyString (String.list_ascii_of_string "RESERVE") +:+
     (" " +:+ utoa job_id +:+ (" " +:+ res_name (tg_type t) +:+ " " +:+ utoa (tg_quantity t)))).
  rewrite scan_lits, scan_unsigned, scan_res_name, scan_unsigned_end by (done || by left). done.
Qed.

Lemma scan_release job_id t :
  in_u32 job_id -> target_ok t ->
  sscanf (release_line job_id t) "RELEASE %u %9s %u" = [VU job_id; VS (res_name (tg_type t)); VU (tg_quantity t)].
Proof.
  intros Hid [Hq _]. unfold sscanf.
  change (parse_fmt FNormal "RELEASE %u %9s %u") with
    ((DLit <$> String.list_ascii_of_string "RELEASE") ++ [DSpace; DU; DSpace; DStr (Some 9%nat); DSpace; DU]).
  change (release_line job_id t) with
    (foldr String EmptyString (String.list_ascii_of_string "RELEASE") +:+
     (" " +:+ utoa job_id +:+ (" " +:+ res_name (tg_type t) +:+ " " +:+ utoa (tg_quantity t)))).
  rewrite scan_lits, scan_unsigned, scan_res_name, scan_unsigned_end by (done || by right). done.
Qed.

(** The messages with a job only. *)
Definition job_line (keyword : string) (job_id : Z) : string := keyword +:+ " " +:+ utoa job_id.

Lemma format_keyword kw f args :
  no_char "%" kw = true -> format false (kw +:+ f) args = kw +:+ format false f args.
Proof.
  induction kw as [|c kw IH]; simpl; [done|]. intros [Hc Hk]%andb_true_iff. apply negb_true_iff in Hc.
  rewrite Hc. by rewrite IH.
Qed.

Lemma job_msg_line kw job_id :
  in_u32 job_id -> no_char "%" kw = true -> (String.length kw <= 11)%nat ->
  snprintf 64 (kw +:+ " %u" +:+ str_nl) [PU job_id] = job_line kw job_id +:+ str_nl.
Proof.
  intros Hid Hkw Hl. unfold snprintf. rewrite format_keyword by done.
  assert (Hf : kw +:+ format false (" %u" +:+ str_nl) [PU job_id] = job_line kw job_id +:+ str_nl).
  { unfold job_line. simpl. rewrite !str_app_assoc. done. }
  rewrite Hf. apply str_take_all. unfold job_line. rewrite !str_length_app.
  pose proof (utoa_length job_id Hid). simpl. lia.
Qed.

Lemma no_nl_utoa z : no_char ch_nl (utoa z) = true.
Proof. by apply no_char_utoa. Qed.

Lemma job_line_lines kw job_id :
  no_char ch_nl kw = true -> kw ≠ EmptyString -> lines (job_line kw job_id +:+ str_nl) = [job_line kw job_id].
Proof.
  intros Hk Hne. unfold lines, str_nl. apply strtok_all_line.
  - unfold job_line. by destruct kw.
  - unfold job_line. rewrite !no_char_app, Hk, no_nl_utoa. done.
Qed.

Lemma reserve_line_lines job_id t : lines (reserve_line job_id t +:+ str_nl) = [reserve_line job_id t].
Proof.
  unfold lines, str_nl. apply strtok_all_line; [done|].
  unfold reserve_line. by rewrite !no_char_app, !no_nl_utoa, no_nl_res_name.
Qed.

Lemma release_line_lines job_id t : lines (release_line job_id t +:+ str_nl) = [release_line job_id t].
Proof.
  unfold lines, str_nl. apply strtok_all_line; [done|].
  unfold release_line. by rewrite !no_char_app, !no_nl_utoa, no_nl_res_name.
Qed.

Lemma scan_job kw job_id fmt :
  in_u32 job_id -> parse_fmt FNormal fmt = (DLit <$> String.list_ascii_of_string kw) ++ [DSpace; DU] ->
  sscanf (job_line kw job_id) fmt = [VU job_id].
Proof.
  intros Hid Hf. unfold sscanf. rewrite Hf. unfold job_line.
  rewrite <- (String.string_of_list_ascii_of_string kw) at 2.
  change (String.string_of_list_ascii (String.list_ascii_of_string kw))
    with (foldr String EmptyString (String.list_ascii_of_string kw)).
  rewrite scan_lits. by apply scan_unsigned_end.
Qed.

(** The GRANTED of a request that waited is printed with [%d]: identifiers from
    2^31 on appear negative, and [%u] reads them back all the same. *)
Lemma scan_signed z ds : in_u32 z -> scan (DSpace :: DU :: ds) (" " +:+ itoa (to_int z)) = VU z :: scan ds EmptyString.
Proof.
  intros Hz. unfold itoa. pose proof Hz as Hz'. unfold in_u32, UINT_RANGE in Hz'.
  destruct (Z.ltb_spec (to_int z) 0) as [Hn|Hn].
  - assert (Hbig : to_int z = z - 2 ^ 32).
    { unfold to_int, UINT_RANGE in *. destruct (Z.ltb_spec z (2 ^ 31)); lia. }
    rewrite Hbig in *. set (m := - (z - 2 ^ 32)). change (" " +:+ String "-" (utoa m)) with (String " " (String "-" (utoa m))).
    cbn [scan skip_space]. change (is_space " ") with true. cbn [skip_space].
    change (is_space "-") with false. cbn [skip_space]. unfold read_unsigned. simpl (read_sign _).
    unfold utoa. destruct (digits_of_head 19 m EmptyString) as (c & r' & Heq & Hc).
    rewrite Heq at 1. cbn [starts_digit]. rewrite Hc.
    rewrite read_digits_digits_of by (subst m; lia). simpl (read_digits m EmptyString).
    unfold u32_of_strtoul. rewrite (proj2 (Z.leb_gt _ _)) by (subst m; lia). cbv beta iota.
    do 2 f_equal. subst m. unfold wrap32, UINT_RANGE.
    replace (- - (z - 2 ^ 32)) with (z + (-1) * 2 ^ 32) by lia. rewrite Z.mod_add by lia.
    apply Z.mod_small. lia.
  - assert (Hsm : to_int z = z).
    { unfold to_int, UINT_RANGE in *. destruct (Z.ltb_spec z (2 ^ 31)); lia. }
    rewrite Hsm. by apply scan_unsigned_end.
Qed.

(** Also: every message an agent prints is read back by its peer: the text of a
    RESERVE, RELEASE, GRANTED or DENIED is one line, whose parse gives the very
    job, resource and quantity it was printed from, for all 32-bit values, also in
    the signed form the waking of queued requests prints. *)
Theorem messages_roundtrip job_id t :
  in_u32 job_id -> target_ok t ->
  (exists l, lines (reserve_msg job_id t) = [l] /\
     sscanf l "RESERVE %u %s %u" = [VU job_id; VS (res_name (tg_type t)); VU (tg_quantity t)]) /\
  (exists l, lines (release_msg job_id t) = [l] /\
     sscanf l "RELEASE %u %9s %u" = [VU job_id; VS (res_name (tg_type t)); VU (tg_quantity t)]) /\
  (exists l, lines (snprintf 64 ("GRANTED %u" +:+ str_nl) [PU job_id]) = [l] /\ sscanf l "GRANTED %u" = [VU job_id]) /\
  (exists l, lines (snprintf 64 ("DENIED %u" +:+ str_nl) [PU job_id]) = [l] /\ sscanf l "DENIED %u" = [VU job_id]) /\
  sscanf ("GRANTED " +:+ itoa (to_int job_id)) "GRANTED %u" = [VU job_id].
Proof.
  intros Hid Ht. split_and!.
  - exists (reserve_line job_id t). rewrite reserve_msg_line by done.
    split; [apply reserve_line_lines|by apply scan_reserve].
  - exists (release_line job_id t). rewrite release_msg_line by done.
    split; [apply release_line_lines|by apply scan_release].
  - exists (job_line "GRANTED" job_id).
    change ("GRANTED %u" +:+ str_nl) with ("GRANTED" +:+ " %u" +:+ str_nl).
    rewrite job_msg_line by (done || simpl; lia). split; [by apply job_line_lines|by apply scan_job].
  - exists (job_line "DENIED" job_id).
    change ("DENIED %u" +:+ str_nl) with ("DENIED" +:+ " %u" +:+ str_nl).
    rewrite job_msg_line by (done || simpl; lia). split; [by apply job_line_lines|by apply scan_job].
  - unfold sscanf.
    change (parse_fmt FNormal "GRANTED %u") with ((DLit <$> String.list_ascii_of_string "GRANTED") ++ [DSpace; DU]).
    change ("GRANTED " +:+ itoa (to_int job_id)) with
      (foldr String EmptyString (String.list_ascii_of_string "GRANTED") +:+ (" " +:+ itoa (to_int job_id))).
    rewrite scan_lits. by apply scan_signed.
Qed.

(** ** Running one handler

    From the node [n], with an empty outbox of [MAX_OUTBOX] entries: the node and
    the messages it leaves. *)
Definition exec (conns : connections) (m : adapter ()) (n : node_data_t) : option (node_data_t * list out_msg_t) :=
  '(_, st') ← m (start n (Caller (Some MAX_OUTBOX) conns));
  o ← st_outbox st';
  Some (st_node st', ob_msgs o).

Lemma runs_exec conns n (m : adapter ()) (Q : () -> node_data_t -> list out_msg_t -> Prop) :
  runs (Caller (Some MAX_OUTBOX) conns) n [] m Q ->
  exists n' ms', exec conns m n = Some (n', take MAX_OUTBOX ms') /\ Q () n' ms'.
Proof.
  intros Hr. destruct (Hr _ (start_view n _)) as ([] & st' & n' & ms' & E & [Hn Ho _] & HQ).
  exists n', ms'. split; [|done]. unfold exec. rewrite E. cbn [mbind option_bind]. rewrite Ho. simpl. by rewrite Hn.
Qed.

Lemma full_max conns : full_outbox (Caller (Some MAX_OUTBOX) conns).
Proof. unfold full_outbox. simpl. lia. Qed.

#[export] Hint Resolve full_max : core.

(** A message routed to the node of a petition, and one to a descriptor. *)
Definition to_node (t : target) (msg : string) : out_msg_t :=
  OutMsg (str_take 15 (tg_ip t)) (to_int (tg_port t)) (-1) msg.
Definition to_fd (socket : Z) (msg : string) : out_msg_t := OutMsg EmptyString 0 (to_int socket) msg.

Lemma str_take_idem n m s : str_take n (str_take m s) = str_take (n `min` m) s.
Proof.
  destruct (decide (n <= m)%nat) as [Hle|Hgt].
  - rewrite Nat.min_l by done. by apply str_take_take.
  - rewrite Nat.min_r by lia. apply str_take_all. rewrite str_take_length. lia.
Qed.

(** [snprintf] into a buffer of at most 1024 bytes gives a text the outbox stores
    unchanged. *)
Lemma copied size fmt args :
  (size <= BUFFER_SIZE)%nat -> snprintf BUFFER_SIZE "%s" [PS (snprintf size fmt args)] = snprintf size fmt args.
Proof.
  intros Hs. unfold snprintf. set (x := str_take (size - 1) _).
  change (format false "%s" [PS x]) with (x +:+ EmptyString). subst x.
  rewrite str_app_nil_r, str_take_idem. f_equal. lia.
Qed.

Lemma queue_out_fd size fmt args socket :
  (size <= BUFFER_SIZE)%nat ->
  queue_out (snprintf size fmt args) (to_int socket) None 0 = to_fd socket (snprintf size fmt args).
Proof. intros Hs. unfold queue_out. by rewrite copied. Qed.

Lemma queue_out_node size fmt args t :
  (size <= BUFFER_SIZE)%nat ->
  queue_out (snprintf size fmt args) (-1) (Some (tg_ip t)) (tg_port t) = to_node t (snprintf size fmt args).
Proof. intros Hs. unfold queue_out. by rewrite copied. Qed.

Section sending.
Context (cl : caller) (Hcl : full_outbox cl).

Lemma runs_to_socket n ms sz fmt args socket (Q : () -> node_data_t -> list out_msg_t -> Prop) :
  (sz <= BUFFER_SIZE)%nat -> Q () n (ms ++ [to_fd socket (snprintf sz fmt args)]) ->
  runs cl n ms (send_to_socket (snprintf sz fmt args) socket) Q.
Proof. intros Hs HQ. apply runs_add; [by apply full_can_send|]. by rewrite queue_out_fd. Qed.

Lemma runs_to_reserve n ms job_id t (Q : () -> node_data_t -> list out_msg_t -> Prop) :
  Q () n (ms ++ [to_node t (reserve_msg job_id t)]) ->
  runs cl n ms (send_to_target (reserve_msg job_id t) t) Q.
Proof.
  intros HQ. apply runs_add; [by apply full_can_send|]. unfold reserve_msg in *.
  rewrite queue_out_node; [done|]. unfold BUFFER_SIZE. lia.
Qed.

Lemma runs_releases n ms job_id l (Q : () -> node_data_t -> list out_msg_t -> Prop) :
  Q () n (ms ++ ((fun t => to_node t (release_msg job_id t)) <$> l)) ->
  runs cl n ms (send_releases job_id l) Q.
Proof.
  intros HQ. unfold send_releases.
  apply (runs_for_each cl n ms l _ (fun pre n' ms' =>
    n' = n /\ ms' = ms ++ ((fun t => to_node t (release_msg job_id t)) <$> pre))).
  - split; [done|]. simpl. by rewrite app_nil_r.
  - intros pre t post n' ms' _ [-> ->]. apply runs_add; [by apply full_can_send|]. split; [done|].
    rewrite fmap_app, app_assoc. unfold release_msg. rewrite queue_out_node; [done|]. unfold BUFFER_SIZE. lia.
  - by intros n' ms' [-> ->].
Qed.

(** Queries, in terms of the map of jobs. *)
Lemma runs_get_granted k n ms job_id m (Q : list target -> node_data_t -> list out_msg_t -> Prop) :
  owned_wf k (nd_owned_jobs n) ->
  Q (match jobs_map (nd_owned_jobs n) !! job_id with Some j => take m (granted j) | None => [] end) n ms ->
  runs cl n ms (on_owned (query (fun jobs => get_granted_resources jobs job_id m))) Q.
Proof.
  intros Ho HQ. eapply runs_on_owned; [unfold query; rewrite (get_granted_resources_spec _ _ _ _ Ho); done|].
  by destruct n.
Qed.

Lemma runs_get_owner k n ms job_id (Q : Z -> node_data_t -> list out_msg_t -> Prop) :
  owned_wf k (nd_owned_jobs n) ->
  Q (match jobs_map (nd_owned_jobs n) !! job_id with Some j => oj_owner_socket j | None => 0 end) n ms ->
  runs cl n ms (on_owned (query (fun jobs => get_job_owner_socket jobs job_id))) Q.
Proof.
  intros Ho HQ. eapply runs_on_owned; [unfold query; rewrite (get_job_owner_socket_spec _ _ _ Ho); done|].
  by destruct n.
Qed.

Lemma runs_remove k n ms job_id (Q : () -> node_data_t -> list out_msg_t -> Prop) :
  owned_wf k (nd_owned_jobs n) ->
  (forall jobs', owned_wf k jobs' -> jobs_map jobs' = delete job_id (jobs_map (nd_owned_jobs n)) ->
     Q () (set_owned n jobs') ms) ->
  runs cl n ms (on_owned (fun jobs => jobs' ← remove_owned_job jobs job_id; Some ((), jobs'))) Q.
Proof.
  intros Ho HQ. destruct (remove_owned_job_spec k _ job_id Ho) as (jobs' & Hr & Hw & Hm).
  eapply runs_on_owned; [by rewrite Hr|]. by apply HQ.
Qed.
End sending.

Lemma granted_take_max j : job_wf j -> take MAX_JOB_RESOURCES (granted j) = granted j.
Proof.
  intros Hj. apply take_ge. unfold granted. rewrite length_fmap. pose proof (jw_count _ Hj).
  pose proof (length_filter (fun p => jp_is_granted p = 1) (oj_petitions j)). lia.
Qed.

Lemma granted_length j : job_wf j -> (length (granted j) <= MAX_JOB_RESOURCES)%nat.
Proof. intros Hj. rewrite <- (granted_take_max j Hj), length_take. lia. Qed.

(** The node after a job is removed. *)
Definition without_job (k : Z) (job_id : Z) (n n' : node_data_t) : Prop :=
  owned_wf k (nd_owned_jobs n') /\
  jobs_map (nd_owned_jobs n') = delete job_id (jobs_map (nd_owned_jobs n)) /\
  nd_resources n' = nd_resources n /\ nd_active_jobs n' = nd_active_jobs n /\
  nd_known_nodes n' = nd_known_nodes n.

(** ** The scheduler's side of a job *)

(** What the job holds, and who asked for it. *)
Definition job_granted (n : node_data_t) (id : Z) : list target :=
  match jobs_map (nd_owned_jobs n) !! id with Some j => granted j | None => [] end.
Definition job_owner (n : node_data_t) (id : Z) : Z :=
  match jobs_map (nd_owned_jobs n) !! id with Some j => oj_owner_socket j | None => 0 end.

Lemma runs_job_granted cl k n ms id (Q : list target -> node_data_t -> list out_msg_t -> Prop) :
  owned_wf k (nd_owned_jobs n) -> Q (job_granted n id) n ms ->
  runs cl n ms (on_owned (query (fun jobs => get_granted_resources jobs id MAX_JOB_RESOURCES))) Q.
Proof.
  intros Ho HQ. apply (runs_get_granted _ k); [done|]. unfold job_granted in HQ.
  destruct (jobs_map _ !! id) as [j|] eqn:Hj; [|done]. rewrite granted_take_max; [done|by eapply ow_job].
Qed.

Lemma runs_denied cl k n job_id buffer :
  full_outbox cl -> owned_wf k (nd_owned_jobs n) -> sscanf buffer "DENIED %u" = [VU job_id] ->
  runs cl n [] (handle_denied buffer) (fun _ n' ms' => without_job k job_id n n' /\ ms' =
    ((fun t => to_node t (release_msg job_id t)) <$> job_granted n job_id) ++
    [to_fd (job_owner n job_id) (snprintf 64 ("JOB_DENIED %u" +:+ str_nl) [PU job_id])]).
Proof.
  intros Hcl Ho Hs. unfold handle_denied. rewrite Hs. apply runs_bind, runs_lock, runs_bind.
  apply (runs_job_granted _ k); [done|]. apply runs_bind. apply (runs_get_owner _ k); [done|].
  apply runs_bind. apply runs_releases; [done|]. apply runs_bind. apply runs_to_socket; [done|unfold BUFFER_SIZE; lia|].
  apply runs_bind. apply (runs_remove _ k); [done|]. intros jobs' Hw Hm. apply runs_unlock. done.
Qed.

Lemma runs_job_release cl k n job_id buffer :
  full_outbox cl -> owned_wf k (nd_owned_jobs n) -> sscanf buffer "JOB_RELEASE %u" = [VU job_id] ->
  runs cl n [] (handle_job_release buffer) (fun _ n' ms' => without_job k job_id n n' /\
    ms' = (fun t => to_node t (release_msg job_id t)) <$> job_granted n job_id).
Proof.
  intros Hcl Ho Hs. unfold handle_job_release. rewrite Hs. apply runs_bind, runs_lock, runs_bind.
  apply (runs_job_granted _ k); [done|]. apply runs_bind. apply runs_releases; [done|].
  apply runs_bind. apply (runs_remove _ k); [done|]. intros jobs' Hw Hm. apply runs_unlock. done.
Qed.

(** C19: a DENIED aborts the job: a RELEASE goes to the node of every granted
    petition, in order, then JOB_DENIED to the client that asked for the job, the
    job is forgotten, and nothing else of the node changes.  (All the messages fit
    in the outbox.) *)
Theorem denied_rolls_back k n conns job_id j buffer :
  owned_wf k (nd_owned_jobs n) -> jobs_map (nd_owned_jobs n) !! job_id = Some j ->
  sscanf buffer "DENIED %u" = [VU job_id] ->
  exists n', without_job k job_id n n' /\
    exec conns (handle_denied buffer) n = Some (n',
      ((fun t => to_node t (release_msg job_id t)) <$> granted j) ++
      [to_fd (oj_owner_socket j) (snprintf 64 ("JOB_DENIED %u" +:+ str_nl) [PU job_id])]).
Proof.
  intros Ho Hj Hs. pose proof (ow_job _ _ _ _ Ho Hj) as Hjw.
  destruct (runs_exec conns n _ _ (runs_denied _ k n job_id buffer (full_max _) Ho Hs)) as (n' & ms' & He & Hw & ->).
  exists n'. split; [done|]. rewrite He. unfold job_granted, job_owner. rewrite Hj. do 2 f_equal. apply take_ge.
  rewrite length_app, length_fmap. pose proof (granted_length j Hjw). unfold MAX_JOB_RESOURCES, MAX_OUTBOX in *.
    simpl. lia.
Qed.

(** Also: a JOB_RELEASE ends the job: a RELEASE goes to the node of every granted
    petition, in order, and to no other, and the job is forgotten. *)
Theorem job_release_frees k n conns job_id j buffer :
  owned_wf k (nd_owned_jobs n) -> jobs_map (nd_owned_jobs n) !! job_id = Some j ->
  sscanf buffer "JOB_RELEASE %u" = [VU job_id] ->
  exists n', without_job k job_id n n' /\
    exec conns (handle_job_release buffer) n = Some (n', (fun t => to_node t (release_msg job_id t)) <$> granted j).
Proof.
  intros Ho Hj Hs. pose proof (ow_job _ _ _ _ Ho Hj) as Hjw.
  destruct (runs_exec conns n _ _ (runs_job_release _ k n job_id buffer (full_max _) Ho Hs)) as (n' & ms' & He & Hw & ->).
  exists n'. split; [done|]. rewrite He. unfold job_granted. rewrite Hj. do 2 f_equal. apply take_ge.
  rewrite length_fmap. pose proof (granted_length j Hjw). unfold MAX_JOB_RESOURCES, MAX_OUTBOX in *. lia.
Qed.

(** The answer of the handler to a GRANTED, given the job after it was marked. *)
Inductive granted_reply (job_id : Z) (j j' : elem_owned_job_t) : elem_owned_job_t -> list out_msg_t -> Prop :=
  | reply_complete :                       (* the last one: tell the client *)
      length (granted j') = length (targets j) -> oj_grant_notified j = 0 ->
      granted_reply job_id j j' j'
        [to_fd (oj_owner_socket j) (snprintf 64 ("JOB_GRANTED %u" +:+ str_nl) [PU job_id])]
  | reply_next t j2 :                      (* the next RESERVE of the chain *)
      ~ (length (granted j') = length (targets j) /\ oj_grant_notified j = 0) ->
      targets j !! length (dispatched j) = Some t ->
      dispatched j2 = dispatched j ++ [t] -> granted j2 = granted j' ->
      granted_reply job_id j j' j2 [to_node t (reserve_msg job_id t)]
  | reply_nothing :                        (* nothing left to dispatch *)
      ~ (length (granted j') = length (targets j) /\ oj_grant_notified j = 0) ->
      targets j !! length (dispatched j) = None ->
      granted_reply job_id j j' j' [].

Lemma dispatched_length j : job_wf j -> length (dispatched j) = Z.to_nat (oj_next_reserve_idx j).
Proof.
  intros Hj. destruct (next_bounds j Hj) as [_ Hn]. unfold dispatched, targets.
  rewrite length_take, length_fmap. lia.
Qed.

(** The same, as the handler computes it: [z] and [j'] are the result of marking the
    answer. *)
Inductive granted_effect (job_id : Z) (j j' : elem_owned_job_t) : Z -> elem_owned_job_t -> list out_msg_t -> Prop :=
  | effect_complete :
      granted_effect job_id j j' 1 j'
        [to_fd (oj_owner_socket j) (snprintf 64 ("JOB_GRANTED %u" +:+ str_nl) [PU job_id])]
  | effect_next o j2 :
      next_body j' = Some (o, j2) ->
      granted_effect job_id j j' 0 j2 match o with Some t => [to_node t (reserve_msg job_id t)] | None => [] end
  | effect_none : granted_effect job_id j j' (-1) j' [].

Lemma runs_granted cl k n job_id j buffer ip port :
  full_outbox cl -> owned_wf k (nd_owned_jobs n) -> jobs_map (nd_owned_jobs n) !! job_id = Some j ->
  sscanf buffer "GRANTED %u" = [VU job_id] -> port ≠ 0 ->
  runs cl n [] (handle_granted (Some ip) port buffer) (fun _ n' ms' => exists z j' j2 jobs',
    mark_body ip port j = Some (z, j') /\ granted_effect job_id j j' z j2 ms' /\
    owned_wf k jobs' /\ jobs_map jobs' = <[job_id := j2]> (jobs_map (nd_owned_jobs n)) /\ n' = set_owned n jobs').
Proof.
  intros Hcl Ho Hj Hs Hport. pose proof (ow_job _ _ _ _ Ho Hj) as Hjw.
  destruct (mark_petition_spec k _ job_id ip port Ho) as (z & jobs' & Hmk & Hw & Hm).
  rewrite Hj in Hm. destruct Hm as (j' & Hm & Hb).
  destruct (mark_body_spec ip port j Hjw) as (z2 & j0 & Hb2 & _ & _ & Hown & _ & _ & _ & _ & Hcase).
  assert (j0 = j' /\ z2 = z) as [-> ->] by (split; congruence).
  assert (Hlk : jobs_map (nd_owned_jobs (set_owned n jobs')) !! job_id = Some j') by (simpl; by rewrite Hm, lookup_insert_eq).
  unfold handle_granted. rewrite Hs. rewrite (proj2 (Z.eqb_neq _ _) Hport).
  apply runs_bind, runs_lock, runs_bind. eapply runs_lift; [done|]. apply runs_bind.
  eapply runs_on_owned; [exact Hmk|]. apply runs_bind.
  assert (Hz : z = 1 \/ z = 0 \/ z = -1) by (destruct Hcase as [(_ & -> & _)|(_ & _ & -> & _)]; [|destruct (decide _)]; auto).
  destruct Hz as [->|[->| ->]].
  - simpl (1 =? 1). cbv iota. apply runs_bind. apply (runs_get_owner _ k); [done|]. rewrite Hlk, Hown.
    apply runs_to_socket; [done|unfold BUFFER_SIZE; lia|]. apply runs_unlock. exists 1, j', j', jobs'.
    split_and!; [done|constructor|done..].
  - simpl (0 =? 1). simpl (0 =? 0). cbv iota. apply runs_bind.
    destruct (get_next_reserve_spec k _ job_id Hw) as (o & jobs2 & Hnr & Hw2 & Hm2).
    simpl in Hlk. rewrite Hlk in Hm2. destruct Hm2 as (j2 & Hm2 & Hb3). rewrite Hm, insert_insert_eq in Hm2.
    eapply runs_on_owned; [exact Hnr|]. destruct o as [t|].
    + apply runs_to_reserve; [done|]. apply runs_unlock. exists 0, j', j2, jobs2.
      split_and!; [done|by apply (effect_next _ _ _ (Some t))|done..].
    + apply runs_ret, runs_unlock. exists 0, j', j2, jobs2. split_and!; [done|by apply (effect_next _ _ _ None)|done..].
  - apply runs_ret, runs_unlock. exists (-1), j', j', jobs'. split_and!; [done|constructor|done..].
Qed.

Lemma granted_effect_length job_id j j' z j2 ms : granted_effect job_id j j' z j2 ms -> (length ms <= 1)%nat.
Proof. destruct 1 as [|[]|]; simpl; lia. Qed.

(** What it means for the job, when the answer is the one it awaits. *)
Lemma granted_effect_reply job_id ip port j z j' j2 ms :
  job_wf j -> awaits ip port j -> mark_body ip port j = Some (z, j') -> granted_effect job_id j j' z j2 ms ->
  granted_reply job_id j j' j2 ms.
Proof.
  intros Hjw Haw Hb He.
  destruct (mark_body_spec ip port j Hjw) as (z2 & j0 & Hb2 & Hjw' & _ & Hown & _ & Hnx & Htg & Hdis & Hcase).
  assert (j0 = j' /\ z2 = z) as [-> ->] by (split; congruence). clear Hb2.
  destruct Hcase as [[? _]|(_ & _ & Hz & _)]; [done|]. rewrite Htg in Hz. destruct He as [|o j2 Hn|].
  - destruct (decide _) as [[Hall Hno]|]; [by constructor|done].
  - destruct (decide _) as [|Hnot]; [done|].
    destruct (next_body_spec j' Hjw') as (o2 & j3 & Hb3 & _ & _ & _ & _ & _ & _ & Hg2 & _ & Hot & Hd2 & _).
    assert (j3 = j2 /\ o2 = o) as [-> ->] by (split; congruence).
    rewrite Htg, Hnx, <- (dispatched_length j Hjw) in Hot. destruct o as [t|].
    + eapply reply_next; [done|done|by rewrite Hd2, Hdis|done].
    + assert (j2 = j') as ->; [|by apply reply_nothing].
      unfold next_body in Hn. destruct (_ <=? _); [by simplify_eq|]. by destruct (oj_petitions j' !! _).
  - by destruct (decide _).
Qed.

(** C17: the answer to a GRANTED from the node the job waits for: exactly one more
    petition becomes granted; when that completes the job, JOB_GRANTED goes to its
    client, otherwise the next petition in order gets its RESERVE; nothing else
    is sent. *)
Theorem granted_advances k n conns conns_port ip job_id j buffer :
  owned_wf k (nd_owned_jobs n) -> jobs_map (nd_owned_jobs n) !! job_id = Some j ->
  sscanf buffer "GRANTED %u" = [VU job_id] -> conns_port ≠ 0 -> awaits ip conns_port j ->
  exists n' j' j2 ms, exec conns (handle_granted (Some ip) conns_port buffer) n = Some (n', ms) /\
    length (granted j') = S (length (granted j)) /\ ~ awaits ip conns_port j' /\
    granted_reply job_id j j' j2 ms /\
    owned_wf k (nd_owned_jobs n') /\ jobs_map (nd_owned_jobs n') = <[job_id := j2]> (jobs_map (nd_owned_jobs n)).
Proof.
  intros Ho Hj Hs Hport Haw. pose proof (ow_job _ _ _ _ Ho Hj) as Hjw.
  destruct (runs_exec conns n _ _ (runs_granted _ k n job_id j buffer ip conns_port (full_max _) Ho Hj Hs Hport))
    as (n' & ms' & He & z & j' & j2 & jobs' & Hb & Hef & Hw & Hm & ->).
  rewrite take_ge in He by (pose proof (granted_effect_length _ _ _ _ _ _ Hef); unfold MAX_OUTBOX; lia).
  exists (set_owned n jobs'), j', j2, ms'. pose proof (granted_effect_reply _ _ _ _ _ _ _ _ Hjw Haw Hb Hef) as Hrep.
  destruct (mark_body_spec ip conns_port j Hjw) as (z2 & j0 & Hb2 & _ & _ & _ & _ & _ & _ & _ & Hcase).
  assert (j0 = j' /\ z2 = z) as [-> ->] by (split; congruence).
  destruct Hcase as [[? _]|(_ & (q & p & p' & _ & _ & _ & _ & Hg) & Hz & _)]; [done|].
  split_and!; [done|by rewrite Hg| |done..]. intros (pl & Hl & _ & _ & H0).
  assert (Hz1 : z ≠ -1) by (rewrite Hz; by destruct (decide _)).
  by rewrite (settled_mark ip conns_port j z j' Hjw Hb Hz1 pl Hl) in H0.
Qed.

(** ** The owner's side of a resource *)

(** The message for the result of a reservation. *)
Definition reserve_reply (socket job_id z : Z) : list out_msg_t :=
  if z =? 1 then [to_fd socket (snprintf 64 ("GRANTED %u" +:+ str_nl) [PU job_id])]
  else if z =? -1 then [to_fd socket (snprintf 64 ("DENIED %u" +:+ str_nl) [PU job_id])]
  else [].

Lemma runs_reserve cl k n socket job_id t :
  full_outbox cl -> local_wf k (nd_resources n) (nd_active_jobs n) -> 1 <= k -> in_u32 socket -> in_u32 job_id ->
  target_ok t ->
  runs cl n [] (handle_reserve socket (reserve_line job_id t)) (fun _ n' ms' => exists z r' jobs',
    new_job_outcome (nd_resources n) (nd_active_jobs n) job_id socket (tg_quantity t) (tg_type t) z r' jobs' /\
    local_wf (k - 1) r' jobs' /\ n' = set_local n r' jobs' /\ ms' = reserve_reply socket job_id z).
Proof.
  intros Hcl Hl Hk Hso Hid Ht. pose proof Ht as [Hq Hty].
  destruct (new_job_request_spec k _ _ job_id socket (tg_quantity t) (tg_type t) Hl Hk Hty Hid Hso Hq)
    as (z & r' & jobs' & Hn & Hw & Hout & _).
  unfold handle_reserve. rewrite (scan_reserve job_id t Hid Ht). cbv zeta.
  assert (Htype : (if strcmp_eq (res_name (tg_type t)) "cpu" then CPU
      else if strcmp_eq (res_name (tg_type t)) "mem" then RAM
      else if strcmp_eq (res_name (tg_type t)) "gpu" then GPU else INVALID_RES_TYPE) = tg_type t).
  { by destruct (tg_type t). }
  rewrite Htype. unfold reserve_overflow. rewrite res_name_length. apply runs_bind. eapply runs_lift; [done|].
  apply runs_bind, runs_lock, runs_bind. rewrite bool_decide_eq_false_2 by done. simpl (negb false && _). cbv iota.
  eapply runs_on_local; [exact Hn|]. apply runs_bind.
  assert (Hdone : forall ms', ms' = reserve_reply socket job_id z -> exists z0 r0 jobs0,
    new_job_outcome (nd_resources n) (nd_active_jobs n) job_id socket (tg_quantity t) (tg_type t) z0 r0 jobs0 /\
    local_wf (k - 1) r0 jobs0 /\ set_local n r' jobs' = set_local n r0 jobs0 /\ ms' = reserve_reply socket job_id z0).
  { intros ms' ->. by exists z, r', jobs'. }
  unfold reserve_reply in Hdone. destruct (Z.eqb_spec z 1); [|destruct (Z.eqb_spec z (-1))].
  - apply runs_to_socket; [done|unfold BUFFER_SIZE; lia|]. by apply runs_unlock, Hdone.
  - apply runs_to_socket; [done|unfold BUFFER_SIZE; lia|]. by apply runs_unlock, Hdone.
  - apply runs_ret. by apply runs_unlock, Hdone.
Qed.

(** C20: the RESERVE a peer sends is served as the inventory decides: granted,
    queued or denied as [new_job_request] specifies for the job, connection, type
    and quantity the peer asked for, and answered on the same connection with
    GRANTED, nothing, or DENIED. *)
Theorem reserve_served k n conns socket job_id t :
  local_wf k (nd_resources n) (nd_active_jobs n) -> 1 <= k -> in_u32 socket -> in_u32 job_id -> target_ok t ->
  exists l z r' jobs', lines (reserve_msg job_id t) = [l] /\
    new_job_outcome (nd_resources n) (nd_active_jobs n) job_id socket (tg_quantity t) (tg_type t) z r' jobs' /\
    local_wf (k - 1) r' jobs' /\
    exec conns (handle_reserve socket l) n = Some (set_local n r' jobs', reserve_reply socket job_id z).
Proof.
  intros Hl Hk Hso Hid Ht. exists (reserve_line job_id t).
  destruct (runs_exec conns n _ _ (runs_reserve _ k n socket job_id t (full_max _) Hl Hk Hso Hid Ht))
    as (n' & ms' & He & z & r' & jobs' & Hout & Hw & -> & ->).
  exists z, r', jobs'. rewrite reserve_msg_line by done. split; [apply reserve_line_lines|]. split_and!; [done|done|].
  rewrite He. do 2 f_equal. apply take_ge. unfold reserve_reply, MAX_OUTBOX.
  destruct (z =? 1); [simpl; lia|]. destruct (z =? -1); simpl; lia.
Qed.

(** The grants of the loop that wakes the waiting requests. *)
Inductive wakes : local_resources_t -> active_jobs_t -> list elem_job_request_t ->
    local_resources_t -> active_jobs_t -> Prop :=
  | wakes_nil r jobs : wakes r jobs [] r jobs
  | wakes_cons r jobs t e s es r' jobs' :
      chk_grants r jobs t e s -> wakes (chk_resources s) (chk_active s) es r' jobs' ->
      wakes r jobs (e :: es) r' jobs'.

Definition wake_msg (e : elem_job_request_t) : out_msg_t :=
  to_fd (jr_socket e) (snprintf 64 ("GRANTED %d" +:+ str_nl) [PD (to_int (jr_job_id e))]).

Lemma no_hidden_grant r jobs t e s :
  shape r -> no_hidden r -> chk_grants r jobs t e s -> no_hidden (chk_resources s).
Proof.
  intros Hs Hn Hg t' Ht'. rewrite (cg_resources _ _ _ _ _ Hg).
  rewrite pend_set_queue; [|by apply shape_set_avail|exact (cg_type _ _ _ _ _ Hg)].
  change (pend (set_avail r t _) t') with (pend r t').
  destruct (decide (t' = t)) as [->|]; [|by apply Hn]. apply queue_delete_Forall. by apply Hn.
Qed.

Lemma runs_wake cl k n ms fuel rnd msg qs :
  full_outbox cl -> local_wf k (nd_resources n) (nd_active_jobs n) -> no_hidden (nd_resources n) ->
  queued (nd_resources n) < Z.of_nat fuel ->
  runs cl n ms (wake_loop fuel rnd msg qs) (fun _ n' ms' => exists es r' jobs',
    wakes (nd_resources n) (nd_active_jobs n) es r' jobs' /\ n' = set_local n r' jobs' /\
    ms' = ms ++ (wake_msg <$> es) /\ local_wf k r' jobs' /\
    forall t, valid_res t -> stuck r' t (pend r' t)).
Proof.
  intros Hcl. revert n ms msg qs. induction fuel as [|fuel IH]; intros n ms msg qs Hl Hh Hq.
  { pose proof (queued_nonneg (nd_resources n)). lia. }
  destruct (chk_job_request_spec k _ _ (rnd fuel) msg 64 qs Hl) as (s & m & Hc & Hr & Hm).
  cbn [wake_loop]. apply runs_bind. eapply runs_on_local; [by rewrite Hc|]. cbv beta iota.
  destruct (cr_exact _ _ _ _ _ _ Hr Hh) as [[-> HF]|(Hout & t & e & Hg)].
  - simpl (_ =? _). cbv iota. apply runs_ret. exists [], (nd_resources n), (nd_active_jobs n).
    split_and!; [constructor|done|by rewrite app_nil_r|done|]. intros t Ht.
    rewrite Forall_forall in HF. by apply HF, valid_res_types.
  - rewrite (proj2 (Z.eqb_neq _ _) Hout) in Hm |- *. apply runs_bind. rewrite Hm.
    apply runs_to_socket; [done|unfold BUFFER_SIZE; lia|]. pose proof (cr_progress _ _ _ _ _ _ Hr Hout).
    set (n1 := set_local n (chk_resources s) (chk_active s)).
    eapply runs_mono; [apply (IH n1)|].
    + exact (cr_wf _ _ _ _ _ _ Hr).
    + eapply no_hidden_grant; [exact (lw_shape _ _ _ Hl)|done|done].
    + subst n1. simpl. lia.
    + intros _ n' ms' (es & r' & jobs' & Hw & -> & -> & Hl' & Hst). exists (e :: es), r', jobs'.
      split_and!; [by econstructor|done| |done|done].
      unfold wake_msg at 2. simpl. rewrite (cg_out _ _ _ _ _ Hg), (cg_socket _ _ _ _ _ Hg).
      by rewrite <- app_assoc.
Qed.

Lemma runs_release cl k n env_rnd garbage socket job_id buffer name q :
  full_outbox cl -> local_wf k (nd_resources n) (nd_active_jobs n) -> no_hidden (nd_resources n) ->
  sscanf buffer "RELEASE %u %9s %u" = [VU job_id; VS name; VU q] ->
  runs cl n [] (handle_release env_rnd garbage socket buffer) (fun _ n' ms' => exists s es r' jobs',
    del_active_job (nd_resources n) (nd_active_jobs n) job_id socket = Some s /\
    del_effect k (nd_resources n) (nd_active_jobs n) job_id socket resource_types s /\
    wakes s.1 s.2 es r' jobs' /\ n' = set_local n r' jobs' /\ ms' = wake_msg <$> es /\ local_wf k r' jobs' /\
    forall t, valid_res t -> stuck r' t (pend r' t)).
Proof.
  intros Hcl Hl Hh Hs. destruct (del_active_job_spec k _ _ job_id socket Hl) as ([r1 jobs1] & Hd & Hef).
  pose proof Hef as (Hw & Hp & Hav & _). simpl in Hw, Hp, Hav.
  assert (Hh1 : no_hidden r1) by (intros t Ht; rewrite Hp; by apply Hh).
  unfold handle_release. rewrite Hs. apply runs_bind, runs_lock, runs_bind. eapply runs_on_local; [by rewrite Hd|].
  set (n1 := set_local n r1 jobs1). apply runs_bind, runs_wake_fuel, runs_bind.
  eapply runs_mono; [apply (runs_wake _ k n1); [done|done|done|]|].
  - pose proof (queued_nonneg (nd_resources n1)). lia.
  - intros [] n' ms' (es & r' & jobs' & Hwk & -> & -> & Hl' & Hst). apply runs_unlock. by exists (r1, jobs1), es, r', jobs'.
Qed.

(** C18: a RELEASE gives the resources of the job back and then wakes the waiting
    requests: each grant is the first request of its queue that fits, its
    connection is sent GRANTED in that order, and the loop ends only when no
    waiting request fits any more. *)
Theorem release_wakes k n conns env_rnd garbage socket job_id buffer name q :
  local_wf k (nd_resources n) (nd_active_jobs n) -> no_hidden (nd_resources n) ->
  sscanf buffer "RELEASE %u %9s %u" = [VU job_id; VS name; VU q] ->
  exists r1 jobs1 es r' jobs',
    del_active_job (nd_resources n) (nd_active_jobs n) job_id socket = Some (r1, jobs1) /\
    (forall t, valid_res t ->
       av r1 t = av (nd_resources n) t + held (nd_active_jobs n) (job_id, socket, t)) /\
    wakes r1 jobs1 es r' jobs' /\ local_wf k r' jobs' /\
    (forall t, valid_res t -> stuck r' t (pend r' t)) /\
    exec conns (handle_release env_rnd garbage socket buffer) n
      = Some (set_local n r' jobs', take MAX_OUTBOX (wake_msg <$> es)).
Proof.
  intros Hl Hh Hs.
  destruct (runs_exec conns n _ _ (runs_release _ k n env_rnd garbage socket job_id buffer name q (full_max _) Hl Hh Hs))
    as (n' & ms' & He & [r1 jobs1] & es & r' & jobs' & Hd & (_ & _ & Hav & _) & Hwk & -> & -> & Hl' & Hst).
  exists r1, jobs1, es, r', jobs'. split_and!; try done.
  intros t Ht. simpl in Hav. rewrite Hav by done. rewrite decide_True; [done|]. by apply valid_res_types.
Qed.

(** ** Announcements *)

(** The numbers an ANNOUNCE carries are read back by [atoi]. *)
Lemma atoi_utoa z r : in_u32 z -> starts_digit r = false -> atoi_u (utoa z +:+ r) = z.
Proof.
  intros Hz Hr. unfold atoi_u. rewrite skip_space_utoa. unfold utoa. rewrite digits_of_app. simpl (EmptyString +:+ r).
  destruct (digits_of_head 19 z r) as (c & r' & Heq & Hc).
  assert (Hsign : read_sign (digits_of 20 z r) = (false, digits_of 20 z r)).
  { rewrite Heq. unfold read_sign.
    destruct (Ascii.eqb_spec c "-") as [->|]; [done|]. by destruct (Ascii.eqb_spec c "+") as [->|]. }
  rewrite Hsign. unfold in_u32, UINT_RANGE in Hz.
  rewrite read_digits_digits_of by lia. rewrite read_digits_stop by done.
  rewrite Z.min_r by lia. apply wrap32_small. unfold in_u32, UINT_RANGE. lia.
Qed.

Lemma atoi_utoa_end z : in_u32 z -> atoi_u (utoa z) = z.
Proof. intros Hz. rewrite <- (str_app_nil_r (utoa z)). by apply atoi_utoa. Qed.

(** A list of words without spaces, separated by one space each. *)
Lemma strtok_words d w ws :
  Forall (fun w => w ≠ EmptyString /\ no_char d w = true) (w :: ws) ->
  strtok_all d (String.concat (String d EmptyString) (w :: ws)) = w :: ws.
Proof.
  unfold strtok_all. revert w. induction ws as [|w' ws IH]; intros w HF.
  - apply Forall_cons in HF as [[Hne Hw] _]. simpl. rewrite <- (str_app_nil_r w) at 1.
    rewrite strtok_from_run by done. simpl. by destruct w.
  - apply Forall_cons in HF as [[Hne Hw] HF].
    change (String.concat (String d EmptyString) (w :: w' :: ws)) with
      (w +:+ String d EmptyString +:+ String.concat (String d EmptyString) (w' :: ws)).
    rewrite strtok_from_run by done. simpl (EmptyString +:+ w).
    cbn [String.append strtok_from]. rewrite Ascii.eqb_refl, IH by done. by destruct w.
Qed.

Definition announce_words (port cpu ram gpu : Z) : list string :=
  ["ANNOUNCE"; utoa port; "cpu:" +:+ utoa cpu; "mem:" +:+ utoa ram; "gpu:" +:+ utoa gpu].

Lemma announce_text port cpu ram gpu :
  0 < port < 2 ^ 31 -> in_u32 cpu -> in_u32 ram -> in_u32 gpu ->
  snprintf 128 "ANNOUNCE %d cpu:%u mem:%u gpu:%u" [PD port; PU cpu; PU ram; PU gpu]
    = String.concat " " (announce_words port cpu ram gpu).
Proof.
  intros Hp Hc Hr Hg. unfold snprintf.
  assert (Hf : format false "ANNOUNCE %d cpu:%u mem:%u gpu:%u" [PD port; PU cpu; PU ram; PU gpu]
               = String.concat " " (announce_words port cpu ram gpu)).
  { unfold announce_words. simpl. unfold itoa. rewrite (proj2 (Z.ltb_ge port 0)) by lia.
    repeat (rewrite ?str_app_assoc, ?str_app_nil_r; simpl). done. }
  rewrite Hf. apply str_take_all. unfold announce_words. cbn [String.concat].
  rewrite !str_length_app. cbn [String.length].
  assert (in_u32 port) as Hpu by (unfold in_u32, UINT_RANGE; lia).
  pose proof (utoa_length port Hpu). pose proof (utoa_length cpu Hc). pose proof (utoa_length ram Hr).
  pose proof (utoa_length gpu Hg). lia.
Qed.

Lemma utoa_word z : utoa z ≠ EmptyString /\ no_char " " (utoa z) = true.
Proof.
  split; [|by apply no_char_utoa]. unfold utoa. destruct (digits_of_head 19 z EmptyString) as (c & r & -> & _). done.
Qed.

Lemma announce_tokens port cpu ram gpu :
  strtok_all " " (String.concat " " (announce_words port cpu ram gpu)) = announce_words port cpu ram gpu.
Proof.
  apply (strtok_words " "). unfold announce_words.
  repeat (apply Forall_cons; split); try apply utoa_word; try (split; [done|]); try done.
  all: rewrite no_char_app; simpl; apply utoa_word.
Qed.

Lemma strncmp_eq_0 s1 s2 : strncmp_eq s1 s2 0 = true.
Proof. by destruct s1. Qed.

Lemma announce_fold cpu ram gpu :
  in_u32 cpu -> in_u32 ram -> in_u32 gpu ->
  foldl announce_token (0, 0, 0) ["cpu:" +:+ utoa cpu; "mem:" +:+ utoa ram; "gpu:" +:+ utoa gpu] = (cpu, ram, gpu).
Proof.
  intros Hc Hr Hg. cbn [foldl]. unfold announce_token. simpl. rewrite !strncmp_eq_0.
  by rewrite !atoi_utoa_end.
Qed.

(** C34: announcements carry the truth: the text one agent broadcasts, received by
    another from its address, makes the receiver record under the sender's
    address and port exactly the sender's available CPU, memory and GPU, and the
    time; the rest of the directory, and of the node, is unchanged. *)
Theorem announce_roundtrip k kB nA nB connsA connsB port ip now :
  local_wf k (nd_resources nA) (nd_active_jobs nA) -> known_wf kB (nd_known_nodes nB) -> 1 <= kB ->
  0 < port < 2 ^ 31 ->
  exists text stA stB nodes',
    handle_get_resources port (start nA (Caller (Some 1%nat) connsA)) = Some ((), stA) /\ st_node stA = nA /\
    st_outbox stA = Some (Outbox 1 [OutMsg EmptyString 0 (-1) text]) /\
    handle_node_announced now (Some ip) text (start nB (Caller None connsB)) = Some ((), stB) /\
    st_node stB = set_known nB nodes' /\ known_wf (kB - 1) nodes' /\
    nodes_map nodes' = <[(ip, port) := KnownNode ip port
        [av (nd_resources nA) CPU; av (nd_resources nA) GPU; av (nd_resources nA) RAM] now]>
      (nodes_map (nd_known_nodes nB)).
Proof.
  intros Hl Hkn Hk Hp. set (r := nd_resources nA).
  assert (Hu : forall t, valid_res t -> in_u32 (av r t)).
  { intros t Ht. pose proof (slack_bounds _ _ _ t Hl Ht). unfold in_u32. subst r. lia. }
  pose proof (Hu CPU ltac:(done)) as Hc. pose proof (Hu RAM ltac:(done)) as Hr. pose proof (Hu GPU ltac:(done)) as Hg.
  set (text := String.concat " " (announce_words port (av r CPU) (av r RAM) (av r GPU))).
  assert (Hport : in_u32 port) by (unfold in_u32, UINT_RANGE; lia).
  destruct (update_known_node_spec kB (nd_known_nodes nB) ip port (av r CPU) (av r RAM) (av r GPU) now)
    as (nodes' & Hup & Hw & Hm); try done.
  assert (HA : runs (Caller (Some 1%nat) connsA) nA [] (handle_get_resources port) (fun _ n' ms' =>
            n' = nA /\ ms' = [OutMsg EmptyString 0 (-1) text])).
  { unfold handle_get_resources. apply runs_bind, runs_lock, runs_bind. eapply runs_on_local.
    { by rewrite (get_local_resources_spec _ _ _ Hl). }
    cbv beta iota. apply runs_bind, runs_unlock. apply runs_add; [unfold can_send; simpl; lia|]. split; [by destruct nA|].
    simpl. unfold queue_out. rewrite copied by (unfold BUFFER_SIZE; lia). by rewrite announce_text. }
  assert (HB : runs (Caller None connsB) nB [] (handle_node_announced now (Some ip) text) (fun _ n' _ => n' = set_known nB nodes')).
  { eapply runs_same; [apply announced_alone|]. unfold announced_of_tokens, text. rewrite announce_tokens. unfold announce_words.
    change (strcmp_eq "ANNOUNCE" "ANNOUNCE") with true. cbv iota zeta.
    rewrite announce_fold, atoi_utoa_end by done. unfold record_announce. rewrite (proj2 (Z.ltb_lt 0 port)) by lia.
    apply runs_bind, runs_lock, runs_bind. eapply runs_lift; [done|]. apply runs_bind.
    eapply runs_on_known; [by rewrite Hup|]. by apply runs_unlock. }
  destruct (HA _ (start_view nA _)) as ([] & stA & n1 & ms1 & EA & [Hn1 Ho1 _] & -> & ->).
  destruct (HB _ (start_view nB _)) as ([] & stB & n2 & ms2 & EB & [Hn2 _ _] & ->).
  exists text, stA, stB, nodes'. split_and!; done.
Qed.

(** ** The request of a job *)

(** The text of a petition in a JOB_REQUEST. *)
Definition petition_text (t : target) : string :=
  "@" +:+ tg_ip t +:+ ":" +:+ utoa (tg_port t) +:+ ":" +:+ res_name (tg_type t) +:+ ":" +:+ utoa (tg_quantity t).

(** An address as the C code accepts it. *)
Definition petition_ok (t : target) : Prop :=
  target_ok t /\ in_u32 (tg_port t) /\ tg_ip t ≠ EmptyString /\ (String.length (tg_ip t) <= 15)%nat /\
  no_char ":" (tg_ip t) = true /\ no_char " " (tg_ip t) = true.

Lemma span_until d w s r :
  no_char d s = true -> (String.length s <= w)%nat ->
  span (fun c => negb (Ascii.eqb c d)) (Some w) (s +:+ String d r) = (s, String d r).
Proof.
  revert w. induction s as [|c s IH]; intros w Hs Hl; simpl in *.
  - destruct w; [done|]. by rewrite Ascii.eqb_refl.
  - apply andb_true_iff in Hs as [Hc Hs]. destruct w as [|w]; [lia|]. rewrite Hc. simpl.
    by rewrite IH by (done || lia).
Qed.

Lemma scan_set d w s r ds :
  s ≠ EmptyString -> no_char d s = true -> (String.length s <= w)%nat ->
  scan (DSet (Some w) d :: ds) (s +:+ String d r) = VS s :: scan ds (String d r).
Proof. intros Hne Hs Hl. cbn [scan]. rewrite span_until by done. by destruct s. Qed.

Lemma scan_colon_unsigned z r ds :
  in_u32 z -> starts_digit r = false ->
  scan (DLit ":" :: DU :: ds) (String ":" (utoa z +:+ r)) = VU z :: scan ds r.
Proof. intros Hz Hr. simpl. rewrite skip_space_utoa. by rewrite read_unsigned_utoa. Qed.

Lemma scan_petition t :
  petition_ok t ->
  sscanf (petition_text t) "@%15[^:]:%u:%9[^:]:%u"
    = [VS (tg_ip t); VU (tg_port t); VS (res_name (tg_type t)); VU (tg_quantity t)].
Proof.
  intros ([Hq _] & Hp & Hne & Hl & Hc & _). unfold sscanf.
  change (parse_fmt FNormal "@%15[^:]:%u:%9[^:]:%u") with
    [DLit "@"; DSet (Some 15%nat) ":"; DLit ":"; DU; DLit ":"; DSet (Some 9%nat) ":"; DLit ":"; DU].
  change (petition_text t) with (String "@" (tg_ip t +:+ String ":" (utoa (tg_port t) +:+
    String ":" (res_name (tg_type t) +:+ String ":" (utoa (tg_quantity t)))))).
  change (scan (DLit "@" :: ?ds) (String "@" ?s)) with (scan ds s).
  rewrite scan_set, scan_colon_unsigned by done.
  change (scan (DLit ":" :: ?ds) (String ":" ?s)) with (scan ds s).
  rewrite scan_set; [|by destruct (tg_type t)..|rewrite res_name_length; lia].
  rewrite <- (str_app_nil_r (utoa (tg_quantity t))). by rewrite scan_colon_unsigned.
Qed.

Definition job_request_text (job_id : Z) (ts : list target) : string :=
  String.concat " " ("JOB_REQUEST" :: utoa job_id :: (petition_text <$> ts)).

Lemma petition_word t : petition_ok t -> petition_text t ≠ EmptyString /\ no_char " " (petition_text t) = true.
Proof.
  intros (_ & _ & _ & _ & _ & Hs). split; [done|]. unfold petition_text.
  rewrite !no_char_app, Hs, !(no_char_utoa " ") by done. by destruct (tg_type t).
Qed.

Lemma job_request_tokens job_id ts :
  Forall petition_ok ts ->
  strtok_all " " (job_request_text job_id ts) = "JOB_REQUEST" :: utoa job_id :: (petition_text <$> ts).
Proof.
  intros Hts. apply (strtok_words " "). constructor; [done|]. constructor; [apply utoa_word|].
  apply Forall_fmap. eapply Forall_impl; [exact Hts|]. intros t Ht. by apply petition_word.
Qed.

Lemma concat_cons_nondigit w ws :
  exists r, String.concat " " (w :: ws) = w +:+ r /\ starts_digit r = false.
Proof.
  destruct ws as [|w' ws].
  - exists EmptyString. split; [|done]. simpl. by rewrite str_app_nil_r.
  - by exists (" " +:+ String.concat " " (w' :: ws)).
Qed.

Lemma scan_job_request job_id ts :
  in_u32 job_id -> sscanf (job_request_text job_id ts) "JOB_REQUEST %u" = [VU job_id].
Proof.
  intros Hid. unfold sscanf.
  change (parse_fmt FNormal "JOB_REQUEST %u") with
    ((DLit <$> String.list_ascii_of_string "JOB_REQUEST") ++ [DSpace; DU]).
  destruct (concat_cons_nondigit (utoa job_id) (petition_text <$> ts)) as (r & Hr & Hd).
  change (job_request_text job_id ts) with
    (foldr String EmptyString (String.list_ascii_of_string "JOB_REQUEST") +:+
      (" " +:+ String.concat " " (utoa job_id :: (petition_text <$> ts)))).
  rewrite scan_lits, Hr. by rewrite scan_unsigned.
Qed.

(** A job that was only filled. *)
Definition fresh_job (job_id socket now : Z) (ts : list target) (j : elem_owned_job_t) : Prop :=
  targets j = take MAX_JOB_RESOURCES ts /\ oj_owner_socket j = socket /\ oj_created_at j = now /\
  oj_next_reserve_idx j = 0 /\ oj_grant_notified j = 0.

Lemma runs_petitions cl k n0 n ms job_id socket now ts (Q : () -> node_data_t -> list out_msg_t -> Prop) :
  Forall petition_ok ts -> owned_wf k (nd_owned_jobs n) ->
  (exists j, jobs_map (nd_owned_jobs n) = <[job_id := j]> (jobs_map (nd_owned_jobs n0)) /\
     fresh_job job_id socket now [] j) ->
  n = set_owned n0 (nd_owned_jobs n) ->
  (forall jobs' j, owned_wf k jobs' -> jobs_map jobs' = <[job_id := j]> (jobs_map (nd_owned_jobs n0)) ->
     fresh_job job_id socket now ts j -> Q () (set_owned n0 jobs') ms) ->
  runs cl n ms (for_each (petition_text <$> ts) (parse_petition job_id)) Q.
Proof.
  intros Hts Ho Hj Hn HQ.
  apply (runs_for_each cl n ms _ _ (fun pre n' ms' => ms' = ms /\ exists ts1 jobs' j,
    pre = petition_text <$> ts1 /\ (exists ts2, ts = ts1 ++ ts2) /\ n' = set_owned n0 jobs' /\ owned_wf k jobs' /\
    jobs_map jobs' = <[job_id := j]> (jobs_map (nd_owned_jobs n0)) /\ fresh_job job_id socket now ts1 j)).
  - split; [done|]. destruct Hj as (j & Hm & Hf). exists [], (nd_owned_jobs n), j. split_and!; try done. by exists ts.
  - intros pre w post n' ms' Hsplit [-> (ts1 & jobs1 & j & -> & (ts2 & ->) & -> & Hw1 & Hm1 & Hf1)].
    rewrite fmap_app in Hsplit. apply app_inv_head in Hsplit. destruct ts2 as [|t ts2]; [done|].
    injection Hsplit as <- _. apply Forall_app in Hts as [_ Hts]. apply Forall_cons in Hts as [Ht _].
    unfold parse_petition. rewrite scan_petition by done.
    assert (Hty : (if strcmp_eq (res_name (tg_type t)) "cpu" then CPU
                   else if strcmp_eq (res_name (tg_type t)) "mem" then RAM else GPU) = tg_type t).
    { destruct Ht as [[_ Hv] _]. by destruct (tg_type t). }
    rewrite Hty. apply runs_bind.
    destruct (append_petition_spec k jobs1 job_id (tg_ip t) (tg_port t) (tg_type t) (tg_quantity t) Hw1)
      as (z & jobs2 & Ha & Hw2 & Hm2).
    assert (Hl : jobs_map jobs1 !! job_id = Some j) by (by rewrite Hm1, lookup_insert_eq).
    rewrite Hl in Hm2. destruct Hm2 as (j2 & Hm2 & Hb).
    destruct (append_body_spec (tg_ip t) (tg_port t) (tg_type t) (tg_quantity t) j (ow_job _ _ _ _ Hw1 Hl))
      as (z3 & j3 & Hb3 & _ & _ & Hown & Hcr & Hno & _ & Hnx & _ & Htg & _).
    assert (j3 = j2) as -> by congruence.
    eapply runs_on_owned; [exact Ha|]. apply runs_ret. split; [done|]. exists (ts1 ++ [t]), jobs2, j2.
    split_and!; [by rewrite fmap_app|by exists ts2; rewrite <- app_assoc|done|done| |].
    + by rewrite Hm2, Hm1, insert_insert_eq.
    + destruct Hf1 as (Ht1 & Hs1 & Hc1 & Hn1 & Hg1). unfold fresh_job.
      rewrite Htg, Ht1, take_take_snoc, Hown, Hcr, Hnx, Hno. split_and!; try done. by destruct t.
  - intros n' ms' [-> (ts1 & jobs' & j & Hpre & (ts2 & Hts2) & -> & Hw & Hm & Hf)].
    assert (ts1 = ts) as ->.
    { apply (f_equal length) in Hpre. rewrite !length_fmap in Hpre. rewrite Hts2, length_app in Hpre.
      destruct ts2; [by rewrite app_nil_r in Hts2|simpl in Hpre; lia]. }
    by eapply HQ.
Qed.

(** The job as it is registered, and after its first RESERVE. *)
Lemma runs_job_request cl k n now socket job_id ts :
  full_outbox cl -> owned_wf k (nd_owned_jobs n) -> 1 <= k -> in_u32 job_id -> Forall petition_ok ts ->
  runs cl n [] (handle_job_request now socket (job_request_text job_id ts)) (fun _ n' ms' => exists jobs' j0 o j,
    job_wf j0 /\ fresh_job job_id socket now ts j0 /\ next_body j0 = Some (o, j) /\
    n' = set_owned n jobs' /\ owned_wf (k - 1) jobs' /\ jobs_map jobs' = <[job_id := j]> (jobs_map (nd_owned_jobs n)) /\
    ms' = match o with Some t => [to_node t (reserve_msg job_id t)] | None => [] end).
Proof.
  intros Hcl Ho Hk Hid Hts. destruct (add_new_owned_job_spec k _ job_id socket now Ho Hk) as (jobs1 & Ha & Hw1 & Hm1).
  eapply runs_same; [apply job_request_alone|]. unfold job_request_of_tokens. rewrite scan_job_request by done.
  apply runs_bind, runs_lock, runs_bind.
  eapply runs_on_owned; [exact Ha|]. rewrite job_request_tokens by done. simpl (drop 2 _).
  apply runs_bind. eapply (runs_petitions _ (k - 1) n); [done|done| |done|].
  { eexists. split; [exact Hm1|]. done. }
  intros jobs2 j2 Hw2 Hm2 Hf2. apply runs_bind, runs_unlock, runs_bind.
  assert (Hl2 : jobs_map jobs2 !! job_id = Some j2) by (by rewrite Hm2, lookup_insert_eq).
  destruct (get_next_reserve_spec (k - 1) jobs2 job_id Hw2) as (o & jobs3 & Hnr & Hw3 & Hm3).
  rewrite Hl2 in Hm3. destruct Hm3 as (j3 & Hm3 & Hb3). pose proof (ow_job _ _ _ _ Hw2 Hl2) as Hjw2.
  rewrite Hm2, insert_insert_eq in Hm3. eapply runs_on_owned; [exact Hnr|]. destruct o as [t|].
  - apply runs_to_reserve; [done|]. by exists jobs3, j2, (Some t), j3.
  - apply runs_ret. by exists jobs3, j2, None, j3.
Qed.

(** Also: a JOB_REQUEST in the documented form registers the job under its
    identifier for the client's connection, with its first 50 petitions in the
    order written, and sends exactly one RESERVE: that of the first petition, to
    its node; the other jobs and the rest of the node are unchanged. *)
Theorem job_request_starts k n conns now socket job_id ts :
  owned_wf k (nd_owned_jobs n) -> 1 <= k -> in_u32 job_id -> Forall petition_ok ts ->
  exists jobs' j, exec conns (handle_job_request now socket (job_request_text job_id ts)) n
      = Some (set_owned n jobs', match ts with [] => [] | t :: _ => [to_node t (reserve_msg job_id t)] end) /\
    owned_wf (k - 1) jobs' /\ jobs_map jobs' = <[job_id := j]> (jobs_map (nd_owned_jobs n)) /\
    targets j = take MAX_JOB_RESOURCES ts /\ oj_owner_socket j = socket /\ oj_created_at j = now /\
    dispatched j = take 1 ts /\ granted j = [].
Proof.
  intros Ho Hk Hid Hts.
  destruct (runs_exec conns n _ _ (runs_job_request _ k n now socket job_id ts (full_max _) Ho Hk Hid Hts))
    as (n' & ms' & He & jobs' & j0 & o & j & Hjw & (Ht & Hs & Hc & Hn & Hg) & Hb & -> & Hw & Hm & ->).
  destruct (next_body_spec j0 Hjw) as (o4 & j4 & Hb4 & _ & _ & Hown & Hcr & _ & Htg & Hgr & _ & Hot & Hdis & _).
  assert (j4 = j /\ o4 = o) as [-> ->] by (split; congruence).
  assert (Hd0 : dispatched j0 = []) by (unfold dispatched; by rewrite Hn).
  assert (Hg0 : granted j0 = []) by (rewrite granted_take, Hn by done; done).
  rewrite Hn, Ht in Hot. rewrite Hd0 in Hdis. exists jobs', j. rewrite Htg, Ht, Hown, Hcr, Hgr, Hdis, Hg0.
  assert (Ho1 : option_list o = take 1 ts) by (subst o; by destruct ts).
  split_and!; try done. rewrite He. do 2 f_equal. by destruct o, ts; simplify_eq/=.
Qed.

(** ** Concrete runs *)

Module ProtocolEjemplo.

Definition peticion_cpu : target := Target "10.0.0.1" 8100 CPU 2.
Definition peticion_gpu : target := Target "10.0.0.2" 8100 GPU 1.

Lemma peticiones_ok : Forall petition_ok [peticion_cpu; peticion_gpu].
Proof. repeat (apply Forall_cons; split); try apply Forall_nil; repeat split; try done; simpl; lia. Qed.

Lemma cpu_ok : target_ok peticion_cpu.
Proof. by repeat split. Qed.

Lemma messages_roundtrip_witness :
  (exists l, lines (reserve_msg 7 peticion_cpu) = [l] /\
     sscanf l "RESERVE %u %s %u" = [VU 7; VS (res_name (tg_type peticion_cpu)); VU (tg_quantity peticion_cpu)]) /\
  (exists l, lines (release_msg 7 peticion_cpu) = [l] /\
     sscanf l "RELEASE %u %9s %u" = [VU 7; VS (res_name (tg_type peticion_cpu)); VU (tg_quantity peticion_cpu)]) /\
  (exists l, lines (snprintf 64 ("GRANTED %u" +:+ str_nl) [PU 7]) = [l] /\ sscanf l "GRANTED %u" = [VU 7]) /\
  (exists l, lines (snprintf 64 ("DENIED %u" +:+ str_nl) [PU 7]) = [l] /\ sscanf l "DENIED %u" = [VU 7]) /\
  sscanf ("GRANTED " +:+ itoa (to_int 7)) "GRANTED %u" = [VU 7].
Proof. exact (messages_roundtrip 7 peticion_cpu ltac:(done) cpu_ok). Defined.

Definition nodo : node_data_t := SafetyEjemplo.nodo.

(** A node whose job 7 has its first petition granted and the second sent. *)
Definition llamadas : list job_call :=
  [CallAppend peticion_cpu; CallAppend peticion_gpu; CallNext; CallMark "10.0.0.1" 8100; CallNext].
Definition trabajos : owned_jobs_t :=
  match add_new_owned_job create_owned_jobs 7 5 1000 with
  | Some (_, jobs0) =>
      match foldM (do_call 7) ([], jobs0) llamadas with Some (_, jobs) => jobs | None => jobs0 end
  | None => create_owned_jobs
  end.
Definition a_medias : node_data_t := set_owned nodo trabajos.
Definition trabajo : elem_owned_job_t :=
  OwnedJob 7 5 0 1000 2 [Petition "10.0.0.1" 8100 CPU 2 1; Petition "10.0.0.2" 8100 GPU 1 0].

Lemma a_medias_wf : owned_wf (2 ^ 28 - 1) (nd_owned_jobs a_medias).
Proof.
  destruct (life_run (2 ^ 28) create_owned_jobs 7 5 1000 llamadas (proj1 create_owned_wf) ltac:(lia))
    as (jobs0 & s & j & Ha & Hf & Hlf). simpl. unfold trabajos. rewrite Ha, Hf. destruct s.
  apply (lf_wf _ _ _ _ _ _ Hlf).
Qed.

Lemma a_medias_trabajo : jobs_map (nd_owned_jobs a_medias) !! 7 = Some trabajo.
Proof. vm_compute. reflexivity. Qed.

Lemma denied_rolls_back_witness :
  exists n', without_job (2 ^ 28 - 1) 7 a_medias n' /\
    exec no_connections (handle_denied "DENIED 7") a_medias = Some (n',
      ((fun t => to_node t (release_msg 7 t)) <$> granted trabajo) ++
      [to_fd (oj_owner_socket trabajo) (snprintf 64 ("JOB_DENIED %u" +:+ str_nl) [PU 7])]).
Proof. exact (denied_rolls_back (2 ^ 28 - 1) a_medias no_connections 7 trabajo "DENIED 7" a_medias_wf a_medias_trabajo
  ltac:(vm_compute; reflexivity)). Defined.

Lemma job_release_frees_witness :
  exists n', without_job (2 ^ 28 - 1) 7 a_medias n' /\
    exec no_connections (handle_job_release "JOB_RELEASE 7") a_medias
      = Some (n', (fun t => to_node t (release_msg 7 t)) <$> granted trabajo).
Proof. exact (job_release_frees (2 ^ 28 - 1) a_medias no_connections 7 trabajo "JOB_RELEASE 7" a_medias_wf a_medias_trabajo
  ltac:(vm_compute; reflexivity)). Defined.

Lemma granted_advances_witness :
  exists n' j' j2 ms, exec no_connections (handle_granted (Some "10.0.0.2") 8100 "GRANTED 7") a_medias = Some (n', ms) /\
    length (granted j') = S (length (granted trabajo)) /\ ~ awaits "10.0.0.2" 8100 j' /\
    granted_reply 7 trabajo j' j2 ms /\
    owned_wf (2 ^ 28 - 1) (nd_owned_jobs n') /\
    jobs_map (nd_owned_jobs n') = <[7 := j2]> (jobs_map (nd_owned_jobs a_medias)).
Proof. exact (granted_advances (2 ^ 28 - 1) a_medias no_connections 8100 "10.0.0.2" 7 trabajo "GRANTED 7" a_medias_wf a_medias_trabajo
  ltac:(vm_compute; reflexivity) ltac:(done)
  ltac:(exists (Petition "10.0.0.2" 8100 GPU 1 0); by vm_compute)). Defined.

Definition ocupado : node_data_t := set_local nodo LocalEjemplo.en_espera.1 LocalEjemplo.en_espera.2.

Lemma reserve_served_witness :
  exists l z r' jobs', lines (reserve_msg 9 peticion_cpu) = [l] /\
    new_job_outcome (nd_resources ocupado) (nd_active_jobs ocupado) 9 6 (tg_quantity peticion_cpu)
      (tg_type peticion_cpu) z r' jobs' /\
    local_wf (98 - 1) r' jobs' /\
    exec no_connections (handle_reserve 6 l) ocupado = Some (set_local ocupado r' jobs', reserve_reply 6 9 z).
Proof. exact (reserve_served 98 ocupado no_connections 6 9 peticion_cpu LocalEjemplo.en_espera_wf ltac:(lia) ltac:(done)
  ltac:(done) cpu_ok). Defined.

(** Job 7 releases its 3 CPUs, and job 8, which waits for 2, is woken. *)
Lemma release_wakes_witness :
  exists r1 jobs1 es r' jobs',
    del_active_job (nd_resources ocupado) (nd_active_jobs ocupado) 7 5 = Some (r1, jobs1) /\
    (forall t, valid_res t ->
       av r1 t = av (nd_resources ocupado) t + held (nd_active_jobs ocupado) (7, 5, t)) /\
    wakes r1 jobs1 es r' jobs' /\ local_wf 98 r' jobs' /\
    (forall t, valid_res t -> stuck r' t (pend r' t)) /\
    exec no_connections (handle_release (fun _ => 0) EmptyString 5 "RELEASE 7 cpu 3") ocupado
      = Some (set_local ocupado r' jobs', take MAX_OUTBOX (wake_msg <$> es)).
Proof. exact (release_wakes 98 ocupado no_connections (fun _ => 0) EmptyString 5 7 "RELEASE 7 cpu 3" "cpu" 3
  LocalEjemplo.en_espera_wf LocalEjemplo.en_espera_no_hidden ltac:(vm_compute; reflexivity)). Defined.

Example wakes_job_8 :
  snd <$> exec no_connections (handle_release (fun _ => 0) EmptyString 5 "RELEASE 7 cpu 3") ocupado
    = Some [to_fd 6 ("GRANTED 8" +:+ str_nl)].
Proof. vm_compute. reflexivity. Qed.

Lemma announce_roundtrip_witness :
  exists text stA stB nodes',
    handle_get_resources 8100 (start ocupado (Caller (Some 1%nat) no_connections)) = Some ((), stA) /\ st_node stA = ocupado /\
    st_outbox stA = Some (Outbox 1 [OutMsg EmptyString 0 (-1) text]) /\
    handle_node_announced 1000 (Some "10.0.0.1") text (start nodo (Caller None no_connections)) = Some ((), stB) /\
    st_node stB = set_known nodo nodes' /\ known_wf (2 ^ 28 - 1) nodes' /\
    nodes_map nodes' = <[("10.0.0.1", 8100) := KnownNode "10.0.0.1" 8100
        [av (nd_resources ocupado) CPU; av (nd_resources ocupado) GPU; av (nd_resources ocupado) RAM] 1000]>
      (nodes_map (nd_known_nodes nodo)).
Proof. exact (announce_roundtrip 98 (2 ^ 28) ocupado nodo no_connections no_connections 8100 "10.0.0.1" 1000 LocalEjemplo.en_espera_wf
  (proj1 create_known_wf) ltac:(lia) ltac:(lia)). Defined.

Lemma job_request_starts_witness :
  exists jobs' j, exec no_connections (handle_job_request 1000 5 (job_request_text 7 [peticion_cpu; peticion_gpu])) nodo
      = Some (set_owned nodo jobs', [to_node peticion_cpu (reserve_msg 7 peticion_cpu)]) /\
    owned_wf (2 ^ 28 - 1) jobs' /\ jobs_map jobs' = <[7 := j]> (jobs_map (nd_owned_jobs nodo)) /\
    targets j = take MAX_JOB_RESOURCES [peticion_cpu; peticion_gpu] /\ oj_owner_socket j = 5 /\
    oj_created_at j = 1000 /\ dispatched j = take 1 [peticion_cpu; peticion_gpu] /\ granted j = [].
Proof. exact (job_request_starts (2 ^ 28) nodo no_connections 1000 5 7 [peticion_cpu; peticion_gpu] (proj1 create_owned_wf)
  ltac:(lia) ltac:(done) peticiones_ok). Defined.

(** Also: a DENIED for a job the agent does not have (a late or repeated one) still
    sends JOB_DENIED, to descriptor 0, the value [get_job_owner_socket] returns
    for an unknown job. *)
Theorem denied_unknown_job :
  exec no_connections (handle_denied "DENIED 12") nodo = Some (nodo, [to_fd 0 ("JOB_DENIED 12" +:+ str_nl)]).
Proof. vm_compute. reflexivity. Qed.

End ProtocolEjemplo.
