(* ===== verification/Recovery.v ===== *)
(** * Recovery: what the agent does when a node, a client or an answer is lost

    The functional behaviour of ACTION_DISCONNECTED and ACTION_CHECK_DEADNODES of
    [src/c_agent/src/comms/resource_adapter.c]: which jobs are ended, which
    resources come back, and which messages are sent. *)

From S2P Require Import Prelude CString TablaHash CommonTypes LocalResource OwnedJobs KnownNodes NodeStructures Connections Program Adapter ResourceAdapter AdapterSafety Protocol.
Local Open Scope Z_scope.

(** ** Ending a list of jobs *)

(** The jobs [ids] are gone; the rest of the node is the same. *)
Record without_jobs (k : Z) (ids : list Z) (n n' : node_data_t) : Prop := {
  wj_wf : owned_wf k (nd_owned_jobs n');
  wj_jobs : forall id, jobs_map (nd_owned_jobs n') !! id =
    if decide (id ∈ ids) then None else jobs_map (nd_owned_jobs n) !! id;
  wj_resources : nd_resources n' = nd_resources n;
  wj_active : nd_active_jobs n' = nd_active_jobs n;
  wj_known : nd_known_nodes n' = nd_known_nodes n
}.

(** The messages [reply] for each of the jobs [ids] of the node. *)
Definition replies (reply : Z -> elem_owned_job_t -> list out_msg_t) (n : node_data_t) (ids : list Z) : list out_msg_t :=
  ids ≫= fun id => match jobs_map (nd_owned_jobs n) !! id with Some j => reply id j | None => [] end.

(** The jobs exist and none is listed twice. *)
Definition jobs_of (n : node_data_t) (ids : list Z) : Prop :=
  NoDup ids /\ forall id, id ∈ ids -> is_Some (jobs_map (nd_owned_jobs n) !! id).

(** At most [m] jobs of the node that satisfy [P], without repetition, and all
    of them when the limit is not reached. *)
Record picks (m : nat) (P : elem_owned_job_t -> Prop) (n : node_data_t) (ids : list Z) : Prop := {
  pk_length : (length ids <= m)%nat;
  pk_NoDup : NoDup ids;
  pk_sound : forall id, id ∈ ids -> exists j, jobs_map (nd_owned_jobs n) !! id = Some j /\ P j;
  pk_complete : (length ids < m)%nat -> forall id j,
    jobs_map (nd_owned_jobs n) !! id = Some j -> P j -> id ∈ ids
}.

Lemma picks_jobs m P n ids : picks m P n ids -> jobs_of n ids.
Proof. intros [_ Hnd Hs _]. split; [done|]. intros id (j & Hj & _)%Hs. eauto. Qed.

Lemma job_ids_picks k n P `{!forall j, Decision (P j)} m :
  owned_wf k (nd_owned_jobs n) -> picks m P n (job_ids (nd_owned_jobs n) P m).
Proof.
  intros Hw. split; [apply job_ids_length|by eapply job_ids_NoDup|intros id; by eapply job_ids_sound|].
  intros Hlt id j Hj HP. pose proof (job_lookup_id _ _ _ (ow_tabla _ _ Hw) Hj) as Hid.
  unfold job_ids in *. rewrite length_take in Hlt. rewrite take_ge by lia.
  apply list_elem_of_fmap. exists j. split; [done|]. apply list_elem_of_filter. split; [done|].
  apply (ow_items k); [done|]. by rewrite Hid.
Qed.

Lemma without_none k n : owned_wf k (nd_owned_jobs n) -> without_jobs k [] n n.
Proof. by split. Qed.

Lemma without_jobs_snoc k ids id n n1 n2 :
  without_jobs k ids n n1 -> without_job k id n1 n2 -> without_jobs k (ids ++ [id]) n n2.
Proof.
  intros [_ Hj Hr Ha Hk] (Hw & Hm & Hr2 & Ha2 & Hk2). split; [done| |congruence..].
  intros id'. rewrite Hm. destruct (decide (id' = id)) as [->|Hne].
  - rewrite lookup_delete_eq, decide_True by set_solver. done.
  - rewrite lookup_delete_ne, Hj by done. destruct (decide (id' ∈ ids)), (decide (id' ∈ ids ++ [id])); set_solver.
Qed.

Lemma replies_snoc reply n ids id j :
  jobs_map (nd_owned_jobs n) !! id = Some j -> replies reply n (ids ++ [id]) = replies reply n ids ++ reply id j.
Proof. intros Hj. unfold replies. rewrite bind_app. simpl. by rewrite Hj, app_nil_r. Qed.

Lemma jobs_of_later n pre id post n' k :
  jobs_of n (pre ++ id :: post) -> without_jobs k pre n n' ->
  exists j, jobs_map (nd_owned_jobs n) !! id = Some j /\ jobs_map (nd_owned_jobs n') !! id = Some j.
Proof.
  intros [Hnd Hs] [_ Hj _ _ _]. destruct (Hs id) as [j Hl]; [set_solver|]. exists j. split; [done|].
  rewrite Hj, decide_False; [done|]. apply NoDup_app in Hnd as (_ & Hnd & _). intros Hin.
  apply (Hnd id Hin). by left.
Qed.

Section recovery.
Context (cl : caller) (Hcl : full_outbox cl).

(** The body of a loop over jobs: it ends the job and sends [reply]. *)
Definition ends_job (body : Z -> adapter ()) (reply : Z -> elem_owned_job_t -> list out_msg_t) : Prop :=
  forall k n ms id j, owned_wf k (nd_owned_jobs n) -> jobs_map (nd_owned_jobs n) !! id = Some j ->
    runs cl n ms (body id) (fun _ n' ms' => without_job k id n n' /\ ms' = ms ++ reply id j).

Lemma runs_end_jobs body reply k n ms ids (Q : () -> node_data_t -> list out_msg_t -> Prop) :
  ends_job body reply -> owned_wf k (nd_owned_jobs n) -> jobs_of n ids ->
  (forall n', without_jobs k ids n n' -> Q () n' (ms ++ replies reply n ids)) ->
  runs cl n ms (for_each ids body) Q.
Proof.
  intros Hb Hw Hids HQ.
  apply (runs_for_each cl n ms ids body (fun pre n' ms' =>
    without_jobs k pre n n' /\ ms' = ms ++ replies reply n pre)).
  - split; [by apply without_none|]. by rewrite app_nil_r.
  - intros pre id post n' ms' -> [Hwj ->].
    destruct (jobs_of_later _ _ _ _ _ _ Hids Hwj) as (j & Hj & Hj').
    eapply runs_mono; [apply (Hb k); [apply (wj_wf _ _ _ _ Hwj)|exact Hj']|]. intros _ n2 ms2 [Hw2 ->].
    split; [by eapply without_jobs_snoc|]. by rewrite (replies_snoc _ _ _ _ _ Hj), app_assoc.
  - intros n' ms' [Hwj ->]. by apply HQ.
Qed.

Definition releases (id : Z) (l : list target) : list out_msg_t := (fun t => to_node t (release_msg id t)) <$> l.

(** What each loop sends for one job. *)
Definition orphan_reply (id : Z) (j : elem_owned_job_t) : list out_msg_t := releases id (granted j).
Definition abort_reply (keep : target -> bool) (id : Z) (j : elem_owned_job_t) : list out_msg_t :=
  releases id (filter keep (granted j)) ++
  [to_fd (oj_owner_socket j) (snprintf 64 ("JOB_DENIED %u" +:+ str_nl) [PU id])].
Definition timeout_reply (id : Z) (j : elem_owned_job_t) : list out_msg_t :=
  releases id (granted j) ++
  [to_fd (oj_owner_socket j) (snprintf 64 ("JOB_TIMEOUT %u" +:+ str_nl) [PU id])].

Lemma drop_orphan_ends : ends_job drop_orphan orphan_reply.
Proof.
  intros k n ms id j Ho Hj. pose proof (ow_job _ _ _ _ Ho Hj) as Hjw. unfold drop_orphan.
  apply runs_bind, (runs_get_granted _ k); [done|]. rewrite Hj, granted_take_max by done.
  apply runs_bind, runs_releases; [done|]. apply (runs_remove _ k); [done|]. intros jobs' Hw Hm. done.
Qed.

Lemma runs_releases_if (keep : target -> bool) n ms id l (Q : () -> node_data_t -> list out_msg_t -> Prop) :
  Q () n (ms ++ releases id (filter keep l)) ->
  runs cl n ms (for_each l (fun t => if keep t then send_to_target (release_msg id t) t else mret ())) Q.
Proof.
  intros HQ. apply (runs_for_each cl n ms l _ (fun pre n' ms' =>
    n' = n /\ ms' = ms ++ releases id (filter keep pre))).
  - split; [done|]. by rewrite app_nil_r.
  - intros pre t post n' ms' _ [-> ->]. rewrite filter_app, filter_cons, filter_nil.
    destruct (keep t) eqn:Hk; simpl.
    + apply runs_add; [by apply full_can_send|]. split; [done|]. unfold releases.
      rewrite fmap_app, app_assoc. unfold release_msg. rewrite queue_out_node; [done|]. unfold BUFFER_SIZE. lia.
    + apply runs_ret. by rewrite app_nil_r.
  - by intros n' ms' [-> ->].
Qed.

Lemma abort_job_ends keep : ends_job (abort_job keep) (abort_reply keep).
Proof.
  intros k n ms id j Ho Hj. pose proof (ow_job _ _ _ _ Ho Hj) as Hjw. unfold abort_job.
  apply runs_bind, (runs_get_granted _ k); [done|]. apply runs_bind, (runs_get_owner _ k); [done|].
  rewrite Hj, granted_take_max by done. apply runs_bind, runs_releases_if.
  apply runs_bind, runs_to_socket; [done|unfold BUFFER_SIZE; lia|].
  apply (runs_remove _ k); [done|]. intros jobs' Hw Hm. split; [done|]. unfold abort_reply. by rewrite app_assoc.
Qed.
End recovery.

(** ** A connection is lost *)

Section disconnection.
Context (cl : caller) (Hcl : full_outbox cl).

Lemma runs_free_socket k n ms socket (Q : () -> node_data_t -> list out_msg_t -> Prop) :
  local_wf k (nd_resources n) (nd_active_jobs n) ->
  (forall r jobs, free_all_effect k (nd_resources n) (nd_active_jobs n) socket r jobs -> Q () (set_local n r jobs) ms) ->
  runs cl n ms (free_socket socket) Q.
Proof.
  intros Hl HQ. destruct (free_all_spec k _ _ socket Hl) as (r' & jobs' & Hf & Heff).
  eapply runs_on_local; [by rewrite Hf|]. by apply HQ.
Qed.

Lemma runs_picks {A} (f : owned_jobs_t -> option A) n ms a (Q : A -> node_data_t -> list out_msg_t -> Prop) :
  f (nd_owned_jobs n) = Some a -> Q a n ms -> runs cl n ms (on_owned (query f)) Q.
Proof. intros Hf HQ. eapply runs_on_owned; [unfold query; by rewrite Hf|]. by destruct n. Qed.

(** Ending the jobs that one of the collectors reports, before [rest]. *)
Lemma runs_collect k n ms m (f : owned_jobs_t -> option (list Z)) P `{!forall j, Decision (P j)} body reply
    (rest : adapter ()) (Q : () -> node_data_t -> list out_msg_t -> Prop) :
  (forall jobs, tabla_wf jobs -> f jobs = Some (job_ids jobs P m)) -> ends_job cl body reply ->
  owned_wf k (nd_owned_jobs n) ->
  (forall ids n', picks m P n ids -> without_jobs k ids n n' -> runs cl n' (ms ++ replies reply n ids) rest Q) ->
  runs cl n ms (ids ← on_owned (query f); for_each ids body;; rest) Q.
Proof.
  intros Hf Hb Ho HQ. apply runs_bind. eapply runs_picks; [apply Hf, (ow_tabla _ _ Ho)|].
  pose proof (job_ids_picks k n P m Ho) as Hp. apply runs_bind.
  eapply (runs_end_jobs cl body reply k); [done|done|by eapply picks_jobs|]. intros n' Hw. by apply HQ.
Qed.
End disconnection.

(** The petitions of a job that are not for the dead node. *)
Definition survives (ip : string) (port : Z) (t : target) : bool :=
  negb (strcmp_eq (tg_ip t) ip && (tg_port t =? port)).

(** The peer of the connection, when it is a node of the cluster. *)
Definition peer (SENDER_IP : option string) (port : Z) : option (string * Z) :=
  match SENDER_IP with Some ip => if 0 <? port then Some (ip, port) else None | None => None end.

(** The jobs ended because their node died, and what is sent for them. *)
Definition dead_peer (k : Z) (p : option (string * Z)) (n n' : node_data_t) (ids : list Z) (ms : list out_msg_t) : Prop :=
  match p with
  | Some (ip, port) => picks 20 (uses_node ip port) n ids /\ without_jobs k ids n n' /\
                       ms = replies (abort_reply (survives ip port)) n ids
  | None => ids = [] /\ n' = n /\ ms = []
  end.

Lemma runs_dead_peer cl k n ms SENDER_IP port :
  full_outbox cl -> owned_wf k (nd_owned_jobs n) ->
  runs cl n ms
    (match SENDER_IP with
     | Some ip =>
         if 0 <? port then
           pthread_mutex_lock Owned;;
           affected ← on_owned (query (fun jobs => get_jobs_affected_by_dead_node jobs ip port 20));
           for_each affected (abort_job (survives ip port));;
           pthread_mutex_unlock Owned
         else mret ()
     | None => mret ()
     end)
    (fun _ n' ms' => exists ids ms2, dead_peer k (peer SENDER_IP port) n n' ids ms2 /\ ms' = ms ++ ms2).
Proof.
  intros Hcl Ho.
  assert (Hskip : runs cl n ms (mret ()) (fun _ n' ms' =>
    exists ids ms2, dead_peer k None n n' ids ms2 /\ ms' = ms ++ ms2)).
  { apply runs_ret. exists [], []. by rewrite app_nil_r. }
  unfold peer. destruct SENDER_IP as [ip|]; [|exact Hskip]. destruct (0 <? port); [|exact Hskip].
  apply runs_bind, runs_lock.
  apply (runs_collect cl k _ _ 20 _ (uses_node ip port) _ (abort_reply (survives ip port)));
    [intros; by apply affected_spec|by apply abort_job_ends|done|].
  intros ids n' Hp Hw. apply runs_unlock. by exists ids, (replies (abort_reply (survives ip port)) n ids).
Qed.

(** C23: a lost connection is cleaned up in three steps: the inventory takes back
    what the connection held and drops what it had waiting; the jobs of the client
    on it (at most 50) are ended with a RELEASE for each granted petition; and,
    when it was the connection to a node, the jobs that use the node (at most 20)
    are ended with a RELEASE to each of the other nodes that granted something and
    JOB_DENIED to their clients.  No other job changes and nothing else is sent;
    of the messages the outbox keeps the first 128. *)
Theorem disconnected_recovers k n conns SENDER_IP socket port :
  node_wf k n -> get_connection_port conns (to_int socket) = Some port ->
  exists r jobs n1 n2 orphans affected ms,
    free_all_effect k (nd_resources n) (nd_active_jobs n) socket r jobs /\
    picks 50 (fun j => oj_owner_socket j = socket) n orphans /\
    without_jobs k orphans (set_local n r jobs) n1 /\
    dead_peer k (peer SENDER_IP port) n1 n2 affected ms /\
    exec conns (handle_disconnected SENDER_IP socket) n
      = Some (n2, take MAX_OUTBOX (replies orphan_reply n orphans ++ ms)).
Proof.
  intros [Hl _ Ho] Hport. set (cl := Caller (Some MAX_OUTBOX) conns). pose proof (full_max conns : full_outbox cl) as Hcl.
  destruct (runs_exec conns n (handle_disconnected SENDER_IP socket) (fun _ n2 ms2 =>
    exists r jobs n1 orphans affected ms,
    free_all_effect k (nd_resources n) (nd_active_jobs n) socket r jobs /\
    picks 50 (fun j => oj_owner_socket j = socket) n orphans /\
    without_jobs k orphans (set_local n r jobs) n1 /\
    dead_peer k (peer SENDER_IP port) n1 n2 affected ms /\ ms2 = replies orphan_reply n orphans ++ ms))
    as (n2 & ms2 & He & r & jobs & n1 & orphans & affected & ms & Hf & Hp & Hw & Hd & ->).
  - unfold handle_disconnected. apply runs_bind, runs_lock, runs_bind, (runs_free_socket _ k); [done|].
    intros r jobs Hf. apply runs_bind, runs_unlock, runs_bind, runs_lock.
    apply (runs_collect cl k _ _ 50 _ (fun j => oj_owner_socket j = socket) _ orphan_reply);
      [intros; by apply orphans_spec|by apply drop_orphan_ends|done|].
    intros orphans n1 Hp Hw. apply runs_bind, runs_unlock, runs_bind. eapply runs_connection_port; [exact Hport|].
    eapply runs_mono; [apply (runs_dead_peer cl k); [done|apply (wj_wf _ _ _ _ Hw)]|].
    intros _ n2 ms2 (affected & ms & Hd & ->). exists r, jobs, n1, orphans, affected, ms.
    split_and!; [exact Hf|by destruct Hp|exact Hw|exact Hd|done].
  - exists r, jobs, n1, n2, orphans, affected, ms. by rewrite He.
Qed.

(** ** Nodes and answers that never come *)

(** The sweep of the dead nodes, one after the other. *)
Inductive buried (k : Z) (conns : connections) :
    list (string * Z) -> node_data_t -> node_data_t -> list out_msg_t -> Prop :=
  | buried_nil n : buried k conns [] n n []
  | buried_cons ip port dead n n1 n2 n3 fd affected ms :
      find_fd_by_ip_port conns ip port = Some fd ->
      (if decide (fd = -1) then n1 = n
       else exists r jobs, free_all_effect k (nd_resources n) (nd_active_jobs n) (wrap32 fd) r jobs /\
              n1 = set_local n r jobs) ->
      picks 20 (uses_node ip port) n1 affected -> without_jobs k affected n1 n2 ->
      buried k conns dead n2 n3 ms ->
      buried k conns ((ip, port) :: dead) n n3 (replies (abort_reply (fun _ => true)) n1 affected ++ ms).

Lemma buried_snoc k conns dead ip port n n1 n2 n3 fd affected ms :
  buried k conns dead n n1 ms ->
  find_fd_by_ip_port conns ip port = Some fd ->
  (if decide (fd = -1) then n2 = n1
   else exists r jobs, free_all_effect k (nd_resources n1) (nd_active_jobs n1) (wrap32 fd) r jobs /\
          n2 = set_local n1 r jobs) ->
  picks 20 (uses_node ip port) n2 affected -> without_jobs k affected n2 n3 ->
  buried k conns (dead ++ [(ip, port)]) n n3 (ms ++ replies (abort_reply (fun _ => true)) n2 affected).
Proof.
  intros Hb Hf Hn Hp Hw. induction Hb as [n|ip' port' dead n n1' n2' n3' fd' aff' ms Hf' Hn' Hp' Hw' Hb IH].
  - rewrite app_nil_l, <- (app_nil_r (replies _ _ _)).
    eapply buried_cons; [exact Hf|exact Hn|exact Hp|exact Hw|constructor].
  - rewrite <- app_assoc. eapply buried_cons; [exact Hf'|exact Hn'|exact Hp'|exact Hw'|by apply IH].
Qed.

Section deadnodes.
Context (cl : caller) (Hcl : full_outbox cl).

Lemma runs_bury k n ms ip port (Q : () -> node_data_t -> list out_msg_t -> Prop) :
  node_wf k n -> conns_ok (cl_conns cl) ->
  (forall fd n1 n2 affected,
     find_fd_by_ip_port (cl_conns cl) ip port = Some fd ->
     (if decide (fd = -1) then n1 = n
      else exists r jobs, free_all_effect k (nd_resources n) (nd_active_jobs n) (wrap32 fd) r jobs /\
             n1 = set_local n r jobs) ->
     picks 20 (uses_node ip port) n1 affected -> without_jobs k affected n1 n2 -> node_wf k n2 ->
     Q () n2 (ms ++ replies (abort_reply (fun _ => true)) n1 affected)) ->
  runs cl n ms (bury_node (ip, port)) Q.
Proof.
  intros Hwf Hc HQ. destruct (find_fd_total (cl_conns cl) ip port Hc) as (fd & Hfd & _). unfold bury_node.
  apply runs_bind. eapply runs_find_fd; [exact Hfd|].
  apply runs_bind, (runs_mono _ _ _ _ (fun _ n1 ms1 => ms1 = ms /\ node_wf k n1 /\
    (if decide (fd = -1) then n1 = n
     else exists r jobs, free_all_effect k (nd_resources n) (nd_active_jobs n) (wrap32 fd) r jobs /\
            n1 = set_local n r jobs))).
  - destruct (Z.eqb_spec fd (-1)) as [->|Hne]; cbn [negb]; [by apply runs_ret|].
    apply runs_bind, runs_lock, runs_bind, (runs_free_socket _ k); [apply Hwf|]. intros r jobs Hf.
    apply runs_bind, runs_close, runs_unlock. split_and!; [done| |rewrite decide_False by done; eauto]. destruct Hwf. split; [apply Hf|done..].
  - intros [] n1 ms1 (-> & Hwf1 & Hz). apply runs_bind, runs_lock.
    apply (runs_collect cl k _ _ 20 _ (uses_node ip port) _ (abort_reply (fun _ => true)));
      [intros; by apply affected_spec|by apply abort_job_ends|apply Hwf1|].
    intros affected n2 Hp Hw. apply runs_unlock. eapply HQ; [done..|].
    destruct Hwf1, Hw as [? _ Hr Ha Hk]. split; [by rewrite Hr, Ha|by rewrite Hk|done].
Qed.

Lemma runs_bury_all k n ms dead (Q : () -> node_data_t -> list out_msg_t -> Prop) :
  node_wf k n -> conns_ok (cl_conns cl) ->
  (forall n' ms', buried k (cl_conns cl) dead n n' ms' -> node_wf k n' -> Q () n' (ms ++ ms')) ->
  runs cl n ms (for_each dead bury_node) Q.
Proof.
  intros Hwf Hc HQ. apply (runs_for_each cl n ms dead _ (fun pre n' ms' =>
    exists ms2, ms' = ms ++ ms2 /\ buried k (cl_conns cl) pre n n' ms2 /\ node_wf k n')).
  - exists []. rewrite app_nil_r. split_and!; [done|constructor|done].
  - intros pre [ip port] post n1 ms1 _ (ms2 & -> & Hb & Hwf1). apply (runs_bury k); [done|done|].
    intros fd n2 n3 affected Hfd Hz Hp Hw Hwf3. eexists. rewrite <- app_assoc.
    split; [done|]. split; [by eapply buried_snoc|done].
  - intros n' ms' (ms2 & -> & Hb & Hwf'). by apply HQ.
Qed.
End deadnodes.

(** How the loop over the timed-out jobs ends, with [before] messages already
    sent: every message for the [served] jobs fits in the outbox, and the loop
    stopped before [rest] because those of its first job would not. *)
Record timeouts_end (n : node_data_t) (before : nat) (served rest : list Z) : Prop := {
  te_fit : served ≠ [] -> (before + length (replies timeout_reply n served) <= MAX_OUTBOX)%nat;
  te_stop : forall id rest', rest = id :: rest' -> exists j, jobs_map (nd_owned_jobs n) !! id = Some j /\
    (MAX_OUTBOX < before + length (replies timeout_reply n (served ++ [id])))%nat
}.

Lemma timeout_reply_length id j : length (timeout_reply id j) = S (length (granted j)).
Proof. unfold timeout_reply, releases. rewrite length_app, length_fmap. simpl. lia. Qed.

Section timeouts.
Context (cl : caller) (Hcl : full_outbox cl).

Lemma runs_timeout_loop k n0 before ms0 ids (Q : () -> node_data_t -> list out_msg_t -> Prop) :
  jobs_of n0 ids -> length ms0 = before ->
  (forall served rest n', ids = served ++ rest -> without_jobs k served n0 n' ->
     timeouts_end n0 before served rest -> Q () n' (ms0 ++ replies timeout_reply n0 served)) ->
  forall post pre n, ids = pre ++ post -> without_jobs k pre n0 n ->
    (pre ≠ [] -> (before + length (replies timeout_reply n0 pre) <= MAX_OUTBOX)%nat) ->
    runs cl n (ms0 ++ replies timeout_reply n0 pre) (timeout_loop post) Q.
Proof.
  intros Hids Hbefore HQ. induction post as [|id post IH]; intros pre n Hsplit Hw Hfit; cbn [timeout_loop].
  { apply runs_ret. eapply HQ; [exact Hsplit|exact Hw|]. by split. }
  rewrite Hsplit in Hids. destruct (jobs_of_later _ _ _ _ _ _ Hids Hw) as (j & Hj & Hj').
  pose proof (wj_wf _ _ _ _ Hw) as Ho. pose proof (ow_job _ _ _ _ Ho Hj') as Hjw.
  apply runs_bind, (runs_get_granted _ k); [exact Ho|]. apply runs_bind, (runs_get_owner _ k); [exact Ho|].
  rewrite Hj', granted_take_max by exact Hjw. apply runs_bind.
  assert (Hs : exists s, cl_size cl = Some s) by (unfold full_outbox in Hcl; destruct (cl_size cl); by eauto).
  destruct Hs as [s Hs]. eapply runs_get_count; [exact Hs|]. rewrite length_app, Hbefore.
  pose proof (replies_snoc timeout_reply n0 pre id j Hj) as Hsn.
  assert (Hlen : length (replies timeout_reply n0 (pre ++ [id]))
                 = (length (replies timeout_reply n0 pre) + S (length (granted j)))%nat).
  { by rewrite Hsn, length_app, timeout_reply_length. }
  destruct (Z.ltb_spec (Z.of_nat MAX_OUTBOX)
    (Z.of_nat (MAX_OUTBOX `min` (before + length (replies timeout_reply n0 pre))) + Z.of_nat (length (granted j)) + 1))
    as [Hgt|Hle].
  { apply runs_ret. eapply HQ; [exact Hsplit|exact Hw|]. split; [done|]. intros id' rest' [= <- <-].
    exists j. split; [done|]. lia. }
  apply runs_bind, runs_releases; [done|]. apply runs_bind, runs_to_socket; [done|unfold BUFFER_SIZE; lia|].
  apply runs_bind, (runs_remove _ k); [exact Ho|]. intros jobs' Hw' Hm'.
  rewrite <- !app_assoc. fold (releases id (granted j)). fold (timeout_reply id j). rewrite <- Hsn.
  apply IH; [by rewrite <- app_assoc|eapply without_jobs_snoc; [exact Hw|done]|intros _; lia].
Qed.

Lemma runs_timeouts k n ms ids (Q : () -> node_data_t -> list out_msg_t -> Prop) :
  owned_wf k (nd_owned_jobs n) -> jobs_of n ids ->
  (forall served rest n', ids = served ++ rest -> without_jobs k served n n' ->
     timeouts_end n (length ms) served rest -> Q () n' (ms ++ replies timeout_reply n served)) ->
  runs cl n ms (timeout_loop ids) Q.
Proof.
  intros Ho Hids HQ. rewrite <- (app_nil_r ms) at 1.
  by apply (runs_timeout_loop k n (length ms) ms ids Q Hids eq_refl HQ ids [] n eq_refl (without_none _ _ Ho)).
Qed.
End timeouts.

(** What the periodic check does: the dead nodes and the directory without them,
    the sweep, and the jobs that timed out. *)
Definition check_done (k : Z) (conns : connections) (now1 now2 : Z) (n n2 : node_data_t) (ms2 : list out_msg_t) : Prop :=
  exists dead nodes' n1 ms served rest,
    remove_inactive_nodes (nd_known_nodes n) 10 now1 = Some (dead, nodes') /\
    buried k conns dead (set_known n nodes') n1 ms /\
    picks 20 (timed_out now2) n1 (served ++ rest) /\
    timeouts_end n1 (length ms) served rest /\ without_jobs k served n1 n2 /\
    ms2 = ms ++ replies timeout_reply n1 served.

Lemma runs_check_deadnodes k n conns now1 now2 :
  node_wf k n -> conns_ok conns ->
  runs (Caller (Some MAX_OUTBOX) conns) n [] (handle_check_deadnodes now1 now2)
    (fun _ n2 ms2 => check_done k conns now1 now2 n n2 ms2).
Proof.
  intros Hwf Hc. set (cl := Caller (Some MAX_OUTBOX) conns). pose proof (full_max conns : full_outbox cl) as Hcl.
  destruct (remove_inactive_spec k _ 10 now1 (nw_known _ _ Hwf)) as (dead & nodes' & Hr & Hkw & _ & _).
  unfold handle_check_deadnodes. apply runs_bind, runs_lock, runs_bind. eapply runs_on_known; [exact Hr|].
  apply runs_bind, runs_unlock, runs_bind, (runs_bury_all cl Hcl k); [|done|].
  { destruct Hwf. by split. }
  intros n1 ms Hb Hwf1. apply runs_bind, runs_lock, runs_bind. pose proof (nw_owned _ _ Hwf1) as Ho1.
  eapply runs_picks; [apply timed_out_spec, (ow_tabla _ _ Ho1)|].
  pose proof (job_ids_picks k n1 (timed_out now2) 20 Ho1) as Hp. set (late := job_ids _ _ _) in *.
  apply runs_bind, (runs_timeouts cl Hcl k); [done|by eapply picks_jobs|].
  intros served rest n2 Hl Hw Ht. apply runs_unlock. exists dead, nodes', n1, ms, served, rest. by rewrite <- Hl.
Qed.

(** C24: the periodic check: the directory forgets the silent nodes (at most 10);
    for each one, what its connection held comes back and the jobs that use the
    node (at most 20) are ended with a RELEASE for each granted petition and
    JOB_DENIED; then the timed-out jobs (at most 20) are ended with RELEASEs and
    JOB_TIMEOUT, as long as all the messages for the job fit in the outbox, so
    that none of these is lost; the others are kept for the next check. *)
Theorem deadnodes_recovered k n conns now1 now2 :
  node_wf k n -> conns_ok conns ->
  exists dead nodes' n1 n2 ms served rest,
    remove_inactive_nodes (nd_known_nodes n) 10 now1 = Some (dead, nodes') /\
    buried k conns dead (set_known n nodes') n1 ms /\
    picks 20 (timed_out now2) n1 (served ++ rest) /\
    timeouts_end n1 (length ms) served rest /\ without_jobs k served n1 n2 /\
    exec conns (handle_check_deadnodes now1 now2) n
      = Some (n2, take MAX_OUTBOX (ms ++ replies timeout_reply n1 served)).
Proof.
  intros Hwf Hc. destruct (runs_exec conns n _ _ (runs_check_deadnodes k n conns now1 now2 Hwf Hc))
    as (n2 & ms2 & He & dead & nodes' & n1 & ms & served & rest & Hr & Hb & Hp & Ht & Hw & ->).
  exists dead, nodes', n1, n2, ms, served, rest. by rewrite He.
Qed.

(** ** Concrete runs *)

Module RecoveryEjemplo.

Definition nodo : node_data_t := ProtocolEjemplo.a_medias.
Definition conexiones : connections := ConnEjemplo.tabla.

Lemma en_curso_wf : node_wf (2 ^ 28 - 1) nodo.
Proof.
  pose proof (init_node_wf 4 8 1 ltac:(done) ltac:(done) ltac:(done)) as [Hl Hk _].
  split; [|eapply known_wf_weaken; [exact Hk|unfold NODE_ROOM; lia]|exact ProtocolEjemplo.a_medias_wf].
  eapply local_wf_weaken; [exact Hl|unfold NODE_ROOM; lia].
Qed.

(** Node 10.0.0.1, which granted the first petition of job 7, disconnects. *)
Lemma disconnected_recovers_witness :
  exists r jobs n1 n2 orphans affected ms,
    free_all_effect (2 ^ 28 - 1) (nd_resources nodo) (nd_active_jobs nodo) 7 r jobs /\
    picks 50 (fun j => oj_owner_socket j = 7) nodo orphans /\
    without_jobs (2 ^ 28 - 1) orphans (set_local nodo r jobs) n1 /\
    dead_peer (2 ^ 28 - 1) (peer (Some "10.0.0.1") 8100) n1 n2 affected ms /\
    exec conexiones (handle_disconnected (Some "10.0.0.1") 7) nodo
      = Some (n2, take MAX_OUTBOX (replies orphan_reply nodo orphans ++ ms)).
Proof. exact (disconnected_recovers (2 ^ 28 - 1) nodo conexiones (Some "10.0.0.1") 7 8100 en_curso_wf
  ltac:(vm_compute; reflexivity)). Defined.

Example disconnected_run :
  snd <$> exec conexiones (handle_disconnected (Some "10.0.0.1") 7) nodo
    = Some [to_fd 5 ("JOB_DENIED 7" +:+ str_nl)].
Proof. vm_compute. reflexivity. Qed.

(** Its client disconnects. *)
Example orphan_run :
  snd <$> exec conexiones (handle_disconnected None 5) nodo
    = Some [OutMsg "10.0.0.1" 8100 (-1) ("RELEASE 7 cpu 2" +:+ str_nl)].
Proof. vm_compute. reflexivity. Qed.

(** Nobody answers for more than 20 seconds. *)
Lemma deadnodes_recovered_witness :
  exists dead nodes' n1 n2 ms served rest,
    remove_inactive_nodes (nd_known_nodes nodo) 10 1021 = Some (dead, nodes') /\
    buried (2 ^ 28 - 1) conexiones dead (set_known nodo nodes') n1 ms /\
    picks 20 (timed_out 1021) n1 (served ++ rest) /\
    timeouts_end n1 (length ms) served rest /\ without_jobs (2 ^ 28 - 1) served n1 n2 /\
    exec conexiones (handle_check_deadnodes 1021 1021) nodo
      = Some (n2, take MAX_OUTBOX (ms ++ replies timeout_reply n1 served)).
Proof. exact (deadnodes_recovered (2 ^ 28 - 1) nodo conexiones 1021 1021 en_curso_wf ConnEjemplo.tabla_ok). Defined.

Example timeout_run :
  snd <$> exec conexiones (handle_check_deadnodes 1021 1021) nodo
    = Some [OutMsg "10.0.0.1" 8100 (-1) ("RELEASE 7 cpu 2" +:+ str_nl); to_fd 5 ("JOB_TIMEOUT 7" +:+ str_nl)].
Proof. vm_compute. reflexivity. Qed.

End RecoveryEjemplo.
