(* ===== verification/Outbox.v ===== *)
(** * Outbox: what the adapter does to the array of its caller

    The handlers touch the outbox with three operations only, whatever the rest of
    the state answers; a fact about these three holds of every handler. *)

From S2P Require Import Prelude CString TablaHash CommonTypes LocalResource OwnedJobs KnownNodes NodeStructures Connections Program Adapter ResourceAdapter AdapterSafety.
Local Open Scope Z_scope.

(** Every operation of [m] on the outbox satisfies [R], on every path. *)
Definition outbox_fact : Type := forall X : Set, (option outbox_t -> option (X * option outbox_t)) -> Prop.

Fixpoint outbox_ops (R : outbox_fact) {A} (m : adapter A) : Prop :=
  match m with
  | Do o k => match o with OnOutbox f => R _ f | Common _ => True end /\ forall x, outbox_ops R (k x)
  | _ => True
  end.

Section outbox.
Context (R : outbox_fact).
Context (Radd : forall msg fd ip port, outbox_ops R (add_to_outbox msg fd ip port))
        (Rreset : outbox_ops R reset_count) (Rcount : outbox_ops R get_count).

Lemma outbox_ret {A} (a : A) : outbox_ops R (mret a).
Proof. done. Qed.

Lemma outbox_common {X : Set} (o : op X) : outbox_ops R (common o).
Proof. done. Qed.

Lemma outbox_lift {A} (o : option A) : outbox_ops R (lift o).
Proof. by destruct o. Qed.

Lemma outbox_bind {A B} (m : adapter A) (k : A -> adapter B) :
  outbox_ops R m -> (forall a, outbox_ops R (k a)) -> outbox_ops R (m ≫= k).
Proof.
  intros Hm Hk. induction m as [a| | |X o g IH]; simpl; [apply Hk|done|done|].
  destruct Hm as [Ho Hg]. split; [done|]. intros x. by apply IH.
Qed.

Lemma outbox_for_each {A} (l : list A) body : (forall a, outbox_ops R (body a)) -> outbox_ops R (for_each l body).
Proof. intros Hb. induction l as [|a l IH]; [done|]. by apply outbox_bind. Qed.

Lemma outbox_each_token {B} fuel (body : B -> string -> adapter B) acc :
  (forall acc t, outbox_ops R (body acc t)) -> outbox_ops R (each_token fuel body acc).
Proof.
  intros Hb. revert acc. induction fuel as [|fuel IH]; intros acc; [done|].
  apply outbox_bind; [done|]. intros [t|]; [|done]. by apply outbox_bind.
Qed.

Ltac solve_outbox :=
  cbv beta zeta;
  lazymatch goal with
  | |- outbox_ops _ (mbind _ _) => apply outbox_bind; [solve_outbox|intros ?; solve_outbox]
  | |- outbox_ops _ (for_each _ _) => apply outbox_for_each; intros ?; solve_outbox
  | |- outbox_ops _ (each_token _ _ _) => apply outbox_each_token; intros ? ?; solve_outbox
  | |- outbox_ops _ (match ?x with _ => _ end) => destruct x; solve_outbox
  | |- _ => first [done | apply outbox_lift | apply Rcount | apply Rreset | apply Radd | by auto]
  end.

Lemma outbox_wake fuel rnd msg socket : outbox_ops R (wake_loop fuel rnd msg socket).
Proof. revert msg socket. induction fuel as [|fuel IH]; intros msg socket; [done|]. cbn [wake_loop]. solve_outbox. Qed.

Lemma outbox_timeout ids : outbox_ops R (timeout_loop ids).
Proof. induction ids as [|id ids IH]; [done|]; cbn [timeout_loop]; unfold send_releases; solve_outbox. Qed.

#[local] Hint Resolve outbox_wake outbox_timeout : core.

Lemma outbox_patch env c ip socket buffer action : outbox_ops R (resource_adapter_patch env c ip socket buffer action).
Proof.
  unfold resource_adapter_patch, respond, handle_get_nodes_response, handle_job_request, handle_reserve,
    handle_granted, handle_denied, handle_release, handle_job_release, handle_check_deadnodes,
    handle_node_announced, record_announce, handle_get_resources, handle_disconnected, bury_node, abort_job,
    drop_orphan, parse_petition, send_releases, find_fd, connection_port, read_table.
  solve_outbox.
Qed.
End outbox.

(** ** Addresses

    Whatever the adapter puts in the outbox has an address that fits the array of
    16 characters. *)
Definition short_ip (m : out_msg_t) : Prop := (String.length (target_ip m) <= 15)%nat.

Definition short_ips (o : option outbox_t) : Prop :=
  match o with Some o => Forall short_ip (ob_msgs o) | None => True end.

Definition keeps_short : outbox_fact := fun X f => forall ob x ob', f ob = Some (x, ob') -> short_ips ob -> short_ips ob'.

Lemma short_queue_out msg fd ip port : short_ip (queue_out msg fd ip port).
Proof. unfold short_ip, queue_out. cbn [target_ip]. destruct ip as [ip|]; [rewrite str_take_length|simpl]; lia. Qed.

Lemma short_add msg fd ip port : outbox_ops keeps_short (add_to_outbox msg fd ip port).
Proof.
  split; [|done]. intros [o|] x ob' H Hs; [|done]. cbn [mbind option_bind] in H. cbv zeta in H.
  destruct (MAX_OUTBOX <=? length (ob_msgs o))%nat; [by injection H as _ <-|].
  destruct (length (ob_msgs o) <? ob_size o)%nat; [|done]. injection H as _ <-. cbn [short_ips ob_msgs].
  apply Forall_app. split; [exact Hs|]. apply Forall_singleton. apply (short_queue_out msg fd ip port).
Qed.

Lemma short_reset : outbox_ops keeps_short reset_count.
Proof. split; [|done]. intros ob x ob' [= _ <-] Hs. destruct ob; simpl; [constructor|done]. Qed.

Lemma short_count : outbox_ops keeps_short get_count.
Proof. split; [|done]. intros [o|] x ob' H Hs; [|done]. by injection H as _ <-. Qed.

Lemma run_short {A} (m : adapter A) st a st' :
  outbox_ops keeps_short m -> m st = Some (a, st') -> short_ips (st_outbox st) -> short_ips (st_outbox st').
Proof.
  revert st. induction m as [b| | |X o k IH]; intros st Hm H Hs; [by injection H as _ <-|done|done|].
  destruct Hm as [Ho Hk]. unfold run, interp in H. fold (@interp adapter_op adapter_state adapter_step A) in H.
  destruct (adapter_step X o st) as [[x st1]|] eqn:E; [|done]. apply (IH x st1 (Hk x) H).
  destruct o as [X o|X f]; simpl in E.
  - destruct (op_step o (st_shared st)) as [[y s]|]; [|done]. by injection E as _ <-.
  - destruct (f (st_outbox st)) as [[y ob]|] eqn:Hf; [|done]. injection E as _ <-. simpl. by apply (Ho _ _ _ Hf).
Qed.

Lemma addresses_patch env c ip socket buffer action st u st' :
  resource_adapter_patch env c ip socket buffer action st = Some (u, st') ->
  short_ips (st_outbox st) -> short_ips (st_outbox st').
Proof. apply run_short, outbox_patch; [exact short_add|exact short_reset|exact short_count]. Qed.

(** ** Room

    With an array of [MAX_OUTBOX] entries or more no operation is undefined. *)
Definition roomy (o : option outbox_t) : Prop :=
  match o with Some o => (MAX_OUTBOX <= ob_size o)%nat | None => False end.

Definition stays_roomy : outbox_fact := fun X f => forall ob, roomy ob -> exists x ob', f ob = Some (x, ob') /\ roomy ob'.

Lemma roomy_add msg fd ip port : outbox_ops stays_roomy (add_to_outbox msg fd ip port).
Proof.
  split; [|done]. intros [o|] Ho; [|done]. cbn [mbind option_bind]. cbv zeta. unfold roomy in Ho.
  destruct (Nat.leb_spec MAX_OUTBOX (length (ob_msgs o))) as [_|Hlt]; [by eexists _, _|].
  rewrite (proj2 (Nat.ltb_lt (length (ob_msgs o)) (ob_size o))) by lia. by eexists _, _.
Qed.

Lemma roomy_reset : outbox_ops stays_roomy reset_count.
Proof. split; [|done]. intros [o|] Ho; [|done]. by eexists _, _. Qed.

Lemma roomy_count : outbox_ops stays_roomy get_count.
Proof. split; [|done]. intros [o|] Ho; [|done]. by eexists _, _. Qed.

(** An announcement sends nothing. *)
Lemma outbox_announced R now ip buffer : outbox_ops R (handle_node_announced now ip buffer).
Proof.
  unfold handle_node_announced. apply outbox_bind; [done|]. intros [word|]; [|done].
  destruct (strcmp_eq word "ANNOUNCE"); [|done]. apply outbox_bind; [done|]. intros [port|]; [|done].
  apply outbox_bind; [by apply outbox_each_token|]. intros [[cpu ram] gpu]. unfold record_announce.
  destruct (0 <? atoi_u port); [|done]. by destruct ip; repeat split.
Qed.

Lemma outbox_and (R1 R2 R : outbox_fact) {A} (m : adapter A) :
  (forall X f, R1 X f -> R2 X f -> R X f) -> outbox_ops R1 m -> outbox_ops R2 m -> outbox_ops R m.
Proof.
  intros HR. induction m as [a| | |X o k IH]; [done..|]. intros [H1 K1] [H2 K2]. split; [|by intros x; apply IH].
  destruct o; [done|]. by apply HR.
Qed.

(** With room every handler leaves a roomy outbox with short addresses. *)
Definition ready (o : option outbox_t) : Prop := roomy o /\ short_ips o.

Lemma ready_patch env c ip socket buffer action :
  outbox_ops (fun X f => forall ob, ready ob -> exists x ob', f ob = Some (x, ob') /\ ready ob')
    (resource_adapter_patch env c ip socket buffer action).
Proof.
  apply (outbox_and stays_roomy keeps_short).
  - intros X f Hr Hs ob [Ho Hi]. destruct (Hr ob Ho) as (x & ob' & E & Ho'). exists x, ob'.
    split; [done|]. split; [done|by eapply Hs].
  - apply outbox_patch; [exact roomy_add|exact roomy_reset|exact roomy_count].
  - apply outbox_patch; [exact short_add|exact short_reset|exact short_count].
Qed.
