(* ===== verification/Server.v ===== *)
(** * Server: the effects of the event handlers

    What a thread of the agent does besides calling the adapter: system calls,
    whose answers come from the class [Kernel], and accesses to the table of
    connections.  What a handler does to the system that returns nothing of use
    (sent bytes, closed descriptors, changes of the epoll list) is the log of the
    server. *)

From S2P Require Import Prelude CString TablaHash CommonTypes LocalResource OwnedJobs KnownNodes NodeStructures Connections Program Adapter ResourceAdapter AdapterSafety.
Local Open Scope Z_scope.

(** ** The operating system *)

(** [AnswerAgain] is -1 with [EAGAIN], [AnswerError] any other -1. *)
Inductive send_answer := AnswerSent (n : nat) | AnswerAgain | AnswerError.
Inductive recv_answer := Received (bytes : string) | RecvAgain | RecvError.
Inductive connect_answer := Connected | InProgress | ConnectError.

Class Kernel (K : Type) := {
  k_send : Z -> string -> K -> send_answer * K;
  k_recv : Z -> nat -> K -> recv_answer * K;
  k_recvfrom : Z -> nat -> K -> option (string * string) * K;   (* bytes and address *)
  k_accept : Z -> K -> (Z * string) * K;                         (* descriptor or -1, address *)
  k_socket : K -> Z * K;
  k_connect : Z -> string -> Z -> K -> connect_answer * K;
  k_getsockopt : Z -> K -> bool * K;                             (* no pending error *)
  k_env : K -> environment * K                                   (* clock, [rand], garbage *)
}.

Inductive sys_event :=
  | SysSend (fd : Z) (bytes : string)
  | SysBroadcast (fd port : Z) (text : string)
  | SysRead (fd : Z)
  | SysClose (fd : Z)
  | SysNonBlock (fd : Z)
  | SysEpollAdd (fd events : Z)
  | SysEpollMod (fd events : Z)
  | SysEpollDel (fd : Z)
  | SysSleep.

Definition EPOLLIN : Z := 1.
Definition EPOLLOUT : Z := 4.
Definition EPOLLONESHOT : Z := 2 ^ 30.
Definition UDP_PORT : Z := 12529.

(** ** The operations of a thread *)

Record server (K : Type) := Server {
  sv_shared : shared;
  sv_ctx : ServerContext;
  sv_kernel : K;
  sv_log : list sys_event
}.
#[global] Arguments Server {K}.
#[global] Arguments sv_shared {K}.
#[global] Arguments sv_ctx {K}.
#[global] Arguments sv_kernel {K}.
#[global] Arguments sv_log {K}.

Abbreviation sv_node sv := (sh_node (sv_shared sv)).
Abbreviation sv_conns sv := (sh_conns (sv_shared sv)).

(** [Agent] is an operation on what the adapter shares; [ForgetTimer] is
    [ctx->tcp_timerfd = -1]. *)
Inductive server_op (K : Type) : Set -> Type :=
  | Agent {A : Set} (o : op A) : server_op K A
  | Ask {A : Set} (call : K -> A * K) : server_op K A
  | Sys (e : sys_event) : server_op K unit
  | GetCtx : server_op K ServerContext
  | ForgetTimer : server_op K unit.
#[global] Arguments Agent {K A}.
#[global] Arguments Ask {K A}.
#[global] Arguments Sys {K}.
#[global] Arguments GetCtx {K}.
#[global] Arguments ForgetTimer {K}.

(** The descriptors an operation of the adapter closes. *)
Definition closes (tr : list event) : list sys_event :=
  omap (fun e => match e with EvClose fd => Some (SysClose fd) | _ => None end) tr.

Section server.
Context {K : Type}.
Implicit Types sv : server K.

Definition log_event (e : sys_event) sv : server K :=
  Server (sv_shared sv) (sv_ctx sv) (sv_kernel sv) (sv_log sv ++ [e]).
Definition set_kernel (k : K) sv : server K := Server (sv_shared sv) (sv_ctx sv) k (sv_log sv).
Definition set_conns (conns : connections) sv : server K :=
  Server (Shared (sv_node sv) conns (sh_tokens (sv_shared sv))) (sv_ctx sv) (sv_kernel sv) (sv_log sv).
Definition forget_timer sv : server K :=
  let c := sv_ctx sv in
  Server (sv_shared sv)
    (Context (sc_port c) (sc_lan_ip c) (sc_epollfd c) (sc_tcp_public_fd c) (sc_erlang_tcp_fd c) (sc_udp_fd c)
       (-1) (sc_udp_timerfd c) (sc_gc_timerfd c) (sc_mynode c)) (sv_kernel sv) (sv_log sv).

Definition server_step (X : Set) (o : server_op K X) sv : option (X * server K) :=
  match o in server_op _ X return option (X * server K) with
  | Agent o =>
      '(a, s) ← op_step o (sv_shared sv);
      Some (a, Server s (sv_ctx sv) (sv_kernel sv) (sv_log sv ++ closes (op_events o)))
  | Ask call => let '(a, k) := call (sv_kernel sv) in Some (a, set_kernel k sv)
  | Sys e => Some ((), log_event e sv)
  | GetCtx => Some (sv_ctx sv, sv)
  | ForgetTimer => Some ((), forget_timer sv)
  end.

(** A program run alone. *)
Definition serve {A} (m : prog (server_op K) A) sv : option (A * server K) := interp server_step m sv.

(** A handler is given the fuel of its unbounded loops. *)
Definition handler (A : Type) : Type := nat -> prog (server_op K) A.

#[export] Instance handler_ret : MRet handler := fun A a _ => Ret a.
#[export] Instance handler_bind : MBind handler := fun A B k m fuel => prog_bind (m fuel) (fun a => k a fuel).

Definition perform {X : Set} (o : server_op K X) : handler X := fun _ => trigger o.

Definition sys (e : sys_event) : handler () := perform (Sys e).
(** A system call with an answer. *)
Definition ask {A : Set} (call : K -> A * K) : handler A := perform (Ask call).
Definition get_ctx : handler ServerContext := perform GetCtx.
(** [ctx->tcp_timerfd = -1] *)
Definition forget_tcp_timer : handler () := perform ForgetTimer.
(** Undefined behaviour unless [b]. *)
Definition require (b : bool) : handler () := fun _ => if b then Ret () else Fail.

Definition lock (l : hold) : handler () := perform (Agent (Lock l)).
Definition unlock (l : hold) : handler () := perform (Agent (Unlock l)).

(** An entry of the table; an index outside it is undefined. *)
Definition entry (fd : Z) (conns : connections) : option ConnectionState :=
  assert_def (0 <=? fd);; conns !! Z.to_nat fd.
Definition read_conn (fd : Z) : handler ConnectionState := perform (Agent (ReadTable (entry fd))).
Definition write_conn (fd : Z) (f : ConnectionState -> ConnectionState) : handler () :=
  perform (Agent (WriteTable (fun conns => c ← entry fd conns; Some (<[Z.to_nat fd := f c]> conns)))).

Fixpoint each {A} (l : list A) (body : A -> handler ()) : handler () :=
  match l with
  | [] => mret ()
  | a :: l' => body a;; each l' body
  end.

(** [strncpy(dst, src, 16)]: without a terminator from 16 characters on. *)
Definition strncpy_ip (src : string) : handler string :=
  require (String.length src <=? 15)%nat;; mret src.

(** ** Calling the adapter *)

Definition adapter_case {X : Set} (o : adapter_op X) :
    op X + (option outbox_t -> option (X * option outbox_t)) :=
  match o with Common o => inl o | OnOutbox f => inr f end.

(** The outbox is an array of the calling thread: only the other operations are
    visible to the rest. *)
Fixpoint embed {A} (m : adapter A) (ob : option outbox_t) : prog (server_op K) (A * option outbox_t) :=
  match m with
  | Ret a => Ret (a, ob)
  | Fail => Fail
  | Spin => Spin
  | Do o k =>
      match adapter_case o with
      | inl o => Do (Agent o) (fun x => embed (k x) ob)
      | inr f => match f ob with Some (x, ob') => embed (k x) ob' | None => Fail end
      end
  end.

Definition call_adapter {A} (m : adapter A) (ob : option outbox_t) : handler (A * option outbox_t) := fun _ => embed m ob.

(** A query of the adapter, which has no outbox. *)
Definition call_query {A} (m : adapter A) : handler A := r ← call_adapter m None; mret (fst r).

(** ** Reasoning about the handlers

    [evals m sv Q]: with enough fuel [m] returns from [sv], without undefined
    behaviour, always the same result, which satisfies [Q]. *)
Definition evals {A} (m : handler A) sv (Q : A -> server K -> Prop) : Prop :=
  exists fuel a sv', Q a sv' /\ forall fuel', (fuel <= fuel')%nat -> serve (m fuel') sv = Some (a, sv').

(** The result of [m]. *)
Definition returns {A} (m : handler A) sv (a : A) sv' : Prop :=
  exists fuel, forall fuel', (fuel <= fuel')%nat -> serve (m fuel') sv = Some (a, sv').

Lemma serve_bind {A B} (m : handler A) (k : A -> handler B) fuel sv :
  serve ((m ≫= k) fuel) sv = '(a, sv') ← serve (m fuel) sv; serve (k a fuel) sv'.
Proof. apply interp_bind. Qed.

Lemma evals_returns {A} (m : handler A) sv (Q : A -> server K -> Prop) :
  evals m sv Q -> exists a sv', returns m sv a sv' /\ Q a sv'.
Proof. intros (f & a & sv' & HQ & Hf). exists a, sv'. split; [by exists f|done]. Qed.

Lemma evals_det {A} (m : handler A) sv (Q : A -> server K -> Prop) a sv' :
  evals m sv Q -> returns m sv a sv' -> Q a sv'.
Proof.
  intros (f & b & sv2 & HQ & Hf) [f' Hf']. specialize (Hf (f `max` f')%nat (Nat.le_max_l _ _)).
  rewrite (Hf' (f `max` f')%nat (Nat.le_max_r _ _)) in Hf. by simplify_eq.
Qed.

Lemma evals_now {A} (m : handler A) sv a sv' (Q : A -> server K -> Prop) :
  (forall fuel, serve (m fuel) sv = Some (a, sv')) -> Q a sv' -> evals m sv Q.
Proof. intros Hm HQ. exists 0%nat, a, sv'. auto. Qed.

Lemma evals_ret {A} (a : A) sv (Q : A -> server K -> Prop) : Q a sv -> evals (mret a) sv Q.
Proof. by apply evals_now. Qed.

Lemma evals_bind {A B} (m : handler A) (k : A -> handler B) sv (Q : B -> server K -> Prop) :
  evals m sv (fun a sv' => evals (k a) sv' Q) -> evals (m ≫= k) sv Q.
Proof.
  intros (f1 & a & sv1 & (f2 & b & sv2 & HQ & H2) & H1). exists (f1 `max` f2)%nat, b, sv2. split; [done|].
  intros f Hf. rewrite serve_bind, H1 by lia. apply H2. lia.
Qed.

Lemma evals_mono {A} (m : handler A) sv (Q Q' : A -> server K -> Prop) :
  evals m sv Q -> (forall a sv', Q a sv' -> Q' a sv') -> evals m sv Q'.
Proof. intros (f & a & sv' & HQ & Hm) Himp. exists f, a, sv'. auto. Qed.

(** The result is only one. *)
Lemma evals_both {A} (m : handler A) sv (Q Q' : A -> server K -> Prop) :
  evals m sv Q -> evals m sv Q' -> evals m sv (fun a sv' => Q a sv' /\ Q' a sv').
Proof.
  intros (f & a & sv' & HQ & Hm) Hm'. exists f, a, sv'. split; [|done]. split; [done|].
  eapply evals_det; [exact Hm'|by exists f].
Qed.

(** One operation. *)
Lemma serve_perform {X : Set} (o : server_op K X) fuel sv : serve (perform o fuel) sv = server_step X o sv.
Proof.
  unfold serve, perform, trigger, interp. by destruct (server_step X o sv) as [[a sv']|].
Qed.

Lemma evals_perform {X : Set} (o : server_op K X) a sv sv' (Q : X -> server K -> Prop) :
  server_step X o sv = Some (a, sv') -> Q a sv' -> evals (perform o) sv Q.
Proof. intros Ho. apply evals_now. intros fuel. by rewrite serve_perform. Qed.

Lemma evals_sys e sv (Q : () -> server K -> Prop) : Q () (log_event e sv) -> evals (sys e) sv Q.
Proof. by apply (evals_perform (Sys e) ()). Qed.

Lemma evals_ctx sv (Q : ServerContext -> server K -> Prop) : Q (sv_ctx sv) sv -> evals get_ctx sv Q.
Proof. by apply (evals_perform GetCtx (sv_ctx sv)). Qed.

Lemma evals_lock l sv (Q : () -> server K -> Prop) : Q () sv -> evals (lock l) sv Q.
Proof. apply (evals_perform (Agent (Lock l)) ()). simpl. rewrite app_nil_r. by destruct sv. Qed.

Lemma evals_unlock l sv (Q : () -> server K -> Prop) : Q () sv -> evals (unlock l) sv Q.
Proof. apply (evals_perform (Agent (Unlock l)) ()). simpl. rewrite app_nil_r. by destruct sv. Qed.

Lemma evals_ask {A : Set} (call : K -> A * K) sv (Q : A -> server K -> Prop) :
  (forall a k, call (sv_kernel sv) = (a, k) -> Q a (set_kernel k sv)) -> evals (ask call) sv Q.
Proof.
  intros HQ. destruct (call (sv_kernel sv)) as [a k] eqn:E.
  apply (evals_perform _ a _ (set_kernel k sv)); [simpl; by rewrite E|by apply HQ].
Qed.

Lemma evals_asked {A : Set} (call : K -> A * K) sv a k (Q : A -> server K -> Prop) :
  call (sv_kernel sv) = (a, k) -> Q a (set_kernel k sv) -> evals (ask call) sv Q.
Proof. intros Hc HQ. apply evals_ask. intros a' k' E. rewrite Hc in E. by injection E as <- <-. Qed.

Lemma evals_strncpy ip sv (Q : string -> server K -> Prop) :
  (String.length ip <= 15)%nat -> Q ip sv -> evals (strncpy_ip ip) sv Q.
Proof.
  intros Hl. apply evals_now. intros fuel. unfold strncpy_ip. rewrite serve_bind. unfold require.
  by rewrite (proj2 (Nat.leb_le _ _) Hl).
Qed.

Lemma evals_each {A} (I : list A -> server K -> Prop) (l : list A) (body : A -> handler ()) sv :
  I l sv -> (forall a l' sv, a ∈ l -> I (a :: l') sv -> evals (body a) sv (fun _ sv' => I l' sv')) ->
  evals (each l body) sv (fun _ sv' => I [] sv').
Proof.
  intros HI Hb. revert sv HI Hb. induction l as [|a l IH]; intros sv HI Hb; simpl; [by apply evals_ret|].
  apply evals_bind. eapply evals_mono; [apply Hb; [by left|done]|]. intros [] sv' HI'. apply IH; [done|].
  intros a' l' sv2 Hin. apply Hb. by right.
Qed.

Lemma closes_app tr1 tr2 : closes (tr1 ++ tr2) = closes tr1 ++ closes tr2.
Proof. apply omap_app. Qed.

(** Calling the adapter is running it on the shared state. *)
Lemma serve_embed {A} (m : adapter A) s ob tr ctx kn log :
  serve (embed m ob) (Server s ctx kn (log ++ closes tr))
    = '(a, st) ← m (AdapterState s ob tr);
      Some ((a, st_outbox st), Server (st_shared st) ctx kn (log ++ closes (st_trace st))).
Proof.
  revert s ob tr. induction m as [a| | |X o k IH]; intros s ob tr; [done..|].
  cbn [embed]. unfold run, interp. fold (@interp adapter_op adapter_state adapter_step A).
  destruct o as [X o|X f]; cbn [adapter_case adapter_step st_shared st_outbox st_trace].
  - unfold serve, interp. fold (@interp (server_op K) (server K) server_step (A * option outbox_t)).
    cbn [server_step sv_shared sv_ctx sv_kernel sv_log]. destruct (op_step o s) as [[x s']|]; [|done].
    cbn [mbind option_bind]. rewrite <- app_assoc, <- closes_app. apply IH.
  - destruct (f ob) as [[x ob']|]; [|done]. apply IH.
Qed.

Lemma evals_adapter {A} (m : adapter A) ob sv a st (Q : A * option outbox_t -> server K -> Prop) :
  m (AdapterState (sv_shared sv) ob []) = Some (a, st) ->
  Q (a, st_outbox st) (Server (st_shared st) (sv_ctx sv) (sv_kernel sv) (sv_log sv ++ closes (st_trace st))) ->
  evals (call_adapter m ob) sv Q.
Proof.
  intros Hm. apply evals_now. intros fuel. pose proof (serve_embed m (sv_shared sv) ob [] (sv_ctx sv) (sv_kernel sv)
    (sv_log sv)) as H. rewrite app_nil_r in H. rewrite Hm in H. destruct sv. exact H.
Qed.
End server.
