(* ===== verification/ThreadPool.v ===== *)
(** * ThreadPool: [src/c_agent/src/comms/thread_pool.c]

    The bounded queue of tasks between the epoll thread and the workers: a
    circular array with [head], [tail] and [count], a mutex and a condition
    variable.  The first half models the two critical sections as functions; the
    second interleaves the epoll thread with any number of workers as a step
    relation in which a critical section is one step and waiting, signalling and
    spurious wake-ups are explicit. *)

From S2P Require Import Prelude.
Local Open Scope Z_scope.

Definition MAX_QUEUE : nat := 1024.

(** ** Data *)

Inductive TaskType :=
  | TASK_TCP_CLIENT_MSG
  | TASK_UDP_DISCOVERY
  | TASK_UDP_ANNOUNCE
  | TASK_GARBAGE_COLLECTOR.

Record WorkerTask := Task { wt_fd : Z; wt_type : TaskType }.

Record TaskQueue := Queue {
  tq_tasks : list WorkerTask;
  tq_head : Z;
  tq_tail : Z;
  tq_count : Z
}.

(** ** Operations *)

(** The static array starts zeroed. *)
Definition init_queue : TaskQueue := Queue (replicate MAX_QUEUE (Task 0 TASK_TCP_CLIENT_MSG)) 0 0 0.

(** The critical section of [thread_pool_push_task]: whether the task was queued
    (and [notify] signalled). *)
Definition thread_pool_push_task (q : TaskQueue) (task : WorkerTask) : option (bool * TaskQueue) :=
  if tq_count q <? Z.of_nat MAX_QUEUE then
    assert_def ((0 <=? tq_tail q) && (tq_tail q <? Z.of_nat (length (tq_tasks q))));;
    Some (true, Queue (<[Z.to_nat (tq_tail q) := task]> (tq_tasks q)) (tq_head q)
                      (Z.rem (tq_tail q + 1) (Z.of_nat MAX_QUEUE)) (tq_count q + 1))
  else Some (false, q).

(** The critical section of [worker_thread]: [None] inside when the queue is empty
    and the worker has to wait. *)
Definition worker_take (q : TaskQueue) : option (option (WorkerTask * TaskQueue)) :=
  if tq_count q =? 0 then Some None
  else
    assert_def (0 <=? tq_head q);;
    current_task ← tq_tasks q !! Z.to_nat (tq_head q);
    Some (Some (current_task, Queue (tq_tasks q) (Z.rem (tq_head q + 1) (Z.of_nat MAX_QUEUE)) (tq_tail q)
                                    (tq_count q - 1))).

(** ** The queue as a list *)

(** The cell of the [i]-th task from the head. *)
Definition cell (q : TaskQueue) (i : nat) : nat := (Z.to_nat (tq_head q) + i) `mod` MAX_QUEUE.

Definition contents (q : TaskQueue) : list WorkerTask :=
  omap (fun i => tq_tasks q !! cell q i) (seq 0 (Z.to_nat (tq_count q))).

Record queue_wf (q : TaskQueue) : Prop := {
  qw_len : length (tq_tasks q) = MAX_QUEUE;
  qw_head : 0 <= tq_head q < Z.of_nat MAX_QUEUE;
  qw_count : 0 <= tq_count q <= Z.of_nat MAX_QUEUE;
  qw_tail : tq_tail q = (tq_head q + tq_count q) `mod` Z.of_nat MAX_QUEUE
}.

Lemma cell_lt q i : (cell q i < MAX_QUEUE)%nat.
Proof. unfold cell. by apply Nat.mod_upper_bound. Qed.

Lemma cell_lookup q i : queue_wf q -> is_Some (tq_tasks q !! cell q i).
Proof. intros Hq. apply lookup_lt_is_Some_2. rewrite (qw_len _ Hq). apply cell_lt. Qed.

Lemma omap_cons {A B} (f : A -> option B) (a : A) (l : list A) :
  omap f (a :: l) = option_list (f a) ++ omap f l.
Proof. simpl. by destruct (f a). Qed.

Lemma omap_fmap_S {B} (f : nat -> option B) (l : list nat) : omap f (S <$> l) = omap (fun i => f (S i)) l.
Proof. induction l as [|i l IH]; [done|]. rewrite fmap_cons, !omap_cons. by rewrite IH. Qed.

Lemma omap_ext_in {A B} (f g : A -> option B) (l : list A) : (forall a, a ∈ l -> f a = g a) -> omap f l = omap g l.
Proof.
  induction l as [|a l IH]; intros H; [done|]. simpl. rewrite H by by left.
  destruct (g a); [f_equal|]; apply IH; intros x Hx; apply H; by right.
Qed.

Lemma contents_length q : queue_wf q -> length (contents q) = Z.to_nat (tq_count q).
Proof.
  intros Hq. unfold contents. rewrite <- (length_seq (Z.to_nat (tq_count q)) 0) at 2.
  induction (seq 0 _) as [|i l IH]; [done|]. rewrite omap_cons.
  destruct (cell_lookup q i Hq) as [t ->]. simpl. by rewrite IH.
Qed.

Lemma tail_cell q : queue_wf q -> Z.to_nat (tq_tail q) = cell q (Z.to_nat (tq_count q)).
Proof.
  intros [Hl Hh Hc Ht]. unfold cell. rewrite Ht, Z2Nat.inj_mod by (unfold MAX_QUEUE; lia).
  rewrite Nat2Z.id, Z2Nat.inj_add by lia. done.
Qed.

Lemma cell_inj q i j :
  (i < MAX_QUEUE)%nat -> (j < MAX_QUEUE)%nat -> cell q i = cell q j -> i = j.
Proof.
  unfold cell. generalize (Z.to_nat (tq_head q)) as h. intros h Hi Hj H.
  assert (Hm : (MAX_QUEUE ≠ 0)%nat) by done. generalize dependent MAX_QUEUE. intros m Hi Hj H Hm.
  pose proof (Nat.div_mod (h + i) m Hm). pose proof (Nat.div_mod (h + j) m Hm).
  pose proof (Nat.mod_upper_bound (h + i) m Hm). rewrite H in *.
  set (a := ((h + i) / m)%nat) in *. set (b := ((h + j) / m)%nat) in *.
  assert (a = b) by nia. nia.
Qed.

Lemma init_queue_wf : queue_wf init_queue.
Proof. by split. Qed.

(** Pushing appends, unless the queue is full. *)
Lemma push_spec q task :
  queue_wf q ->
  exists b q', thread_pool_push_task q task = Some (b, q') /\ queue_wf q' /\
    ((b = true /\ (length (contents q) < MAX_QUEUE)%nat /\ contents q' = contents q ++ [task] /\
      tq_count q' = tq_count q + 1) \/
     (b = false /\ length (contents q) = MAX_QUEUE /\ q' = q)).
Proof.
  intros Hq. pose proof (contents_length q Hq) as Hlen. pose proof (tail_cell q Hq) as Htc.
  pose proof Hq as [Hl Hh Hc Ht]. unfold thread_pool_push_task.
  destruct (Z.ltb_spec (tq_count q) (Z.of_nat MAX_QUEUE)) as [Hlt|Hge]; last first.
  { exists false, q. split_and!; [done|done|]. right. split_and!; try done. lia. }
  assert (Hb : 0 <= tq_tail q < Z.of_nat MAX_QUEUE).
  { rewrite Ht. apply Z.mod_pos_bound. unfold MAX_QUEUE. lia. }
  rewrite assert_def_true by (rewrite Hl; lia). cbn [mbind option_bind].
  eexists true, _. split; [done|]. set (q' := Queue _ _ _ _).
  assert (Hq' : queue_wf q').
  { split; simpl; [by rewrite length_insert|done|lia|].
    rewrite Z.rem_mod_nonneg by (unfold MAX_QUEUE in *; lia). rewrite Ht, Zplus_mod_idemp_l. f_equal. lia. }
  split; [done|]. left. split_and!; [done|lia| |done].
  unfold contents. subst q'. simpl.
  replace (Z.to_nat (tq_count q + 1)) with (S (Z.to_nat (tq_count q))) by lia.
  rewrite seq_S, omap_app, omap_cons. simpl ([] ++ _). rewrite Nat.add_0_l.
  change (cell (Queue _ _ _ _) ?i) with (cell q i).
  rewrite <- Htc, list_lookup_insert_eq by (rewrite Hl; lia). f_equal.
  apply omap_ext_in. intros i Hi. apply elem_of_seq in Hi. unfold cell. simpl. fold (cell q i).
  rewrite list_lookup_insert_ne; [done|]. rewrite Htc. intros Heq. apply cell_inj in Heq; lia.
Qed.

(** Taking removes the head. *)
Lemma take_spec q :
  queue_wf q ->
  (worker_take q = Some None /\ contents q = [] /\ tq_count q = 0) \/
  (exists task q', worker_take q = Some (Some (task, q')) /\ queue_wf q' /\
     contents q = task :: contents q' /\ tq_count q' = tq_count q - 1 /\ 0 < tq_count q).
Proof.
  intros Hq. pose proof Hq as [Hl Hh Hc Ht]. unfold worker_take.
  destruct (Z.eqb_spec (tq_count q) 0) as [H0|H0].
  { left. split_and!; try done. unfold contents. by rewrite H0. }
  right. rewrite assert_def_true by lia. cbn [mbind option_bind].
  destruct (lookup_lt_is_Some_2 (tq_tasks q) (Z.to_nat (tq_head q))) as [task Htask]; [lia|].
  rewrite Htask. cbn [mbind option_bind]. eexists task, _. split; [done|]. set (q' := Queue _ _ _ _).
  assert (Hrem : Z.rem (tq_head q + 1) (Z.of_nat MAX_QUEUE) = (tq_head q + 1) `mod` Z.of_nat MAX_QUEUE).
  { apply Z.rem_mod_nonneg; unfold MAX_QUEUE; lia. }
  assert (Hq' : queue_wf q').
  { split; simpl; [done| |lia|].
    - rewrite Hrem. apply Z.mod_pos_bound. unfold MAX_QUEUE. lia.
    - rewrite Hrem, Zplus_mod_idemp_l, Ht. f_equal. lia. }
  split_and!; [done| |done|lia]. unfold contents.
  replace (Z.to_nat (tq_count q)) with (S (Z.to_nat (tq_count q'))) by (simpl; lia).
  rewrite <- cons_seq, omap_cons. unfold cell at 1. rewrite Nat.add_0_r, Nat.mod_small by lia.
  rewrite Htask. simpl (option_list _ ++ _). f_equal. rewrite <- fmap_S_seq, omap_fmap_S.
  apply omap_ext_in. intros i _. simpl. f_equal. unfold cell.
  change (tq_head q') with (Z.rem (tq_head q + 1) (Z.of_nat MAX_QUEUE)).
  rewrite Hrem, Z2Nat.inj_mod, Nat2Z.id, Z2Nat.inj_add by (unfold MAX_QUEUE; lia).
  rewrite Nat.Div0.add_mod_idemp_l. f_equal. lia.
Qed.

(** ** The pool: the epoll thread and the workers

    A worker is about to enter its critical section, blocked in
    [pthread_cond_wait], or running a task. *)
Inductive worker := Ready | Waiting | Running (task : WorkerTask).

(** [pl_pushed] and [pl_taken] are the history: the tasks accepted by
    [thread_pool_push_task] and those taken by the workers, in order. *)
Record pool := Pool {
  pl_queue : TaskQueue;
  pl_workers : list worker;
  pl_pushed : list WorkerTask;
  pl_taken : list WorkerTask
}.

(** [init_thread_pool] with [num_threads] workers. *)
Definition init_thread_pool (num_threads : nat) : pool :=
  Pool init_queue (replicate num_threads Ready) [] [].

Definition nobody_waits (ws : list worker) : Prop := forall i : nat, ws !! i ≠ Some Waiting.

Inductive pool_step : pool -> pool -> Prop :=
  (* the epoll thread pushes; the signal wakes one of the waiting workers *)
  | step_push_wake p task q' (i : nat) :
      thread_pool_push_task (pl_queue p) task = Some (true, q') -> pl_workers p !! i = Some Waiting ->
      pool_step p (Pool q' (<[i := Ready]> (pl_workers p)) (pl_pushed p ++ [task]) (pl_taken p))
  | step_push p task q' :
      thread_pool_push_task (pl_queue p) task = Some (true, q') -> nobody_waits (pl_workers p) ->
      pool_step p (Pool q' (pl_workers p) (pl_pushed p ++ [task]) (pl_taken p))
  | step_push_full p task q' :
      thread_pool_push_task (pl_queue p) task = Some (false, q') ->
      pool_step p (Pool q' (pl_workers p) (pl_pushed p) (pl_taken p))
  (* a worker finds the queue empty and waits *)
  | step_wait p (i : nat) :
      pl_workers p !! i = Some Ready -> worker_take (pl_queue p) = Some None ->
      pool_step p (Pool (pl_queue p) (<[i := Waiting]> (pl_workers p)) (pl_pushed p) (pl_taken p))
  (* a worker takes the task at the head *)
  | step_take p (i : nat) task q' :
      pl_workers p !! i = Some Ready -> worker_take (pl_queue p) = Some (Some (task, q')) ->
      pool_step p (Pool q' (<[i := Running task]> (pl_workers p)) (pl_pushed p) (pl_taken p ++ [task]))
  (* a worker ends its task *)
  | step_done p (i : nat) task :
      pl_workers p !! i = Some (Running task) ->
      pool_step p (Pool (pl_queue p) (<[i := Ready]> (pl_workers p)) (pl_pushed p) (pl_taken p))
  (* [pthread_cond_wait] may return without a signal *)
  | step_spurious p (i : nat) :
      pl_workers p !! i = Some Waiting ->
      pool_step p (Pool (pl_queue p) (<[i := Ready]> (pl_workers p)) (pl_pushed p) (pl_taken p)).

Inductive pool_reach (num_threads : nat) : pool -> Prop :=
  | pool_init : pool_reach num_threads (init_thread_pool num_threads)
  | pool_next p p' : pool_reach num_threads p -> pool_step p p' -> pool_reach num_threads p'.

Definition is_ready (w : worker) : Z := match w with Ready => 1 | _ => 0 end.

(** A task is only queued beyond the workers that are about to look when nobody
    sleeps. *)
Record pool_wf (p : pool) : Prop := {
  pw_queue : queue_wf (pl_queue p);
  pw_history : pl_pushed p = pl_taken p ++ contents (pl_queue p);
  pw_awake : nobody_waits (pl_workers p) \/ tq_count (pl_queue p) <= sumZ is_ready (pl_workers p)
}.

Lemma nobody_waits_insert ws (i : nat) w : nobody_waits ws -> w ≠ Waiting -> nobody_waits (<[i := w]> ws).
Proof.
  intros Hn Hw j Hj. apply list_lookup_insert_Some in Hj as [(_ & -> & _)|[_ Hj]]; [done|by eapply Hn].
Qed.

Lemma pool_step_wf p p' : pool_wf p -> pool_step p p' -> pool_wf p'.
Proof.
  intros [Hq Hh Ha] Hstep. destruct Hstep as [p task q' i Hp Hi|p task q' Hp Hn|p task q' Hp|p i Hi Ht
    |p i task q' Hi Ht|p i task Hi|p i Hi]; simpl.
  - destruct (push_spec _ task Hq) as (b & q2 & Hp2 & Hq2 & [(-> & _ & Hc & Hn)|(-> & _)]);
      rewrite Hp2 in Hp; simplify_eq.
    split; simpl; [done|rewrite Hc, Hh; by rewrite app_assoc|]. right. rewrite (sumZ_insert _ _ _ _ _ Hi). simpl.
    destruct Ha as [Ha|Ha]; [by destruct (Ha i)|lia].
  - destruct (push_spec _ task Hq) as (b & q2 & Hp2 & Hq2 & [(-> & _ & Hc & _)|(-> & _)]);
      rewrite Hp2 in Hp; simplify_eq.
    split; simpl; [done|by rewrite Hc, Hh, app_assoc|by left].
  - destruct (push_spec _ task Hq) as (b & q2 & Hp2 & Hq2 & [(-> & _)|(-> & _ & ->)]);
      rewrite Hp2 in Hp; simplify_eq. by split.
  - destruct (take_spec _ Hq) as [(_ & _ & H0)|(t & q2 & Ht2 & _)]; [|by rewrite Ht2 in Ht].
    split; simpl; [done|done|]. right. rewrite H0. apply sumZ_nonneg, Forall_forall. by intros [] _.
  - destruct (take_spec _ Hq) as [(Ht2 & _)|(t & q2 & Ht2 & Hq2 & Hc & Hn & _)]; rewrite Ht2 in Ht; simplify_eq.
    split; simpl; [done|by rewrite Hh, Hc, <- app_assoc|].
    destruct Ha as [Ha|Ha]; [left; by apply nobody_waits_insert|right].
    rewrite (sumZ_insert _ _ _ _ _ Hi). simpl. lia.
  - split; simpl; [done|done|]. destruct Ha as [Ha|Ha]; [left; by apply nobody_waits_insert|right].
    rewrite (sumZ_insert _ _ _ _ _ Hi). simpl. lia.
  - split; simpl; [done|done|]. right. destruct Ha as [Ha|Ha]; [by destruct (Ha i)|].
    rewrite (sumZ_insert _ _ _ _ _ Hi). simpl. lia.
Qed.

Lemma pool_reach_wf num_threads p : pool_reach num_threads p -> pool_wf p.
Proof.
  induction 1 as [|p p' _ IH Hstep]; [|by eapply pool_step_wf].
  split; [apply init_queue_wf|done|]. left. intros i Hi. simpl in Hi. by apply lookup_replicate in Hi as [? _].
Qed.

(** ** Properties *)

(** C16: the pool is an exact FIFO: in every interleaving of the epoll thread with
    any number of workers, with spurious wake-ups, each accepted task is taken by
    exactly one worker, in the order of acceptance; those not yet taken are all
    in the queue, which never holds more than 1024; and neither critical section
    ever reads or writes outside the array. *)
Theorem pool_fifo num_threads p task :
  pool_reach num_threads p ->
  pl_pushed p = pl_taken p ++ contents (pl_queue p) /\
  (length (contents (pl_queue p)) <= MAX_QUEUE)%nat /\
  is_Some (thread_pool_push_task (pl_queue p) task) /\ is_Some (worker_take (pl_queue p)).
Proof.
  intros Hr. destruct (pool_reach_wf _ _ Hr) as [Hq Hh _]. split; [done|].
  split; [rewrite contents_length by done; pose proof (qw_count _ Hq); lia|].
  destruct (push_spec _ task Hq) as (b & q' & -> & _). split; [by eexists|].
  destruct (take_spec _ Hq) as [(-> & _)|(t & q2 & -> & _)]; by eexists.
Qed.

(** C38: no wake-up is lost: whenever a task is queued and some worker is not
    running one, there is a worker that is neither running nor asleep, and its
    next step takes the task at the head. *)
Theorem no_lost_wakeup num_threads p task rest :
  pool_reach num_threads p -> contents (pl_queue p) = task :: rest ->
  (exists (i : nat) w, pl_workers p !! i = Some w /\ forall t, w ≠ Running t) ->
  exists (j : nat) q', pl_workers p !! j = Some Ready /\
    worker_take (pl_queue p) = Some (Some (task, q')) /\ contents q' = rest /\
    pool_step p (Pool q' (<[j := Running task]> (pl_workers p)) (pl_pushed p) (pl_taken p ++ [task])).
Proof.
  intros Hr Hc (i & w & Hi & Hw). destruct (pool_reach_wf _ _ Hr) as [Hq _ Ha].
  destruct (take_spec _ Hq) as [(_ & Hn & _)|(t & q' & Ht & _ & Hc' & _ & Hpos)]; [congruence|].
  rewrite Hc in Hc'. injection Hc' as <- Hrest.
  assert (Hj : exists j : nat, pl_workers p !! j = Some Ready).
  { destruct Ha as [Ha|Ha].
    - exists i. destruct w as [| |t]; [done|by destruct (Ha i)|by destruct (Hw t)].
    - assert (Hs : 0 < sumZ is_ready (pl_workers p)) by lia. revert Hs. clear.
      generalize (pl_workers p) as ws. induction ws as [|[| |t] ws IH]; intros Hs; rewrite ?sumZ_cons in Hs; simpl in Hs.
      + by vm_compute in Hs.
      + by exists 0%nat.
      + destruct (IH ltac:(lia)) as [j Hj]. by exists (S j).
      + destruct (IH ltac:(lia)) as [j Hj]. by exists (S j). }
  destruct Hj as [j Hj]. exists j, q'. split_and!; [done|done|done|]. by apply step_take.
Qed.

Module PoolEjemplo.

Definition tarea : WorkerTask := Task 7 TASK_TCP_CLIENT_MSG.

(** Two workers about to look at the queue, after one push. *)
Definition cola : TaskQueue :=
  match thread_pool_push_task init_queue tarea with Some (_, q) => q | None => init_queue end.
Definition con_tarea : pool := Pool cola [Ready; Ready] [tarea] [].

Lemma con_tarea_reach : pool_reach 2 con_tarea.
Proof.
  apply (pool_next 2 (init_thread_pool 2)); [apply pool_init|].
  apply (step_push (init_thread_pool 2) tarea cola); [vm_compute; reflexivity|].
  intros i Hi. simpl in Hi. by apply (lookup_replicate 2 Ready) in Hi as [? _].
Qed.

Lemma pool_fifo_witness :
  pl_pushed con_tarea = pl_taken con_tarea ++ contents (pl_queue con_tarea) /\
  (length (contents (pl_queue con_tarea)) <= MAX_QUEUE)%nat /\
  is_Some (thread_pool_push_task (pl_queue con_tarea) tarea) /\ is_Some (worker_take (pl_queue con_tarea)).
Proof. exact (pool_fifo 2 con_tarea tarea con_tarea_reach). Defined.

Lemma no_lost_wakeup_witness :
  exists (j : nat) q', pl_workers con_tarea !! j = Some Ready /\
    worker_take (pl_queue con_tarea) = Some (Some (tarea, q')) /\ contents q' = [] /\
    pool_step con_tarea (Pool q' (<[j := Running tarea]> (pl_workers con_tarea)) (pl_pushed con_tarea)
      (pl_taken con_tarea ++ [tarea])).
Proof. exact (no_lost_wakeup 2 con_tarea tarea [] con_tarea_reach ltac:(vm_compute; reflexivity)
  ltac:(exists 0%nat, Ready; done)). Defined.

End PoolEjemplo.
