(* ===== verification/EventHandler.v ===== *)
(** * EventHandler: [src/c_agent/src/comms/event_handler.c] and the loops of [sys_socket.c]

    What the agent does with its sockets: the connection table, the cutting of the
    received text into lines, the sending of the outbox and the periodic check; the
    switch of the workers ([thread_pool.c]) and the body of the epoll loop
    ([main.c]), as trees of the operations of Server.  Calls to [printf] are left
    out. *)

From Stdlib Require Import Ascii.
From S2P Require Import Prelude CString TablaHash CommonTypes LocalResource OwnedJobs KnownNodes NodeStructures Connections Program Adapter ResourceAdapter AdapterSafety ThreadPool Server.
Local Open Scope Z_scope.

(** The text of a buffer, up to the first null character. *)
Fixpoint c_text (s : string) : string :=
  match s with
  | EmptyString => EmptyString
  | String c s' => if Ascii.eqb c "000" then EmptyString else String c (c_text s')
  end.

Definition set_conn (active : Z) (ip : string) (port : Z) (pending : string) (c : ConnectionState) : ConnectionState :=
  Connection active ip port pending (cn_job_id c).
Definition clear_conn : ConnectionState -> ConnectionState := set_conn 0 EmptyString 0 EmptyString.
Definition clear_pending (c : ConnectionState) : ConnectionState :=
  Connection (cn_is_active c) (cn_ip c) (cn_port c) EmptyString (cn_job_id c).

Section handlers.
Context {K : Type} `{Kernel K}.
#[local] Abbreviation handler := (@handler K).

(** ** [sys_socket.c] *)

(** The loop of [send_tcp_message], with [total] bytes already sent. *)
Fixpoint send_loop (rounds : nat) (sockfd : Z) (text : string) (total : nat) : handler Z :=
  match rounds with
  | O => fun _ => Spin
  | S rounds' =>
      if (total <? String.length text)%nat then
        let rest := str_drop total text in
        bytes ← ask (k_send sockfd rest);
        match bytes with
        | AnswerSent n =>
            if (0 <? n)%nat then
              sys (SysSend sockfd (str_take n rest));;
              send_loop rounds' sockfd text (total + n)
            else mret (-1)
        | AnswerAgain => sys SysSleep;; send_loop rounds' sockfd text total
        | AnswerError => mret (-1)
        end
      else mret (Z.of_nat total)
  end.

Definition send_tcp_message (sockfd : Z) (text : string) : handler Z := fun fuel => send_loop fuel sockfd text 0 fuel.

(** The result and the contents of the buffer. *)
Definition receive_tcp_message (sockfd : Z) (buffer_size : nat) : handler (Z * string) :=
  a ← ask (k_recv sockfd (buffer_size - 1));
  mret match a with
       | RecvError => (-1, EmptyString)
       | RecvAgain => (-2, EmptyString)
       | Received bytes => (Z.of_nat (String.length bytes), c_text bytes)
       end.

Definition process_discovery_datagram (fd : Z) (buffer_size : nat) : handler (option (string * string)) :=
  a ← ask (k_recvfrom fd (buffer_size - 1));
  mret ('(bytes, ip) ← a; Some (c_text bytes, ip)).

Definition accept_tcp_connection (server_fd : Z) : handler (Z * string) :=
  '(client_fd, ip) ← ask (k_accept server_fd);
  if client_fd =? -1 then mret (-1, ip) else sys (SysNonBlock client_fd);; mret (client_fd, ip).

Definition connect_to_tcp_node (target_ip : string) (target_port : Z) : handler Z :=
  sockfd ← ask k_socket;
  if sockfd =? -1 then mret (-1)
  else
    sys (SysNonBlock sockfd);;
    a ← ask (k_connect sockfd target_ip target_port);
    match a with
    | ConnectError => sys (SysClose sockfd);; mret (-1)
    | _ => mret sockfd
    end.

Definition broadcast_announce (sockfd targetport : Z) (message : string) : handler () :=
  sys (SysBroadcast sockfd targetport message).

(** ** [sys_epoll.c]

    No handler uses the results. *)

Definition remove_from_epoll_interest_list (target_fd : Z) : handler () := sys (SysEpollDel target_fd).
Definition rearm_epoll_fd (fd : Z) : handler () := sys (SysEpollMod fd (Z.lor EPOLLIN EPOLLONESHOT)).

(** ** The outbox *)

(** A connection enters the table. *)
Definition register (fd : Z) (ip : string) (port : Z) (pending : string) : handler () :=
  lock Writing;;
  ip' ← strncpy_ip ip;
  write_conn fd (set_conn 1 ip' port pending);;
  unlock Writing.

(** The body of the loop of [send_outbox]; [target_port] is an [int] compared with
    an [unsigned] and stored in one. *)
Definition send_out_msg (m : out_msg_t) : handler () :=
  target ← (if target_fd m =? -1 then call_query (find_fd (target_ip m) (wrap32 (target_port m)))
            else mret (target_fd m));
  if negb (target =? -1) then
    _ ← send_tcp_message target (message m);
    mret ()
  else
    new_fd ← connect_to_tcp_node (target_ip m) (target_port m);
    if negb (new_fd =? -1) then
      if new_fd <? Z.of_nat MAX_FDS then
        register new_fd (target_ip m) (wrap32 (target_port m)) (str_take (BUFFER_SIZE - 1) (message m));;
        sys (SysEpollAdd new_fd (Z.lor EPOLLIN EPOLLOUT))
      else sys (SysClose new_fd)
    else mret ().

Definition send_outbox (outbox : list out_msg_t) : handler () := each outbox send_out_msg.

(** ** The adapter

    A call of [resource_adapter_patch] with an empty outbox of [size] entries; the
    messages it leaves there. *)
Definition call_patch (ip : option string) (socket : Z) (buffer : option string) (size : option nat)
    (action : JuaniAction) : handler (list out_msg_t) :=
  env ← ask k_env;
  c ← get_ctx;
  '(_, ob) ← call_adapter (resource_adapter_patch env (Some c) ip (wrap32 socket) buffer action)
               ((fun s => Outbox s []) <$> size);
  mret match ob with Some o => ob_msgs o | None => [] end.

(** ** Event handlers *)

Definition handle_tcp_timer_expiration : handler () :=
  c ← get_ctx;
  sys (SysRead (sc_tcp_timerfd c));;
  remove_from_epoll_interest_list (sc_tcp_timerfd c);;
  sys (SysClose (sc_tcp_timerfd c));;
  forget_tcp_timer;;
  sys (SysEpollAdd (sc_tcp_public_fd c) EPOLLIN);;
  sys (SysEpollAdd (sc_erlang_tcp_fd c) EPOLLIN).

Definition handle_udp_timer_expiration : handler () :=
  c ← get_ctx;
  outbox ← call_patch None 0 None (Some 1%nat) ACTION_GET_RESOURCES;
  match outbox with
  | m :: _ => broadcast_announce (sc_udp_fd c) UDP_PORT (message m)
  | [] => mret ()
  end.

Definition handle_incoming_discovery : handler () :=
  c ← get_ctx;
  a ← process_discovery_datagram (sc_udp_fd c) BUFFER_SIZE;
  match a with
  | Some (buffer, sender_ip) =>
      _ ← call_patch (Some sender_ip) 0 (Some buffer) None ACTION_NEW_NODE_DISCOVERED;
      mret ()
  | None => mret ()
  end.

Definition handle_new_tcp_connection (server_fd : Z) : handler () :=
  '(client_fd, client_ip) ← accept_tcp_connection server_fd;
  if negb (client_fd =? -1) && (client_fd <? Z.of_nat MAX_FDS) then
    register client_fd client_ip 0 EmptyString;;
    sys (SysEpollAdd client_fd (Z.lor EPOLLIN EPOLLONESHOT))
  else mret ().

(** The address of the connection, copied under the lock of the table. *)
Definition copy_ip (curr_fd : Z) : handler string :=
  lock Reading;;
  c ← read_conn curr_fd;
  target_ip ← strncpy_ip (cn_ip c);
  unlock Reading;;
  mret target_ip.

Definition clear_entry (curr_fd : Z) : handler () :=
  lock Writing;;
  write_conn curr_fd clear_conn;;
  unlock Writing.

(** The loop over the lines of the buffer. *)
Definition handle_line (target_ip : string) (curr_fd : Z) (line : string) : handler () :=
  if (0 <? String.length line)%nat then
    outbox ← call_patch (Some target_ip) curr_fd (Some line) (Some MAX_OUTBOX) ACTION_RESPOND;
    if (0 <? length outbox)%nat then send_outbox outbox else mret ()
  else mret ().

Definition handle_client_message (curr_fd : Z) : handler Z :=
  target_ip ← copy_ip curr_fd;
  '(bytes_read, recv_buffer) ← receive_tcp_message curr_fd BUFFER_SIZE;
  if 0 <? bytes_read then
    each (strtok_all ch_nl recv_buffer) (handle_line target_ip curr_fd);;
    mret 1
  else if (bytes_read =? 0) || negb (bytes_read =? -2) then
    outbox ← call_patch (Some target_ip) curr_fd None (Some MAX_OUTBOX) ACTION_DISCONNECTED;
    send_outbox outbox;;
    remove_from_epoll_interest_list curr_fd;;
    sys (SysClose curr_fd);;
    clear_entry curr_fd;;
    mret 1
  else mret 1.

Definition handle_connection_success (curr_fd : Z) : handler () :=
  target_ip ← copy_ip curr_fd;
  ok ← ask (k_getsockopt curr_fd);
  if negb ok then
    outbox ← call_patch (Some target_ip) curr_fd (Some "CONNECT_FAILED") (Some MAX_OUTBOX) ACTION_DISCONNECTED;
    send_outbox outbox;;
    clear_entry curr_fd;;
    remove_from_epoll_interest_list curr_fd;;
    sys (SysClose curr_fd)
  else
    lock Writing;;
    c ← read_conn curr_fd;
    _ ← send_tcp_message curr_fd (cn_pending_message c);
    write_conn curr_fd clear_pending;;
    unlock Writing;;
    sys (SysEpollMod curr_fd (Z.lor EPOLLIN EPOLLONESHOT)).

(** The [do ... while (outbox_count > 0)] of the periodic check. *)
Fixpoint gc_loop (rounds : nat) : handler () :=
  match rounds with
  | O => fun _ => Spin
  | S rounds' =>
      outbox ← call_patch None (-1) None (Some MAX_OUTBOX) ACTION_CHECK_DEADNODES;
      send_outbox outbox;;
      if (0 <? length outbox)%nat then gc_loop rounds' else mret ()
  end.

Definition gc_rounds : handler () := fun fuel => gc_loop fuel fuel.

Definition handle_gc_timer_expiration : handler () :=
  c ← get_ctx;
  sys (SysRead (sc_gc_timerfd c));;
  gc_rounds.

(** ** The worker threads

    The [switch] of [worker_thread] in [thread_pool.c]. *)

Definition run_task (task : WorkerTask) : handler () :=
  match wt_type task with
  | TASK_TCP_CLIENT_MSG =>
      r ← handle_client_message (wt_fd task);
      if negb (r =? 0) then rearm_epoll_fd (wt_fd task) else mret ()
  | TASK_UDP_DISCOVERY =>
      c ← get_ctx;
      handle_incoming_discovery;;
      rearm_epoll_fd (sc_udp_fd c)
  | TASK_UDP_ANNOUNCE => handle_udp_timer_expiration
  | TASK_GARBAGE_COLLECTOR => handle_gc_timer_expiration
  end.

(** ** The epoll loop

    The body of the loop of [main.c], for one event: the tasks it pushes for the
    workers (a message is pushed before [handle_connection_success] runs).  The
    other handlers run in the epoll thread itself. *)
Definition epoll_event (curr_fd event_type : Z) : handler (list WorkerTask) :=
  c ← get_ctx;
  if curr_fd =? sc_tcp_timerfd c then handle_tcp_timer_expiration;; mret []
  else if curr_fd =? sc_udp_timerfd c then sys (SysRead curr_fd);; mret [Task (-1) TASK_UDP_ANNOUNCE]
  else if curr_fd =? sc_gc_timerfd c then sys (SysRead curr_fd);; mret [Task (-1) TASK_GARBAGE_COLLECTOR]
  else if curr_fd =? sc_udp_fd c then mret [Task (sc_udp_fd c) TASK_UDP_DISCOVERY]
  else if (curr_fd =? sc_tcp_public_fd c) || (curr_fd =? sc_erlang_tcp_fd c) then
    handle_new_tcp_connection curr_fd;; mret []
  else
    (if negb (Z.land event_type EPOLLOUT =? 0) then handle_connection_success curr_fd else mret ());;
    mret (if negb (Z.land event_type EPOLLIN =? 0) then [Task curr_fd TASK_TCP_CLIENT_MSG] else []).

(** What can happen to the agent: epoll reports a descriptor, or a worker runs a
    task. *)
Inductive occurrence := Reported (fd event_type : Z) | Taken (task : WorkerTask).

Definition happen (o : occurrence) : handler () :=
  match o with
  | Reported fd event_type => _ ← epoll_event fd event_type; mret ()
  | Taken task => run_task task
  end.

End handlers.
