(* ===== verification/EventSafety.v ===== *)
(** * EventSafety: the event handlers return, and keep the invariant of the agent

    Theorems about the handlers of EventHandler, each run without interference:
    they return, whatever the system answers, and what they send. *)

From Stdlib Require Import Ascii.
From S2P Require Import Prelude CString TablaHash CommonTypes LocalResource OwnedJobs KnownNodes NodeStructures Connections Program Adapter ResourceAdapter AdapterSafety Protocol Recovery ThreadPool Outbox Server EventHandler.
Local Open Scope Z_scope.

(** ** Progress of the periodic check *)

Abbreviation jobs_in n := (jobs_map (nd_owned_jobs n)).

Lemma without_subseteq k ids n n' : without_jobs k ids n n' -> jobs_in n' ⊆ jobs_in n.
Proof.
  intros Hw. apply map_subseteq_spec. intros id j Hj. rewrite (wj_jobs _ _ _ _ Hw) in Hj. by destruct (decide _).
Qed.

Lemma without_strict k ids n n' : without_jobs k ids n n' -> jobs_of n ids -> ids ≠ [] ->
  (size (jobs_in n') < size (jobs_in n))%nat.
Proof.
  intros Hw [_ Hex] Hne. apply map_subset_size. split; [by eapply without_subseteq|]. intros Hsub.
  destruct ids as [|id ids]; [done|]. destruct (Hex id) as [j Hj]; [by left|].
  eapply map_subseteq_spec in Hsub; [|exact Hj]. rewrite (wj_jobs _ _ _ _ Hw), decide_True in Hsub by by left. done.
Qed.

Lemma buried_progress k conns dead n n' ms :
  buried k conns dead n n' ms -> jobs_in n' ⊆ jobs_in n /\ (ms ≠ [] -> (size (jobs_in n') < size (jobs_in n))%nat).
Proof.
  induction 1 as [n|ip port dead n n1 n2 n3 fd affected ms _ Hz Hp Hw _ [IHs IH]]; [done|].
  assert (Hj : jobs_in n1 = jobs_in n).
  { destruct (decide (fd = -1)); [by subst|]. by destruct Hz as (r & jobs & _ & ->). }
  rewrite <- Hj. pose proof (without_subseteq _ _ _ _ Hw) as Hs. split; [by etrans|].
  intros Hne. destruct affected as [|id affected].
  - pose proof (map_subseteq_size _ _ Hs). specialize (IH Hne). lia.
  - pose proof (map_subseteq_size _ _ IHs). pose proof (without_strict _ _ _ _ Hw (picks_jobs _ _ _ _ Hp) ltac:(done)). lia.
Qed.

Lemma timeout_replies_nil n ids : jobs_of n ids -> replies timeout_reply n ids = [] -> ids = [].
Proof.
  intros [_ Hex] Hr. destruct ids as [|id ids]; [done|]. destruct (Hex id) as [j Hj]; [by left|].
  apply (f_equal length) in Hr. unfold replies in Hr. cbn [mbind list_bind] in Hr.
  rewrite Hj, length_app, timeout_reply_length in Hr. done.
Qed.

(** A check that sends nothing leaves no timed-out job; any other ends a job. *)
Lemma check_progress k n conns now1 now2 n' ms :
  check_done k conns now1 now2 n n' ms ->
  (take MAX_OUTBOX ms ≠ [] -> (size (jobs_in n') < size (jobs_in n))%nat) /\
  (take MAX_OUTBOX ms = [] -> forall id j, jobs_in n' !! id = Some j -> ~ timed_out now2 j).
Proof.
  intros (dead & nodes' & n1 & ms1 & served & rest & _ & Hb & Hp & Ht & Hw & ->).
  destruct (buried_progress _ _ _ _ _ _ Hb) as [Hbs Hbn].
  change (jobs_in (set_known n nodes')) with (jobs_in n) in *.
  pose proof (picks_jobs _ _ _ _ Hp) as [Hnd Hex].
  assert (Hserved : jobs_of n1 served).
  { split; [by apply NoDup_app in Hnd as [? _]|]. intros id Hin. apply Hex, elem_of_app. by left. }
  split.
  - pose proof (map_subseteq_size _ _ Hbs). pose proof (map_subseteq_size _ _ (without_subseteq _ _ _ _ Hw)).
    intros Hne. destruct ms1 as [|m ms1]; [|specialize (Hbn ltac:(done)); lia].
    destruct served as [|id served]; [done|].
    pose proof (without_strict _ _ _ _ Hw Hserved ltac:(done)). lia.
  - intros Hnil id j Hj. apply take_nil_inv in Hnil as [?|[-> Hr]%app_nil]; [done|].
    apply (timeout_replies_nil _ _ Hserved) in Hr as ->. destruct rest as [|id' rest].
    + intros Hto. rewrite (wj_jobs _ _ _ _ Hw) in Hj. destruct (decide _); [done|].
      assert (Hin : id ∈ []) by (eapply (pk_complete _ _ _ _ Hp); [simpl; lia|exact Hj|done]). by apply not_elem_of_nil in Hin.
    + destruct (te_stop _ _ _ _ Ht id' rest eq_refl) as (j' & Hj' & Hgt).
      assert (Hj2 : jobs_in n' !! id' = Some j') by (rewrite (wj_jobs _ _ _ _ Hw), decide_False; [done|apply not_elem_of_nil]).
      pose proof (granted_length j' (ow_job _ _ _ _ (wj_wf _ _ _ _ Hw) Hj2)) as Hlen.
      unfold replies in Hgt. cbn [app mbind list_bind] in Hgt. rewrite Hj', app_nil_r, timeout_reply_length in Hgt.
      unfold MAX_JOB_RESOURCES, MAX_OUTBOX in *. simpl in Hgt. lia.
Qed.

Section server.
Context {K : Type} `{Kernel K}.
Abbreviation server := (server K).
Abbreviation handler := (@handler K).

(** What the model relies on of the system: [send] accepts at most what it is
    given and [recv] returns at most what it is asked for; [accept] and [socket]
    return a descriptor or -1, and an IPv4 address has at most 15 characters; and
    [send] does not answer [EAGAIN] for ever. *)
Class KernelLaws := {
  kl_stall : Z -> K -> nat;
  kl_again fd s k k' : k_send fd s k = (AnswerAgain, k') -> (kl_stall fd k' < kl_stall fd k)%nat;
  kl_send fd s k n k' : k_send fd s k = (AnswerSent n, k') -> (n <= String.length s)%nat;
  kl_recv fd n k b k' : k_recv fd n k = (Received b, k') -> (String.length b <= n)%nat;
  kl_accept fd k z ip k' : k_accept fd k = ((z, ip), k') -> -1 <= z /\ (String.length ip <= 15)%nat;
  kl_socket k z k' : k_socket k = (z, k') -> -1 <= z
}.

(** The bytes sent on a descriptor. *)
Definition wire (fd : Z) (log : list sys_event) : string :=
  foldr (fun e acc => match e with
                      | SysSend fd' bytes => if fd' =? fd then bytes +:+ acc else acc
                      | _ => acc
                      end) EmptyString log.

Lemma wire_app fd l1 l2 : wire fd (l1 ++ l2) = wire fd l1 +:+ wire fd l2.
Proof.
  induction l1 as [|e l1 IH]; [done|]. simpl. rewrite IH. destruct e; try done.
  destruct (_ =? _); [|done]. by rewrite str_app_assoc.
Qed.

(** Only the system was asked something. *)
Definition same_state (sv sv' : server) : Prop :=
  sv_node sv' = sv_node sv /\ sv_conns sv' = sv_conns sv /\ sv_ctx sv' = sv_ctx sv.

Section laws.
Context `{!KernelLaws}.

(** The outcome of a send: everything, or a strict prefix and -1. *)
Record sends (sockfd : Z) (text : string) (sv : server) (z : Z) (sv' : server) : Prop := {
  sn_state : same_state sv sv';
  sn_others : forall fd, fd ≠ sockfd -> wire fd (sv_log sv') = wire fd (sv_log sv);
  sn_bytes : exists bytes rest, text = bytes +:+ rest /\
    wire sockfd (sv_log sv') = wire sockfd (sv_log sv) +:+ bytes /\
    (z = Z.of_nat (String.length bytes) /\ rest = EmptyString \/ z = -1 /\ rest ≠ EmptyString)
}.

(** The loop after [total] bytes. *)
Record sends_rest (sockfd : Z) (text : string) (total : nat) (sv : server) (z : Z) (sv' : server) : Prop := {
  sr_state : same_state sv sv';
  sr_others : forall fd, fd ≠ sockfd -> wire fd (sv_log sv') = wire fd (sv_log sv);
  sr_bytes : exists bytes rest, str_drop total text = bytes +:+ rest /\
    wire sockfd (sv_log sv') = wire sockfd (sv_log sv) +:+ bytes /\
    (z = Z.of_nat (String.length text) /\ rest = EmptyString \/ z = -1 /\ rest ≠ EmptyString)
}.

Lemma sends_failed sockfd text total sv k :
  (total < String.length text)%nat -> sends_rest sockfd text total sv (-1) (set_kernel k sv).
Proof.
  intros Hlt. split; [done|done|]. exists EmptyString, (str_drop total text). rewrite str_app_nil_r.
  split_and!; [done|done|]. right. split; [done|]. intros He. apply (f_equal String.length) in He.
  rewrite str_drop_length in He. simpl in He. lia.
Qed.

Lemma sends_step sockfd text total n k sv z sv' :
  sends_rest sockfd text (total + n) (log_event (SysSend sockfd (str_take n (str_drop total text))) (set_kernel k sv)) z sv' ->
  sends_rest sockfd text total sv z sv'.
Proof.
  intros [(? & ? & ?) Ho (bytes & rest & Ht & Hw & Hz)]. split; [done| |].
  - intros fd Hne. rewrite (Ho fd Hne). simpl. rewrite wire_app. simpl.
    rewrite (proj2 (Z.eqb_neq _ _)) by done. by rewrite str_app_nil_r.
  - exists (str_take n (str_drop total text) +:+ bytes), rest. split_and!; [| |done].
    + by rewrite str_app_assoc, <- Ht, <- str_drop_drop, str_take_drop.
    + rewrite Hw. simpl. rewrite wire_app. simpl. rewrite Z.eqb_refl, str_app_nil_r. by rewrite str_app_assoc.
Qed.

Lemma sends_sleep sockfd text total k sv z sv' :
  sends_rest sockfd text total (log_event SysSleep (set_kernel k sv)) z sv' -> sends_rest sockfd text total sv z sv'.
Proof.
  intros [(? & ? & ?) Ho (bytes & rest & Ht & Hw & Hz)]. split; [done| |].
  - intros fd Hne. rewrite (Ho fd Hne). simpl. rewrite wire_app. simpl. by rewrite str_app_nil_r.
  - exists bytes, rest. split_and!; [done| |done]. rewrite Hw. simpl. rewrite wire_app. simpl. by rewrite str_app_nil_r.
Qed.

Lemma send_loop_unfold f g sockfd text total sv bytes k :
  (total < String.length text)%nat -> k_send sockfd (str_drop total text) (sv_kernel sv) = (bytes, k) ->
  serve (send_loop (S f) sockfd text total g) sv = match bytes with
    | AnswerSent n =>
        if (0 <? n)%nat then serve (send_loop f sockfd text (total + n) g)
          (log_event (SysSend sockfd (str_take n (str_drop total text))) (set_kernel k sv))
        else Some (-1, set_kernel k sv)
    | AnswerAgain => serve (send_loop f sockfd text total g) (log_event SysSleep (set_kernel k sv))
    | AnswerError => Some (-1, set_kernel k sv) end.
Proof.
  intros Hlt Hk. cbn [send_loop]. rewrite (proj2 (Nat.ltb_lt _ _) Hlt). cbv zeta. rewrite serve_bind.
  unfold ask. rewrite serve_perform. cbn [server_step]. rewrite Hk. cbn [mbind option_bind].
  destruct bytes as [n| |]; [|by rewrite serve_bind; unfold sys; rewrite serve_perform|done].
  destruct (0 <? n)%nat; [|done]. rewrite serve_bind. unfold sys. by rewrite serve_perform.
Qed.

(** The loop ends: every answer advances, or brings [EAGAIN] closer to its end. *)
Lemma send_loop_ends sockfd text left stall total sv :
  (String.length text - total <= left)%nat -> (kl_stall sockfd (sv_kernel sv) <= stall)%nat ->
  (total <= String.length text)%nat ->
  exists fuel z sv', sends_rest sockfd text total sv z sv' /\
    forall fuel' g, (fuel <= fuel')%nat -> serve (send_loop fuel' sockfd text total g) sv = Some (z, sv').
Proof.
  revert stall total sv. induction left as [left IHl] using lt_wf_ind. induction stall as [stall IHs] using lt_wf_ind.
  intros total sv Hl Hs Ht. destruct (Nat.ltb_spec total (String.length text)) as [Hlt|Hge].
  2:{ exists 1%nat, (Z.of_nat total), sv. split.
      - split; [done|done|]. exists EmptyString, EmptyString.
        split_and!; [by apply str_drop_all|by rewrite str_app_nil_r|]. left. split; [f_equal; lia|done].
      - intros [|f] g Hf; [lia|]. cbn [send_loop]. by rewrite (proj2 (Nat.ltb_ge _ _) Hge). }
  destruct (k_send sockfd (str_drop total text) (sv_kernel sv)) as [bytes k] eqn:Hk.
  pose proof (fun f g => send_loop_unfold f g sockfd text total sv bytes k Hlt Hk) as Hunfold.
  assert (Hfail : (forall f g, serve (send_loop (S f) sockfd text total g) sv = Some (-1, set_kernel k sv)) ->
    exists fuel z sv', sends_rest sockfd text total sv z sv' /\
      forall fuel' g, (fuel <= fuel')%nat -> serve (send_loop fuel' sockfd text total g) sv = Some (z, sv')).
  { intros Hf. exists 1%nat, (-1), (set_kernel k sv). split; [by apply sends_failed|]. intros [|f] g Hle; [lia|]. apply Hf. }
  destruct bytes as [n| |]; [|clear Hfail|by apply Hfail].
  - destruct (Nat.ltb_spec 0 n) as [Hn|_]; [|by apply Hfail]. clear Hfail.
    pose proof (kl_send _ _ _ _ _ Hk) as Hb. rewrite str_drop_length in Hb.
    destruct (IHl (String.length text - (total + n))%nat ltac:(lia) _ (total + n)%nat
      (log_event (SysSend sockfd (str_take n (str_drop total text))) (set_kernel k sv))
      (Nat.le_refl _) (Nat.le_refl _) ltac:(lia)) as (fuel & z & sv' & Hr & Hf).
    exists (S fuel), z, sv'. split; [by eapply sends_step|]. intros [|f] g Hle; [lia|]. rewrite Hunfold. apply Hf. lia.
  - pose proof (kl_again _ _ _ _ Hk) as Hb.
    destruct (IHs (kl_stall sockfd k) ltac:(lia) total (log_event SysSleep (set_kernel k sv)) Hl (Nat.le_refl _) Ht)
      as (fuel & z & sv' & Hr & Hf).
    exists (S fuel), z, sv'. split; [by eapply sends_sleep|]. intros [|f] g Hle; [lia|]. rewrite Hunfold. apply Hf. lia.
Qed.

Lemma evals_send sockfd text sv (Q : Z -> server -> Prop) :
  (forall z sv', sends sockfd text sv z sv' -> Q z sv') -> evals (send_tcp_message sockfd text) sv Q.
Proof.
  intros HQ.
  destruct (send_loop_ends sockfd text _ _ 0 sv (Nat.le_refl _) (Nat.le_refl _) (Nat.le_0_l _)) as (f & z & sv' & Hr & Hf).
  exists f, z, sv'. split; [|by intros; apply Hf]. apply HQ. destruct Hr as [? ? (bytes & rest & Ht & Hw & Hz)].
  split; [done|done|]. exists bytes, rest. change (str_drop 0 text) with text in Ht. split_and!; [done|done|].
  destruct Hz as [[-> ->]|?]; [left|by right]. by rewrite Ht, str_app_nil_r.
Qed.

(** ** The invariant of the server *)

Definition conn_short (c : ConnectionState) : Prop := (String.length (cn_ip c) <= 15)%nat.

Record server_inv (k : Z) (totals : list Z) (sv : server) : Prop := {
  si_agent : agent_inv k totals (sv_node sv);
  si_conns : conns_ok (sv_conns sv);
  si_short : Forall conn_short (sv_conns sv)
}.

Lemma server_inv_same k totals sv sv' : same_state sv sv' -> server_inv k totals sv -> server_inv k totals sv'.
Proof. intros (Hn & Hc & _) [? ? ?]. split; by rewrite ?Hn, ?Hc. Qed.

Lemma server_inv_weaken k k' totals sv : 0 <= k' <= k -> server_inv k totals sv -> server_inv k' totals sv.
Proof. intros Hk [? ? ?]. split; [by eapply agent_inv_weaken|done..]. Qed.

(** An operation on the table, whose descriptors are in range. *)
Lemma entry_some k totals fd sv :
  server_inv k totals sv -> 0 <= fd < Z.of_nat MAX_FDS ->
  exists c, sv_conns sv !! Z.to_nat fd = Some c /\ entry fd (sv_conns sv) = Some c /\ conn_short c.
Proof.
  intros [_ Hc Hs] Hfd. destruct (lookup_lt_is_Some_2 (sv_conns sv) (Z.to_nat fd)) as [c Hl].
  { rewrite Hc. lia. }
  exists c. split; [done|]. split; [|by eapply Forall_lookup_1]. unfold entry.
  by rewrite (proj2 (Z.leb_le _ _)) by lia.
Qed.

Lemma evals_read_conn k totals fd sv (Q : ConnectionState -> server -> Prop) :
  server_inv k totals sv -> 0 <= fd < Z.of_nat MAX_FDS ->
  (forall c, sv_conns sv !! Z.to_nat fd = Some c -> conn_short c -> Q c sv) -> evals (read_conn fd) sv Q.
Proof.
  intros Hi Hfd HQ. destruct (entry_some _ _ _ _ Hi Hfd) as (c & Hl & He & Hs).
  apply (evals_perform _ c sv sv); [|by apply HQ]. simpl. rewrite He. simpl. rewrite app_nil_r. by destruct sv.
Qed.

Lemma evals_write_conn k totals fd f sv (Q : () -> server -> Prop) :
  server_inv k totals sv -> 0 <= fd < Z.of_nat MAX_FDS ->
  (forall c, conn_short c -> conn_short (f c)) ->
  (forall c sv', sv_conns sv !! Z.to_nat fd = Some c -> sv' = set_conns (<[Z.to_nat fd := f c]> (sv_conns sv)) sv ->
     server_inv k totals sv' -> Q () sv') ->
  evals (write_conn fd f) sv Q.
Proof.
  intros Hi Hfd Hf HQ. destruct (entry_some _ _ _ _ Hi Hfd) as (c & Hl & He & Hc). destruct Hi as [Ha Hco Hs].
  eapply evals_perform.
  - simpl. rewrite He. simpl. rewrite app_nil_r. done.
  - eapply HQ; [done|done|]. split; [done| |]; simpl.
    + unfold conns_ok. by rewrite length_insert.
    + apply Forall_insert; [done|]. by apply Hf.
Qed.

(** The address of a connection. *)
Lemma evals_copy_ip k totals fd sv (Q : string -> server -> Prop) :
  server_inv k totals sv -> 0 <= fd < Z.of_nat MAX_FDS ->
  (forall c, sv_conns sv !! Z.to_nat fd = Some c -> conn_short c -> Q (cn_ip c) sv) -> evals (copy_ip fd) sv Q.
Proof.
  intros Hi Hfd HQ. apply evals_bind, evals_lock, evals_bind. eapply evals_read_conn; [done|done|].
  intros c Hc Hs. apply evals_bind, evals_strncpy; [done|]. by apply evals_bind, evals_unlock, evals_ret, HQ.
Qed.

Lemma evals_find_fd k totals ip port sv (Q : Z -> server -> Prop) :
  server_inv k totals sv ->
  (forall fd, find_fd_by_ip_port (sv_conns sv) ip port = Some fd -> Q fd sv) -> evals (call_query (find_fd ip port)) sv Q.
Proof.
  intros Hi HQ. destruct (find_fd_total (sv_conns sv) ip port (si_conns _ _ _ Hi)) as (fd & Hfd & _).
  apply evals_bind. eapply evals_adapter; [by apply run_read_table|].
  apply evals_ret. simpl. rewrite app_nil_r. destruct sv. by apply HQ.
Qed.

(** The state in which a call of the adapter from [sv] starts, and what it leaves. *)
Definition call_state (size : option nat) (sv : server) : adapter_state :=
  AdapterState (sv_shared sv) ((fun s => Outbox s []) <$> size) [].
Definition left_in (st : adapter_state) : list out_msg_t :=
  match st_outbox st with Some o => ob_msgs o | None => [] end.

Lemma call_view size sv : view (Caller size (sv_conns sv)) (call_state size sv) (sv_node sv) [].
Proof. by split. Qed.

Lemma evals_call ip socket buffer size action sv env kn st (Q : list out_msg_t -> server -> Prop) :
  k_env (sv_kernel sv) = (env, kn) ->
  resource_adapter_patch env (Some (sv_ctx sv)) ip (wrap32 socket) buffer action (call_state size sv) = Some ((), st) ->
  (Forall short_ip (left_in st) ->
     Q (left_in st) (Server (st_shared st) (sv_ctx sv) kn (sv_log sv ++ closes (st_trace st)))) ->
  evals (call_patch ip socket buffer size action) sv Q.
Proof.
  intros Henv Hp HQ. apply evals_bind. eapply evals_asked; [exact Henv|].
  apply evals_bind, evals_ctx, evals_bind. eapply evals_adapter; [exact Hp|]. apply evals_ret.
  apply HQ. pose proof (addresses_patch _ _ _ _ _ _ _ _ _ Hp) as Hs. unfold left_in.
  destruct (st_outbox st) as [o|]; [|constructor]. apply Hs. simpl. destruct size; [constructor|done].
Qed.

(** A call of the adapter uses up one unit of room. *)
Lemma evals_patch k totals ip socket buffer size action sv (Q : list out_msg_t -> server -> Prop) :
  server_inv k totals sv -> 1 <= k -> outbox_for action (Caller size (sv_conns sv)) -> input_ok ip buffer action ->
  (forall ms sv', Forall short_ip ms -> server_inv (k - 1) totals sv' -> sv_conns sv' = sv_conns sv ->
     sv_ctx sv' = sv_ctx sv -> Q ms sv') ->
  evals (call_patch ip socket buffer size action) sv Q.
Proof.
  intros [Ha Hc Hs] Hk Hsz Hin HQ. destruct (k_env (sv_kernel sv)) as [env kn] eqn:Henv.
  destruct (patch_keeps (Caller size (sv_conns sv)) k env (Some (sv_ctx sv)) ip (wrap32 socket) buffer action Hk Hc
    (wrap32_range _) Hsz Hin _ _ [] Ha _ (call_view size sv)) as ([] & st & n' & ms' & Hp & [Hn _ Hcs] & Hi').
  eapply evals_call; [exact Henv|exact Hp|]. intros Hshort.
  apply HQ; [exact Hshort| |exact Hcs|done]. split; simpl; rewrite ?Hn, ?Hcs; done.
Qed.

Lemma evals_register k totals fd ip port pending sv (Q : () -> server -> Prop) :
  server_inv k totals sv -> 0 <= fd < Z.of_nat MAX_FDS -> (String.length ip <= 15)%nat ->
  (forall c sv', sv_conns sv !! Z.to_nat fd = Some c ->
     sv' = set_conns (<[Z.to_nat fd := set_conn 1 ip port pending c]> (sv_conns sv)) sv ->
     server_inv k totals sv' -> Q () sv') ->
  evals (register fd ip port pending) sv Q.
Proof.
  intros Hi Hfd Hip HQ. apply evals_bind, evals_lock, evals_bind, evals_strncpy; [done|]. apply evals_bind.
  eapply evals_write_conn; [exact Hi|done|done|]. intros c sv' Hc Hs Hi'. by apply evals_unlock, (HQ c).
Qed.

(** Sending keeps the invariant and the node. *)
Lemma evals_send_out k totals m sv :
  server_inv k totals sv -> short_ip m ->
  evals (send_out_msg m) sv (fun _ sv' => server_inv k totals sv' /\ sv_node sv' = sv_node sv /\ sv_ctx sv' = sv_ctx sv).
Proof.
  intros Hi Hm. unfold send_out_msg. apply evals_bind.
  apply (evals_mono _ _ (fun _ sv' => sv' = sv)).
  { destruct (target_fd m =? -1); [|by apply evals_ret].
    by eapply evals_find_fd. }
  intros target ? ->. destruct (negb (target =? -1)).
  - apply evals_bind, evals_send. intros z sv' Hs. apply evals_ret. pose proof (sn_state _ _ _ _ _ Hs) as (Hn & ? & Hx).
    split; [exact (server_inv_same _ _ _ _ (sn_state _ _ _ _ _ Hs) Hi)|done].
  - apply evals_bind. unfold connect_to_tcp_node. apply evals_bind, evals_ask. intros fd kn Hfd.
    pose proof (kl_socket _ _ _ Hfd) as Hge.
    assert (Hsame : forall sv1, same_state sv sv1 ->
      server_inv k totals sv1 /\ sv_node sv1 = sv_node sv /\ sv_ctx sv1 = sv_ctx sv).
    { intros sv1 Hs1. split; [by eapply server_inv_same|]. by destruct Hs1 as (? & _ & ?). }
    destruct (Z.eqb_spec fd (-1)) as [->|Hne]; [by apply evals_ret, evals_ret, Hsame|].
    apply evals_bind, evals_sys, evals_bind, evals_ask. intros a kn2 _.
    assert (Hopen : forall sv1, same_state sv sv1 ->
      evals (if negb (fd =? -1) then
               if fd <? Z.of_nat MAX_FDS then
                 register fd (target_ip m) (wrap32 (target_port m)) (str_take (BUFFER_SIZE - 1) (message m));;
                 sys (SysEpollAdd fd (Z.lor EPOLLIN EPOLLOUT))
               else sys (SysClose fd)
             else mret ()) sv1
        (fun _ sv' => server_inv k totals sv' /\ sv_node sv' = sv_node sv /\ sv_ctx sv' = sv_ctx sv)).
    { intros sv1 Hs1. rewrite (proj2 (Z.eqb_neq _ _) Hne). cbn [negb].
      destruct (Hsame _ Hs1) as (Hi1 & Hn1 & Hx1).
      destruct (Z.ltb_spec fd (Z.of_nat MAX_FDS)); [|by apply evals_sys, Hsame].
      apply evals_bind. eapply (evals_register k totals); [done|lia|done|].
      intros c sv2 _ -> Hi2. apply evals_sys. split; [by destruct Hi2|done]. }
    destruct a; [apply evals_ret; by apply Hopen..|].
    by apply evals_bind, evals_sys, evals_ret, evals_ret, Hsame.
Qed.

Lemma evals_send_outbox k totals ms sv :
  server_inv k totals sv -> Forall short_ip ms ->
  evals (send_outbox ms) sv (fun _ sv' => server_inv k totals sv' /\ sv_node sv' = sv_node sv /\ sv_ctx sv' = sv_ctx sv).
Proof.
  intros Hi Hms. unfold send_outbox.
  apply (evals_each (fun _ sv' => server_inv k totals sv' /\ sv_node sv' = sv_node sv /\ sv_ctx sv' = sv_ctx sv)); [done|].
  intros m l sv1 Hm (Hi1 & Hn1 & Hx1). eapply evals_mono; [apply (evals_send_out k totals); [done|]|].
  - rewrite Forall_forall in Hms. by apply Hms.
  - intros _ sv2 (Hi2 & Hn2 & Hx2). split_and!; [done|congruence..].
Qed.

(** ** The handlers return and keep the invariant *)

(** Room for the lines of one buffer and for a disconnection. *)
Definition EVENT_COST : Z := Z.of_nat BUFFER_SIZE.

(** The bytes hold no RESERVE with a word that overflows the array of
    [handle_reserve]. *)
Definition tame (bytes : string) : Prop :=
  Forall (fun l => reserve_overflow (sscanf l "RESERVE %u %s %u") = false) (strtok_all ch_nl (c_text bytes)).

Lemma c_text_length s : (String.length (c_text s) <= String.length s)%nat.
Proof. induction s as [|c s IH]; simpl; [done|]. destruct (Ascii.eqb c "000"); simpl; lia. Qed.

Lemma evals_lines k totals ip fd (l : list string) sv :
  server_inv k totals sv -> Z.of_nat (length l) <= k ->
  Forall (fun l => reserve_overflow (sscanf l "RESERVE %u %s %u") = false) l ->
  evals (each l (handle_line ip fd)) sv (fun _ sv' => server_inv (k - Z.of_nat (length l)) totals sv').
Proof.
  intros Hi Hk Hl. rewrite Forall_forall in Hl.
  eapply evals_mono;
    [apply (evals_each (fun rest sv' => (length rest <= length l)%nat /\
       server_inv (k - Z.of_nat (length l) + Z.of_nat (length rest)) totals sv'))|].
  - split; [done|]. by replace (k - Z.of_nat (length l) + Z.of_nat (length l)) with k by lia.
  - intros line rest sv1 Hin [Hle Hi1]. simpl in Hle, Hi1. unfold handle_line.
    assert (Hw : forall sv2, server_inv (k - Z.of_nat (length l) + Z.of_nat (S (length rest))) totals sv2 ->
      (length rest <= length l)%nat /\ server_inv (k - Z.of_nat (length l) + Z.of_nat (length rest)) totals sv2).
    { intros sv2 Hi2. split; [lia|]. eapply server_inv_weaken; [|exact Hi2]. lia. }
    destruct (0 <? String.length line)%nat; [|by apply evals_ret, Hw].
    apply evals_bind. eapply (evals_patch _ totals); [exact Hi1|lia|apply full_max| |].
    + split; [by eexists|]. intros b [= <-]. by apply Hl.
    + intros ms sv2 Hms Hi2 _ _.
      replace (k - Z.of_nat (length l) + Z.of_nat (S (length rest)) - 1)
        with (k - Z.of_nat (length l) + Z.of_nat (length rest)) in Hi2 by lia.
      destruct (0 <? length ms)%nat; [|apply evals_ret; split; [lia|done]].
      eapply evals_mono; [by eapply evals_send_outbox|]. intros _ sv3 (Hi3 & _). split; [lia|done].
  - intros _ sv' [_ Hi']. by rewrite Z.add_0_r in Hi'.
Qed.

(** The table entry of a closed connection. *)
Definition cleared (fd : Z) (sv : server) : Prop :=
  exists c, sv_conns sv !! Z.to_nat fd = Some c /\ cn_is_active c = 0.

Lemma evals_clear k totals fd sv :
  server_inv k totals sv -> 0 <= fd < Z.of_nat MAX_FDS ->
  evals (clear_entry fd) sv (fun _ sv' => server_inv k totals sv' /\ cleared fd sv').
Proof.
  intros Hi Hfd. apply evals_bind, evals_lock, evals_bind.
  eapply evals_write_conn; [exact Hi|done|intros c _; unfold conn_short; simpl; lia|].
  intros c sv' Hc -> Hi'. apply evals_unlock. split; [exact Hi'|]. exists (clear_conn c). split; [|done]. simpl.
  apply list_lookup_insert_eq. by eapply lookup_lt_Some.
Qed.

Lemma server_log k totals e sv : server_inv k totals sv -> server_inv k totals (log_event e sv).
Proof. by apply server_inv_same. Qed.
Lemma server_kernel k totals kn sv : server_inv k totals sv -> server_inv k totals (set_kernel kn sv).
Proof. by apply server_inv_same. Qed.

Lemma evals_client k totals fd sv :
  server_inv k totals sv -> EVENT_COST <= k -> 0 <= fd < Z.of_nat MAX_FDS ->
  (forall b kn, k_recv fd (BUFFER_SIZE - 1) (sv_kernel sv) = (Received b, kn) -> tame b) ->
  evals (handle_client_message fd) sv (fun z sv' => z = 1 /\ server_inv (k - EVENT_COST) totals sv').
Proof.
  intros Hi Hk Hfd Htame. unfold EVENT_COST, BUFFER_SIZE in Hk. unfold handle_client_message.
  apply evals_bind. eapply evals_copy_ip; [exact Hi|done|]. intros c Hc Hshort.
  apply evals_bind. unfold receive_tcp_message.
  apply evals_bind, evals_ask. intros a kn Ha. apply evals_ret.
  pose proof (server_kernel _ _ kn _ Hi) as Hi1.
  assert (Hkeep : forall sv', server_inv k totals sv' -> server_inv (k - EVENT_COST) totals sv').
  { intros sv'. apply server_inv_weaken. unfold EVENT_COST, BUFFER_SIZE. lia. }
  assert (Hclose : evals (
      outbox ← call_patch (Some (cn_ip c)) fd None (Some MAX_OUTBOX) ACTION_DISCONNECTED;
      send_outbox outbox;; sys (SysEpollDel fd);; sys (SysClose fd);; clear_entry fd;; mret 1)
      (set_kernel kn sv) (fun z sv' => z = 1 /\ server_inv (k - EVENT_COST) totals sv')).
  { apply evals_bind. eapply (evals_patch k totals); [exact Hi1|lia|apply full_max|done|].
    intros ms sv2 Hms Hi2 _ _. apply evals_bind. eapply evals_mono; [by eapply evals_send_outbox|].
    intros _ sv3 (Hi3 & _). apply evals_bind, evals_sys, evals_bind, evals_sys, evals_bind.
    eapply evals_mono; [by eapply evals_clear; [do 2 apply server_log|]|]. intros _ sv4 [Hi4 _]. apply evals_ret.
    split; [done|]. eapply server_inv_weaken; [|exact Hi4]. unfold EVENT_COST, BUFFER_SIZE. lia. }
  destruct a as [b| |]; cbv iota beta; [|by apply evals_ret; auto|exact Hclose].
  destruct (Z.ltb_spec 0 (Z.of_nat (String.length b))) as [Hpos|Hz].
  - pose proof (kl_recv _ _ _ _ _ Ha) as Hlen. pose proof (strtok_all_length ch_nl (c_text b)) as Htok.
    pose proof (c_text_length b) as Hct. unfold BUFFER_SIZE in Hlen. apply evals_bind.
    eapply evals_mono; [apply (evals_lines k totals); [exact Hi1|lia|by eapply Htame]|].
    intros [] sv2 Hi2. apply evals_ret. split; [done|]. eapply server_inv_weaken; [|exact Hi2].
    unfold EVENT_COST, BUFFER_SIZE. lia.
  - rewrite (proj2 (Z.eqb_eq _ _)) by lia. exact Hclose.
Qed.

Lemma evals_success k totals fd sv :
  server_inv k totals sv -> EVENT_COST <= k -> 0 <= fd < Z.of_nat MAX_FDS ->
  evals (handle_connection_success fd) sv (fun _ sv' => server_inv (k - EVENT_COST) totals sv').
Proof.
  intros Hi Hk Hfd. unfold EVENT_COST, BUFFER_SIZE in Hk. unfold handle_connection_success.
  assert (Hless : forall sv', server_inv (k - 1) totals sv' -> server_inv (k - EVENT_COST) totals sv').
  { intros sv'. apply server_inv_weaken. unfold EVENT_COST, BUFFER_SIZE. lia. }
  apply evals_bind. eapply evals_copy_ip; [exact Hi|done|]. intros c Hc Hshort.
  apply evals_bind, evals_ask. intros ok kn _.
  pose proof (server_kernel _ _ kn _ Hi) as Hi1. destruct ok; cbn [negb].
  - apply evals_bind, evals_lock, evals_bind. eapply evals_read_conn; [exact Hi1|done|]. intros c2 Hc2 Hshort2.
    apply evals_bind, evals_send. intros z sv2 Hs. pose proof (server_inv_same _ _ _ _ (sn_state _ _ _ _ _ Hs) Hi1) as Hi2.
    apply evals_bind. eapply evals_write_conn; [exact Hi2|done|done|]. intros c3 sv3 _ _ Hi3.
    apply evals_bind, evals_unlock, evals_sys, Hless.
    apply server_log. eapply server_inv_weaken; [|exact Hi3]. lia.
  - apply evals_bind. eapply (evals_patch k totals); [exact Hi1|lia|apply full_max|done|].
    intros ms sv2 Hms Hi2 _ _. apply evals_bind. eapply evals_mono; [by eapply evals_send_outbox|].
    intros _ sv3 (Hi3 & _). apply evals_bind. eapply evals_mono; [by eapply evals_clear|].
    intros _ sv4 [Hi4 _]. apply evals_bind, evals_sys, evals_sys, Hless. by do 2 apply server_log.
Qed.

Lemma evals_new_connection k totals server_fd sv :
  server_inv k totals sv ->
  evals (handle_new_tcp_connection server_fd) sv (fun _ sv' => server_inv k totals sv').
Proof.
  intros Hi. unfold handle_new_tcp_connection, accept_tcp_connection. apply evals_bind, evals_bind, evals_ask.
  intros [fd ip] kn Ha. destruct (kl_accept _ _ _ _ _ Ha) as [Hge Hip].
  pose proof (server_kernel _ _ kn _ Hi) as Hi1. cbv iota beta.
  destruct (Z.eqb_spec fd (-1)) as [->|Hne]; [by apply evals_ret, evals_ret|].
  apply evals_bind, evals_sys, evals_ret. cbv iota beta. rewrite (proj2 (Z.eqb_neq _ _) Hne). cbn [negb andb].
  destruct (Z.ltb_spec fd (Z.of_nat MAX_FDS)); [|by apply evals_ret, server_log].
  apply evals_bind. eapply evals_register; [by apply server_log|lia|done|]. intros c sv2 _ _ Hi2.
  by apply evals_sys, server_log.
Qed.

Lemma evals_udp_timer k totals sv :
  server_inv k totals sv -> 1 <= k ->
  evals handle_udp_timer_expiration sv (fun _ sv' => server_inv (k - 1) totals sv').
Proof.
  intros Hi Hk. unfold handle_udp_timer_expiration. apply evals_bind, evals_ctx, evals_bind.
  eapply (evals_patch k totals); [exact Hi|done|simpl; lia|done|]. intros ms sv2 _ Hi2 _ _.
  destruct ms; [by apply evals_ret|by apply evals_sys, server_log].
Qed.

Lemma evals_discovery k totals sv :
  server_inv k totals sv -> 1 <= k ->
  evals handle_incoming_discovery sv (fun _ sv' => server_inv (k - 1) totals sv').
Proof.
  intros Hi Hk. unfold handle_incoming_discovery, process_discovery_datagram.
  apply evals_bind, evals_ctx, evals_bind, evals_bind, evals_ask. intros a kn _. apply evals_ret.
  pose proof (server_kernel _ _ kn _ Hi) as Hi1.
  destruct a as [[bytes ip]|]; cbn [mbind option_bind]; cbv iota beta.
  - apply evals_bind. eapply (evals_patch k totals); [exact Hi1|done|done|by eexists|].
    intros ms sv2 _ Hi2 _ _. by apply evals_ret.
  - apply evals_ret. eapply server_inv_weaken; [|exact Hi1]. lia.
Qed.

Lemma evals_tcp_timer k totals sv :
  server_inv k totals sv -> evals handle_tcp_timer_expiration sv (fun _ sv' => server_inv k totals sv').
Proof.
  intros Hi. unfold handle_tcp_timer_expiration. apply evals_bind, evals_ctx.
  do 3 apply evals_bind, evals_sys. apply evals_bind. eapply evals_perform; [done|].
  apply evals_bind, evals_sys, evals_sys. do 2 apply server_log. by destruct Hi.
Qed.

(** One round of the periodic check. *)
Lemma evals_check k totals sv (Q : list out_msg_t -> server -> Prop) :
  server_inv k totals sv ->
  (forall ms sv' kn, Forall short_ip ms -> server_inv k totals sv' ->
     sv_ctx sv' = sv_ctx sv ->
     (ms ≠ [] -> (size (jobs_in (sv_node sv')) < size (jobs_in (sv_node sv)))%nat) ->
     (sc_mynode (sv_ctx sv) = true -> ms = [] -> forall id j, jobs_in (sv_node sv') !! id = Some j ->
        ~ timed_out (now2 (fst (k_env kn))) j) ->
     Q ms sv') ->
  evals (call_patch None (-1) None (Some MAX_OUTBOX) ACTION_CHECK_DEADNODES) sv Q.
Proof.
  intros [Ha Hc Hs] HQ. destruct (k_env (sv_kernel sv)) as [env kn] eqn:Henv. set (n := sv_node sv).
  pose proof (call_view (Some MAX_OUTBOX) sv) as Hview. destruct (sc_mynode (sv_ctx sv)) eqn:Hmy.
  - destruct (keeps_check_deadnodes _ (full_max _) k (now1 env) (now2 env) Hc _ n [] Ha _ Hview)
      as ([] & st & n' & ms0 & Hp & [Hn0 _ Hcs] & Hi').
    destruct (runs_check_deadnodes k n _ (now1 env) (now2 env) (ai_wf _ _ _ Ha) Hc _ Hview)
      as ([] & st2 & n2 & ms & Hp2 & [Hn Ho _] & Hdone).
    rewrite Hp in Hp2. injection Hp2 as <-. destruct (check_progress _ _ _ _ _ _ _ Hdone) as [Hless Hnone].
    assert (Hl : left_in st = take MAX_OUTBOX ms) by (unfold left_in; by rewrite Ho).
    eapply evals_call; [exact Henv|unfold resource_adapter_patch; rewrite Hmy; exact Hp|].
    rewrite Hl. intros Hshort. apply (HQ _ _ (sv_kernel sv)); simpl; rewrite ?Hn; try done.
    + split; simpl; [by rewrite Hn0|by rewrite Hcs..].
    + intros _. rewrite Henv. exact Hnone.
  - eapply evals_call; [exact Henv|unfold resource_adapter_patch; rewrite Hmy; done|].
    intros _. by apply (HQ _ _ kn).
Qed.

(** No time before [t] on the clock. *)
Definition clock_from (t : Z) : Prop := forall kn, t <= now2 (fst (k_env kn)).

Definition settled_at (t : Z) (sv : server) : Prop :=
  forall id j, jobs_in (sv_node sv) !! id = Some j -> ~ timed_out t j.

(** A round of the loop. *)
Definition gc_round : handler (list out_msg_t) :=
  outbox ← call_patch None (-1) None (Some MAX_OUTBOX) ACTION_CHECK_DEADNODES;
  send_outbox outbox;;
  mret outbox.

(** The loop ends, and keeps what each round keeps. *)
Lemma gc_loop_ends (I : server -> Prop) k totals count sv :
  (forall sv, server_inv k totals sv -> I sv -> evals gc_round sv (fun _ sv' => I sv')) ->
  server_inv k totals sv -> I sv -> (size (jobs_in (sv_node sv)) <= count)%nat ->
  exists fuel sv', (server_inv k totals sv' /\ I sv') /\
    (sc_mynode (sv_ctx sv) = true -> forall t, clock_from t -> settled_at t sv') /\
    forall rounds fuel', (fuel <= fuel')%nat -> (count < rounds)%nat -> serve (gc_loop rounds fuel') sv = Some ((), sv').
Proof.
  intros HI. revert sv. induction count as [count IH] using lt_wf_ind. intros sv Hi HIs Hcount.
  assert (Hround : evals gc_round sv (fun ms sv' => server_inv k totals sv' /\ sv_ctx sv' = sv_ctx sv /\
        (ms ≠ [] -> (size (jobs_in (sv_node sv')) < count)%nat) /\
        (sc_mynode (sv_ctx sv) = true -> ms = [] -> forall t, clock_from t -> settled_at t sv'))).
  { apply evals_bind, (evals_check k totals); [done|]. intros ms sv1 kn Hms Hi1 Hx Hless Hnone.
    apply evals_bind. eapply evals_mono; [by eapply evals_send_outbox|]. intros _ sv2 (Hi2 & Hn2 & Hx2).
    apply evals_ret. split_and!; [done|congruence| |].
    - intros Hne. rewrite Hn2. specialize (Hless Hne). lia.
    - intros Hmy Hnil t Ht id j Hj [Hno Hto]. rewrite Hn2 in Hj. apply (Hnone Hmy Hnil id j Hj). split; [done|].
      specialize (Ht kn). lia. }
  destruct (evals_both _ _ _ _ Hround (HI sv Hi HIs)) as (f1 & ms & sv1 & ((Hi1 & Hx1 & Hless & Hnone) & HI1) & Hf1).
  unfold gc_round in Hf1.
  assert (Hstep : forall rounds f, (f1 <= f)%nat -> serve (gc_loop (S rounds) f) sv =
    if (0 <? length ms)%nat then serve (gc_loop rounds f) sv1 else Some ((), sv1)).
  { intros rounds f Hf. specialize (Hf1 f Hf). cbn [gc_loop].
    rewrite serve_bind in Hf1. rewrite serve_bind.
    destruct (serve (call_patch _ _ _ _ _ f) sv) as [[outbox sv0]|]; [|done]. cbn [mbind option_bind] in Hf1 |- *.
    rewrite serve_bind in Hf1. rewrite serve_bind.
    destruct (serve (send_outbox outbox f) sv0) as [[[] sv0']|]; [|done]. injection Hf1 as -> ->.
    cbn [mbind option_bind]. by destruct (0 <? length ms)%nat. }
  destruct ms as [|m ms].
  - exists f1, sv1. split_and!; [done|done|intros; by apply Hnone|]. intros [|rounds] f Hf Hr; [lia|]. by rewrite Hstep.
  - specialize (Hless ltac:(done)).
    destruct (IH (size (jobs_in (sv_node sv1))) Hless sv1 Hi1 HI1 (Nat.le_refl _)) as (f2 & sv2 & Hi2 & Hset & Hf2).
    exists (f1 `max` f2)%nat, sv2. rewrite Hx1 in Hset. split; [done|]. split; [done|].
    intros [|rounds] f Hf Hr; [lia|]. rewrite Hstep by lia. apply Hf2; lia.
Qed.

Lemma evals_gc_keeps (I : server -> Prop) k totals sv :
  (forall sv, server_inv k totals sv -> I sv -> evals gc_round sv (fun _ sv' => I sv')) ->
  server_inv k totals sv -> I (log_event (SysRead (sc_gc_timerfd (sv_ctx sv))) sv) ->
  evals handle_gc_timer_expiration sv (fun _ sv' => (server_inv k totals sv' /\ I sv') /\
    (sc_mynode (sv_ctx sv) = true -> forall t, clock_from t -> settled_at t sv')).
Proof.
  intros HI Hi HIs. unfold handle_gc_timer_expiration. apply evals_bind, evals_ctx, evals_bind, evals_sys.
  destruct (gc_loop_ends I k totals _ _ HI (server_log _ _ (SysRead (sc_gc_timerfd (sv_ctx sv))) _ Hi) HIs (Nat.le_refl _))
    as (f & sv' & Hi' & Hset & Hf).
  set (count := size _) in Hf. exists (f `max` S count)%nat, (), sv'. split; [done|].
  intros f' Hf'. apply Hf; lia.
Qed.

Lemma evals_gc k totals sv :
  server_inv k totals sv ->
  evals handle_gc_timer_expiration sv (fun _ sv' => server_inv k totals sv' /\
    (sc_mynode (sv_ctx sv) = true -> forall t, clock_from t -> settled_at t sv')).
Proof.
  intros Hi. eapply evals_mono; [apply (evals_gc_keeps (fun _ => True)); [|done|done]|].
  - intros sv1 Hi1 _. apply evals_bind, (evals_check k totals); [done|]. intros ms sv2 kn Hms Hi2 _ _ _.
    apply evals_bind. eapply evals_mono; [by eapply evals_send_outbox|]. intros _ sv3 _. by apply evals_ret.
  - by intros [] sv' [[Hi' _] Hset].
Qed.

(** ** Reachable servers *)

(** The descriptors are those of open connections, and no buffer overflows the
    array of [handle_reserve]. *)
Definition occurrence_ok (o : occurrence) (sv : server) : Prop :=
  match o with
  | Reported fd _ => 0 <= fd < Z.of_nat MAX_FDS
  | Taken (Task fd TASK_TCP_CLIENT_MSG) => 0 <= fd < Z.of_nat MAX_FDS /\
      forall b kn, k_recv fd (BUFFER_SIZE - 1) (sv_kernel sv) = (Received b, kn) -> tame b
  | Taken _ => True
  end.

Inductive server_reach (cpu ram gpu : Z) : Z -> server -> Prop :=
  | server_start ctx kn :
      server_reach cpu ram gpu NODE_ROOM (Server (Shared (init_node cpu ram gpu) no_connections []) ctx kn [])
  | server_happens k sv o u sv' :
      server_reach cpu ram gpu k sv -> EVENT_COST <= k -> occurrence_ok o sv ->
      returns (happen o) sv u sv' -> server_reach cpu ram gpu (k - EVENT_COST) sv'.

Lemma evals_task k totals task sv :
  server_inv k totals sv -> EVENT_COST <= k -> occurrence_ok (Taken task) sv ->
  evals (run_task task) sv (fun _ sv' => server_inv (k - EVENT_COST) totals sv').
Proof.
  intros Hi Hk Hok. pose proof Hk as Hk'. unfold EVENT_COST, BUFFER_SIZE in Hk'.
  assert (Hless : forall sv', server_inv (k - 1) totals sv' -> server_inv (k - EVENT_COST) totals sv').
  { intros sv'. apply server_inv_weaken. unfold EVENT_COST, BUFFER_SIZE. lia. }
  destruct task as [fd type]. unfold run_task. destruct type; cbn [wt_type wt_fd].
  - destruct Hok as [Hfd Htame]. apply evals_bind. eapply evals_mono; [by eapply evals_client|].
    intros z sv1 [-> Hi1]. apply evals_sys. by apply server_log.
  - apply evals_bind, evals_ctx, evals_bind. eapply evals_mono; [eapply evals_discovery; [exact Hi|lia]|].
    intros [] sv1 Hi1. by apply evals_sys, server_log, Hless.
  - eapply evals_mono; [eapply evals_udp_timer; [exact Hi|lia]|]. intros [] sv1 Hi1. by apply Hless.
  - eapply evals_mono; [by eapply evals_gc|]. intros [] sv1 [Hi1 _]. eapply server_inv_weaken; [|exact Hi1].
    unfold EVENT_COST, BUFFER_SIZE. lia.
Qed.

Lemma evals_epoll k totals fd event_type sv :
  server_inv k totals sv -> EVENT_COST <= k -> 0 <= fd < Z.of_nat MAX_FDS ->
  evals (epoll_event fd event_type) sv (fun _ sv' => server_inv (k - EVENT_COST) totals sv').
Proof.
  intros Hi Hk Hfd. pose proof Hk as Hk'. unfold EVENT_COST, BUFFER_SIZE in Hk'.
  assert (Hless : forall sv', server_inv k totals sv' -> server_inv (k - EVENT_COST) totals sv').
  { intros sv'. apply server_inv_weaken. unfold EVENT_COST, BUFFER_SIZE. lia. }
  unfold epoll_event. apply evals_bind, evals_ctx.
  destruct (fd =? sc_tcp_timerfd _).
  { apply evals_bind. eapply evals_mono; [by eapply evals_tcp_timer|]. intros [] sv1 Hi1. by apply evals_ret, Hless. }
  destruct (fd =? sc_udp_timerfd _); [by apply evals_bind, evals_sys, evals_ret, server_log, Hless|].
  destruct (fd =? sc_gc_timerfd _); [by apply evals_bind, evals_sys, evals_ret, server_log, Hless|].
  destruct (fd =? sc_udp_fd _); [by apply evals_ret, Hless|].
  destruct ((fd =? sc_tcp_public_fd _) || (fd =? sc_erlang_tcp_fd _)).
  { apply evals_bind. eapply evals_mono; [by eapply evals_new_connection|]. intros [] sv1 Hi1. by apply evals_ret, Hless. }
  apply evals_bind. apply (evals_mono _ _ (fun _ sv1 => server_inv (k - EVENT_COST) totals sv1)).
  - destruct (negb _); [by eapply evals_success|by apply evals_ret, Hless].
  - intros [] sv1 Hi1. by apply evals_ret.
Qed.

Lemma evals_happen k totals o sv :
  server_inv k totals sv -> EVENT_COST <= k -> occurrence_ok o sv ->
  evals (happen o) sv (fun _ sv' => server_inv (k - EVENT_COST) totals sv').
Proof.
  intros Hi Hk Hok. destruct o as [fd event_type|task]; simpl; [|by apply evals_task].
  apply evals_bind. eapply evals_mono; [by eapply evals_epoll|]. intros tasks sv1 Hi1. by apply evals_ret.
Qed.

Lemma server_reach_inv cpu ram gpu k sv :
  in_u32 cpu -> in_u32 ram -> in_u32 gpu -> server_reach cpu ram gpu k sv -> server_inv k [cpu; gpu; ram] sv.
Proof.
  intros Hc Hr Hg. induction 1 as [ctx kn|k sv o u sv' _ IH Hk Hok Hret].
  - split; simpl; [|by unfold conns_ok, no_connections; rewrite length_replicate|].
    + split; [by apply init_node_wf|by intros id j Hj|done].
    + apply Forall_replicate. unfold conn_short. simpl. lia.
  - exact (evals_det _ _ _ _ _ (evals_happen _ _ _ _ IH Hk Hok) Hret).
Qed.

(** *** First contact *)

Lemma strncmp_eq_refl s n : strncmp_eq s s n = true.
Proof. revert n. induction s as [|c s IH]; intros [|n]; simpl; try done. by rewrite Ascii.eqb_refl, IH. Qed.

(** After the entry [fd] is written, the node has this one connection. *)
Lemma find_fd_written conns ip port fd c :
  conns_ok conns -> find_fd_by_ip_port conns ip port = Some (-1) -> 0 <= fd < Z.of_nat MAX_FDS ->
  conn_matches ip port c = true -> find_fd_by_ip_port (<[Z.to_nat fd := c]> conns) ip port = Some fd.
Proof.
  intros Hok Hnone Hfd Hm.
  assert (Hno : Forall (fun c => conn_matches ip port c = false) conns).
  { destruct (find_fd_loop_spec conns ip port MAX_FDS 0) as (z & Hz & [[_ HF]|(j & c' & Hj & _)]); [by rewrite Hok|done|].
    unfold find_fd_by_ip_port in Hnone. rewrite Hz in Hnone. simplify_eq. lia. }
  assert (Hlt : (Z.to_nat fd < length conns)%nat) by (rewrite Hok; lia).
  destruct (find_fd_loop_spec (<[Z.to_nat fd := c]> conns) ip port MAX_FDS 0) as (z & Hz & Hcase).
  { by rewrite length_insert, Hok. }
  unfold find_fd_by_ip_port. rewrite Hz. f_equal. destruct Hcase as [[-> HF]|(j & c' & -> & _ & Hc' & Hm' & _)].
  - rewrite drop_0, Forall_forall in HF. specialize (HF c (list_elem_of_lookup_2 _ _ _ (list_lookup_insert_eq _ _ _ Hlt))).
    congruence.
  - destruct (decide (j = Z.to_nat fd)) as [->|Hne]; [lia|]. rewrite list_lookup_insert_ne in Hc' by done.
    rewrite Forall_forall in Hno. specialize (Hno c' (list_elem_of_lookup_2 _ _ _ Hc')). congruence.
Qed.

(** The entry [send_outbox] writes for a new connection. *)
Definition first_entry (m : out_msg_t) (c : ConnectionState) : ConnectionState :=
  set_conn 1 (target_ip m) (wrap32 (target_port m)) (str_take (BUFFER_SIZE - 1) (message m)) c.

Lemma first_entry_matches m c ip port :
  ip = target_ip m -> port = wrap32 (target_port m) -> conn_matches ip port (first_entry m c) = true.
Proof. intros -> ->. unfold conn_matches. simpl. by rewrite Z.eqb_refl, strncmp_eq_refl. Qed.

Lemma evals_opens k totals m sv fd kn1 a kn2 (Q : () -> server -> Prop) :
  server_inv k totals sv -> short_ip m -> target_fd m = -1 ->
  find_fd_by_ip_port (sv_conns sv) (target_ip m) (wrap32 (target_port m)) = Some (-1) ->
  k_socket (sv_kernel sv) = (fd, kn1) -> 0 <= fd < Z.of_nat MAX_FDS ->
  k_connect fd (target_ip m) (target_port m) kn1 = (a, kn2) -> a ≠ ConnectError ->
  (forall c sv1, server_inv k totals sv1 -> sv_kernel sv1 = kn2 ->
     (forall fd', wire fd' (sv_log sv1) = wire fd' (sv_log sv)) -> sv_conns sv !! Z.to_nat fd = Some c ->
     sv_conns sv1 = <[Z.to_nat fd := first_entry m c]> (sv_conns sv) -> Q () sv1) ->
  evals (send_out_msg m) sv Q.
Proof.
  intros Hi Hip Htf Hfind Hsock Hfd Hconn Ha HQ. unfold send_out_msg. apply evals_bind.
  rewrite Htf. eapply evals_find_fd; [exact Hi|]. intros z Hz. rewrite Hfind in Hz. injection Hz as <-.
  simpl (negb _). cbv iota. apply evals_bind. unfold connect_to_tcp_node. apply evals_bind.
  eapply evals_asked; [exact Hsock|]. rewrite (proj2 (Z.eqb_neq fd (-1))) by lia.
  apply evals_bind, evals_sys, evals_bind. eapply evals_asked; [exact Hconn|].
  set (sv1 := set_kernel kn2 _). assert (Hi1 : server_inv k totals sv1) by (by destruct Hi).
  assert (Hgo : evals (mret fd ≫= fun new_fd => if negb (new_fd =? -1) then
      if new_fd <? Z.of_nat MAX_FDS then
        register new_fd (target_ip m) (wrap32 (target_port m)) (str_take (BUFFER_SIZE - 1) (message m));;
        sys (SysEpollAdd new_fd (Z.lor EPOLLIN EPOLLOUT))
      else sys (SysClose new_fd)
    else mret ()) sv1 Q).
  { apply evals_bind, evals_ret. rewrite (proj2 (Z.eqb_neq fd (-1))), (proj2 (Z.ltb_lt _ _)) by lia. cbn [negb].
    apply evals_bind. eapply (evals_register k totals); [exact Hi1|done|done|]. intros c sv2 Hc -> Hi2. apply evals_sys.
    apply (HQ c); [by apply server_log|done| |exact Hc|done].
    intros fd'. simpl. rewrite !wire_app. simpl. by rewrite !str_app_nil_r. }
  destruct a; [..|done]; by apply evals_ret; destruct Hgo as (f & x & sv' & ? & Hf); exists f, x, sv'.
Qed.

(** [evals] with the fact that this is the result. *)
Lemma evals_carry {A} (m : handler A) sv (Q : A -> server -> Prop) :
  evals m sv Q -> evals m sv (fun x sv' => returns m sv x sv' /\ Q x sv').
Proof. intros (f & x & sv' & HQ & Hf). exists f, x, sv'. split; [|done]. split; [by exists f|done]. Qed.

(** The second half of a first contact, with [svm] the state after the send of the
    pending message. *)
Record established (k : Z) (totals : list Z) (fd : Z) (c : ConnectionState) (kn : K) (sv : server) (z : Z) (svm sv2 : server) : Prop := {
  es_call : returns (send_tcp_message fd (cn_pending_message c)) (set_kernel kn sv) z svm;
  es_sends : sends fd (cn_pending_message c) (set_kernel kn sv) z svm;
  es_conns : sv_conns sv2 = <[Z.to_nat fd := clear_pending c]> (sv_conns sv);
  es_wire fd' : wire fd' (sv_log sv2) = wire fd' (sv_log svm);
  es_inv : server_inv k totals sv2
}.

Lemma established_returns k totals fd sv c kn :
  server_inv k totals sv -> 0 <= fd < Z.of_nat MAX_FDS -> sv_conns sv !! Z.to_nat fd = Some c ->
  k_getsockopt fd (sv_kernel sv) = (true, kn) ->
  exists z svm sv2, returns (handle_connection_success fd) sv () sv2 /\ established k totals fd c kn sv z svm sv2.
Proof.
  intros Hi Hfd Hc Hok.
  destruct (evals_returns (handle_connection_success fd) sv (fun _ sv2 => exists z svm, established k totals fd c kn sv z svm sv2))
    as ([] & sv2 & Hret & z & svm & He); [|by exists z, svm, sv2].
  unfold handle_connection_success. apply evals_bind.
  eapply evals_copy_ip; [exact Hi|done|]. intros c0 _ _. apply evals_bind. eapply evals_asked; [exact Hok|]. cbn [negb].
  pose proof (server_kernel _ _ kn _ Hi) as Hi1. apply evals_bind, evals_lock, evals_bind.
  eapply evals_read_conn; [exact Hi1|done|]. intros c1 Hc1 _. simpl in Hc1. rewrite Hc in Hc1. injection Hc1 as <-.
  apply evals_bind. eapply evals_mono; [apply evals_carry, evals_send; intros z sv1 Hs; exact Hs|]. intros z sv1 (Hcall & Hs).
  pose proof (sn_state _ _ _ _ _ Hs) as (_ & Hcs & _).
  pose proof (server_inv_same _ _ _ _ (sn_state _ _ _ _ _ Hs) Hi1) as Hi2.
  apply evals_bind. eapply evals_write_conn; [exact Hi2|done|done|]. intros c2 sv2 Hc2 -> Hi3.
  apply evals_bind, evals_unlock, evals_sys.
  rewrite Hcs in Hc2. simpl in Hc2. rewrite Hc in Hc2. injection Hc2 as <-.
  exists z, sv1. split; [done|done|simpl; by rewrite Hcs| |by apply server_log].
  intros fd'. simpl. rewrite wire_app. simpl. by rewrite str_app_nil_r.
Qed.

(** Nothing pending, nothing sent. *)
Lemma established_quiet k totals fd c kn sv z svm sv2 :
  established k totals fd c kn sv z svm sv2 -> cn_pending_message c = EmptyString ->
  forall fd', wire fd' (sv_log sv2) = wire fd' (sv_log sv).
Proof.
  intros [_ [_ Ho (bytes & rest & Ht & Hw & _)] _ Hwire _] Hp fd'. rewrite Hwire.
  destruct (decide (fd' = fd)) as [->|Hne]; [|by apply Ho]. rewrite Hp in Ht. destruct bytes; [|done].
  rewrite Hw. by rewrite str_app_nil_r.
Qed.

(** ** Properties *)

(** C9: the whole agent never crashes nor hangs: from every state that any sequence
    of events can lead to, whatever epoll reports and whatever task a worker runs,
    the handler returns without undefined behaviour (every table access, every
    array and every call of the adapter included), and leaves a state of which the
    same holds, with the free and granted quantities of each resource within the
    configured ones.  [occurrence_ok] says what is left out: descriptors outside the
    table, and a received RESERVE line with a word of 256 characters or more, which
    does overflow the buffer of [sscanf] ([reserve_overflows]). *)
Theorem server_safe cpu ram gpu k sv o :
  in_u32 cpu -> in_u32 ram -> in_u32 gpu -> server_reach cpu ram gpu k sv ->
  EVENT_COST <= k -> occurrence_ok o sv ->
  exists sv', returns (happen o) sv () sv' /\ server_reach cpu ram gpu (k - EVENT_COST) sv' /\
    node_wf (k - EVENT_COST) (sv_node sv') /\ conns_ok (sv_conns sv') /\
    forall t, valid_res t ->
      0 <= av (nd_resources (sv_node sv')) t + active_qty t (items (nd_active_jobs (sv_node sv'))) <=
      (if decide (t = CPU) then cpu else if decide (t = RAM) then ram else gpu).
Proof.
  intros Hc Hr Hg Hreach Hk Hok. pose proof (server_reach_inv _ _ _ _ _ Hc Hr Hg Hreach) as Hi.
  destruct (evals_returns _ _ _ (evals_happen _ _ _ _ Hi Hk Hok)) as ([] & sv' & Hret & [[[Hl Hkn Ho] Hs Htot] Hcs _]).
  exists sv'. split_and!; [done|by eapply server_happens|done|done|]. intros t Ht.
  destruct (slack_bounds _ _ _ t Hl Ht) as (Hav & Hq & Hle & _). split; [lia|].
  etrans; [exact Hle|]. unfold tot. rewrite Htot. by destruct t.
Qed.

(** C22: the periodic check, a loop that runs until a round sends nothing, ends
    whatever the system answers (within [KernelLaws]), and then no job is left that had timed out by
    the time [t] the check started: none is forgotten because an outbox was
    full or because more than 20 had timed out. *)
Theorem gc_settles k totals sv t :
  server_inv k totals sv -> sc_mynode (sv_ctx sv) = true -> clock_from t ->
  exists sv', returns handle_gc_timer_expiration sv () sv' /\ server_inv k totals sv' /\ settled_at t sv'.
Proof.
  intros Hi Hmy Ht. destruct (evals_returns _ _ _ (evals_gc _ _ _ Hi)) as ([] & sv' & Hret & Hi' & Hset).
  exists sv'. eauto.
Qed.

(** C25: [send_tcp_message] reassembles partial sends: however the system splits the
    message and however often it answers [EAGAIN], the bytes put on the connection
    are the message, in order and once, and the result is its length; on an error
    they are a strict prefix and the result is -1; no other connection and nothing
    else of the agent changes. *)
Theorem send_delivers sockfd text sv :
  exists z sv', returns (send_tcp_message sockfd text) sv z sv' /\ same_state sv sv' /\
    (forall fd, fd ≠ sockfd -> wire fd (sv_log sv') = wire fd (sv_log sv)) /\
    exists bytes rest, text = bytes +:+ rest /\
      wire sockfd (sv_log sv') = wire sockfd (sv_log sv) +:+ bytes /\
      (z = Z.of_nat (String.length text) /\ rest = EmptyString \/ z = -1 /\ rest ≠ EmptyString).
Proof.
  destruct (evals_returns (send_tcp_message sockfd text) sv (sends sockfd text sv)) as (z & sv' & Hret & [Hs Ho Hb]).
  { by apply evals_send. }
  exists z, sv'. split_and!; [done|done|done|]. destruct Hb as (bytes & rest & Ht & Hw & Hz).
  exists bytes, rest. split_and!; [done|done|]. destruct Hz as [[-> ->]|?]; [left|by right].
  by rewrite Ht, str_app_nil_r.
Qed.

(** C26: first contact with a node: a message for a node without a connection sends
    nothing yet, opens a connection, and is kept, whole, as the pending message of its
    entry, by which the node is found from then on.  When the connection is
    established, what goes out is what [send_tcp_message] does with that message: its
    bytes, in order, on this connection only, all of them when the send succeeds and a
    strict prefix when it fails; the pending message is empty afterwards, so that the
    same event again sends nothing: the message goes out once. *)
Theorem first_contact k totals sv m fd kn1 a kn2 kn3 :
  server_inv k totals sv -> short_ip m -> (String.length (message m) < BUFFER_SIZE)%nat ->
  target_fd m = -1 -> find_fd_by_ip_port (sv_conns sv) (target_ip m) (wrap32 (target_port m)) = Some (-1) ->
  k_socket (sv_kernel sv) = (fd, kn1) -> 0 <= fd < Z.of_nat MAX_FDS ->
  k_connect fd (target_ip m) (target_port m) kn1 = (a, kn2) -> a ≠ ConnectError ->
  k_getsockopt fd kn2 = (true, kn3) ->
  exists sv1 sv2 z svm job_id, returns (send_out_msg m) sv () sv1 /\
    (forall fd', wire fd' (sv_log sv1) = wire fd' (sv_log sv)) /\
    sv_conns sv1 = <[Z.to_nat fd := Connection 1 (target_ip m) (wrap32 (target_port m)) (message m) job_id]> (sv_conns sv) /\
    find_fd_by_ip_port (sv_conns sv1) (target_ip m) (wrap32 (target_port m)) = Some fd /\
    returns (handle_connection_success fd) sv1 () sv2 /\
    returns (send_tcp_message fd (message m)) (set_kernel kn3 sv1) z svm /\
    (exists bytes rest, message m = bytes +:+ rest /\ wire fd (sv_log sv2) = wire fd (sv_log sv1) +:+ bytes /\
       (z = Z.of_nat (String.length bytes) /\ rest = EmptyString \/ z = -1 /\ rest ≠ EmptyString)) /\
    (forall fd', fd' ≠ fd -> wire fd' (sv_log sv2) = wire fd' (sv_log sv1)) /\
    sv_conns sv2 = <[Z.to_nat fd := Connection 1 (target_ip m) (wrap32 (target_port m)) EmptyString job_id]> (sv_conns sv) /\
    find_fd_by_ip_port (sv_conns sv2) (target_ip m) (wrap32 (target_port m)) = Some fd /\
    forall kn4, k_getsockopt fd (sv_kernel sv2) = (true, kn4) ->
      exists sv3, returns (handle_connection_success fd) sv2 () sv3 /\
        forall fd', wire fd' (sv_log sv3) = wire fd' (sv_log sv2).
Proof.
  intros Hi Hip Hmsg Htf Hfind Hsock Hfd Hconn Ha Hok.
  destruct (evals_returns (send_out_msg m) sv (fun _ sv1 => exists c, server_inv k totals sv1 /\ sv_kernel sv1 = kn2 /\
    (forall fd', wire fd' (sv_log sv1) = wire fd' (sv_log sv)) /\ sv_conns sv !! Z.to_nat fd = Some c /\
    sv_conns sv1 = <[Z.to_nat fd := first_entry m c]> (sv_conns sv))) as ([] & sv1 & Hret1 & c & Hi1 & Hk1 & Hw1 & Hc & Hcs1).
  { eapply (evals_opens k totals); [done..|]. eauto 10. }
  assert (Hc1 : sv_conns sv1 !! Z.to_nat fd = Some (first_entry m c)).
  { rewrite Hcs1. apply list_lookup_insert_eq. by eapply lookup_lt_Some. }
  destruct (established_returns k totals fd sv1 (first_entry m c) kn3) as (z & svm & sv2 & Hret2 & He); [done|done|done|by rewrite Hk1|].
  pose proof (es_conns _ _ _ _ _ _ _ _ _ He) as Hcs2. rewrite Hcs1, list_insert_insert_eq in Hcs2.
  assert (Hkept : first_entry m c = Connection 1 (target_ip m) (wrap32 (target_port m)) (message m) (cn_job_id c)).
  { unfold first_entry, set_conn. f_equal. apply str_take_all. lia. }
  assert (Hsent : cn_pending_message (first_entry m c) = message m) by by rewrite Hkept.
  pose proof (si_conns _ _ _ Hi) as Hcok. destruct (es_sends _ _ _ _ _ _ _ _ _ He) as [_ Ho Hb]. rewrite Hsent in Hb.
  exists sv1, sv2, z, svm, (cn_job_id c). split_and!; [done|done|by rewrite <- Hkept| |done| | | | | |].
  - rewrite Hcs1. apply find_fd_written; [done..|]. by apply first_entry_matches.
  - rewrite <- Hsent. apply (es_call _ _ _ _ _ _ _ _ _ He).
  - by rewrite (es_wire _ _ _ _ _ _ _ _ _ He).
  - intros fd' Hne. rewrite (es_wire _ _ _ _ _ _ _ _ _ He). by apply Ho.
  - by rewrite Hcs2, Hkept.
  - rewrite Hcs2. apply find_fd_written; [done..|]. by apply (first_entry_matches m c).
  - intros kn4 Hk4. destruct (established_returns k totals fd sv2 (clear_pending (first_entry m c)) kn4)
      as (z3 & svm3 & sv3 & Hret3 & He3); [by eapply es_inv|done| |done|].
    { rewrite Hcs2. apply list_lookup_insert_eq. by eapply lookup_lt_Some. }
    exists sv3. split; [done|]. by apply (established_quiet _ _ _ _ _ _ _ _ _ He3).
Qed.

End laws.
End server.

(** ** Concrete runs *)

Module EventEjemplo.

(** A system that refuses every other send and takes three bytes at a time; the
    text received is a DENIED; the first socket is 9. *)
#[export] Instance sistema : Kernel nat := {
  k_send _ s k := (if Nat.even k then AnswerAgain else AnswerSent (3 `min` String.length s), S k);
  k_recv _ n k := (Received (str_take n ("DENIED 7" +:+ str_nl)), S k);
  k_recvfrom _ n k := (Some (str_take n "ANNOUNCE 8100 cpu:4 mem:8 gpu:1", "10.0.0.1"), S k);
  k_accept _ k := ((8, "10.0.0.3"), S k);
  k_socket k := (9, S k);
  k_connect _ _ _ k := (InProgress, S k);
  k_getsockopt _ k := (true, S k);
  k_env k := (Env 1021 1021 (fun i => Z.of_nat i) EmptyString, S k)
}.

#[export] Instance sistema_laws : @KernelLaws nat sistema.
Proof.
  apply (Build_KernelLaws (fun _ k => if Nat.even k then 1%nat else 0%nat)).
  - intros fd s k k' [= Hk <-]. destruct (Nat.even k) eqn:Hev; [|done].
    rewrite Nat.even_succ, <- Nat.negb_even, Hev. simpl. lia.
  - intros fd s k n k' [= Hk <-]. destruct (Nat.even k); [done|]. injection Hk as <-.
    exact (Nat.le_min_r 3 (String.length s)).
  - intros fd n k b k' [= <- <-]. rewrite str_take_length. lia.
  - intros fd k z ip k' [= <- <- <-]. simpl. lia.
  - intros k z k' [= <- <-]. lia.
Defined.

Definition contexto : ServerContext := Context 8100 "10.0.0.9" 3 4 5 6 7 8 10 true.
Definition inicio : server nat := Server (Shared (init_node 4 8 1) no_connections []) contexto 0%nat [].

(** The agent with job 7, whose first petition was granted by 10.0.0.1. *)
Definition servidor : server nat := Server (Shared RecoveryEjemplo.nodo no_connections []) contexto 0%nat [].

Lemma servidor_inv : server_inv (2 ^ 28 - 1) [4; 1; 8] servidor.
Proof.
  split; simpl; [|by vm_compute|].
  - split; [exact RecoveryEjemplo.en_curso_wf| |by vm_compute].
    intros id j Hj. assert (Hm : jobs_in RecoveryEjemplo.nodo = {[7 := ProtocolEjemplo.trabajo]}) by (vm_compute; reflexivity).
    rewrite Hm in Hj. apply lookup_singleton_Some in Hj as [_ <-].
    intros [|[|i]] p Hi Hlt; simpl in *; simplify_eq; try lia; done.
  - apply Forall_replicate. unfold conn_short. simpl. lia.
Qed.

Lemma server_safe_witness :
  exists sv', returns (happen (Taken (Task 5 TASK_TCP_CLIENT_MSG))) inicio () sv' /\
    server_reach 4 8 1 (NODE_ROOM - EVENT_COST) sv' /\
    node_wf (NODE_ROOM - EVENT_COST) (sv_node sv') /\ conns_ok (sv_conns sv') /\
    forall t, valid_res t ->
      0 <= av (nd_resources (sv_node sv')) t + active_qty t (items (nd_active_jobs (sv_node sv'))) <=
      (if decide (t = CPU) then 4 else if decide (t = RAM) then 8 else 1).
Proof.
  refine (server_safe 4 8 1 NODE_ROOM inicio (Taken (Task 5 TASK_TCP_CLIENT_MSG)) ltac:(done) ltac:(done) ltac:(done)
    (server_start 4 8 1 contexto 0%nat) ltac:(done) _).
  split; [unfold MAX_FDS; lia|]. intros b kn Hb. injection Hb as <- <-. unfold tame.
  apply Forall_forall. intros l Hl. vm_compute in Hl. by apply list_elem_of_singleton in Hl as ->.
Defined.

Lemma send_delivers_witness :
  exists z sv', returns (send_tcp_message 9 "HELLO") inicio z sv' /\ same_state inicio sv' /\
    (forall fd, fd ≠ 9 -> wire fd (sv_log sv') = wire fd (sv_log inicio)) /\
    exists bytes rest, "HELLO" = bytes +:+ rest /\
      wire 9 (sv_log sv') = wire 9 (sv_log inicio) +:+ bytes /\
      (z = Z.of_nat (String.length "HELLO") /\ rest = EmptyString \/ z = -1 /\ rest ≠ EmptyString).
Proof. exact (send_delivers 9 "HELLO" inicio). Defined.

Lemma gc_settles_witness :
  exists sv', returns handle_gc_timer_expiration servidor () sv' /\
    server_inv (2 ^ 28 - 1) [4; 1; 8] sv' /\ settled_at 1021 sv'.
Proof. exact (gc_settles (2 ^ 28 - 1) [4; 1; 8] servidor 1021 servidor_inv eq_refl (fun kn => Z.le_refl 1021)). Defined.

Lemma first_contact_witness :
  let m := OutMsg "10.0.0.1" 8100 (-1) ("RESERVE 7 cpu 2" +:+ str_nl) in
  exists sv1 sv2 z svm job_id, returns (send_out_msg m) servidor () sv1 /\
    (forall fd', wire fd' (sv_log sv1) = wire fd' (sv_log servidor)) /\
    sv_conns sv1 = <[Z.to_nat 9 := Connection 1 "10.0.0.1" 8100 (message m) job_id]> (sv_conns servidor) /\
    find_fd_by_ip_port (sv_conns sv1) "10.0.0.1" 8100 = Some 9 /\
    returns (handle_connection_success 9) sv1 () sv2 /\
    returns (send_tcp_message 9 (message m)) (set_kernel 3%nat sv1) z svm /\
    (exists bytes rest, message m = bytes +:+ rest /\ wire 9 (sv_log sv2) = wire 9 (sv_log sv1) +:+ bytes /\
       (z = Z.of_nat (String.length bytes) /\ rest = EmptyString \/ z = -1 /\ rest ≠ EmptyString)) /\
    (forall fd', fd' ≠ 9 -> wire fd' (sv_log sv2) = wire fd' (sv_log sv1)) /\
    sv_conns sv2 = <[Z.to_nat 9 := Connection 1 "10.0.0.1" 8100 EmptyString job_id]> (sv_conns servidor) /\
    find_fd_by_ip_port (sv_conns sv2) "10.0.0.1" 8100 = Some 9 /\
    forall kn4, k_getsockopt 9 (sv_kernel sv2) = (true, kn4) ->
      exists sv3, returns (handle_connection_success 9) sv2 () sv3 /\
        forall fd', wire fd' (sv_log sv3) = wire fd' (sv_log sv2).
Proof.
  exact (first_contact (2 ^ 28 - 1) [4; 1; 8] servidor (OutMsg "10.0.0.1" 8100 (-1) ("RESERVE 7 cpu 2" +:+ str_nl))
    9 1%nat InProgress 2%nat 3%nat servidor_inv ltac:(unfold short_ip; simpl; lia) ltac:(apply Nat.ltb_lt; reflexivity) eq_refl
    ltac:(vm_compute; reflexivity) eq_refl ltac:(unfold MAX_FDS; lia) eq_refl ltac:(done) eq_refl).
Defined.

(** A send of five bytes: two refusals, two pieces. *)
Example send_run :
  (fun r => (fst r, sv_log (snd r))) <$> serve (send_tcp_message 9 "HELLO" 10%nat) inicio
    = Some (5, [SysSleep; SysSend 9 "HEL"; SysSleep; SysSend 9 "LO"]).
Proof. vm_compute. reflexivity. Qed.

(** The periodic check of [servidor]: the messages of the timed-out job 7, for the
    client on descriptor 5 and a new connection to 10.0.0.1. *)
Example gc_run :
  (fun r => wire 5 (sv_log (snd r))) <$> serve (handle_gc_timer_expiration 40%nat) servidor
    = Some ("JOB_TIMEOUT 7" +:+ str_nl).
Proof. vm_compute. reflexivity. Qed.

End EventEjemplo.
