(* ===== verification/Threads.v ===== *)
(** * Threads: the handlers interleaved

    The epoll thread and the workers of [src/c_agent/src/comms/thread_pool.c] run
    the handlers of EventHandler at the same time, on the same node and the same
    table of connections.  A configuration is the shared server and the program
    each thread still has to run; a turn is one operation of one thread.  The
    mutexes, the lock of the table and the static variable of [strtok] behave as
    the C library says: a lock that another thread holds makes the thread wait.

    A call on a component is one operation, so that a turn is only meaningful when
    no other thread is in the middle of the same data: [races] says when it is not,
    and the executions considered are those without races. *)

From S2P Require Import Prelude CString TablaHash CommonTypes LocalResource OwnedJobs KnownNodes NodeStructures Connections Program Adapter ResourceAdapter AdapterSafety ThreadPool Server EventHandler EventSafety.
Local Open Scope Z_scope.

(** ** What an operation touches *)

Inductive location := Comp (c : component) | Table | Tokens.

#[export] Instance location_eq_dec : EqDecision location.
Proof. solve_decision. Defined.

Definition op_location {X : Set} (o : op X) : option location :=
  match o with
  | OnLocal _ => Some (Comp Local)
  | OnKnown _ => Some (Comp Known)
  | OnOwned _ => Some (Comp Owned)
  | ReadTable _ | WriteTable _ => Some Table
  | Strtok _ => Some Tokens
  | Lock _ | Unlock _ | Close _ => None
  end.

(** The lock that protects the access. *)
Definition op_protects {X : Set} (o : op X) (l : hold) : bool :=
  match o with
  | OnLocal _ => bool_decide (l = Mutex Local)
  | OnKnown _ => bool_decide (l = Mutex Known)
  | OnOwned _ => bool_decide (l = Mutex Owned)
  | ReadTable _ => bool_decide (l = Reading \/ l = Writing)
  | WriteTable _ => bool_decide (l = Writing)
  | Strtok _ | Lock _ | Unlock _ | Close _ => false
  end.

(** A lock of the data at a location. *)
Definition covers (x : location) (l : hold) : bool :=
  match x, l with
  | Comp c, Mutex c' => bool_decide (c = c')
  | Table, Reading | Table, Writing => true
  | _, _ => false
  end.

(** Two threads cannot hold both. *)
Definition conflicts (l l' : hold) : bool :=
  match l, l' with
  | Mutex c, Mutex c' => bool_decide (c = c')
  | Reading, Writing | Writing, Reading | Writing, Writing => true
  | _, _ => false
  end.

Section threads.
Context {K : Type} `{Kernel K}.

(** ** Configurations *)

Record thread := Thread { th_prog : prog (server_op K) (); th_held : list hold }.

(** [cf_strtok] is the thread whose text [strtok] is traversing. *)
Record config := Config {
  cf_server : server K;
  cf_threads : list thread;
  cf_strtok : option nat
}.

Definition location_of {X : Set} (o : server_op K X) : option location :=
  match o with Agent o => op_location o | _ => None end.
Definition protects {X : Set} (o : server_op K X) (l : hold) : bool :=
  match o with Agent o => op_protects o l | _ => false end.
(** The locks held after the operation; releasing one that is not held is
    undefined. *)
Definition held_after {X : Set} (o : server_op K X) (held : list hold) : option (list hold) :=
  match o with
  | Agent (Lock l) => Some (l :: held)
  | Agent (Unlock l) => if bool_decide (l ∈ held) then Some (filter (fun l' => l' ≠ l) held) else None
  | _ => Some held
  end.

Definition strtok_after {X : Set} (i : nat) (o : server_op K X) (owner : option nat) : option nat :=
  match o with Agent (Strtok (Some _)) => Some i | _ => owner end.

(** No thread, the waiting one included, holds a conflicting lock. *)
Definition available (l : hold) (ths : list thread) : bool :=
  forallb (fun th => forallb (fun l' => negb (conflicts l l')) (th_held th)) ths.

(** The lock that makes the thread wait. *)
Definition waits_for {X : Set} (o : server_op K X) (ths : list thread) : option hold :=
  match o with Agent (Lock l) => if available l ths then None else Some l | _ => None end.

(** ** One turn *)

Inductive outcome :=
  | Finished
  | Waiting (l : hold)
  | Spinning                       (* a loop that outlives its fuel: it goes on *)
  | Fault                          (* undefined behaviour *)
  | Next (cfg : config).

Definition turn (i : nat) (cfg : config) : outcome :=
  match cf_threads cfg !! i with
  | None => Finished
  | Some th =>
      match th_prog th with
      | Ret _ => Finished
      | Fail => Fault
      | Spin => Spinning
      | Do o k =>
          match held_after o (th_held th) with
          | None => Fault
          | Some held =>
              match waits_for o (cf_threads cfg) with
              | Some l => Waiting l
              | None =>
                  match server_step _ o (cf_server cfg) with
                  | Some (x, sv) =>
                      Next (Config sv (<[i := Thread (k x) held]> (cf_threads cfg)) (strtok_after i o (cf_strtok cfg)))
                  | None => Fault
                  end
              end
          end
      end
  end.

(** ** Races *)

(** The thread is about to touch the location, or holds a lock of it. *)
Definition contends (x : location) (th : thread) : bool :=
  match th_prog th with Do o _ => bool_decide (location_of o = Some x) | _ => false end || existsb (covers x) (th_held th).

(** The operation goes on with a traversal of [strtok] that is not the thread's. *)
Definition foreign {X : Set} (i : nat) (o : server_op K X) (owner : option nat) : bool :=
  match o with Agent (Strtok None) => negb (bool_decide (owner = Some i)) | _ => false end.

(** The next operation of thread [i] is an access without its lock to data another
    thread is using, or about to use. *)
Definition races (i : nat) (cfg : config) : bool :=
  match cf_threads cfg !! i with
  | Some (Thread (Do o _) held) =>
      match location_of o with
      | Some x => negb (existsb (protects o) held) && existsb (contends x) (delete i (cf_threads cfg))
                  || foreign i o (cf_strtok cfg)
      | None => false
      end
  | _ => false
  end.

(** ** Executions *)

Definition idle : thread := Thread (Ret ()) [].

(** A thread that has finished takes up an occurrence: the epoll thread the next
    event, a worker its next task. *)
Definition begin (i : nat) (o : occurrence) (fuel : nat) (cfg : config) : config :=
  Config (cf_server cfg) (<[i := Thread (happen o fuel) []]> (cf_threads cfg)) (cf_strtok cfg).

Definition is_idle (i : nat) (cfg : config) : Prop :=
  exists th, cf_threads cfg !! i = Some th /\ th_prog th = Ret ().

(** The turns of a schedule, as long as they are steps without races. *)
Fixpoint play (schedule : list nat) (cfg : config) : option config :=
  match schedule with
  | [] => Some cfg
  | i :: rest =>
      if races i cfg then None
      else match turn i cfg with Next cfg' => play rest cfg' | _ => None end
  end.

(** Turns of one thread alone. *)
Definition alone (i : nat) : config -> config -> Prop := rtc (fun cfg cfg' => turn i cfg = Next cfg').

(** The descriptors are those of open connections. *)
Definition descriptors_ok (o : occurrence) : Prop :=
  match o with
  | Reported fd _ | Taken (Task fd TASK_TCP_CLIENT_MSG) => 0 <= fd < Z.of_nat MAX_FDS
  | Taken _ => True
  end.

(** The configurations that any number of threads can lead to, each event and task
    being given any fuel; the index counts the insertions the tables surely have
    room for. *)
Inductive conc_reach (cpu ram gpu : Z) : Z -> config -> Prop :=
  | conc_init n ctx kn :
      conc_reach cpu ram gpu NODE_ROOM
        (Config (Server (Shared (init_node cpu ram gpu) no_connections []) ctx kn []) (replicate n idle) None)
  | conc_begin k cfg i o fuel :
      conc_reach cpu ram gpu k cfg -> is_idle i cfg -> EVENT_COST <= k -> descriptors_ok o ->
      conc_reach cpu ram gpu (k - EVENT_COST) (begin i o fuel cfg)
  | conc_turn k cfg i cfg' :
      conc_reach cpu ram gpu k cfg -> races i cfg = false -> turn i cfg = Next cfg' ->
      conc_reach cpu ram gpu k cfg'.

Lemma play_reach cpu ram gpu k schedule cfg cfg' :
  conc_reach cpu ram gpu k cfg -> play schedule cfg = Some cfg' -> conc_reach cpu ram gpu k cfg'.
Proof.
  revert cfg. induction schedule as [|i rest IH]; intros cfg Hr Hp; [by injection Hp as <-|]. simpl in Hp.
  destruct (races i cfg) eqn:Hrace; [done|]. destruct (turn i cfg) eqn:Ht; try done.
  eapply IH; [|exact Hp]. by eapply conc_turn.
Qed.

End threads.

#[global] Arguments thread : clear implicits.
#[global] Arguments config : clear implicits.
#[global] Arguments outcome : clear implicits.
