(* ===== verification/ThreadLogic.v ===== *)
(** * ThreadLogic: reasoning about one thread among others

    [safe m h t s Q]: the program [m] of a thread at the stage [h] never does anything
    undefined, whatever the other threads do between its operations, provided they
    keep the invariant of the shared state and leave alone what [h] protects, and
    itself does the same.  [t] bounds the insertions it may make, and [s] is the
    shared state as the thread left it: what [h] protects is still as in [s]. *)

From S2P Require Import Prelude CString TablaHash CommonTypes LocalResource OwnedJobs KnownNodes NodeStructures Connections Program Adapter ResourceAdapter AdapterSafety Outbox Server EventHandler EventSafety Threads.
Local Open Scope Z_scope.

(** ** The invariant of the shared state *)

Record shared_inv (k : Z) (totals : list Z) (s : shared) : Prop := {
  sh_wf : node_wf k (sh_node s);
  sh_total : total (nd_resources (sh_node s)) = totals;
  sh_table : conns_ok (sh_conns s);
  sh_short : Forall conn_short (sh_conns s);
  sh_seq : jobs_seq (nd_owned_jobs (sh_node s))
}.

Lemma shared_inv_k k totals s : shared_inv k totals s -> 0 <= k.
Proof. intros [Hw _ _ _ _]. by eapply node_wf_k. Qed.

Lemma shared_inv_weaken k k' totals s : 0 <= k' <= k -> shared_inv k totals s -> shared_inv k' totals s.
Proof. intros Hk [? ? ? ? ?]. split; [by eapply node_wf_weaken|done..]. Qed.

Lemma shared_inv_tokens k totals s ts : shared_inv k totals s -> shared_inv k totals (set_tokens ts s).
Proof. intros [? ? ? ? ?]. by split. Qed.

Lemma shared_inv_local k k' totals s r jobs :
  shared_inv k totals s -> 0 <= k' <= k -> local_wf k' r jobs -> total r = total (nd_resources (sh_node s)) ->
  shared_inv k' totals (set_node (set_local (sh_node s) r jobs) s).
Proof.
  intros [[Hl Hkn Ho] Ht Hc Hs Hq] Hk Hw Htot. split; [split|..]; simpl; try done;
    [by eapply known_wf_weaken|by eapply owned_wf_weaken|congruence].
Qed.

Lemma shared_inv_known k k' totals s nodes :
  shared_inv k totals s -> 0 <= k' <= k -> known_wf k' nodes ->
  shared_inv k' totals (set_node (set_known (sh_node s) nodes) s).
Proof.
  intros [[Hl Hkn Ho] Ht Hc Hs Hq] Hk Hw. split; [split|..]; simpl; try done;
    [by eapply local_wf_weaken|by eapply owned_wf_weaken].
Qed.

Lemma shared_inv_owned k k' totals s jobs :
  shared_inv k totals s -> 0 <= k' <= k -> owned_wf k' jobs -> jobs_seq jobs ->
  shared_inv k' totals (set_node (set_owned (sh_node s) jobs) s).
Proof.
  intros [[Hl Hkn Ho] Ht Hc Hs Hq] Hk Hw Hseq. split; [split|..]; simpl; try done;
    [by eapply local_wf_weaken|by eapply known_wf_weaken].
Qed.

(** ** Interference

    A thread holds nothing, holds a lock, or has released the mutex of the owned jobs
    with the first RESERVE of a job still to send: the end of [handle_job_request],
    which does it without the mutex. *)
Inductive stage := Free | Holds (l : hold) | Due (job_id : Z).

#[export] Instance stage_eq_dec : EqDecision stage.
Proof. solve_decision. Defined.

Definition held_at (h : stage) : list hold := match h with Holds l => [l] | _ => [] end.
Definition not_due (h : stage) : Prop := match h with Due _ => False | _ => True end.
(** Where the system is called, and where [strtok] is. *)
Definition calls (h : stage) : Prop := match h with Due _ | Holds (Mutex _) => False | _ => True end.
Definition parses (h : stage) : Prop := match h with Free | Holds (Mutex Owned) => True | _ => False end.

Abbreviation owned_of s := (nd_owned_jobs (sh_node s)).

(** What the lock protects is the same; a RESERVE that is due has not been sent. *)
Definition agree (h : stage) (s s' : shared) : Prop :=
  match h with
  | Free => True
  | Holds (Mutex Local) => nd_resources (sh_node s') = nd_resources (sh_node s) /\
                           nd_active_jobs (sh_node s') = nd_active_jobs (sh_node s)
  | Holds (Mutex Known) => nd_known_nodes (sh_node s') = nd_known_nodes (sh_node s)
  | Holds (Mutex Owned) => owned_of s' = owned_of s
  | Holds Reading | Holds Writing => sh_conns s' = sh_conns s
  | Due id => unsent_in id (owned_of s')
  end.

Lemma parses_not_due h : parses h -> not_due h.
Proof. by destruct h. Qed.
Lemma calls_not_due h : calls h -> not_due h.
Proof. by destruct h. Qed.

Lemma agree_refl h s : not_due h -> agree h s s.
Proof. by destruct h as [|[[]| |]|]. Qed.

(** No RESERVE is sent of a job that has none sent. *)
Definition keeps_unsent (s s' : shared) : Prop := forall id, unsent_in id (owned_of s) -> unsent_in id (owned_of s').

(** The operation is the search for the next RESERVE of the job. *)
Definition is_next (id : Z) {X : Set} (o : op X) : Prop :=
  existT (P := fun X : Set => op X) X o = existT (option target) (OnOwned (fun jobs => get_next_reserve jobs id)).

(** The stages of a thread that respects the protocol: the one operation without the
    mutex of its data is the search for the RESERVE that is due. *)
Definition op_stage {X : Set} (o : op X) (h h' : stage) : Prop :=
  match o with
  | Lock l => h = Free /\ h' = Holds l
  | Unlock l => h = Holds l /\ (h' = Free \/ exists id, l = Mutex Owned /\ h' = Due id)
  | OnOwned f => h = Holds Owned /\ h' = h \/ (exists id, h = Due id /\ is_next id (OnOwned f)) /\ h' = Free
  | OnLocal _ => h = Holds Local /\ h' = h
  | OnKnown _ => h = Holds Known /\ h' = h
  | ReadTable _ => (h = Holds Reading \/ h = Holds Writing) /\ h' = h
  | WriteTable _ => h = Holds Writing /\ h' = h
  | Strtok _ => parses h /\ h' = h
  | Close _ => h = Holds Local /\ h' = h
  end.

Section logic.
Context {K : Type} (totals : list Z).

Definition next_stage {X : Set} (o : server_op K X) (h h' : stage) : Prop :=
  match o with Agent o => op_stage o h h' | _ => calls h /\ h' = h end.

(** One operation, in any state the others can leave. *)
Definition op_safe {X : Set} (o : server_op K X) (h : stage) (t : Z) (s : shared)
    (k : X -> stage -> Z -> shared -> Prop) : Prop :=
  exists h', next_stage o h h' /\
    forall sv R, agree h s (sv_shared sv) -> t <= R -> shared_inv R totals (sv_shared sv) ->
      exists x sv' t', server_step X o sv = Some (x, sv') /\ 0 <= t' <= t /\
        shared_inv (R - (t - t')) totals (sv_shared sv') /\
        (not_due h -> keeps_unsent (sv_shared sv) (sv_shared sv')) /\
        agree h' (sv_shared sv') (sv_shared sv') /\ k x h' t' (sv_shared sv').

Fixpoint safe {A} (m : prog (server_op K) A) (h : stage) (t : Z) (s : shared)
    (Q : A -> stage -> Z -> shared -> Prop) : Prop :=
  match m with
  | Ret a => Q a h t s
  | Fail => False
  | Spin => not_due h
  | Do o k => op_safe o h t s (fun x h' t' s' => safe (k x) h' t' s' Q)
  end.

Lemma op_safe_mono {X : Set} (o : server_op K X) h t s (k k' : X -> stage -> Z -> shared -> Prop) :
  op_safe o h t s k -> (forall x h' t' s', k x h' t' s' -> k' x h' t' s') -> op_safe o h t s k'.
Proof.
  intros (h' & Hh & Ho) Himp. exists h'. split; [done|]. intros sv R Ha Ht Hi.
  destruct (Ho sv R Ha Ht Hi) as (x & sv' & t' & E & Ht' & Hi' & Hu & Ha' & Hk). exists x, sv', t'. auto 10.
Qed.

Lemma safe_mono {A} (m : prog (server_op K) A) h t s (Q Q' : A -> stage -> Z -> shared -> Prop) :
  safe m h t s Q -> (forall a h' t' s', Q a h' t' s' -> Q' a h' t' s') -> safe m h t s Q'.
Proof.
  intros Hm Himp. revert h t s Hm. induction m as [a| | |X o k IH]; intros h t s Hm; simpl in *; [by apply Himp|done..|].
  eapply op_safe_mono; [exact Hm|]. intros x h' t' s'. apply IH.
Qed.

Lemma safe_bind {A B} (m : prog (server_op K) A) (f : A -> prog (server_op K) B) h t s Q :
  safe m h t s (fun a h' t' s' => safe (f a) h' t' s' Q) -> safe (prog_bind m f) h t s Q.
Proof.
  revert h t s. induction m as [a| | |X o k IH]; intros h t s Hm; simpl in *; [done..|].
  eapply op_safe_mono; [exact Hm|]. intros x h' t' s'. apply IH.
Qed.

(** ** The adapter

    The same of the trees of the adapter, leaving its outbox aside. *)
Fixpoint asafe {A} (m : adapter A) (h : stage) (t : Z) (s : shared)
    (Q : A -> stage -> Z -> shared -> Prop) : Prop :=
  match m with
  | Ret a => Q a h t s
  | Fail => False
  | Spin => not_due h
  | Do o k =>
      match adapter_case o with
      | inl o => op_safe (Agent o) h t s (fun x h' t' s' => asafe (k x) h' t' s' Q)
      | inr _ => forall x, asafe (k x) h t s Q
      end
  end.

Lemma asafe_mono {A} (m : adapter A) h t s (Q Q' : A -> stage -> Z -> shared -> Prop) :
  asafe m h t s Q -> (forall a h' t' s', Q a h' t' s' -> Q' a h' t' s') -> asafe m h t s Q'.
Proof.
  intros Hm Himp. revert h t s Hm. induction m as [a| | |X o k IH]; intros h t s Hm; simpl in *; [by apply Himp|done..|].
  destruct (adapter_case o); [|intros x; by apply IH]. eapply op_safe_mono; [exact Hm|]. intros x h' t' s'. apply IH.
Qed.

Lemma asafe_bind {A B} (m : adapter A) (f : A -> adapter B) h t s Q :
  asafe m h t s (fun a h' t' s' => asafe (f a) h' t' s' Q) -> asafe (m ≫= f) h t s Q.
Proof.
  revert h t s. induction m as [a| | |X o k IH]; intros h t s Hm; simpl in *; [done..|].
  destruct (adapter_case o); [|intros x; by apply IH]. eapply op_safe_mono; [exact Hm|]. intros x h' t' s'. apply IH.
Qed.

(** With an outbox no operation is undefined on, a safe tree is a safe program. *)
Lemma safe_embed (P : option outbox_t -> Prop) {A} (m : adapter A) ob h t s Q :
  outbox_ops (fun X f => forall ob, P ob -> exists x ob', f ob = Some (x, ob') /\ P ob') m -> P ob ->
  asafe m h t s Q -> safe (embed m ob) h t s (fun r h' t' s' => Q r.1 h' t' s' /\ P r.2).
Proof.
  intros Hob. revert ob h t s. induction m as [a| | |X o k IH]; intros ob h t s HP Hm; [done..|].
  destruct Hob as [Ho Hk]. cbn [embed asafe] in *. destruct o as [X o|X f]; cbn [adapter_case] in *.
  - cbn [safe]. eapply op_safe_mono; [exact Hm|]. intros x h' t' s' Hx. by apply IH.
  - destruct (Ho ob HP) as (x & ob' & -> & HP'). by apply IH.
Qed.

Lemma safe_embed_bind {A B} (m : adapter A) (f : A -> adapter B) ob h t s Q :
  safe (embed m ob) h t s (fun r h' t' s' => safe (embed (f r.1) r.2) h' t' s' Q) -> safe (embed (m ≫= f) ob) h t s Q.
Proof.
  revert ob h t s. induction m as [a| | |X o k IH]; intros ob h t s Hm; [exact Hm|done..|].
  cbn [mbind adapter_bind prog_bind embed] in *. destruct (adapter_case o) as [o'|f'].
  - cbn [safe] in *. eapply op_safe_mono; [exact Hm|]. intros x h' t' s' Hx. by apply (IH x).
  - destruct (f' ob) as [[x ob']|]; [|done]. by apply (IH x).
Qed.

(** ** Handlers that need to know nothing

    [calm h h' t t' m]: [m] is safe from any state of the others, goes from the stage
    [h] to [h'], and of [t] insertions leaves [t']. *)
Definition calm {A} (h h' : stage) (t t' : Z) (m : adapter A) : Prop :=
  forall t0 s, t <= t0 -> asafe m h t0 s (fun _ h2 t2 _ => h2 = h' /\ t' <= t2).

Lemma calm_ret {A} h t (a : A) : calm h h t t (mret a).
Proof. by intros t0 s Ht. Qed.

Lemma calm_spin {A} h h' t t' : not_due h -> calm h h' t t' (Spin : adapter A).
Proof. by intros Hd t0 s Ht. Qed.

Lemma calm_lift {A} h t (o : option A) : is_Some o -> calm h h t t (lift o).
Proof. intros [a ->]. apply calm_ret. Qed.

Lemma calm_bind {A B} h h1 h' t t1 t' (m : adapter A) (f : A -> adapter B) :
  calm h h1 t t1 m -> (forall a, calm h1 h' t1 t' (f a)) -> calm h h' t t' (m ≫= f).
Proof.
  intros Hm Hf t0 s Ht. apply asafe_bind. eapply asafe_mono; [by apply Hm|].
  intros a h2 t2 s2 [-> Ht2]. by apply Hf.
Qed.

Lemma calm_weaken {A} h h' t t' t'' (m : adapter A) : t'' <= t' -> calm h h' t t' m -> calm h h' t t'' m.
Proof.
  intros Hle Hm t0 s Ht. eapply asafe_mono; [by apply Hm|]. intros a h2 t2 s2 [-> Ht2]. split; [done|lia].
Qed.

Lemma calm_op {X : Set} (o : op X) h h' t t' :
  op_stage o h h' -> not_due h' -> 0 <= t' <= t ->
  (forall s R, t <= R -> shared_inv R totals s ->
     exists x s', op_step o s = Some (x, s') /\ shared_inv (R - (t - t')) totals s' /\ keeps_unsent s s') ->
  calm h h' t t' (common o).
Proof.
  intros Hh Hd Ht Ho t0 s Ht0. exists h'. split; [exact Hh|]. intros sv R _ HR Hi.
  destruct (Ho (sv_shared sv) R ltac:(lia) Hi) as (x & s' & E & Hi' & Hu). eexists x, _, (t0 - (t - t')).
  split; [simpl; rewrite E; done|]. split; [lia|]. split.
  { by replace (R - (t0 - (t0 - (t - t')))) with (R - (t - t')) by lia. }
  split; [done|]. split; [by apply agree_refl|]. split; [done|lia].
Qed.

(** An operation that changes nothing. *)
Lemma calm_pure {X : Set} (o : op X) h h' t :
  op_stage o h h' -> not_due h' -> 0 <= t -> (forall s R, shared_inv R totals s -> exists x, op_step o s = Some (x, s)) ->
  calm h h' t t (common o).
Proof.
  intros Hh Hd Ht Ho. apply calm_op; [done|done|lia|]. intros s R HR Hi. destruct (Ho s R Hi) as [x E].
  exists x, s. rewrite Z.sub_diag, Z.sub_0_r. split_and!; [done|done|by intros id].
Qed.

Lemma calm_lock l t : 0 <= t -> calm Free (Holds l) t t (common (Lock l)).
Proof. intros Ht. apply calm_pure; [done..|]. intros. by exists (). Qed.
Lemma calm_unlock l t : 0 <= t -> calm (Holds l) Free t t (common (Unlock l)).
Proof. intros Ht. apply calm_pure; [split; auto|done|done|]. intros. by exists (). Qed.
Lemma calm_close fd t : 0 <= t -> calm (Holds Local) (Holds Local) t t (close fd).
Proof. intros Ht. apply calm_pure; [done..|]. intros. by exists (). Qed.
Lemma calm_strtok h text t : parses h -> 0 <= t -> calm h h t t (common (Strtok text)).
Proof.
  intros Hd Ht. apply calm_op; [done|by apply parses_not_due|lia|]. intros s R HR Hi. eexists _, _. split; [done|].
  rewrite Z.sub_diag, Z.sub_0_r. split; [by apply shared_inv_tokens|by intros id].
Qed.

Lemma calm_read_table {A : Set} (f : connections -> option A) t :
  0 <= t -> (forall conns, conns_ok conns -> is_Some (f conns)) -> calm Free Free t t (read_table f).
Proof.
  intros Ht Hf. eapply calm_bind; [by apply calm_lock|intros _]. eapply calm_bind; [|intros a].
  - apply calm_pure; [split; auto|done|done|]. intros s R [_ _ Hc _ _]. destruct (Hf _ Hc) as [a Ha].
    exists a. simpl. by rewrite Ha.
  - eapply calm_bind; [by apply calm_unlock|intros _; apply calm_ret].
Qed.

Lemma calm_find_fd ip port t : 0 <= t -> calm Free Free t t (find_fd ip port).
Proof.
  intros Ht. apply calm_read_table; [done|]. intros conns Hc. destruct (find_fd_total conns ip port Hc) as (z & -> & _). eauto.
Qed.

Lemma calm_connection_port fd t : 0 <= t -> calm Free Free t t (connection_port fd).
Proof.
  intros Ht. unfold connection_port. destruct (_ || _); [apply calm_ret|]. apply calm_read_table; [done|].
  intros conns Hc. rewrite get_connection_port_spec by done. eauto.
Qed.

(** Calls on the components. *)
Lemma calm_on_local {A : Set}
    (f : local_resources_t -> active_jobs_t -> option (A * local_resources_t * active_jobs_t)) t t' :
  0 <= t' <= t ->
  (forall R r jobs, t <= R -> local_wf R r jobs -> exists a r' jobs', f r jobs = Some (a, r', jobs') /\
     local_wf (R - (t - t')) r' jobs' /\ total r' = total r) ->
  calm (Holds Local) (Holds Local) t t' (on_local f).
Proof.
  intros Ht Hf. apply calm_op; [done..|]. intros s R HR Hi.
  destruct (Hf R _ _ HR (nw_local _ _ (sh_wf _ _ _ Hi))) as (a & r' & jobs' & E & Hw & Htot).
  eexists a, _. split; [simpl; by rewrite E|]. split; [|by intros id].
  eapply shared_inv_local; [exact Hi|lia|done|done].
Qed.

Lemma calm_on_known {A : Set} (f : known_nodes_t -> option (A * known_nodes_t)) t t' :
  0 <= t' <= t ->
  (forall R nodes, t <= R -> known_wf R nodes -> exists a nodes', f nodes = Some (a, nodes') /\ known_wf (R - (t - t')) nodes') ->
  calm (Holds Known) (Holds Known) t t' (on_known f).
Proof.
  intros Ht Hf. apply calm_op; [done..|]. intros s R HR Hi.
  destruct (Hf R _ HR (nw_known _ _ (sh_wf _ _ _ Hi))) as (a & nodes' & E & Hw).
  eexists a, _. split; [simpl; by rewrite E|]. split; [|by intros id]. eapply shared_inv_known; [exact Hi|lia|done].
Qed.

(** A call on the owned jobs under their mutex: the table is the one the thread left. *)
Lemma asafe_on_owned {A : Set} (f : owned_jobs_t -> option (A * owned_jobs_t)) t t' s
    (Q : A -> stage -> Z -> shared -> Prop) :
  0 <= t' <= t ->
  (forall R, t <= R -> owned_wf R (owned_of s) -> jobs_seq (owned_of s) -> exists a jobs',
     f (owned_of s) = Some (a, jobs') /\ owned_wf (R - (t - t')) jobs' /\ orderly (owned_of s) jobs' /\
     forall s', owned_of s' = jobs' -> Q a (Holds Owned) t' s') ->
  asafe (on_owned f) (Holds Owned) t s Q.
Proof.
  intros Ht Hf. exists (Holds Owned). split; [by left|]. intros sv R Ha HR Hi. simpl in Ha.
  pose proof (nw_owned _ _ (sh_wf _ _ _ Hi)) as Hw. pose proof (sh_seq _ _ _ Hi) as Hs. rewrite Ha in Hw, Hs.
  destruct (Hf R HR Hw Hs) as (a & jobs' & E & Hw' & [Hs' Hu] & HQ).
  eexists a, _, t'. split; [simpl; by rewrite Ha, E|]. split; [lia|]. split.
  { simpl. eapply shared_inv_owned; [exact Hi|lia|done|done]. }
  split; [|split; [done|by apply HQ]]. intros _ id. simpl. rewrite Ha. apply Hu.
Qed.

Lemma calm_on_owned {A : Set} (f : owned_jobs_t -> option (A * owned_jobs_t)) t t' :
  0 <= t' <= t ->
  (forall R jobs, t <= R -> owned_wf R jobs -> jobs_seq jobs ->
     exists a jobs', f jobs = Some (a, jobs') /\ owned_wf (R - (t - t')) jobs' /\ orderly jobs jobs') ->
  calm (Holds Owned) (Holds Owned) t t' (on_owned f).
Proof.
  intros Ht Hf t0 s Ht0. apply (asafe_on_owned _ _ (t0 - (t - t'))); [lia|]. intros R HR Hw Hs.
  destruct (Hf R _ ltac:(lia) Hw Hs) as (a & jobs' & E & Hw' & Ho). exists a, jobs'. split; [done|].
  replace (R - (t0 - (t0 - (t - t')))) with (R - (t - t')) by lia. split_and!; [done|done|]. intros s' _. split; [done|lia].
Qed.

Lemma calm_query_owned {A : Set} (f : owned_jobs_t -> option A) t :
  0 <= t -> (forall R jobs, owned_wf R jobs -> is_Some (f jobs)) ->
  calm (Holds Owned) (Holds Owned) t t (on_owned (query f)).
Proof.
  intros Ht Hf. apply calm_on_owned; [lia|]. intros R jobs _ Hw Hs. destruct (Hf R jobs Hw) as [a Ha].
  exists a, jobs. unfold query. rewrite Ha, Z.sub_diag, Z.sub_0_r. split_and!; [done|done|by apply orderly_refl].
Qed.

Lemma calm_outbox {X : Set} h t (f : option outbox_t -> option (X * option outbox_t)) : calm h h t t (trigger (OnOutbox f)).
Proof. by intros t0 s Ht x. Qed.
Lemma calm_add h t msg fd ip port : calm h h t t (add_to_outbox msg fd ip port).
Proof. apply calm_outbox. Qed.
Lemma calm_reset h t : calm h h t t reset_count.
Proof. apply calm_outbox. Qed.
Lemma calm_get_count h t : calm h h t t get_count.
Proof. apply calm_outbox. Qed.

Lemma calm_for_each {A} h t (l : list A) body : (forall a, calm h h t t (body a)) -> calm h h t t (for_each l body).
Proof.
  intros Hb. induction l as [|a l IH]; [apply calm_ret|]. eapply calm_bind; [apply Hb|]. by intros _.
Qed.

(** A loop over tokens that keeps a fact about what the thread has left. *)
Lemma asafe_each_token {B} h t (P : shared -> Prop) fuel (body : B -> string -> adapter B) acc t0 s :
  parses h -> 0 <= t -> t <= t0 -> P s -> (forall s s', agree h s s' -> P s -> P s') -> (forall ts s, P s -> P (set_tokens ts s)) ->
  (forall acc tk t0 s, t <= t0 -> P s -> asafe (body acc tk) h t0 s (fun _ h2 t2 s2 => h2 = h /\ t <= t2 /\ P s2)) ->
  asafe (each_token fuel body acc) h t0 s (fun _ h2 t2 s2 => h2 = h /\ t <= t2 /\ P s2).
Proof.
  intros Hd Ht Ht0 HP Hag Htk Hb. revert acc t0 s Ht0 HP.
  induction fuel as [|fuel IH]; intros acc t0 s Ht0 HP; [by apply parses_not_due|].
  cbn [each_token]. apply asafe_bind. exists h. split; [done|]. intros sv R Ha HR Hi.
  set (ts := sh_tokens (sv_shared sv)). set (s1 := set_tokens (tail ts) (sv_shared sv)).
  exists (head ts), (Server s1 (sv_ctx sv) (sv_kernel sv) (sv_log sv ++ [])), t0.
  split; [done|]. split; [lia|]. rewrite Z.sub_diag, Z.sub_0_r. split; [by apply shared_inv_tokens|].
  split; [by intros _ id|]. split; [by apply agree_refl, parses_not_due|]. cbn [sv_shared asafe].
  assert (HP' : P s1) by (by apply Htk, (Hag s)).
  destruct (head ts) as [tk|]; [|by split_and!]. apply asafe_bind.
  eapply asafe_mono; [by apply Hb|]. intros acc' h2 t2 s2 (-> & Ht2 & HP2). by apply IH.
Qed.

Lemma calm_each_token {B} h t fuel (body : B -> string -> adapter B) acc :
  parses h -> 0 <= t -> (forall acc tk, calm h h t t (body acc tk)) -> calm h h t t (each_token fuel body acc).
Proof.
  intros Hd Ht Hb t0 s Ht0. eapply asafe_mono; [apply (asafe_each_token h t (fun _ => True)); [done..|]|].
  - intros acc' tk t1 s1 Ht1 _. eapply asafe_mono; [by apply Hb|]. by intros b h2 t2 s2 [-> ?].
  - by intros b h2 t2 s2 (-> & ? & _).
Qed.

End logic.
