(* ===== verification/ThreadHandlers.v ===== *)
(** * ThreadHandlers: the handlers of the adapter among other threads

    Every handler of [src/c_agent/src/comms/resource_adapter.c] is [calm]: it keeps
    the shared invariant in every interleaving, the order of the RESERVE chains
    included, touches each component under its mutex (but for the end of a
    JOB_REQUEST), and ends holding nothing. *)

From Stdlib Require Import Ascii.
From S2P Require Import Prelude CString TablaHash CommonTypes LocalResource OwnedJobs KnownNodes NodeStructures Connections Program Adapter ResourceAdapter AdapterSafety Outbox Server EventHandler EventSafety Threads ThreadLogic.
Local Open Scope Z_scope.

Create HintDb calm.

Section handlers.
Context {K : Type} (totals : list Z).
#[local] Abbreviation calm := (@calm K totals).
#[local] Abbreviation Locked c := (Holds (Mutex c)) (only parsing).

#[local] Hint Resolve calm_ret calm_spin calm_lock calm_unlock calm_close calm_strtok calm_find_fd
  calm_connection_port calm_add calm_reset calm_get_count : calm.
#[local] Hint Extern 1 (not_due _) => exact I : calm.
#[local] Hint Extern 1 (parses _) => exact I : calm.

Lemma calm_mutex_lock c t : 0 <= t -> calm Free (Locked c) t t (pthread_mutex_lock c).
Proof. apply calm_lock. Qed.
Lemma calm_mutex_unlock c t : 0 <= t -> calm (Locked c) Free t t (pthread_mutex_unlock c).
Proof. apply calm_unlock. Qed.
Lemma calm_to_target h t msg tg : calm h h t t (send_to_target msg tg).
Proof. apply calm_add. Qed.
Lemma calm_to_socket h t msg socket : calm h h t t (send_to_socket msg socket).
Proof. apply calm_add. Qed.

#[local] Hint Resolve calm_mutex_lock calm_mutex_unlock calm_to_target calm_to_socket : calm.

(** Walks through a handler whose calls are in the database. *)
Ltac solve_calm :=
  cbv beta zeta;
  lazymatch goal with
  | |- ThreadLogic.calm _ _ _ _ _ (mbind _ _) => eapply calm_bind; [solve_calm|intros ?; solve_calm]
  | |- ThreadLogic.calm _ _ _ _ _ (for_each _ _) => apply calm_for_each; intros ?; solve_calm
  | |- ThreadLogic.calm _ _ _ _ _ (each_token _ _ _) => apply calm_each_token; [done|done|intros ? ?; solve_calm]
  | |- ThreadLogic.calm _ _ _ _ _ (match ?x with _ => _ end) => destruct x; solve_calm
  | |- _ => eauto with calm
  end.

(** ** The owned jobs *)

Lemma calm_granted t job_id m : 0 <= t ->
  calm (Locked Owned) (Locked Owned) t t (on_owned (query (fun jobs => get_granted_resources jobs job_id m))).
Proof. intros Ht. apply calm_query_owned; [done|]. intros R jobs Hj. rewrite (get_granted_resources_spec _ _ _ _ Hj). eauto. Qed.

Lemma calm_owner t job_id : 0 <= t ->
  calm (Locked Owned) (Locked Owned) t t (on_owned (query (fun jobs => get_job_owner_socket jobs job_id))).
Proof. intros Ht. apply calm_query_owned; [done|]. intros R jobs Hj. rewrite (get_job_owner_socket_spec _ _ _ Hj). eauto. Qed.

Lemma calm_affected t ip port m : 0 <= t ->
  calm (Locked Owned) (Locked Owned) t t (on_owned (query (fun jobs => get_jobs_affected_by_dead_node jobs ip port m))).
Proof. intros Ht. apply calm_query_owned; [done|]. intros R jobs Hj. rewrite (affected_spec _ _ _ _ (ow_tabla _ _ Hj)). eauto. Qed.

Lemma calm_orphans t socket m : 0 <= t ->
  calm (Locked Owned) (Locked Owned) t t (on_owned (query (fun jobs => get_jobs_by_owner_socket jobs socket m))).
Proof. intros Ht. apply calm_query_owned; [done|]. intros R jobs Hj. rewrite (orphans_spec _ _ _ (ow_tabla _ _ Hj)). eauto. Qed.

Lemma calm_late t m now : 0 <= t ->
  calm (Locked Owned) (Locked Owned) t t (on_owned (query (fun jobs => collect_timed_out_jobs jobs m now))).
Proof. intros Ht. apply calm_query_owned; [done|]. intros R jobs Hj. rewrite (timed_out_spec _ _ _ (ow_tabla _ _ Hj)). eauto. Qed.

(** A call that keeps the table in order without inserting. *)
Lemma calm_owned_call {A : Set} t (f : owned_jobs_t -> option (A * owned_jobs_t)) :
  0 <= t ->
  (forall R jobs, owned_wf R jobs -> jobs_seq jobs -> exists a jobs', f jobs = Some (a, jobs') /\ owned_wf R jobs' /\
     orderly jobs jobs') ->
  calm (Locked Owned) (Locked Owned) t t (on_owned f).
Proof. intros Ht Hf. apply calm_on_owned; [lia|]. intros R jobs _. rewrite Z.sub_diag, Z.sub_0_r. apply Hf. Qed.

Lemma calm_remove t job_id : 0 <= t ->
  calm (Locked Owned) (Locked Owned) t t (on_owned (fun jobs => jobs' ← remove_owned_job jobs job_id; Some ((), jobs'))).
Proof.
  intros Ht. apply calm_owned_call; [done|]. intros R jobs Hw Hs.
  destruct (remove_owned_job_spec R _ job_id Hw) as (jobs' & E & Hw' & _). exists (), jobs'. rewrite E.
  split_and!; [done|done|by eapply orderly_remove].
Qed.

Lemma calm_append t job_id ip port type cant : 0 <= t ->
  calm (Locked Owned) (Locked Owned) t t (on_owned (fun jobs => append_petition_to_job jobs job_id ip port type cant)).
Proof.
  intros Ht. apply calm_owned_call; [done|]. intros R jobs Hw Hs.
  destruct (append_petition_spec R _ job_id ip port type cant Hw) as (z & jobs' & E & Hw' & _). exists z, jobs'.
  split_and!; [done|done|by eapply orderly_append].
Qed.

#[local] Hint Resolve calm_granted calm_owner calm_affected calm_orphans calm_late calm_remove calm_append : calm.

(** ** The inventory and the directory *)

Lemma calm_free_socket t socket : 0 <= t -> calm (Locked Local) (Locked Local) t t (free_socket socket).
Proof.
  intros Ht. apply calm_on_local; [lia|]. intros R r jobs _ Hl. rewrite Z.sub_diag, Z.sub_0_r.
  destruct (free_all_spec R _ _ socket Hl) as (r' & jobs' & Hf & Heff). eexists _, r', jobs'.
  split; [by rewrite Hf|]. split; [exact (fa_wf _ _ _ _ _ _ Heff)|]. by eapply free_all_total.
Qed.

Lemma calm_del_active t job_id socket : 0 <= t ->
  calm (Locked Local) (Locked Local) t t
    (on_local (fun r jobs => '(r', jobs') ← del_active_job r jobs job_id socket; Some ((), r', jobs'))).
Proof.
  intros Ht. apply calm_on_local; [lia|]. intros R r jobs _ Hl. rewrite Z.sub_diag, Z.sub_0_r.
  destruct (del_active_job_spec R _ _ job_id socket Hl) as ([r' jobs'] & Hd & Hw & _). eexists _, r', jobs'.
  split; [by rewrite Hd|]. split; [done|]. by eapply del_active_total.
Qed.

Lemma calm_new_job t id socket quantity type :
  1 <= t -> valid_res type -> in_u32 id -> in_u32 socket -> in_u32 quantity ->
  calm (Locked Local) (Locked Local) t (t - 1) (on_local (fun r jobs => new_job_request r jobs id socket quantity type)).
Proof.
  intros Ht Hv Hid Hso Hq. apply calm_on_local; [lia|]. intros R r jobs HR Hl.
  destruct (new_job_request_spec R _ _ id socket quantity type Hl ltac:(lia) Hv Hid Hso Hq) as (z & r' & jobs' & Hn & Hw & _).
  exists z, r', jobs'. split; [done|]. replace (R - (t - (t - 1))) with (R - 1) by lia. split; [done|].
  by eapply new_job_total.
Qed.

Lemma calm_get_local t : 0 <= t ->
  calm (Locked Local) (Locked Local) t t (on_local (fun r jobs => a ← get_local_resources r; Some (a, r, jobs))).
Proof.
  intros Ht. apply calm_on_local; [lia|]. intros R r jobs _ Hl. rewrite Z.sub_diag, Z.sub_0_r.
  rewrite (get_local_resources_spec _ _ _ Hl). by eexists _, r, jobs.
Qed.

Lemma calm_payload t : 0 <= t ->
  calm (Locked Known) (Locked Known) t t
    (on_known (query (fun nodes => get_known_nodes_payload nodes EmptyString (Z.of_nat BUFFER_SIZE)))).
Proof.
  intros Ht. apply calm_on_known; [lia|]. intros R nodes _ Hkn. rewrite Z.sub_diag, Z.sub_0_r.
  destruct (payload_spec R _ EmptyString (Z.of_nat BUFFER_SIZE) Hkn) as [Hp _]; [unfold BUFFER_SIZE; lia|].
  unfold query. rewrite Hp. by eexists _, nodes.
Qed.

Lemma calm_remove_inactive t m now : 0 <= t ->
  calm (Locked Known) (Locked Known) t t (on_known (fun nodes => remove_inactive_nodes nodes m now)).
Proof.
  intros Ht. apply calm_on_known; [lia|]. intros R nodes _ Hkn. rewrite Z.sub_diag, Z.sub_0_r.
  destruct (remove_inactive_spec R _ m now Hkn) as (dead & nodes' & Hr & Hw & _). by exists dead, nodes'.
Qed.

Lemma calm_update_known t ip port cpu ram gpu now :
  1 <= t -> in_u32 port -> in_u32 cpu -> in_u32 ram -> in_u32 gpu ->
  calm (Locked Known) (Locked Known) t (t - 1)
    (on_known (fun nodes => nodes' ← update_known_node nodes ip port cpu ram gpu now; Some ((), nodes'))).
Proof.
  intros Ht Hp Hc Hr Hg. apply calm_on_known; [lia|]. intros R nodes HR Hkn.
  destruct (update_known_node_spec R _ ip port cpu ram gpu now Hkn ltac:(lia) Hp Hc Hr Hg) as (nodes' & -> & Hw & _).
  eexists _, nodes'. split; [done|]. by replace (R - (t - (t - 1))) with (R - 1) by lia.
Qed.

#[local] Hint Resolve calm_free_socket calm_del_active calm_get_local calm_payload calm_remove_inactive : calm.

(** *** The loop that wakes the waiting requests

    The number of them is read once; the mutex keeps it from growing, so the loop
    ends however many threads wait for it. *)
Lemma safe_wake fuel rnd msg qs t s :
  queued (nd_resources (sh_node s)) < Z.of_nat fuel -> 0 <= t ->
  asafe (K := K) totals (wake_loop fuel rnd msg qs) (Locked Local) t s (fun _ h2 t2 _ => h2 = Locked Local /\ t <= t2).
Proof.
  revert msg qs s. induction fuel as [|fuel IH]; intros msg qs s Hq Ht.
  { pose proof (queued_nonneg (nd_resources (sh_node s))). lia. }
  cbn [wake_loop]. apply asafe_bind. exists (Locked Local). split; [done|]. intros sv R [Hr Hj] HR Hi.
  pose proof (nw_local _ _ (sh_wf _ _ _ Hi)) as Hl. rewrite <- Hr in Hq.
  destruct (chk_job_request_spec R _ _ (rnd fuel) msg 64 qs Hl) as (c & m & Hc & Hres & _).
  pose proof (cr_wf _ _ _ _ _ _ Hres) as Hw. pose proof (chk_job_total _ _ _ _ _ _ _ _ Hc) as Htot.
  eexists _, _, t. split; [simpl; rewrite Hc; done|]. split; [lia|]. rewrite Z.sub_diag, Z.sub_0_r.
  pose proof (shared_inv_k _ _ _ Hi) as HR0.
  split; [exact (shared_inv_local _ _ _ _ _ _ Hi (conj HR0 (Z.le_refl _)) Hw Htot)|].
  split; [by intros _ id|]. split; [done|]. cbn [asafe]. cbv beta iota. destruct (Z.eqb_spec (chk_out c) (-1)) as [_|Hout]; [by split|].
  pose proof (cr_progress _ _ _ _ _ _ Hres Hout) as Hless. apply asafe_bind. intros x. apply IH; [|done]. simpl. lia.
Qed.

Lemma calm_wake_fuel t t0 s : 0 <= t -> t <= t0 ->
  asafe (K := K) totals wake_fuel (Locked Local) t0 s (fun fuel h2 t2 s2 =>
    h2 = Locked Local /\ t <= t2 /\ queued (nd_resources (sh_node s2)) < Z.of_nat fuel).
Proof.
  intros Ht Ht0. exists (Locked Local). split; [done|]. intros sv R [Hr Hj] HR Hi.
  eexists _, _, t0. split; [done|]. split; [lia|]. rewrite Z.sub_diag, Z.sub_0_r.
  assert (Hsame : set_node (set_local (sh_node (sv_shared sv)) (nd_resources (sh_node (sv_shared sv)))
    (nd_active_jobs (sh_node (sv_shared sv)))) (sv_shared sv) = sv_shared sv).
  { by destruct (sv_shared sv) as [[] ? ?]. }
  cbn [sv_shared asafe]. rewrite Hsame. split; [done|]. split; [by intros _ id|]. split; [done|]. split_and!; [done|done|].
  pose proof (queued_nonneg (nd_resources (sh_node (sv_shared sv)))). lia.
Qed.

(** ** The handlers *)

Lemma calm_releases h t job_id granted : calm h h t t (send_releases job_id granted).
Proof. unfold send_releases. solve_calm. Qed.
#[local] Hint Resolve calm_releases : calm.

Lemma calm_denied t buffer : 0 <= t -> calm Free Free t t (handle_denied buffer).
Proof. intros Ht. unfold handle_denied. solve_calm. Qed.

Lemma calm_job_release t buffer : 0 <= t -> calm Free Free t t (handle_job_release buffer).
Proof. intros Ht. unfold handle_job_release. solve_calm. Qed.

Lemma calm_abort t keep job_id : 0 <= t -> calm (Locked Owned) (Locked Owned) t t (abort_job keep job_id).
Proof. intros Ht. unfold abort_job. solve_calm. Qed.

Lemma calm_orphan t job_id : 0 <= t -> calm (Locked Owned) (Locked Owned) t t (drop_orphan job_id).
Proof. intros Ht. unfold drop_orphan. solve_calm. Qed.
#[local] Hint Resolve calm_abort calm_orphan : calm.

Lemma calm_bury t dead : 0 <= t -> calm Free Free t t (bury_node dead).
Proof. intros Ht. unfold bury_node. solve_calm. Qed.

Lemma calm_timeout t ids : 0 <= t -> calm (Locked Owned) (Locked Owned) t t (timeout_loop ids).
Proof. intros Ht. induction ids as [|id ids IH]; cbn [timeout_loop]; solve_calm. Qed.
#[local] Hint Resolve calm_bury calm_timeout : calm.

Lemma calm_check_deadnodes t now1 now2 : 0 <= t -> calm Free Free t t (handle_check_deadnodes now1 now2).
Proof. intros Ht. unfold handle_check_deadnodes. solve_calm. Qed.

Lemma calm_disconnected t ip socket : 0 <= t -> calm Free Free t t (handle_disconnected ip socket).
Proof. intros Ht. unfold handle_disconnected. solve_calm. Qed.

Lemma calm_get_nodes t socket : 0 <= t -> calm Free Free t t (handle_get_nodes_response socket).
Proof. intros Ht. unfold handle_get_nodes_response. solve_calm. Qed.

Lemma calm_petition t job_id token : 0 <= t -> calm (Locked Owned) (Locked Owned) t t (parse_petition job_id token).
Proof. intros Ht. unfold parse_petition. solve_calm. Qed.
#[local] Hint Resolve calm_petition : calm.

Lemma calm_skip t : calm Free Free t (t - 1) (mret ()).
Proof. apply (calm_weaken _ _ _ _ t); [lia|apply calm_ret]. Qed.

(** *** The order of the RESERVEs *)

(** The job of the request has nothing sent, as long as the thread holds the mutex. *)
Lemma asafe_append t job_id ip port type cant t0 s id :
  0 <= t -> t <= t0 -> unsent_in id (owned_of s) ->
  asafe (K := K) totals (on_owned (fun jobs => append_petition_to_job jobs job_id ip port type cant)) (Locked Owned) t0 s
    (fun _ h2 t2 s2 => h2 = Locked Owned /\ t <= t2 /\ unsent_in id (owned_of s2)).
Proof.
  intros Ht Ht0 Hu. apply (asafe_on_owned _ _ _ t0); [lia|]. intros R HR Hw Hs.
  destruct (append_petition_spec R (owned_of s) job_id ip port type cant Hw) as (z & jobs' & E & Hw' & _).
  pose proof (orderly_append _ _ _ _ _ _ _ _ _ Hw Hs E) as Ho. exists z, jobs'. rewrite Z.sub_diag, Z.sub_0_r.
  split_and!; [done..|]. intros s' <-. split_and!; [done|done|]. by apply Ho.
Qed.

Lemma asafe_petition t job_id token t0 s id :
  0 <= t -> t <= t0 -> unsent_in id (owned_of s) ->
  asafe (K := K) totals (parse_petition job_id token) (Locked Owned) t0 s
    (fun _ h2 t2 s2 => h2 = Locked Owned /\ t <= t2 /\ unsent_in id (owned_of s2)).
Proof.
  intros Ht Ht0 Hu. unfold parse_petition. repeat case_match; try by split_and!.
  all: apply asafe_bind; eapply asafe_mono; [by apply (asafe_append t)|]; by intros ? ? ? ? ?.
Qed.

(** The first RESERVE, after the unlock. *)
Lemma asafe_first_reserve t job_id s :
  0 <= t ->
  asafe (K := K) totals (on_owned (fun jobs => get_next_reserve jobs job_id)) (Due job_id) t s
    (fun _ h2 t2 _ => h2 = Free /\ t <= t2).
Proof.
  intros Ht. exists Free. split; [right; split; [by exists job_id|done]|]. intros sv R Hu HR Hi. simpl in Hu.
  pose proof (nw_owned _ _ (sh_wf _ _ _ Hi)) as Hw. pose proof (sh_seq _ _ _ Hi) as Hs.
  destruct (get_next_reserve_spec R _ job_id Hw) as (o & jobs' & E & Hw' & _).
  eexists o, _, t. split; [simpl; rewrite E; done|]. split; [lia|]. rewrite Z.sub_diag, Z.sub_0_r.
  pose proof (shared_inv_k _ _ _ Hi). split; [|by repeat split].
  simpl. eapply shared_inv_owned; [exact Hi|lia|done|]. eapply seq_next; [exact Hw|done|exact E|].
  by apply unsent_settled.
Qed.

Lemma asafe_unlock_due t job_id s :
  0 <= t -> unsent_in job_id (owned_of s) ->
  asafe (K := K) totals (pthread_mutex_unlock Owned) (Locked Owned) t s (fun _ h2 t2 _ => h2 = Due job_id /\ t <= t2).
Proof.
  intros Ht Hu. exists (Due job_id). split; [split; [done|right; eauto]|]. intros sv R Ha HR Hi.
  eexists (), _, t. split; [done|]. split; [lia|]. rewrite Z.sub_diag, Z.sub_0_r. split; [done|].
  split; [by intros _ id|]. split; [|done]. simpl in *. by rewrite Ha.
Qed.

Lemma calm_job_request t now socket buffer : 1 <= t -> calm Free Free t (t - 1) (handle_job_request now socket buffer).
Proof.
  intros Ht. unfold handle_job_request.
  destruct (sscanf buffer "JOB_REQUEST %u") as [|[job_id|?] [|? ?]]; try apply calm_skip.
  eapply calm_bind; [apply calm_mutex_lock; lia|intros _]. intros t0 s Ht0. assert (Ht1 : 0 <= t - 1) by lia.
  set (P := fun s => unsent_in job_id (owned_of s)).
  assert (Htok : forall text t2 s2, t - 1 <= t2 -> P s2 -> asafe (K := K) totals (common (Strtok text)) (Locked Owned) t2 s2
    (fun _ h3 t3 s3 => h3 = Locked Owned /\ t - 1 <= t3 /\ P s3)).
  { intros text t2 s2 Ht2 HP. exists (Locked Owned). split; [done|]. intros sv R Ha HR Hi. eexists _, _, t2.
    split; [done|]. split; [lia|]. rewrite Z.sub_diag, Z.sub_0_r. split; [by apply shared_inv_tokens|].
    split; [by intros _ id|]. split; [done|]. split_and!; [done|done|]. unfold P in *. simpl in *. by rewrite Ha. }
  apply asafe_bind, (asafe_on_owned _ _ _ (t0 - 1)); [lia|]. intros R HR Hw Hs.
  destruct (add_new_owned_job_spec R _ job_id socket now Hw ltac:(lia)) as (jobs' & E & Hw' & _).
  destruct (orderly_new R _ _ _ _ _ Hw ltac:(lia) Hs E) as [Ho Hu].
  exists 1, jobs'. replace (R - (t0 - (t0 - 1))) with (R - 1) by lia. split_and!; [done..|]. intros s1 <-.
  apply asafe_bind. eapply asafe_mono; [apply Htok; [lia|exact Hu]|]. intros _ h2 t2 s2 (-> & Ht2 & Hu2).
  apply asafe_bind. eapply asafe_mono; [by apply Htok|]. intros _ h3 t3 s3 (-> & Ht3 & Hu3).
  apply asafe_bind. eapply asafe_mono.
  { apply (asafe_each_token _ _ (t - 1) P); [done|done|done|exact Hu3| |done|].
    { intros a b Hab. unfold P. simpl in Hab. by rewrite Hab. }
    intros _ tk t4 s4 Ht4 HP4. by apply asafe_petition. }
  intros _ h4 t4 s4 (-> & Ht4 & Hu4). apply asafe_bind. eapply asafe_mono; [apply (asafe_unlock_due _ job_id); [lia|done]|].
  intros _ h5 t5 s5 [-> Ht5]. apply asafe_bind. eapply asafe_mono; [apply asafe_first_reserve; lia|].
  intros next h6 t6 s6 [-> Ht6]. destruct next; [apply (calm_to_target Free (t - 1)); lia|split; [done|lia]].
Qed.

Lemma calm_granted_msg t sender_ip port buffer :
  0 <= t -> is_Some sender_ip -> calm Free Free t t (handle_granted sender_ip port buffer).
Proof.
  intros Ht [ip ->]. unfold handle_granted.
  destruct (sscanf buffer "GRANTED %u") as [|[job_id|?] [|? ?]]; try apply calm_ret.
  destruct (port =? 0); [apply calm_ret|]. eapply calm_bind; [by apply calm_mutex_lock|intros _].
  eapply calm_bind; [by apply calm_lift|intros ip'].
  intros t0 s Ht0. apply asafe_bind, (asafe_on_owned _ _ _ t0); [lia|]. intros R HR Hw Hs.
  destruct (mark_petition_spec R _ job_id ip' port Hw) as (z & jobs' & E & Hw' & _).
  destruct (orderly_mark R _ _ _ _ _ _ Hw Hs E) as [Ho Hset].
  exists z, jobs'. rewrite Z.sub_diag, Z.sub_0_r. split_and!; [done..|]. intros s1 <-. apply asafe_bind.
  eapply (asafe_mono _ _ _ _ _ (fun _ h2 t2 _ => h2 = Locked Owned /\ t <= t2));
    [|intros _ h2 t2 s2 [-> Ht2]; apply (calm_mutex_unlock Owned t); lia].
  destruct (Z.eqb_spec z 1) as [->|_].
  { apply (calm_bind totals _ (Locked Owned) _ t t); [by apply calm_owner|intros; apply calm_to_socket|done]. }
  destruct (Z.eqb_spec z 0) as [->|_]; [|by split]. apply asafe_bind, (asafe_on_owned _ _ _ t0); [lia|].
  intros R2 HR2 Hw2 Hs2. destruct (get_next_reserve_spec R2 _ job_id Hw2) as (o & jobs2 & E2 & Hw3 & _).
  exists o, jobs2. rewrite Z.sub_diag, Z.sub_0_r. split_and!; [done|done|by eapply orderly_next, Hset|].
  intros s2 _. destruct o; [by apply (calm_to_target (Locked Owned) t)|by split].
Qed.

Lemma calm_reserve t socket buffer :
  1 <= t -> in_u32 socket -> reserve_overflow (sscanf buffer "RESERVE %u %s %u") = false ->
  calm Free Free t (t - 1) (handle_reserve socket buffer).
Proof.
  intros Ht Hso Hov. unfold handle_reserve. rewrite Hov.
  eapply calm_bind; [apply calm_lift; by eexists|intros _]. cbv zeta.
  pose proof (sscanf_u32 buffer "RESERVE %u %s %u") as Hu.
  destruct (sscanf buffer "RESERVE %u %s %u") as [|[id|?] [|[?|res] [|[cant|?] [|? ?]]]]; try apply calm_skip.
  apply Forall_cons in Hu as [Hid Hu]. apply Forall_cons in Hu as [_ Hu]. apply Forall_cons in Hu as [Hq _].
  eapply calm_bind; [apply calm_mutex_lock; lia|intros _]. set (type := if strcmp_eq res "cpu" then _ else _). clearbody type.
  assert (Ht1 : 0 <= t - 1) by lia. eapply (calm_bind _ _ (Locked Local) _ _ (t - 1)).
  - assert (Hskip : calm (Locked Local) (Locked Local) t (t - 1) (mret (-1)))
      by (apply (calm_weaken _ _ _ _ t); [lia|apply calm_ret]).
    destruct (bool_decide_reflect (type = INVALID_RES_TYPE)) as [->|Hne]; simpl; [exact Hskip|].
    destruct (_ =? 3)%nat; [by apply calm_new_job|exact Hskip].
  - intros result. solve_calm.
Qed.

Lemma calm_release t rnd msg socket buffer : 0 <= t -> calm Free Free t t (handle_release rnd msg socket buffer).
Proof.
  intros Ht. unfold handle_release.
  destruct (sscanf buffer "RELEASE %u %9s %u") as [|[id|?] [|[?|res] [|[cant|?] [|? ?]]]]; try apply calm_ret.
  eapply calm_bind; [by apply calm_mutex_lock|intros _]. eapply calm_bind; [by apply calm_del_active|intros _].
  intros t0 s Ht0. apply asafe_bind.
  eapply asafe_mono; [by apply (calm_wake_fuel t)|]. intros fuel h2 t2 s2 (-> & Hle & Hq). apply asafe_bind.
  eapply asafe_mono; [apply (safe_wake fuel rnd msg 0 t2 s2 Hq); lia|]. intros _ h3 t3 s3 [-> Hle3].
  by apply (calm_mutex_unlock Local t); lia.
Qed.

Lemma calm_record t now ip port amounts :
  1 <= t -> in_u32 port -> in_u32 amounts.1.1 -> in_u32 amounts.1.2 -> in_u32 amounts.2 ->
  calm Free Free t (t - 1) (record_announce now (Some ip) port amounts).
Proof.
  intros Ht Hp Hc Hr Hg. destruct amounts as [[cpu ram] gpu]. unfold record_announce.
  destruct (0 <? port); [|apply calm_skip]. assert (Ht1 : 0 <= t - 1) by lia.
  eapply calm_bind; [apply calm_mutex_lock; lia|intros _]. eapply calm_bind; [by apply calm_lift|intros ip'].
  eapply calm_bind; [by apply calm_update_known|intros _]. by apply calm_mutex_unlock.
Qed.

Definition amounts_ok (acc : Z * Z * Z) : Prop := in_u32 acc.1.1 /\ in_u32 acc.1.2 /\ in_u32 acc.2.

Lemma announce_token_ok acc token : amounts_ok acc -> amounts_ok (announce_token acc token).
Proof.
  destruct acc as [[c r] g]. intros (Hc & Hr & Hg). unfold announce_token.
  repeat case_match; (split_and!; [..|]); simpl in *; try done; apply atoi_u32.
Qed.

(** Whatever tokens the other threads leave. *)
Lemma safe_amounts fuel acc t t0 s :
  0 <= t -> t <= t0 -> amounts_ok acc ->
  asafe (K := K) totals (each_token fuel (fun acc tk => mret (announce_token acc tk)) acc) Free t0 s
    (fun a h2 t2 _ => h2 = Free /\ t <= t2 /\ amounts_ok a).
Proof.
  intros Ht. revert acc t0 s. induction fuel as [|fuel IH]; intros acc t0 s Ht0 Hacc; [done|]. cbn [each_token].
  apply asafe_bind. eapply asafe_mono; [by apply (calm_strtok totals Free None t)|].
  intros [tk|] h2 t2 s2 [-> Ht2]; [|by split_and!]. apply (IH (announce_token acc tk)); [lia|by apply announce_token_ok].
Qed.

Lemma calm_node_announced t now ip buffer : 1 <= t -> is_Some ip -> calm Free Free t (t - 1) (handle_node_announced now ip buffer).
Proof.
  intros Ht [a ->]. unfold handle_node_announced. assert (Ht0 : 0 <= t) by lia.
  eapply calm_bind; [by apply calm_strtok|]. intros [word|]; [|apply calm_skip].
  destruct (strcmp_eq word "ANNOUNCE"); [|apply calm_skip].
  eapply calm_bind; [by apply calm_strtok|]. intros [port|]; [|apply calm_skip].
  intros t0 s Hle. apply asafe_bind. eapply asafe_mono; [by apply (safe_amounts _ _ t)|].
  intros amounts h2 t2 s2 (-> & Ht2 & Hc & Hr & Hg). by apply calm_record; [..|apply atoi_u32| | | |].
Qed.

Lemma calm_get_resources t port : 0 <= t -> calm Free Free t t (handle_get_resources port).
Proof. intros Ht. unfold handle_get_resources. solve_calm. Qed.

Lemma calm_respond t env ip socket buffer :
  1 <= t -> in_u32 socket -> is_Some ip -> reserve_overflow (sscanf buffer "RESERVE %u %s %u") = false ->
  calm Free Free t (t - 1) (respond env ip socket buffer).
Proof.
  intros Ht Hso Hip Hov. unfold respond. assert (Ht0 : 0 <= t) by lia.
  assert (Hfree : forall m : adapter (), calm Free Free t t m -> calm Free Free t (t - 1) m).
  { intros m. apply calm_weaken. lia. }
  destruct (strncmp_eq buffer "GET_NODES" 9); [by apply Hfree, calm_get_nodes|].
  destruct (strncmp_eq buffer "JOB_REQUEST" 11); [by apply calm_job_request|].
  destruct (strncmp_eq buffer "RESERVE" 7); [by apply calm_reserve|].
  destruct (strncmp_eq buffer "GRANTED" 7).
  { apply Hfree. eapply calm_bind; [by apply calm_connection_port|intros; by apply calm_granted_msg]. }
  destruct (strncmp_eq buffer "DENIED" 6); [by apply Hfree, calm_denied|].
  destruct (strncmp_eq buffer "RELEASE" 7); [by apply Hfree, calm_release|].
  destruct (strncmp_eq buffer "JOB_RELEASE" 11); [by apply Hfree, calm_job_release|]. apply calm_skip.
Qed.

(** Whatever the outbox of the caller. *)
Lemma calm_patch t env c SENDER_IP SOCKET BUFFER action :
  1 <= t -> in_u32 SOCKET -> input_ok SENDER_IP BUFFER action ->
  calm Free Free t (t - 1) (resource_adapter_patch env c SENDER_IP SOCKET BUFFER action).
Proof.
  intros Ht Hso Hin. unfold resource_adapter_patch. assert (Ht0 : 0 <= t) by lia.
  destruct c as [c|]; [|apply calm_skip]. destruct (negb (sc_mynode c)); [apply calm_skip|].
  assert (Hfree : forall m : adapter (), calm Free Free t t m -> calm Free Free t (t - 1) m).
  { intros m. apply calm_weaken. lia. }
  eapply calm_bind; [apply calm_reset|intros _]. destruct action; simpl in Hin.
  - destruct BUFFER as [b|]; [|apply calm_skip]. destruct Hin as [Hip Hov]. apply calm_respond; auto.
  - by apply Hfree, calm_check_deadnodes.
  - by apply Hfree, calm_get_resources.
  - destruct BUFFER as [b|]; [|apply calm_skip]. by apply calm_node_announced.
  - by apply Hfree, calm_disconnected.
  - apply calm_skip.
Qed.

(** Actions that insert nothing. *)
Lemma calm_patch_free t env c SENDER_IP SOCKET BUFFER action :
  0 <= t -> action = ACTION_CHECK_DEADNODES \/ action = ACTION_GET_RESOURCES \/ action = ACTION_DISCONNECTED ->
  calm Free Free t t (resource_adapter_patch env c SENDER_IP SOCKET BUFFER action).
Proof.
  intros Ht Ha. unfold resource_adapter_patch. destruct c as [c|]; [|apply calm_ret]. destruct (negb (sc_mynode c)); [apply calm_ret|].
  eapply calm_bind; [apply calm_reset|intros _].
  destruct Ha as [->|[->| ->]]; [by apply calm_check_deadnodes|by apply calm_get_resources|by apply calm_disconnected].
Qed.

End handlers.
