(* ===== verification/ThreadSafety.v ===== *)
(** * ThreadSafety: the event handlers among other threads

    Every handler of EventHandler keeps the shared invariant in every interleaving,
    as ThreadHandlers shows of the adapter ([hcalm]), whatever the system answers
    within [KernelLaws] and [TamePeers]; [hcalm_happen] covers everything a thread
    can take up. *)

From Stdlib Require Import Ascii.
From S2P Require Import Prelude CString TablaHash CommonTypes LocalResource OwnedJobs KnownNodes NodeStructures Connections Program Adapter ResourceAdapter AdapterSafety Protocol Recovery ThreadPool Outbox Server EventHandler EventSafety Threads ThreadLogic ThreadHandlers.
Local Open Scope Z_scope.

Create HintDb hcalm.

(** No text the agent receives overflows the array of [handle_reserve]. *)
Class TamePeers (K : Type) `{Kernel K} :=
  tame_recv fd n k b k' : k_recv fd n k = (Received b, k') -> tame b.

Section handlers.
Context {K : Type} `{Kernel K} `{!KernelLaws} `{!TamePeers K} (totals : list Z).
#[local] Abbreviation safe := (@safe K totals).

(** ** Handlers that need to know nothing

    As [calm], with a fact about the result. *)
Definition hcalm {A} (h h' : stage) (t t' : Z) (P : A -> Prop) (m : @handler K A) : Prop :=
  forall fuel t0 s, t <= t0 -> safe (m fuel) h t0 s (fun a h2 t2 _ => P a /\ h2 = h' /\ t' <= t2).

Lemma hcalm_ret {A} h t (a : A) (P : A -> Prop) : P a -> hcalm h h t t P (mret a).
Proof. by intros HP fuel t0 s Ht. Qed.

Lemma hcalm_bind {A B} h h1 h' t t1 t' P P' (m : @handler K A) (f : A -> @handler K B) :
  hcalm h h1 t t1 P m -> (forall a, P a -> hcalm h1 h' t1 t' P' (f a)) -> hcalm h h' t t' P' (m ≫= f).
Proof.
  intros Hm Hf fuel t0 s Ht. apply safe_bind. eapply safe_mono; [by apply Hm|].
  intros a h2 t2 s2 (HP & -> & Ht2). by apply Hf.
Qed.

Lemma hcalm_weaken {A} h h' t t' t1 (P P' : A -> Prop) (m : @handler K A) :
  hcalm h h' t t' P m -> t1 <= t' -> (forall a, P a -> P' a) -> hcalm h h' t t1 P' m.
Proof.
  intros Hm Ht HP fuel t0 s Ht0. eapply safe_mono; [by apply Hm|]. intros a h2 t2 s2 (Ha & -> & Hle).
  split_and!; [by apply HP|done|lia].
Qed.

(** One operation that inserts nothing and leaves the owned jobs alone. *)
Lemma hcalm_op {X : Set} (o : server_op K X) h h' t (P : X -> Prop) :
  next_stage o h h' -> not_due h' -> 0 <= t ->
  (forall sv R, shared_inv R totals (sv_shared sv) -> exists x sv', server_step _ o sv = Some (x, sv') /\
     shared_inv R totals (sv_shared sv') /\ owned_of (sv_shared sv') = owned_of (sv_shared sv) /\ P x) ->
  hcalm h h' t t P (perform o).
Proof.
  intros Hh Hd Ht Ho fuel t0 s Ht0. exists h'. split; [done|]. intros sv R _ HR Hi.
  destruct (Ho sv R Hi) as (x & sv' & E & Hi' & Hown & HP). exists x, sv', t0. split; [done|]. split; [lia|].
  rewrite Z.sub_diag, Z.sub_0_r. split; [done|]. split; [intros _ id; by rewrite Hown|].
  split; [by apply agree_refl|by split_and!].
Qed.

Lemma hcalm_sys h t e : calls h -> 0 <= t -> hcalm h h t t (fun _ => True) (sys e).
Proof. intros Hd Ht. apply hcalm_op; [done|by apply calls_not_due|done|]. intros sv R Hi. by eexists _, _. Qed.

Lemma hcalm_ctx h t : calls h -> 0 <= t -> hcalm h h t t (fun _ => True) get_ctx.
Proof. intros Hd Ht. apply hcalm_op; [done|by apply calls_not_due|done|]. intros sv R Hi. by eexists _, _. Qed.

Lemma hcalm_forget h t : calls h -> 0 <= t -> hcalm h h t t (fun _ => True) forget_tcp_timer.
Proof. intros Hd Ht. apply hcalm_op; [done|by apply calls_not_due|done|]. intros sv R Hi. by eexists _, _. Qed.

Lemma hcalm_ask {A : Set} h t (call : K -> A * K) (P : A -> Prop) :
  calls h -> 0 <= t -> (forall k, P (fst (call k))) -> hcalm h h t t P (ask call).
Proof.
  intros Hd Ht HP. apply hcalm_op; [done|by apply calls_not_due|done|]. intros sv R Hi. specialize (HP (sv_kernel sv)).
  destruct (call (sv_kernel sv)) as [a k] eqn:E. exists a, (set_kernel k sv). simpl. by rewrite E.
Qed.

Lemma hcalm_lock l t : 0 <= t -> hcalm Free (Holds l) t t (fun _ => True) (lock l).
Proof. intros Ht. apply hcalm_op; [done..|]. intros sv R Hi. by eexists _, _. Qed.

Lemma hcalm_unlock l t : 0 <= t -> hcalm (Holds l) Free t t (fun _ => True) (unlock l).
Proof. intros Ht. apply hcalm_op; [split; auto|done|done|]. intros sv R Hi. by eexists _, _. Qed.

Lemma hcalm_strncpy h t ip : (String.length ip <= 15)%nat -> hcalm h h t t (fun r => r = ip) (strncpy_ip ip).
Proof.
  intros Hip. unfold strncpy_ip. eapply (hcalm_bind _ h _ _ t _ (fun _ => True)); [|intros _ _; by apply hcalm_ret].
  intros fuel t0 s Ht. unfold require. by rewrite (proj2 (Nat.leb_le _ _) Hip).
Qed.

(** An entry of the table. *)
Lemma entry_ok k (sv : server K) fd : shared_inv k totals (sv_shared sv) -> 0 <= fd < Z.of_nat MAX_FDS ->
  exists c, entry fd (sv_conns sv) = Some c /\ conn_short c.
Proof.
  intros [_ _ Hc Hs _] Hfd. destruct (lookup_lt_is_Some_2 (sv_conns sv) (Z.to_nat fd)) as [c Hl]; [rewrite Hc; lia|].
  exists c. split; [|by eapply Forall_lookup_1]. unfold entry. by rewrite (proj2 (Z.leb_le _ _)) by lia.
Qed.

Lemma hcalm_read_conn h fd t : h = Holds Reading \/ h = Holds Writing -> 0 <= t -> 0 <= fd < Z.of_nat MAX_FDS ->
  hcalm h h t t conn_short (read_conn fd).
Proof.
  intros Hh Ht Hfd. apply hcalm_op; [done|by destruct Hh as [->| ->]|done|]. intros sv R Hi.
  destruct (entry_ok _ _ _ Hi Hfd) as (c & E & Hc). eexists c, _. split; [simpl; rewrite E; done|]. done.
Qed.

Lemma hcalm_write_conn fd f t : 0 <= t -> 0 <= fd < Z.of_nat MAX_FDS -> (forall c, conn_short c -> conn_short (f c)) ->
  hcalm (Holds Writing) (Holds Writing) t t (fun _ => True) (write_conn fd f).
Proof.
  intros Ht Hfd Hf. apply hcalm_op; [done..|]. intros sv R Hi.
  destruct (entry_ok _ _ _ Hi Hfd) as (c & E & Hc). eexists _, _. split; [simpl; rewrite E; done|]. split; [|done].
  destruct Hi as [Hw Htot Hco Hs Hq]. split; [done|done| | |done]; simpl.
  - unfold conns_ok. by rewrite length_insert.
  - apply Forall_insert; [done|by apply Hf].
Qed.

Lemma hcalm_each {A} h t (l : list A) (body : A -> @handler K ()) :
  Z.of_nat (length l) <= t ->
  (forall a t, a ∈ l -> 1 <= t -> hcalm h h t (t - 1) (fun _ => True) (body a)) ->
  hcalm h h t (t - Z.of_nat (length l)) (fun _ => True) (each l body).
Proof.
  revert t. induction l as [|a l IH]; intros t Ht Hb; simpl in *.
  - rewrite Z.sub_0_r. by apply hcalm_ret.
  - eapply hcalm_bind; [apply Hb; [by left|lia]|intros _ _].
    replace (t - Z.of_nat (S (length l))) with (t - 1 - Z.of_nat (length l)) by lia.
    apply IH; [lia|]. intros b t' Hin. apply Hb. by right.
Qed.

Lemma hcalm_each_free {A} h t (l : list A) (body : A -> @handler K ()) :
  (forall a, a ∈ l -> hcalm h h t t (fun _ => True) (body a)) -> hcalm h h t t (fun _ => True) (each l body).
Proof.
  induction l as [|a l IH]; intros Hb; simpl; [by apply hcalm_ret|].
  eapply hcalm_bind; [apply Hb; by left|intros _ _]. apply IH. intros b Hin. apply Hb. by right.
Qed.

(** *** Calls of the adapter *)

Lemma hcalm_query {A : Set} (m : adapter A) t :
  (forall R, outbox_ops R m) -> calm (K := K) totals Free Free t t m -> hcalm Free Free t t (fun _ => True) (call_query m).
Proof.
  intros Hob Hm. unfold call_query. eapply (hcalm_bind _ Free _ _ t _ (fun _ => True)); [|intros r _; by apply hcalm_ret].
  intros fuel t0 s Ht. eapply safe_mono; [apply (safe_embed totals (fun _ => True)); [apply Hob|done|by apply Hm]|].
  intros r h2 t2 s2 [[-> Hle] _]. by split_and!.
Qed.

Lemma hcalm_find_fd ip port t : 0 <= t -> hcalm Free Free t t (fun _ => True) (call_query (find_fd ip port)).
Proof. intros Ht. apply hcalm_query; [by intros R; repeat split|by apply calm_find_fd]. Qed.

(** A call with an outbox all the operations are defined on. *)
Lemma hcalm_call (I : option outbox_t -> Prop) ip socket buffer size action t t' :
  0 <= t -> I ((fun s => Outbox s []) <$> size) -> (forall ob, I ob -> short_ips ob) ->
  (forall env c, outbox_ops (fun X f => forall ob, I ob -> exists x ob', f ob = Some (x, ob') /\ I ob')
     (resource_adapter_patch env (Some c) ip (wrap32 socket) buffer action)) ->
  (forall env c, calm (K := K) totals Free Free t t' (resource_adapter_patch env (Some c) ip (wrap32 socket) buffer action)) ->
  hcalm Free Free t t' (Forall short_ip) (call_patch ip socket buffer size action).
Proof.
  intros Ht HI Hshort Hob Hm. unfold call_patch. eapply hcalm_bind; [by apply (hcalm_ask Free t _ (fun _ => True))|intros env _].
  eapply hcalm_bind; [by apply hcalm_ctx|intros c _].
  eapply (hcalm_bind _ Free _ _ t' _ (fun r => short_ips (snd r))).
  - intros fuel t0 s Ht0. eapply safe_mono; [apply (safe_embed totals I); [apply Hob|exact HI|by apply Hm]|].
    intros r h2 t2 s2 [[-> Hle] Hr]. split_and!; [by apply Hshort|done|done].
  - intros [u ob] Hr. apply hcalm_ret. destruct ob; [exact Hr|constructor].
Qed.

Lemma ready_empty : ready ((fun s => Outbox s []) <$> Some MAX_OUTBOX).
Proof. split; [unfold roomy; simpl; lia|constructor]. Qed.

Lemma hcalm_patch ip socket buffer action t :
  1 <= t -> input_ok ip buffer action ->
  hcalm Free Free t (t - 1) (Forall short_ip) (call_patch ip socket buffer (Some MAX_OUTBOX) action).
Proof.
  intros Ht Hin. apply (hcalm_call ready); [lia|exact ready_empty|by intros ob [_ ?]|intros; apply ready_patch|].
  intros env c. apply calm_patch; [done|apply wrap32_range|done].
Qed.

Lemma hcalm_patch_free ip socket buffer action t :
  0 <= t -> action = ACTION_CHECK_DEADNODES \/ action = ACTION_DISCONNECTED ->
  hcalm Free Free t t (Forall short_ip) (call_patch ip socket buffer (Some MAX_OUTBOX) action).
Proof.
  intros Ht Ha. apply (hcalm_call ready); [lia|exact ready_empty|by intros ob [_ ?]|intros; apply ready_patch|].
  intros env c. apply calm_patch_free; [done|]. destruct Ha; auto.
Qed.

(** An announcement: there is no outbox. *)
Lemma hcalm_discover ip buffer t :
  1 <= t -> hcalm Free Free t (t - 1) (Forall short_ip) (call_patch (Some ip) 0 (Some buffer) None ACTION_NEW_NODE_DISCOVERED).
Proof.
  intros Ht. apply (hcalm_call (fun ob => ob = None)); [lia|done|by intros ob ->| |].
  - intros env c. unfold resource_adapter_patch. destruct (negb (sc_mynode c)); [done|].
    apply outbox_bind; [|intros _; apply outbox_announced]. split; [|done]. intros ob ->. by eexists _, _.
  - intros env c. apply calm_patch; [done|apply wrap32_range|by eexists].
Qed.

(** The local resources: an outbox of one message. *)
Lemma hcalm_local t :
  0 <= t -> hcalm Free Free t t (Forall short_ip) (call_patch None 0 None (Some 1%nat) ACTION_GET_RESOURCES).
Proof.
  intros Ht. unfold call_patch. eapply hcalm_bind; [by apply (hcalm_ask Free t _ (fun _ => True))|intros env _].
  eapply hcalm_bind; [by apply hcalm_ctx|intros c _].
  eapply (hcalm_bind _ Free _ _ t _ (fun r => short_ips (snd r)));
    [|intros [u ob] Hr; apply hcalm_ret; by destruct ob; [exact Hr|constructor]].
  intros fuel t0 s Ht0. unfold call_adapter, resource_adapter_patch.
  destruct (negb (sc_mynode c)); [by split_and!; [constructor|..]|].
  apply safe_embed_bind. cbn [embed reset_count trigger adapter_case safe fst snd fmap option_fmap option_map ob_size].
  set (ob := Some (Outbox 1 [])).
  assert (Hstep : forall X (m : adapter X) h h' s t1, t <= t1 -> (forall R, outbox_ops R m) -> calm (K := K) totals h h' t t m ->
    safe (embed m ob) h t1 s (fun r h2 t2 _ => r.2 = ob /\ h2 = h' /\ t <= t2)).
  { intros X m h h' s1 t1 Ht1 Hob Hm. eapply safe_mono; [apply (safe_embed totals (fun o => o = ob)); [apply Hob|done|by apply Hm]|].
    by intros r h2 t2 s2 [[-> Hle] ->]. }
  unfold handle_get_resources. apply safe_embed_bind.
  eapply safe_mono; [apply (Hstep _ _ Free (Holds Local)); [done|done|by apply calm_lock]|].
  intros [u1 ob1] h1 t1 s1 (Hob & -> & Ht1). simpl in Hob. subst ob1. apply safe_embed_bind.
  eapply safe_mono; [apply (Hstep _ _ (Holds Local) (Holds Local)); [done|done|by apply calm_get_local]|].
  intros [[[cpu gpu] ram] ob1] h2 t2 s2 (Hob & -> & Ht2). simpl in Hob. subst ob1. apply safe_embed_bind.
  eapply safe_mono; [apply (Hstep _ _ (Holds Local) Free); [done|done|by apply calm_unlock]|].
  intros [u3 ob1] h3 t3 s3 (Hob & -> & Ht3). simpl in Hob. subst ob1. subst ob.
  split_and!; [|done|done]. apply Forall_singleton. unfold short_ip. simpl. lia.
Qed.

(** ** Sending *)

Lemma hcalm_any {A} h h' t t' (P : A -> Prop) (m : @handler K A) :
  hcalm h h' t t' P m -> hcalm h h' t t' (fun _ => True) m.
Proof. intros Hm. by apply (hcalm_weaken _ _ _ _ _ _ _ _ Hm). Qed.

Lemma hcalm_unused {A} h h' t t' (m : @handler K A) :
  hcalm h h' t t' (fun _ => True) m -> hcalm h h' t t' (fun _ => True) (_ ← m; mret ()).
Proof. intros Hm. eapply hcalm_bind; [exact Hm|intros _ _; by apply hcalm_ret]. Qed.

(** The loop may go on for ever: nothing is assumed of the answers. *)
Lemma hcalm_send h t sockfd text : calls h -> 0 <= t -> hcalm h h t t (fun _ => True) (send_tcp_message sockfd text).
Proof.
  intros Hd Ht. assert (Hloop : forall rounds total, hcalm h h t t (fun _ => True) (send_loop rounds sockfd text total)).
  2:{ intros fuel. apply Hloop. }
  induction rounds as [|rounds IH]; intros total; [by intros fuel t0 s _; apply calls_not_due|]. cbn [send_loop].
  destruct (_ <? _)%nat; [|by apply hcalm_ret]. cbv zeta.
  eapply hcalm_bind; [by apply (hcalm_ask h t _ (fun _ => True))|intros bytes _].
  destruct bytes as [n| |]; [|eapply hcalm_bind; [by apply hcalm_sys|by intros _ _]|by apply hcalm_ret].
  destruct (0 <? n)%nat; [|by apply hcalm_ret]. eapply hcalm_bind; [by apply hcalm_sys|by intros _ _].
Qed.

Lemma hcalm_register fd ip port pending t :
  0 <= t -> 0 <= fd < Z.of_nat MAX_FDS -> (String.length ip <= 15)%nat ->
  hcalm Free Free t t (fun _ => True) (register fd ip port pending).
Proof.
  intros Ht Hfd Hip. eapply hcalm_bind; [by apply hcalm_lock|intros _ _].
  eapply hcalm_bind; [by apply hcalm_strncpy|intros ip' ->].
  eapply hcalm_bind; [by apply hcalm_write_conn|intros _ _]. by apply hcalm_unlock.
Qed.

Lemma hcalm_connect h ip port t : calls h -> 0 <= t -> hcalm h h t t (fun fd => -1 <= fd) (connect_to_tcp_node ip port).
Proof.
  intros Hd Ht. unfold connect_to_tcp_node. eapply hcalm_bind; [apply (hcalm_ask h t _ (fun fd => -1 <= fd)); [done|done|]|].
  { intros kn. destruct (k_socket kn) as [fd kn'] eqn:E. by apply kl_socket in E. }
  intros fd Hfd. destruct (fd =? -1); [by apply hcalm_ret|]. eapply hcalm_bind; [by apply hcalm_sys|intros _ _].
  eapply hcalm_bind; [by apply (hcalm_ask h t _ (fun _ => True))|intros a _].
  destruct a; [by apply hcalm_ret..|]. eapply hcalm_bind; [by apply hcalm_sys|intros _ _]. by apply hcalm_ret.
Qed.

Lemma hcalm_send_out m t : 0 <= t -> short_ip m -> hcalm Free Free t t (fun _ => True) (send_out_msg m).
Proof.
  intros Ht Hm. unfold send_out_msg. eapply (hcalm_bind _ Free _ _ t _ (fun _ => True)).
  { destruct (target_fd m =? -1); [by apply hcalm_find_fd|by apply hcalm_ret]. }
  intros target _. destruct (negb (target =? -1)); [by apply hcalm_unused, hcalm_send|].
  eapply hcalm_bind; [by apply hcalm_connect|]. intros fd Hfd. simpl in Hfd.
  destruct (Z.eqb_spec fd (-1)) as [_|Hne]; cbn [negb].
  - by apply hcalm_ret.
  - destruct (Z.ltb_spec fd (Z.of_nat MAX_FDS)); [|by apply hcalm_sys].
    eapply hcalm_bind; [by apply hcalm_register; [|lia|]|intros _ _]. by apply hcalm_sys.
Qed.

Lemma hcalm_send_outbox ms t : 0 <= t -> Forall short_ip ms -> hcalm Free Free t t (fun _ => True) (send_outbox ms).
Proof.
  intros Ht Hms. apply hcalm_each_free. intros m Hm. apply hcalm_send_out; [done|]. rewrite Forall_forall in Hms. by apply Hms.
Qed.

(** ** The event handlers *)

Lemma hcalm_copy_ip fd t : 0 <= t -> 0 <= fd < Z.of_nat MAX_FDS -> hcalm Free Free t t (fun _ => True) (copy_ip fd).
Proof.
  intros Ht Hfd. eapply hcalm_bind; [by apply hcalm_lock|intros _ _].
  eapply hcalm_bind; [apply hcalm_read_conn; [by left|done|done]|intros c Hc].
  eapply hcalm_bind; [by apply hcalm_strncpy|intros ip _].
  eapply hcalm_bind; [by apply hcalm_unlock|intros _ _]. by apply hcalm_ret.
Qed.

Lemma hcalm_clear fd t : 0 <= t -> 0 <= fd < Z.of_nat MAX_FDS -> hcalm Free Free t t (fun _ => True) (clear_entry fd).
Proof.
  intros Ht Hfd. eapply hcalm_bind; [by apply hcalm_lock|intros _ _]. eapply hcalm_bind; [|intros _ _; by apply hcalm_unlock].
  apply hcalm_write_conn; [done|done|]. intros c _. unfold conn_short. simpl. lia.
Qed.

Lemma hcalm_line ip fd line t :
  1 <= t -> reserve_overflow (sscanf line "RESERVE %u %s %u") = false ->
  hcalm Free Free t (t - 1) (fun _ => True) (handle_line ip fd line).
Proof.
  intros Ht Hov. unfold handle_line.
  assert (Hskip : hcalm Free Free t (t - 1) (fun _ => True) (mret ())).
  { apply (hcalm_weaken _ _ _ t _ (fun _ => True)); [by apply hcalm_ret|lia|done]. }
  destruct (0 <? String.length line)%nat; [|exact Hskip].
  eapply hcalm_bind; [apply hcalm_patch; [done|]|].
  - split; [by eexists|]. by intros b [= <-].
  - intros ms Hms. destruct (0 <? length ms)%nat; [apply hcalm_send_outbox; [lia|done]|by apply hcalm_ret].
Qed.

(** A disconnection and its messages. *)
Lemma hcalm_drop ip fd buffer t : 0 <= t ->
  hcalm Free Free t t (fun _ => True)
    (outbox ← call_patch ip fd buffer (Some MAX_OUTBOX) ACTION_DISCONNECTED; send_outbox outbox).
Proof.
  intros Ht. eapply hcalm_bind; [by apply hcalm_patch_free; auto|]. intros ms Hms. by apply hcalm_send_outbox.
Qed.

Lemma hcalm_client fd :
  0 <= fd < Z.of_nat MAX_FDS -> hcalm Free Free EVENT_COST 0 (fun _ => True) (handle_client_message fd).
Proof.
  intros Hfd. unfold handle_client_message. assert (Ht : 0 <= EVENT_COST) by (unfold EVENT_COST; lia).
  eapply hcalm_bind; [by apply hcalm_copy_ip|intros ip _]. unfold receive_tcp_message.
  eapply (hcalm_bind _ Free _ _ EVENT_COST _ (fun r => (length (strtok_all ch_nl (snd r)) <= BUFFER_SIZE - 1)%nat /\
    Forall (fun l => reserve_overflow (sscanf l "RESERVE %u %s %u") = false) (strtok_all ch_nl (snd r)))).
  - eapply hcalm_bind; [apply (hcalm_ask Free EVENT_COST _ (fun a => match a with
      | Received b => tame b /\ (String.length b <= BUFFER_SIZE - 1)%nat | _ => True end)); [done|done|]|].
    + intros kn. destruct (k_recv fd (BUFFER_SIZE - 1) kn) as [a kn'] eqn:E. simpl. destruct a as [b| |]; [|done..].
      split; [by eapply tame_recv|by eapply kl_recv].
    + intros a Ha. apply hcalm_ret. destruct a as [b| |]; simpl; [|split; [lia|constructor]..].
      destruct Ha as [Htame Hlen]. split; [|exact Htame].
      pose proof (strtok_all_length ch_nl (c_text b)). pose proof (c_text_length b). unfold BUFFER_SIZE in *. lia.
  - intros [n buffer] [Hlen Hlines]. cbn [snd] in Hlen, Hlines.
    assert (Hfree : forall m : @handler K Z, hcalm Free Free EVENT_COST EVENT_COST (fun _ => True) m ->
      hcalm Free Free EVENT_COST 0 (fun _ => True) m).
    { intros m Hm. by eapply hcalm_weaken. }
    destruct (0 <? n).
    + eapply hcalm_bind; [apply (hcalm_each Free EVENT_COST)|].
      * unfold EVENT_COST. unfold BUFFER_SIZE in *. lia.
      * intros l t Hin Ht1. apply hcalm_line; [done|]. rewrite Forall_forall in Hlines. by apply Hlines.
      * intros _ _. eapply (hcalm_weaken _ _ _ _ _ (fun _ => True)); [by apply hcalm_ret| |done].
        unfold EVENT_COST. unfold BUFFER_SIZE in *. lia.
    + destruct (_ || _); [|by apply Hfree, hcalm_ret]. apply Hfree.
      eapply hcalm_bind; [by apply hcalm_patch_free; auto|intros ms Hms].
      eapply hcalm_bind; [by apply hcalm_send_outbox|intros _ _]. do 2 (eapply hcalm_bind; [by apply hcalm_sys|intros _ _]).
      eapply hcalm_bind; [by apply hcalm_clear|intros _ _]. by apply hcalm_ret.
Qed.

Lemma cost_pos : 1 <= EVENT_COST.
Proof. by vm_compute. Qed.

Lemma hcalm_free_cost {A} h h' (P : A -> Prop) (m : @handler K A) :
  hcalm h h' EVENT_COST EVENT_COST P m -> hcalm h h' EVENT_COST 0 (fun _ => True) m.
Proof. intros Hm. eapply hcalm_weaken; [exact Hm|by vm_compute|done]. Qed.

Lemma hcalm_one_cost {A} h h' (P : A -> Prop) (m : @handler K A) :
  hcalm h h' EVENT_COST (EVENT_COST - 1) P m -> hcalm h h' EVENT_COST 0 (fun _ => True) m.
Proof. intros Hm. eapply hcalm_weaken; [exact Hm|by vm_compute|done]. Qed.

Lemma hcalm_success fd :
  0 <= fd < Z.of_nat MAX_FDS ->
  hcalm Free Free EVENT_COST EVENT_COST (fun _ => True) (handle_connection_success fd).
Proof.
  intros Hfd. assert (Ht : 0 <= EVENT_COST) by (unfold EVENT_COST; lia). unfold handle_connection_success.
  eapply hcalm_bind; [by apply hcalm_copy_ip|intros ip _].
  eapply hcalm_bind; [by apply (hcalm_ask Free _ _ (fun _ => True))|intros ok _]. destruct (negb ok).
  - eapply hcalm_bind; [by apply hcalm_patch_free; auto|intros ms Hms].
    eapply hcalm_bind; [by apply hcalm_send_outbox|intros _ _]. eapply hcalm_bind; [by apply hcalm_clear|intros _ _].
    eapply hcalm_bind; [by apply hcalm_sys|intros _ _]. by apply hcalm_sys.
  - eapply hcalm_bind; [by apply hcalm_lock|intros _ _].
    eapply hcalm_bind; [apply hcalm_read_conn; [by right|done|done]|intros c Hc].
    eapply hcalm_bind; [by apply hcalm_send|intros _ _].
    eapply hcalm_bind; [by apply hcalm_write_conn|intros _ _].
    eapply hcalm_bind; [by apply hcalm_unlock|intros _ _]. by apply hcalm_sys.
Qed.

Lemma hcalm_new_connection server_fd t :
  0 <= t -> hcalm Free Free t t (fun _ => True) (handle_new_tcp_connection server_fd).
Proof.
  intros Ht. unfold handle_new_tcp_connection, accept_tcp_connection.
  eapply (hcalm_bind _ Free _ _ t _ (fun r => -1 <= fst r /\ (String.length (snd r) <= 15)%nat)).
  - eapply hcalm_bind; [apply (hcalm_ask Free t _ (fun r => -1 <= fst r /\ (String.length (snd r) <= 15)%nat)); [done|done|]|].
    + intros kn. destruct (k_accept server_fd kn) as [[fd ip] kn'] eqn:E. by apply kl_accept in E.
    + intros [fd ip] Ha. destruct (fd =? -1); [apply hcalm_ret; simpl in *; split; [lia|apply Ha]|].
      eapply hcalm_bind; [by apply hcalm_sys|intros _ _]. by apply hcalm_ret.
  - intros [fd ip] [Hge Hip]. cbn [fst snd] in Hge, Hip.
    destruct (Z.eqb_spec fd (-1)) as [->|Hne]; simpl (negb _); [by apply hcalm_ret|].
    destruct (Z.ltb_spec fd (Z.of_nat MAX_FDS)); [|by apply hcalm_ret]. cbn [andb].
    eapply hcalm_bind; [apply hcalm_register; [done|lia|done]|intros _ _]. by apply hcalm_sys.
Qed.

(** Every round of the check inserts nothing; it may go on as long as other threads
    keep timed-out jobs coming. *)
Lemma hcalm_gc t : 0 <= t -> hcalm Free Free t t (fun _ => True) handle_gc_timer_expiration.
Proof.
  intros Ht. unfold handle_gc_timer_expiration. eapply hcalm_bind; [by apply hcalm_ctx|intros c _].
  eapply hcalm_bind; [by apply hcalm_sys|intros _ _].
  assert (Hloop : forall rounds, hcalm Free Free t t (fun _ => True) (gc_loop rounds)).
  2:{ intros fuel. apply Hloop. }
  induction rounds as [|rounds IH]; [by intros fuel t0 s _|]. cbn [gc_loop].
  eapply hcalm_bind; [by apply hcalm_patch_free; auto|intros ms Hms].
  eapply hcalm_bind; [by apply hcalm_send_outbox|intros _ _]. destruct (0 <? length ms)%nat; [exact IH|by apply hcalm_ret].
Qed.

Lemma hcalm_udp_timer t : 0 <= t -> hcalm Free Free t t (fun _ => True) handle_udp_timer_expiration.
Proof.
  intros Ht. unfold handle_udp_timer_expiration. eapply hcalm_bind; [by apply hcalm_ctx|intros c _].
  eapply hcalm_bind; [by apply hcalm_local|intros ms _]. destruct ms; [by apply hcalm_ret|by apply hcalm_sys].
Qed.

Lemma hcalm_discovery t : 1 <= t -> hcalm Free Free t (t - 1) (fun _ => True) handle_incoming_discovery.
Proof.
  intros Ht. unfold handle_incoming_discovery, process_discovery_datagram. assert (Ht0 : 0 <= t) by lia.
  eapply hcalm_bind; [by apply hcalm_ctx|intros c _].
  eapply (hcalm_bind _ Free _ _ t _ (fun _ => True)).
  { eapply hcalm_bind; [by apply (hcalm_ask Free t _ (fun _ => True))|intros a _]. by apply hcalm_ret. }
  intros [[buffer ip]|] _.
  - eapply hcalm_bind; [by apply hcalm_discover|intros ms _]. by apply hcalm_ret.
  - apply (hcalm_weaken _ _ _ t _ (fun _ => True)); [by apply hcalm_ret|lia|done].
Qed.

Lemma hcalm_task task : descriptors_ok (Taken task) -> hcalm Free Free EVENT_COST 0 (fun _ => True) (run_task task).
Proof.
  intros Hok. pose proof cost_pos as Hpos. assert (Ht : 0 <= EVENT_COST) by lia. destruct task as [fd type].
  unfold run_task. destruct type; cbn [wt_type wt_fd].
  - eapply hcalm_bind; [by apply hcalm_client|intros r _]. destruct (negb (r =? 0)); [by apply hcalm_sys|by apply hcalm_ret].
  - eapply hcalm_one_cost, hcalm_bind; [by apply hcalm_ctx|intros c _].
    eapply hcalm_bind; [by apply hcalm_discovery|intros _ _]. apply hcalm_sys; [done|lia].
  - by eapply hcalm_free_cost, hcalm_udp_timer.
  - by eapply hcalm_free_cost, hcalm_gc.
Qed.

Lemma hcalm_event fd event_type :
  0 <= fd < Z.of_nat MAX_FDS -> hcalm Free Free EVENT_COST 0 (fun _ => True) (epoll_event fd event_type).
Proof.
  intros Hfd. pose proof cost_pos as Hpos. assert (Ht : 0 <= EVENT_COST) by lia. apply hcalm_free_cost with (fun _ => True).
  unfold epoll_event. eapply hcalm_bind; [by apply hcalm_ctx|intros c _].
  assert (Hthen : forall (m : @handler K ()) l, hcalm Free Free EVENT_COST EVENT_COST (fun _ => True) m ->
    hcalm Free Free EVENT_COST EVENT_COST (fun _ => True) (m;; mret l : @handler K (list WorkerTask))).
  { intros m l Hm. eapply hcalm_bind; [exact Hm|intros _ _]. by apply hcalm_ret. }
  destruct (fd =? sc_tcp_timerfd c).
  { apply Hthen. unfold handle_tcp_timer_expiration. eapply hcalm_bind; [by apply hcalm_ctx|intros c' _].
    do 3 (eapply hcalm_bind; [by apply hcalm_sys|intros _ _]). eapply hcalm_bind; [by apply hcalm_forget|intros _ _].
    eapply hcalm_bind; [by apply hcalm_sys|intros _ _]. by apply hcalm_sys. }
  destruct (fd =? sc_udp_timerfd c); [by apply Hthen, hcalm_sys|].
  destruct (fd =? sc_gc_timerfd c); [by apply Hthen, hcalm_sys|].
  destruct (fd =? sc_udp_fd c); [by apply hcalm_ret|].
  destruct ((fd =? sc_tcp_public_fd c) || (fd =? sc_erlang_tcp_fd c)); [by apply Hthen, hcalm_new_connection|].
  apply Hthen. destruct (negb _); [by apply hcalm_success|by apply hcalm_ret].
Qed.

Lemma hcalm_happen o : descriptors_ok o -> hcalm Free Free EVENT_COST 0 (fun _ => True) (happen o).
Proof.
  intros Hok. destruct o as [fd event_type|task]; simpl; [|by apply hcalm_task].
  eapply hcalm_bind; [by apply hcalm_event|intros l _]. by apply hcalm_ret.
Qed.

End handlers.
