(* ===== verification/Interleaving.v ===== *)
(** * Interleaving: what holds in every interleaving of the threads

    The theorems about the configurations of Threads: the invariant of all the
    threads together, where the races are, that without them nothing is undefined
    and no set of threads waits for ever, and that a thread nobody interrupts does
    what its program does alone. *)

From Stdlib Require Import Ascii.
From S2P Require Import Prelude CString TablaHash CommonTypes LocalResource OwnedJobs KnownNodes NodeStructures Connections Program Adapter ResourceAdapter AdapterSafety Protocol Recovery ThreadPool Outbox Server EventHandler EventSafety Threads ThreadLogic ThreadHandlers ThreadSafety.
Local Open Scope Z_scope.

Lemma elem_of_delete {A} (l : list A) i j x : i ≠ j -> l !! j = Some x -> x ∈ delete i l.
Proof.
  intros Hne Hx. destruct (decide (j < i)%nat).
  - apply (list_elem_of_lookup_2 _ j). by rewrite list_lookup_delete_lt.
  - destruct j as [|j]; [lia|]. apply (list_elem_of_lookup_2 _ j). rewrite list_lookup_delete_ge by lia. done.
Qed.

(** ** Operations and their locks *)

Lemma conflicts_sym l l' : conflicts l l' = conflicts l' l.
Proof. destruct l as [c| |], l' as [c'| |]; try done. simpl. by apply bool_decide_ext. Qed.

Section interleaving.
Context {K : Type} `{Kernel K}.

Lemma held_after_next {X : Set} (o : server_op K X) h h' :
  next_stage o h h' -> held_after o (held_at h) = Some (held_at h').
Proof.
  destruct o as [X o| | | |]; simpl; try by intros [_ ->]. unfold held_after.
  destruct o as [l|l| | | | | | |]; simpl; try by intros [_ ->].
  - by intros [-> ->].
  - intros [-> Hh]. cbn [held_at]. rewrite bool_decide_eq_true_2 by (by left). f_equal.
    destruct Hh as [->|(id & -> & ->)]; [by destruct l as [[]| |]|done].
  - by intros [[_ ->]|[(id & -> & _) ->]].
Qed.

(** A thread past the unlock of [handle_job_request]: it holds nothing and is about to
    look for the first RESERVE of a job none of whose petitions was sent. *)
Definition reserves_first {X : Set} (o : server_op K X) (held : list hold) (jobs : owned_jobs_t) : Prop :=
  held = [] /\ exists id o', existT (P := fun X : Set => server_op K X) X o = existT X (Agent o') /\ is_next id o' /\ unsent_in id jobs.

(** The only operations without a lock of the data they touch. *)
Lemma unprotected {X : Set} (o : server_op K X) h h' x :
  next_stage o h h' -> location_of o = Some x ->
  existsb (protects o) (held_at h) = true \/
  x = Tokens /\ (held_at h = [] \/ held_at h = [Mutex Owned]) \/
  x = Comp Owned /\ held_at h = [] /\ exists id, h = Due id /\ forall jobs, unsent_in id jobs -> reserves_first o (held_at h) jobs.
Proof.
  destruct o as [X o| | | |]; simpl; try done.
  destruct o; simpl; intros Hn [= <-];
    [destruct Hn as [-> _]|destruct Hn as [-> _]|destruct Hn as [[-> _]|[(id & -> & Hid) _]]
    |destruct Hn as [[->| ->] _]|destruct Hn as [-> _]|destruct Hn as [Hp _]]; simpl; try (by auto).
  - right. right. split_and!; [done|done|]. exists id. split; [done|]. intros jobs Hu. split; [done|]. by exists id, (OnOwned f).
  - right. left. split; [done|]. destruct h as [|[[]| |]|]; simpl in *; try done; by auto.
Qed.

Lemma protects_location {X : Set} (o : server_op K X) x l :
  location_of o = Some x -> protects o l = true ->
  (exists c, x = Comp c /\ l = Mutex c) \/ x = Table /\ (l = Reading \/ l = Writing).
Proof.
  destruct o as [X o| | | |]; simpl; try done.
  destruct o; simpl; intros [= <-] Hp; try done; apply bool_decide_eq_true_1 in Hp; subst; eauto.
Qed.

(** What an operation leaves as it was. *)
Lemma op_frame {X : Set} (o : server_op K X) h h' x sv sv' :
  next_stage o h h' -> server_step X o sv = Some (x, sv') ->
  let s := sv_shared sv in let s' := sv_shared sv' in
  (h ≠ Holds Local -> nd_resources (sh_node s') = nd_resources (sh_node s) /\
                      nd_active_jobs (sh_node s') = nd_active_jobs (sh_node s)) /\
  (h ≠ Holds Known -> nd_known_nodes (sh_node s') = nd_known_nodes (sh_node s)) /\
  (h ≠ Holds Owned -> not_due h -> owned_of s' = owned_of s) /\
  (h ≠ Holds Writing -> sh_conns s' = sh_conns s).
Proof.
  intros Hn Hs. destruct o as [X o|X call|e| |]; simpl in Hs.
  2: { destruct (call (sv_kernel sv)). by injection Hs as <- <-. }
  2-4: by injection Hs as <- <-.
  destruct (op_step o (sv_shared sv)) as [[a s1]|] eqn:E; [|done]. injection Hs as <- <-. simpl in Hn |- *.
  destruct o; simpl in E, Hn; try (by injection E as <- <-).
  - destruct (f _ _) as [[[a' r] jobs]|]; [|done]. injection E as <- <-. destruct Hn as [-> _]. by split_and!.
  - destruct (f _) as [[a' nodes]|]; [|done]. injection E as <- <-. destruct Hn as [-> _]. by split_and!.
  - destruct (f _) as [[a' jobs]|]; [|done]. injection E as <- <-. split_and!; [done..| |done].
    by destruct Hn as [[-> _]|[(id & -> & _) _]].
  - destruct (f _); [|done]. by injection E as <- <-.
  - destruct (f _); [|done]. injection E as <- <-. destruct Hn as [-> _]. by split_and!.
Qed.

(** A step leaves alone what the other threads protect, unless it races. *)
Lemma agree_frame {X : Set} (o : server_op K X) h h' h2 x sv sv' s :
  next_stage o h h' -> server_step X o sv = Some (x, sv') ->
  (forall l l2, h = Holds l -> h2 = Holds l2 -> conflicts l l2 = false) ->
  (not_due h -> keeps_unsent (sv_shared sv) (sv_shared sv')) ->
  ((exists id, h = Due id) -> h2 ≠ Holds Owned /\ not_due h2) ->
  agree h2 s (sv_shared sv) -> agree h2 s (sv_shared sv').
Proof.
  intros Hn Hs Hc Hu Hd Ha. destruct (op_frame _ _ _ _ _ _ Hn Hs) as (Hl & Hk & Ho & Hw).
  assert (Hne : forall l l2, conflicts l l2 = true -> h2 = Holds l2 -> h ≠ Holds l).
  { intros l l2 Hcf -> ->. by rewrite (Hc l l2) in Hcf. }
  destruct h2 as [|[[]| |]|id]; simpl in *.
  - done.
  - destruct Ha as [<- <-]. by apply Hl, (Hne Local Local).
  - rewrite <- Ha. by apply Hk, (Hne Known Known).
  - rewrite <- Ha. apply Ho; [by apply (Hne Owned Owned)|]. destruct h as [| |id]; [done|done|]. by destruct Hd; [eauto|].
  - rewrite <- Ha. by apply Hw, (Hne Writing Reading).
  - rewrite <- Ha. by apply Hw, (Hne Writing Writing).
  - destruct h as [| |id']; [by apply Hu..|]. destruct Hd as [_ []]. by eexists.
Qed.

(** ** The invariant

    What is known of a thread: what it holds, the insertions it may still make and
    the shared state as it left it. *)
Record known_of := KnownOf { kn_stage : stage; kn_tokens : Z; kn_shared : shared }.

Context (totals : list Z).

Record thread_ok (s : shared) (th : thread K) (g : known_of) : Prop := {
  to_held : th_held th = held_at (kn_stage g);
  to_agree : agree (kn_stage g) (kn_shared g) s;
  to_tokens : 0 <= kn_tokens g;
  to_safe : safe totals (th_prog th) (kn_stage g) (kn_tokens g) (kn_shared g) (fun _ h _ _ => h = Free)
}.

Definition sum_tokens (gs : list known_of) : Z := foldr (fun g n => kn_tokens g + n) 0 gs.

(** No two threads hold conflicting locks. *)
Definition exclusive (gs : list known_of) : Prop :=
  forall i j gi gj li lj, i ≠ j -> gs !! i = Some gi -> gs !! j = Some gj ->
    kn_stage gi = Holds li -> kn_stage gj = Holds lj -> conflicts li lj = false.

Record threads_inv (k : Z) (cfg : config K) (gs : list known_of) : Prop := {
  ti_k : 0 <= k;
  ti_threads : Forall2 (thread_ok (sv_shared (cf_server cfg))) (cf_threads cfg) gs;
  ti_shared : shared_inv (k + sum_tokens gs) totals (sv_shared (cf_server cfg));
  ti_exclusive : exclusive gs
}.

Lemma sum_tokens_insert gs i g g' :
  gs !! i = Some g -> sum_tokens (<[i := g']> gs) = sum_tokens gs - kn_tokens g + kn_tokens g'.
Proof.
  revert i. induction gs as [|g0 gs IH]; intros [|i] Hi; simpl in *; [done..|by injection Hi as ->; lia|].
  rewrite (IH _ Hi). lia.
Qed.

Lemma sum_tokens_pos s ths gs : Forall2 (thread_ok s) ths gs -> 0 <= sum_tokens gs.
Proof. induction 1 as [|th g ths gs Ho Hf IH]; simpl; [lia|]. pose proof (to_tokens _ _ _ Ho). lia. Qed.

Lemma sum_tokens_ge s ths gs i g :
  Forall2 (thread_ok s) ths gs -> gs !! i = Some g -> 0 <= kn_tokens g <= sum_tokens gs.
Proof.
  intros Hf. revert i. induction Hf as [|th g0 ths gs Ho Hf IH]; intros [|i] Hi; simpl in *; [done..| |].
  - injection Hi as ->. pose proof (to_tokens _ _ _ Ho). pose proof (sum_tokens_pos _ _ _ Hf). lia.
  - pose proof (to_tokens _ _ _ Ho). specialize (IH _ Hi). lia.
Qed.

Lemma thread_of k cfg gs i th :
  threads_inv k cfg gs -> cf_threads cfg !! i = Some th ->
  exists g, gs !! i = Some g /\ thread_ok (sv_shared (cf_server cfg)) th g.
Proof. intros Hi Hth. exact (Forall2_lookup_l _ _ _ _ _ (ti_threads _ _ _ Hi) Hth). Qed.

(** The next operation of a thread. *)
Lemma next_ok k cfg gs i (X : Set) (o : server_op K X) c held :
  threads_inv k cfg gs -> cf_threads cfg !! i = Some (Thread (Do o c) held) ->
  exists g h' x sv' t', gs !! i = Some g /\ held = held_at (kn_stage g) /\ next_stage o (kn_stage g) h' /\
    server_step X o (cf_server cfg) = Some (x, sv') /\ t' <= kn_tokens g /\
    shared_inv (k + sum_tokens (<[i := KnownOf h' t' (sv_shared sv')]> gs)) totals (sv_shared sv') /\
    (not_due (kn_stage g) -> keeps_unsent (sv_shared (cf_server cfg)) (sv_shared sv')) /\
    thread_ok (sv_shared sv') (Thread (c x) (held_at h')) (KnownOf h' t' (sv_shared sv')).
Proof.
  intros Hinv Hth. destruct (thread_of _ _ _ _ _ Hinv Hth) as (g & Hg & [Hh Ha Ht Hs]). simpl in Hh, Hs.
  destruct Hs as (h' & Hn & Hop). pose proof (sum_tokens_ge _ _ _ _ _ (ti_threads _ _ _ Hinv) Hg). pose proof (ti_k _ _ _ Hinv).
  destruct (Hop (cf_server cfg) (k + sum_tokens gs) Ha ltac:(lia) (ti_shared _ _ _ Hinv))
    as (x & sv' & t' & E & Ht' & Hi & Hu & Ha' & Hc).
  exists g, h', x, sv', t'. split_and!; [done..|lia| |done|].
  - rewrite (sum_tokens_insert _ _ _ _ Hg). simpl.
    by replace (k + (sum_tokens gs - kn_tokens g + t')) with (k + sum_tokens gs - (kn_tokens g - t')) by lia.
  - split; simpl; [done|done|lia|done].
Qed.

Lemma available_exclusive k cfg gs i g l :
  threads_inv k cfg gs -> available l (cf_threads cfg) = true -> gs !! i = Some g ->
  forall l', kn_stage g = Holds l' -> conflicts l l' = false.
Proof.
  intros Hinv Hav Hg l' Hl'. destruct (Forall2_lookup_r _ _ _ _ _ (ti_threads _ _ _ Hinv) Hg) as (th & Hth & [Hh _ _ _]).
  unfold available in Hav. rewrite forallb_forall in Hav.
  specialize (Hav th (proj1 (list_elem_of_In _ _) (list_elem_of_lookup_2 _ _ _ Hth))).
  rewrite forallb_forall in Hav. rewrite Hh, Hl' in Hav. specialize (Hav l' (or_introl eq_refl)).
  by apply negb_true_iff in Hav.
Qed.

(** What is held after an operation was held, or has just been taken. *)
Lemma next_stage_cases {X : Set} (o : server_op K X) h h' l :
  next_stage o h h' -> h' = Holds l -> h = Holds l \/ forall ths, waits_for o ths = None -> available l ths = true.
Proof.
  destruct o as [X o| | | |]; simpl; try (intros [_ ->]; by left).
  destruct o as [l0|l0| | | | | | |]; simpl; try (intros [_ ->]; by left).
  - intros [_ ->] [= ->]. right. intros ths. by destruct (available l ths).
  - by intros [_ [->|(id & _ & ->)]].
  - intros [[-> ->]|[_ ->]] Hl; [by left|done].
Qed.

Lemma exclusive_insert k cfg gs i g (X : Set) (o : server_op K X) h' t' s :
  threads_inv k cfg gs -> gs !! i = Some g -> next_stage o (kn_stage g) h' ->
  waits_for o (cf_threads cfg) = None -> exclusive (<[i := KnownOf h' t' s]> gs).
Proof.
  intros Hinv Hg Hn Hw. pose proof (ti_exclusive _ _ _ Hinv) as Hex.
  assert (Hone : forall j gj l lj, j ≠ i -> gs !! j = Some gj -> h' = Holds l -> kn_stage gj = Holds lj -> conflicts l lj = false).
  { intros j gj l lj Hne Hj Hl Hlj. destruct (next_stage_cases _ _ _ _ Hn Hl) as [Hold|Hav].
    - by eapply (Hex i j).
    - by eapply available_exclusive; [|apply Hav|..]. }
  intros i1 i2 g1 g2 l1 l2 Hne Hi1 Hi2 Hl1 Hl2.
  apply list_lookup_insert_Some in Hi1 as [(-> & <- & _)|[Hn1 Hi1]].
  - apply list_lookup_insert_Some in Hi2 as [(-> & _)|[Hn2 Hi2]]; [done|]. by eapply (Hone i2).
  - apply list_lookup_insert_Some in Hi2 as [(-> & <- & _)|[Hn2 Hi2]]; [|by eapply (Hex i1 i2)].
    rewrite conflicts_sym. by eapply (Hone i1).
Qed.

(** A thread with a RESERVE due is about to use the owned jobs. *)
Lemma due_next {A} (m : prog (server_op K) A) id t s (Q : A -> stage -> Z -> shared -> Prop) :
  safe totals m (Due id) t s Q -> (forall a t s, ~ Q a (Due id) t s) ->
  exists (X : Set) (o : server_op K X) c, m = Do o c /\ location_of o = Some (Comp Owned).
Proof.
  destruct m as [a| | |X o c]; simpl; intros Hs Hq; [by destruct (Hq _ _ _ Hs)|done..|].
  exists X, o, c. split; [done|]. destruct Hs as (h' & Hn & _). destruct o as [X o| | | |]; simpl in Hn; try by destruct Hn as [[]].
  destruct o; simpl in Hn; try done; try (by destruct Hn as [[] _]); by destruct Hn as [Hn _].
Qed.

(** It races with any other thread in the same place, or with their mutex. *)
Lemma no_race_due cfg gs i th g id :
  Forall2 (thread_ok (sv_shared (cf_server cfg))) (cf_threads cfg) gs ->
  cf_threads cfg !! i = Some th -> gs !! i = Some g -> races i cfg = false -> kn_stage g = Due id ->
  forall j gj, i ≠ j -> gs !! j = Some gj -> kn_stage gj ≠ Holds Owned /\ not_due (kn_stage gj).
Proof.
  intros Hf Hth Hg Hr Hh j gj Hne Hj.
  destruct (Forall2_lookup_r _ _ _ _ _ Hf Hg) as (th' & Hth' & [Hheld _ _ Hs]). simplify_eq. rewrite Hh in Hs, Hheld.
  destruct (Forall2_lookup_r _ _ _ _ _ Hf Hj) as ([mj heldj] & Hthj & [Hheldj _ _ Hsj]). simpl in Hheldj, Hsj.
  destruct (due_next _ _ _ _ _ Hs ltac:(done)) as (X & o & c & Hm & Hl).
  destruct th as [m held]. simpl in Hm, Hheld. subst m held. unfold races in Hr. rewrite Hth, Hl in Hr.
  apply orb_false_iff in Hr as [Hr _]. simpl in Hr.
  assert (Hnc : contends (Comp Owned) (Thread mj heldj) = false).
  { apply not_true_is_false. intros Hc. rewrite (proj2 (existsb_exists _ _)) in Hr; [done|].
    exists (Thread mj heldj). split; [|done]. apply list_elem_of_In. by eapply elem_of_delete. }
  unfold contends in Hnc. simpl in Hnc. rewrite Hheldj in Hnc. apply orb_false_iff in Hnc as [Hm Hheld]. split.
  - intros E. by rewrite E in Hheld.
  - destruct (kn_stage gj) as [| |id'] eqn:E; [done..|]. destruct (due_next _ _ _ _ _ Hsj ltac:(done)) as (Y & o' & c' & -> & Hl').
    by rewrite bool_decide_eq_true_2 in Hm.
Qed.

(** ** The invariant is kept *)

Lemma threads_inv_turn k cfg gs i cfg' :
  threads_inv k cfg gs -> races i cfg = false -> turn i cfg = Next cfg' -> exists gs', threads_inv k cfg' gs'.
Proof.
  intros Hinv Hr Ht. unfold turn in Ht. destruct (cf_threads cfg !! i) as [[m held]|] eqn:Hth; [|done].
  destruct m as [a| | |X o c]; try done. cbn [th_prog th_held] in Ht.
  destruct (next_ok _ _ _ _ _ _ _ _ Hinv Hth) as (g & h' & x & sv' & t' & Hg & -> & Hn & E & Ht' & Hsh & Hu & Hok).
  rewrite (held_after_next _ _ _ Hn) in Ht. destruct (waits_for o (cf_threads cfg)) eqn:Hw; [done|].
  rewrite E in Ht. injection Ht as <-. exists (<[i := KnownOf h' t' (sv_shared sv')]> gs).
  split; simpl; [by destruct Hinv| |done|by eapply exclusive_insert].
  apply Forall2_same_length_lookup_2; [rewrite !length_insert; by eapply Forall2_length, (ti_threads _ _ _ Hinv)|].
  intros j th g2 H1 H2. apply list_lookup_insert_Some in H1 as [(<- & <- & _)|[Hne H1]].
  - rewrite list_lookup_insert_eq in H2 by (by eapply lookup_lt_Some). by injection H2 as <-.
  - rewrite list_lookup_insert_ne in H2 by done. destruct (thread_of _ _ _ _ _ Hinv H1) as (gj & Hgj & [Hheld Ha Htk Hs]).
    simplify_eq. split; [done| |done|done]. eapply (agree_frame _ _ _ _ _ _ _ _ Hn E); [|exact Hu| |exact Ha].
    + intros l l2 Hl Hl2. by eapply (ti_exclusive _ _ _ Hinv i j).
    + intros [id Hid]. by eapply (no_race_due cfg gs i); [apply Hinv|..].
Qed.

Lemma init_threads_inv n sv :
  shared_inv NODE_ROOM totals (sv_shared sv) ->
  exists gs, threads_inv NODE_ROOM (Config sv (replicate n idle) None) gs.
Proof.
  intros Hi. exists (replicate n (KnownOf Free 0 (sv_shared sv))). split; [done| | |].
  - induction n as [|n IH]; simpl; constructor; [|done]. by split.
  - replace (sum_tokens _) with 0; [by rewrite Z.add_0_r|]. unfold sum_tokens. induction n; simpl; lia.
  - intros i j gi gj li lj _ Hi' _. apply lookup_replicate in Hi' as [-> _]. done.
Qed.

Lemma threads_inv_begin `{!KernelLaws} `{!TamePeers K} k cfg gs i o fuel :
  threads_inv k cfg gs -> is_idle i cfg -> EVENT_COST <= k -> descriptors_ok o ->
  exists gs', threads_inv (k - EVENT_COST) (begin i o fuel cfg) gs'.
Proof.
  intros Hinv (th & Hth & Hidle) Hk Hok. destruct (thread_of _ _ _ _ _ Hinv Hth) as (g & Hg & [Hheld _ Htok Hs]).
  rewrite Hidle in Hs. simpl in Hs. pose proof cost_pos.
  pose proof (sum_tokens_ge _ _ _ _ _ (ti_threads _ _ _ Hinv) Hg).
  set (s := sv_shared (cf_server cfg)). exists (<[i := KnownOf Free EVENT_COST s]> gs). split; simpl; [lia| | |].
  - apply Forall2_insert; [apply Hinv|]. split; simpl; [done..|lia|].
    eapply safe_mono; [by apply (hcalm_happen totals o Hok fuel)|]. intros a h t' s' (_ & Hh & _). exact Hh.
  - rewrite (sum_tokens_insert _ _ _ _ Hg). simpl. eapply shared_inv_weaken; [|apply Hinv]. lia.
  - intros i1 i2 g1 g2 l1 l2 Hne Hi1 Hi2 Hl1 Hl2.
    apply list_lookup_insert_Some in Hi1 as [(<- & <- & _)|[Hn1 Hi1]]; [done|].
    apply list_lookup_insert_Some in Hi2 as [(<- & <- & _)|[Hn2 Hi2]]; [done|]. by eapply (ti_exclusive _ _ _ Hinv i1 i2).
Qed.

End interleaving.

(** ** The reachable configurations *)

Section reachable.
Context {K : Type} `{Kernel K} `{!KernelLaws} `{!TamePeers K}.
Implicit Types (cfg : config K).

Lemma init_shared_inv cpu ram gpu :
  in_u32 cpu -> in_u32 ram -> in_u32 gpu ->
  shared_inv NODE_ROOM [cpu; gpu; ram] (Shared (init_node cpu ram gpu) no_connections []).
Proof.
  intros Hc Hr Hg. split; simpl; [by apply init_node_wf|done|by unfold conns_ok, no_connections; rewrite length_replicate|..].
  - apply Forall_replicate. unfold conn_short. simpl. lia.
  - by intros id j Hj.
Qed.

Lemma conc_reach_inv cpu ram gpu k cfg :
  in_u32 cpu -> in_u32 ram -> in_u32 gpu -> conc_reach cpu ram gpu k cfg ->
  exists gs, threads_inv [cpu; gpu; ram] k cfg gs.
Proof.
  intros Hc Hr Hg. induction 1 as [n ctx kn|k cfg i o fuel _ [gs IH] Hi Hk Ho|k cfg i cfg' _ [gs IH] Hra Ht].
  - by apply init_threads_inv, init_shared_inv.
  - by eapply threads_inv_begin.
  - by eapply threads_inv_turn.
Qed.

(** A thread that is not racing takes its step, waits, or has ended. *)
Lemma turn_no_fault totals k cfg gs i :
  threads_inv totals k cfg gs -> turn i cfg ≠ Fault.
Proof.
  intros Hinv Ht. unfold turn in Ht. destruct (cf_threads cfg !! i) as [[m held]|] eqn:Hth; [|done].
  destruct m as [a| | |X o c]; try done; cbn [th_prog th_held] in Ht.
  - destruct (thread_of _ _ _ _ _ _ Hinv Hth) as (g & _ & [_ _ _ []]).
  - destruct (next_ok _ _ _ _ _ _ _ _ _ Hinv Hth) as (g & h' & x & sv' & t' & _ & -> & Hn & E & _).
    rewrite (held_after_next _ _ _ Hn) in Ht. destruct (waits_for _ _); [done|]. by rewrite E in Ht.
Qed.

(** A thread that waits holds nothing. *)
Lemma waiting_holds_nothing totals k cfg gs i l :
  threads_inv totals k cfg gs -> turn i cfg = Waiting l ->
  exists th, cf_threads cfg !! i = Some th /\ th_held th = [] /\ available l (cf_threads cfg) = false.
Proof.
  intros Hinv Ht. unfold turn in Ht. destruct (cf_threads cfg !! i) as [[m held]|] eqn:Hth; [|done].
  destruct m as [a| | |X o c]; try done; cbn [th_prog th_held] in Ht.
  destruct (next_ok _ _ _ _ _ _ _ _ _ Hinv Hth) as (g & h' & x & sv' & t' & _ & -> & Hn & E & _).
  rewrite (held_after_next _ _ _ Hn) in Ht. destruct (waits_for o (cf_threads cfg)) as [l'|] eqn:Hw; [|by rewrite E in Ht].
  injection Ht as ->. eexists. split; [done|]. destruct o as [X o| | | |]; try done. destruct o; try done.
  simpl in Hw, Hn. destruct Hn as [Hh _]. destruct (available _ _) eqn:Hav; [done|]. injection Hw as ->. by rewrite Hh.
Qed.

Lemma available_false l (ths : list (thread K)) :
  available l ths = false -> exists j th l', ths !! j = Some th /\ l' ∈ th_held th /\ conflicts l l' = true.
Proof.
  induction ths as [|th ths IH]; simpl; [done|]. rewrite andb_false_iff. intros [Hf|Hf].
  - exists 0%nat, th. induction (th_held th) as [|l' ls IHl]; simpl in Hf; [done|]. apply andb_false_iff in Hf as [Hf|Hf].
    + exists l'. split_and!; [done|by left|by apply negb_false_iff].
    + destruct (IHl Hf) as (l2 & _ & Hin & Hc). exists l2. split_and!; [done|by right|done].
  - destruct (IH Hf) as (j & th' & l' & Hj & ?). exists (S j), th', l'. done.
Qed.

Lemma turn_op cfg j (X : Set) (o : server_op K X) c held :
  cf_threads cfg !! j = Some (Thread (Do o c) held) ->
  turn j cfg = Fault \/ (exists l, turn j cfg = Waiting l) \/
  exists x held' cfg', turn j cfg = Next cfg' /\ cf_threads cfg' !! j = Some (Thread (c x) held').
Proof.
  intros Hth. unfold turn. rewrite Hth. cbn [th_prog th_held]. destruct (held_after _ _) as [held'|]; [|by left].
  destruct (waits_for _ _) as [l|]; [eauto|]. destruct (server_step _ _ _) as [[x sv]|]; [|by left]. right. right.
  eexists x, held', _. split; [done|]. simpl. apply list_lookup_insert_eq. by eapply lookup_lt_Some.
Qed.

(** Left to itself a thread gives up what it holds, unless its loop goes on or a race
    stops it. *)
Lemma drains totals k m cfg gs j held :
  threads_inv totals k cfg gs -> cf_threads cfg !! j = Some (Thread m held) ->
  exists n cfg' th, play (replicate n j) cfg = Some cfg' /\ cf_threads cfg' !! j = Some th /\
    (th_held th = [] \/ turn j cfg' = Spinning \/ races j cfg' = true).
Proof.
  revert cfg gs held. induction m as [a| | |X o c IH]; intros cfg gs held Hinv Hth.
  - exists 0%nat, cfg, (Thread (Ret a) held). split_and!; [done|done|left]. simpl.
    destruct (thread_of _ _ _ _ _ _ Hinv Hth) as (g & _ & [Hh _ _ Hs]). simpl in Hh, Hs. by rewrite Hh, Hs.
  - destruct (thread_of _ _ _ _ _ _ Hinv Hth) as (g & _ & [_ _ _ []]).
  - exists 0%nat, cfg, (Thread Spin held). split_and!; [done|done|right; left]. unfold turn. by rewrite Hth.
  - assert (Hstay : held = [] \/ races j cfg = true -> exists n cfg' th, play (replicate n j) cfg = Some cfg' /\
      cf_threads cfg' !! j = Some th /\ (th_held th = [] \/ turn j cfg' = Spinning \/ races j cfg' = true)).
    { intros Hs. exists 0%nat, cfg, (Thread (Do o c) held). split_and!; [done|done|]. destruct Hs; auto. }
    destruct held as [|l held]; [auto|]. destruct (races j cfg) eqn:Hr; [auto|]. clear Hstay.
    destruct (turn_op _ _ _ _ _ _ Hth) as [Ht|[[l' Ht]|(x & held' & cfg' & Ht & Hth')]].
    + by destruct (turn_no_fault _ _ _ _ j Hinv).
    + destruct (waiting_holds_nothing _ _ _ _ _ _ Hinv Ht) as (th & Hth' & Hn & _). by simplify_eq.
    + destruct (threads_inv_turn _ _ _ _ _ _ Hinv Hr Ht) as [gs' Hinv'].
      destruct (IH x _ _ _ Hinv' Hth') as (n & cfg2 & th & Hp & Hrest). exists (S n), cfg2, th.
      split; [|done]. simpl. by rewrite Hr, Ht.
Qed.

(** *** A thread nobody interrupts *)

Definition others_free (i : nat) (cfg : config K) : Prop :=
  forall j th, j ≠ i -> cf_threads cfg !! j = Some th -> th_held th = [].

Lemma available_free l i (cfg : config K) th :
  others_free i cfg -> cf_threads cfg !! i = Some th -> th_held th = [] -> available l (cf_threads cfg) = true.
Proof.
  intros Ho Hi Hh. apply forallb_forall. intros th' (j & Hj)%list_elem_of_In%list_elem_of_lookup_1.
  destruct (decide (j = i)) as [->|Hne]; [simplify_eq|rewrite (Ho j th' Hne Hj)]; by rewrite ?Hh.
Qed.

Lemma not_waiting i cfg (X : Set) (o : server_op K X) c h h' :
  others_free i cfg -> cf_threads cfg !! i = Some (Thread (Do o c) (held_at h)) -> next_stage o h h' ->
  waits_for o (cf_threads cfg) = None.
Proof.
  intros Ho Hth Hn. destruct o as [X o| | | |]; try done. destruct o; try done. simpl in *. destruct Hn as [-> _].
  by erewrite available_free.
Qed.

Lemma others_free_insert i cfg sv th ow :
  others_free i cfg -> others_free i (Config sv (<[i := th]> (cf_threads cfg)) ow).
Proof. intros Ho j th' Hne Hj. simpl in Hj. rewrite list_lookup_insert_ne in Hj by done. by eapply Ho. Qed.

Lemma serve_alone totals i m h t s R cfg sv :
  cf_threads cfg !! i = Some (Thread m (held_at h)) -> others_free i cfg ->
  agree h s (sv_shared (cf_server cfg)) -> t <= R -> shared_inv R totals (sv_shared (cf_server cfg)) ->
  safe totals m h t s (fun _ h _ _ => h = Free) -> serve m (cf_server cfg) = Some ((), sv) ->
  exists cfg', alone i cfg cfg' /\ turn i cfg' = Finished /\ cf_server cfg' = sv.
Proof.
  revert h t s R cfg. induction m as [[]| | |X o c IH]; intros h t s R cfg Hth Ho Ha Ht Hi Hs Hsv; try done.
  - injection Hsv as <-. exists cfg. split_and!; [by apply rtc_refl| |done]. unfold turn. by rewrite Hth.
  - destruct Hs as (h' & Hn & Hop). destruct (Hop _ _ Ha Ht Hi) as (x & sv1 & t' & E & Ht' & Hi' & _ & Ha' & Hc).
    unfold serve, interp in Hsv. fold (@interp (server_op K) (server K) (@server_step K)) in Hsv. rewrite E in Hsv.
    set (cfg1 := Config sv1 (<[i := Thread (c x) (held_at h')]> (cf_threads cfg)) (strtok_after i o (cf_strtok cfg))).
    destruct (IH x h' t' (sv_shared sv1) (R - (t - t')) cfg1) as (cfg' & Hal & Hfin & Hsrv).
    + apply list_lookup_insert_eq. by eapply lookup_lt_Some.
    + by apply others_free_insert.
    + exact Ha'.
    + lia.
    + done.
    + done.
    + exact Hsv.
    + exists cfg'. split; [|done]. eapply rtc_l; [|exact Hal]. unfold turn. rewrite Hth. cbn [th_prog th_held].
      rewrite (held_after_next _ _ _ Hn), (not_waiting _ _ _ _ _ _ _ Ho Hth Hn), E. done.
Qed.

Lemma alone_serve i m held cfg cfg' :
  cf_threads cfg !! i = Some (Thread m held) -> alone i cfg cfg' -> turn i cfg' = Finished ->
  serve m (cf_server cfg) = Some ((), cf_server cfg').
Proof.
  intros Hth Hal Hfin. revert m held Hth. induction Hal as [cfg|cfg cfg1 cfg' Ht Hal IH]; intros m held Hth.
  - unfold turn in Hfin. rewrite Hth in Hfin. cbn [th_prog th_held] in Hfin. destruct m as [[]| | |X o c]; try done.
    destruct (held_after _ _); [|done]. destruct (waits_for _ _); [done|]. by destruct (server_step _ _ _) as [[]|].
  - unfold turn in Ht. rewrite Hth in Ht. cbn [th_prog th_held] in Ht. destruct m as [[]| | |X o c]; try done.
    destruct (held_after _ _) as [held'|]; [|done]. destruct (waits_for _ _); [done|].
    unfold serve, interp. fold (@interp (server_op K) (server K) (@server_step K)).
    destruct (server_step _ _ _) as [[x sv1]|] eqn:E; [|done]. injection Ht as <-. cbn [mbind option_bind].
    eapply (IH Hfin (c x) held'). apply list_lookup_insert_eq. by eapply lookup_lt_Some.
Qed.

(** What two threads that are about to touch the same data hold. *)
Lemma due_unsent totals k cfg gs i (X : Set) (o : server_op K X) c held g id :
  threads_inv totals k cfg gs -> cf_threads cfg !! i = Some (Thread (Do o c) held) -> gs !! i = Some g -> kn_stage g = Due id ->
  (forall jobs, unsent_in id jobs -> reserves_first o (held_at (kn_stage g)) jobs) ->
  reserves_first o (held_at (kn_stage g)) (nd_owned_jobs (sv_node (cf_server cfg))).
Proof.
  intros Hinv Hi Hg Hd Hf. destruct (thread_of _ _ _ _ _ _ Hinv Hi) as (g2 & Hg2 & [_ Ha _ _]). simplify_eq.
  apply Hf. by rewrite Hd in Ha.
Qed.

Lemma protects_tokens {X : Set} (o : server_op K X) ls :
  location_of o = Some Tokens -> existsb (protects o) ls = true -> False.
Proof.
  intros Ho (l & _ & Hp)%existsb_exists. by destruct (protects_location _ _ _ Ho Hp) as [(c & ? & _)|(? & _)].
Qed.

Lemma both_owned totals k cfg gs i j g g' :
  threads_inv totals k cfg gs -> i ≠ j -> gs !! i = Some g -> gs !! j = Some g' ->
  held_at (kn_stage g) = [Mutex Owned] -> held_at (kn_stage g') = [Mutex Owned] -> False.
Proof.
  intros Hinv Hne Hi Hj Hh Hh'. pose proof (ti_exclusive _ _ _ _ Hinv i j g g') as Hex.
  destruct (kn_stage g) as [|l|]; [done| |done]. destruct (kn_stage g') as [|l'|]; [done| |done].
  injection Hh as ->. injection Hh' as ->. specialize (Hex _ _ Hne Hi Hj eq_refl eq_refl). simpl in Hex.
  done.
Qed.

Lemma both_protected totals k cfg gs i j g g' (X Y : Set) (o : server_op K X) (o' : server_op K Y) x :
  threads_inv totals k cfg gs -> i ≠ j -> gs !! i = Some g -> gs !! j = Some g' ->
  location_of o = Some x -> location_of o' = Some x ->
  existsb (protects o) (held_at (kn_stage g)) = true -> existsb (protects o') (held_at (kn_stage g')) = true ->
  x = Table /\ held_at (kn_stage g) = [Reading] /\ held_at (kn_stage g') = [Reading].
Proof.
  intros Hinv Hne Hi Hj Hx Hx' Hp Hp'. pose proof (ti_exclusive _ _ _ _ Hinv i j g g') as Hex.
  destruct (kn_stage g) as [|l|]; [done| |done]. destruct (kn_stage g') as [|l'|]; [done| |done]. simpl in Hp, Hp'.
  specialize (Hex l l' Hne Hi Hj eq_refl eq_refl). rewrite orb_false_r in Hp, Hp'.
  destruct (protects_location _ _ _ Hx Hp) as [(cm & -> & ->)|(-> & Hl)].
  - destruct (protects_location _ _ _ Hx' Hp') as [(cm' & [= <-] & ->)|(? & _)]; [|done]. simpl in Hex. by rewrite bool_decide_true in Hex.
  - destruct (protects_location _ _ _ Hx' Hp') as [(cm' & ? & _)|(_ & Hl')]; [done|]. by destruct Hl as [->| ->], Hl' as [->| ->].
Qed.

(** ** Properties *)

(** C1: the agent with all its threads: in every configuration that any number of
    threads, interleaved at any operation without races, can lead to, no operation a
    thread is about to do is undefined on the state it finds, every component is well
    formed, and the free and granted quantities of each resource are within the
    configured ones (no interleaving of RESERVEs, RELEASEs and disconnections
    overcommits the node).  The system is any that keeps [KernelLaws], and what peers
    send does not overflow the array of [handle_reserve] ([TamePeers]). *)
Theorem interleaving_safe cpu ram gpu k cfg :
  in_u32 cpu -> in_u32 ram -> in_u32 gpu -> conc_reach cpu ram gpu k cfg ->
  (forall i, turn i cfg ≠ Fault) /\
  node_wf k (sv_node (cf_server cfg)) /\ conns_ok (sv_conns (cf_server cfg)) /\
  forall t, valid_res t ->
    0 <= av (nd_resources (sv_node (cf_server cfg))) t + active_qty t (items (nd_active_jobs (sv_node (cf_server cfg)))) <=
    (if decide (t = CPU) then cpu else if decide (t = RAM) then ram else gpu).
Proof.
  intros Hc Hr Hg Hreach. destruct (conc_reach_inv _ _ _ _ _ Hc Hr Hg Hreach) as [gs Hinv].
  pose proof (ti_k _ _ _ _ Hinv) as Hk. destruct (ti_shared _ _ _ _ Hinv) as [[Hl Hkn Ho] Htot Hcs _ _].
  pose proof (sum_tokens_pos _ _ _ _ (ti_threads _ _ _ _ Hinv)) as Hs.
  split; [intros i; by eapply turn_no_fault|]. split_and!; [|done|].
  - apply (node_wf_weaken (k + sum_tokens gs)); [by split|lia].
  - intros t Ht. destruct (slack_bounds _ _ _ t Hl Ht) as (Hav & Hq & Hle & _). split; [lia|].
    etrans; [exact Hle|]. unfold tot. rewrite Htot. by destruct t.
Qed.

(** C14: the RESERVEs of a job go out one at a time, in the order of its request,
    whatever the threads do to each other: in every configuration without races each
    dispatched petition except the last is granted, no petition beyond the next index
    is, and the rollback list the failure handlers use is everything dispatched but
    the one still unanswered.  This includes the thread that, past the unlock of
    [handle_job_request], has its first RESERVE still to send; two such threads race,
    and the order is lost ([next_reserve_race]). *)
Theorem interleaving_ordered cpu ram gpu k cfg id j :
  in_u32 cpu -> in_u32 ram -> in_u32 gpu -> conc_reach cpu ram gpu k cfg ->
  jobs_map (nd_owned_jobs (sv_node (cf_server cfg))) !! id = Some j ->
  dispatched j = take (Z.to_nat (oj_next_reserve_idx j)) (targets j) /\
  (length (targets j) <= MAX_JOB_RESOURCES)%nat /\
  (oj_next_reserve_idx j = 0 /\ granted j = [] \/
   exists p, last_sent j = Some p /\
     (jp_is_granted p = 1 /\ granted j = dispatched j \/
      jp_is_granted p = 0 /\ dispatched j = granted j ++ [target_of p])).
Proof.
  intros Hc Hr Hg Hreach Hj. destruct (conc_reach_inv _ _ _ _ _ Hc Hr Hg Hreach) as [gs Hinv].
  destruct (ti_shared _ _ _ _ Hinv) as [[_ _ Ho] _ _ _ Hs]. apply chain_order; [exact (ow_job _ _ _ _ Ho Hj)|exact (Hs id j Hj)].
Qed.

(** C13: where the races are: two threads about to touch the same data both hold its
    lock for reading only; or the data is the position [strtok] keeps in the C
    library, and one of them holds nothing and the other nothing or [lock_owned]; or it
    is the table of owned jobs, and one of them is past the unlock of
    [handle_job_request]: it holds nothing, and what it is about to do there is the
    search for the first RESERVE of a job of which none was sent.  Every other access
    of the agent is protected. *)
Theorem data_races cpu ram gpu k cfg i j (X Y : Set) (o : server_op K X) (o' : server_op K Y) c c' held held' x :
  in_u32 cpu -> in_u32 ram -> in_u32 gpu -> conc_reach cpu ram gpu k cfg -> i ≠ j ->
  cf_threads cfg !! i = Some (Thread (Do o c) held) -> cf_threads cfg !! j = Some (Thread (Do o' c') held') ->
  location_of o = Some x -> location_of o' = Some x ->
  (x = Table /\ held = [Reading] /\ held' = [Reading]) \/
  (x = Tokens /\ (held = [] /\ (held' = [] \/ held' = [Mutex Owned]) \/ held' = [] /\ held = [Mutex Owned])) \/
  (x = Comp Owned /\ (reserves_first o held (nd_owned_jobs (sv_node (cf_server cfg))) \/
                      reserves_first o' held' (nd_owned_jobs (sv_node (cf_server cfg))))).
Proof.
  intros Hc Hr Hg Hreach Hne Hi Hj Hx Hx'. destruct (conc_reach_inv _ _ _ _ _ Hc Hr Hg Hreach) as [gs Hinv].
  destruct (next_ok _ _ _ _ _ _ _ _ _ Hinv Hi) as (g & h1 & _ & _ & _ & Hgi & -> & Hn & _).
  destruct (next_ok _ _ _ _ _ _ _ _ _ Hinv Hj) as (g' & h1' & _ & _ & _ & Hgj & -> & Hn' & _).
  pose proof (unprotected _ _ _ _ Hn Hx) as Hu. pose proof (unprotected _ _ _ _ Hn' Hx') as Hu'.
  destruct Hu as [Hp|[(-> & Hh)|(-> & _ & id & Hd & Hf)]]; [| |right; right; split; [done|left; by eapply due_unsent]].
  - destruct Hu' as [Hp'|[(-> & _)|(-> & _ & id & Hd & Hf)]]; [| |right; right; split; [done|right; by eapply due_unsent]].
    + left. exact (both_protected _ _ _ _ _ _ _ _ _ _ _ _ _ Hinv Hne Hgi Hgj Hx Hx' Hp Hp').
    + by destruct (protects_tokens _ _ Hx Hp).
  - right. left. split; [done|]. destruct Hu' as [Hp'|[(_ & Hh')|(? & _)]]; [by destruct (protects_tokens _ _ Hx' Hp')| |done].
    destruct Hh as [Hh|Hh], Hh' as [Hh'|Hh']; [by auto..|]. destruct (both_owned _ _ _ _ _ _ _ _ Hinv Hne Hgi Hgj Hh Hh').
Qed.

(** C12: no deadlock: a thread that waits for a lock waits for a thread that is not
    waiting itself and that, left to run, gives the lock up (unless one of its loops
    goes on, or a race stops it). *)
Theorem no_deadlock cpu ram gpu k cfg i l :
  in_u32 cpu -> in_u32 ram -> in_u32 gpu -> conc_reach cpu ram gpu k cfg -> turn i cfg = Waiting l ->
  exists j th l' n cfg' th', j ≠ i /\ cf_threads cfg !! j = Some th /\ l' ∈ th_held th /\ conflicts l l' = true /\
    (forall l2, turn j cfg ≠ Waiting l2) /\
    play (replicate n j) cfg = Some cfg' /\ cf_threads cfg' !! j = Some th' /\
    (th_held th' = [] \/ turn j cfg' = Spinning \/ races j cfg' = true).
Proof.
  intros Hc Hr Hg Hreach Hw. destruct (conc_reach_inv _ _ _ _ _ Hc Hr Hg Hreach) as [gs Hinv].
  destruct (waiting_holds_nothing _ _ _ _ _ _ Hinv Hw) as (thi & Hthi & Hnil & Hav).
  destruct (available_false _ _ Hav) as (j & [m held] & l' & Hj & Hin & Hcf).
  destruct (drains _ _ _ _ _ _ _ Hinv Hj) as (n & cfg' & th' & Hp & Hth' & Hend).
  exists j, (Thread m held), l', n, cfg', th'. split_and!; try done.
  - intros ->. simplify_eq. simpl in Hnil, Hin. rewrite Hnil in Hin. by apply not_elem_of_nil in Hin.
  - intros l2 Hw2. destruct (waiting_holds_nothing _ _ _ _ _ _ Hinv Hw2) as (th & Hth & Hn & _).
    simplify_eq. simpl in Hn, Hin. rewrite Hn in Hin. by apply not_elem_of_nil in Hin.
Qed.

(** Also: a thread that no other interrupts, while nobody else holds a lock, does what
    its program does alone: the turns that end it are the evaluation the theorems
    about the handlers are about. *)
Theorem uninterrupted cpu ram gpu k cfg i m held sv :
  in_u32 cpu -> in_u32 ram -> in_u32 gpu -> conc_reach cpu ram gpu k cfg ->
  cf_threads cfg !! i = Some (Thread m held) -> others_free i cfg ->
  serve m (cf_server cfg) = Some ((), sv) <->
  exists cfg', alone i cfg cfg' /\ turn i cfg' = Finished /\ cf_server cfg' = sv.
Proof.
  intros Hc Hr Hg Hreach Hth Ho. split; [|intros (cfg' & Hal & Hfin & <-); by eapply alone_serve].
  destruct (conc_reach_inv _ _ _ _ _ Hc Hr Hg Hreach) as [gs Hinv].
  destruct (thread_of _ _ _ _ _ _ Hinv Hth) as (g & Hg' & [Hh Ha Ht Hs]). simpl in Hh, Hs. subst held.
  pose proof (sum_tokens_ge _ _ _ _ _ _ (ti_threads _ _ _ _ Hinv) Hg'). pose proof (ti_k _ _ _ _ Hinv).
  eapply serve_alone; [done..| |apply Hinv|exact Hs]. lia.
Qed.

End reachable.

(** ** Concrete interleavings *)

Module HilosEjemplo.

(** Both clients ask for job 7, on two nodes; the datagrams are announcements. *)
Definition texto : string := "JOB_REQUEST 7 @10.0.0.1:8100:cpu:1 @10.0.0.2:8100:cpu:1" +:+ str_nl.

#[export] Instance red : Kernel nat := {
  k_send _ s k := (AnswerSent (String.length s), k);
  k_recv _ n k := (Received (str_take n texto), k);
  k_recvfrom _ n k := (Some (str_take n "ANNOUNCE 8100 cpu:4 mem:8 gpu:1", "10.0.0.1"), k);
  k_accept _ k := ((22, "10.0.0.3"), k);
  k_socket k := (Z.of_nat k, S k);
  k_connect _ _ _ k := (InProgress, k);
  k_getsockopt _ k := (true, k);
  k_env k := (Env 1000 1000 (fun i => Z.of_nat i) EmptyString, k)
}.

#[export] Instance red_laws : @KernelLaws nat red.
Proof.
  apply (Build_KernelLaws (fun _ _ => 0%nat)).
  - by intros fd s k k' [=].
  - by intros fd s k n k' [= <- _].
  - intros fd n k b k' [= <- _]. rewrite str_take_length. lia.
  - intros fd k z ip k' [= <- <- _]. simpl. lia.
  - intros k z k' [= <- _]. lia.
Defined.

Definition contexto : ServerContext := Context 8100 "10.0.0.9" 3 4 5 6 7 8 10 true.
Definition inicio : config nat :=
  Config (Server (Shared (init_node 4 8 1) no_connections []) contexto 23%nat []) (replicate 2 idle) None.

Definition dos (a b : WorkerTask) : config nat := begin 1 (Taken b) 100 (begin 0 (Taken a) 100 inicio).
Definition clientes : config nat := dos (Task 20 TASK_TCP_CLIENT_MSG) (Task 21 TASK_TCP_CLIENT_MSG).
Definition anuncio : config nat := dos (Task 20 TASK_TCP_CLIENT_MSG) (Task 6 TASK_UDP_DISCOVERY).

#[export] Instance red_tame : TamePeers nat.
Proof.
  intros fd n k b k' [= <- _].
  assert (Hall : forallb (fun n => forallb (fun l => negb (reserve_overflow (sscanf l "RESERVE %u %s %u")))
    (strtok_all ch_nl (c_text (str_take n texto)))) (seq 0 70) = true) by (vm_compute; reflexivity).
  rewrite forallb_forall in Hall. assert (Hb : forall m, (m < 70)%nat -> tame (str_take m texto)).
  { intros m Hm. apply Forall_forall. intros l Hl. specialize (Hall m (proj2 (in_seq 70 0 m) ltac:(lia))).
    rewrite forallb_forall in Hall. by apply negb_true_iff, Hall, list_elem_of_In. }
  destruct (decide (n < 70)%nat) as [Hn|Hn]; [by apply Hb|].
  replace (str_take n texto) with (str_take 69 texto); [apply Hb; lia|].
  rewrite !(str_take_all _ texto); [done|..]; change (String.length texto) with 56%nat; lia.
Qed.

Lemma alcanzable (a b : WorkerTask) schedule cfg :
  descriptors_ok (Taken a) -> descriptors_ok (Taken b) -> play schedule (dos a b) = Some cfg ->
  conc_reach 4 8 1 (NODE_ROOM - EVENT_COST - EVENT_COST) cfg.
Proof.
  intros Ha Hb. apply play_reach. apply conc_begin; [apply conc_begin; [apply conc_init|..]|..]; try done; by eexists.
Qed.

Lemma abierto_20 : descriptors_ok (Taken (Task 20 TASK_TCP_CLIENT_MSG)).
Proof. simpl. unfold MAX_FDS. lia. Qed.
Lemma abierto_21 : descriptors_ok (Taken (Task 21 TASK_TCP_CLIENT_MSG)).
Proof. simpl. unfold MAX_FDS. lia. Qed.
Lemma en_u32_4 : in_u32 4.
Proof. done. Qed.
Lemma en_u32_8 : in_u32 8.
Proof. done. Qed.
Lemma en_u32_1 : in_u32 1.
Proof. done. Qed.

(** Where a thread is. *)
Definition at_location (i : nat) (cfg : config nat) : option location :=
  match cf_threads cfg !! i with Some (Thread (Do o _) _) => location_of o | _ => None end.

Lemma at_location_op i cfg x :
  at_location i cfg = Some x -> exists (X : Set) (o : server_op nat X) c held,
    cf_threads cfg !! i = Some (Thread (Do o c) held) /\ location_of o = Some x.
Proof. unfold at_location. destruct (cf_threads cfg !! i) as [[[]held]|]; try done. eauto 10. Qed.

(** A petition and an announcement both about to call [strtok]. *)
Definition mezcla : list nat := replicate 8 0%nat ++ replicate 5 1%nat.
(** Two petitions of the same job, both about to ask for its first RESERVE. *)
Definition repetido : list nat := replicate 16 0%nat ++ replicate 16 1%nat.
(** One with the mutex of the owned jobs, the other waiting for it. *)
Definition espera : list nat := replicate 7 0%nat ++ replicate 6 1%nat.

Lemma interleaving_safe_witness :
  exists cfg, play repetido clientes = Some cfg /\
    (forall i, turn i cfg ≠ Fault) /\
    node_wf (NODE_ROOM - EVENT_COST - EVENT_COST) (sv_node (cf_server cfg)) /\ conns_ok (sv_conns (cf_server cfg)) /\
    forall t, valid_res t ->
      0 <= av (nd_resources (sv_node (cf_server cfg))) t + active_qty t (items (nd_active_jobs (sv_node (cf_server cfg)))) <=
      (if decide (t = CPU) then 4 else if decide (t = RAM) then 8 else 1).
Proof.
  assert (Hs : (fun _ => ()) <$> play repetido clientes = Some ()) by (vm_compute; reflexivity).
  apply fmap_Some_1 in Hs as (cfg & Hp & _). exists cfg. split; [exact Hp|].
  exact (interleaving_safe 4 8 1 _ cfg en_u32_4 en_u32_8 en_u32_1 (alcanzable _ _ _ _ abierto_20 abierto_21 Hp)).
Defined.

(** The petition of job 7 has been served; its first RESERVE is out. *)
Lemma interleaving_ordered_witness :
  exists cfg j, play (replicate 28 0%nat ++ replicate 4 1%nat) anuncio = Some cfg /\
    jobs_map (nd_owned_jobs (sv_node (cf_server cfg))) !! 7 = Some j /\ oj_next_reserve_idx j = 1 /\
    dispatched j = take (Z.to_nat (oj_next_reserve_idx j)) (targets j) /\
    (length (targets j) <= MAX_JOB_RESOURCES)%nat /\
    (oj_next_reserve_idx j = 0 /\ granted j = [] \/
     exists p, last_sent j = Some p /\
       (jp_is_granted p = 1 /\ granted j = dispatched j \/
        jp_is_granted p = 0 /\ dispatched j = granted j ++ [target_of p])).
Proof.
  assert (Hs : (fun cfg => oj_next_reserve_idx <$> jobs_map (nd_owned_jobs (sv_node (cf_server cfg))) !! 7) <$>
    play (replicate 28 0%nat ++ replicate 4 1%nat) anuncio = Some (Some 1)) by (vm_compute; reflexivity).
  apply fmap_Some_1 in Hs as (cfg & Hp & Hj). symmetry in Hj. apply fmap_Some_1 in Hj as (j & Hj & Hn).
  exists cfg, j. split; [exact Hp|]. split; [exact Hj|]. split; [by symmetry|].
  exact (interleaving_ordered 4 8 1 _ cfg 7 j en_u32_4 en_u32_8 en_u32_1
    (alcanzable _ (Task 6 TASK_UDP_DISCOVERY) _ _ abierto_20 I Hp) Hj).
Defined.

Lemma data_races_witness :
  exists cfg (X Y : Set) (o : server_op nat X) (o' : server_op nat Y) c c' held held',
    play mezcla anuncio = Some cfg /\
    cf_threads cfg !! 0%nat = Some (Thread (Do o c) held) /\ cf_threads cfg !! 1%nat = Some (Thread (Do o' c') held') /\
    location_of o = Some Tokens /\ location_of o' = Some Tokens /\
    ((Tokens = Table /\ held = [Reading] /\ held' = [Reading]) \/
     (Tokens = Tokens /\ (held = [] /\ (held' = [] \/ held' = [Mutex Owned]) \/ held' = [] /\ held = [Mutex Owned])) \/
     (Tokens = Comp Owned /\ (reserves_first o held (nd_owned_jobs (sv_node (cf_server cfg))) \/
                              reserves_first o' held' (nd_owned_jobs (sv_node (cf_server cfg)))))).
Proof.
  assert (Hat : (fun cfg => (at_location 0 cfg, at_location 1 cfg)) <$> play mezcla anuncio = Some (Some Tokens, Some Tokens))
    by (vm_compute; reflexivity).
  apply fmap_Some_1 in Hat as (cfg & Hp & [= H0 H1]). symmetry in H0, H1.
  destruct (at_location_op _ _ _ H0) as (X & o & c & held & Hi & Ho).
  destruct (at_location_op _ _ _ H1) as (Y & o' & c' & held' & Hj & Ho').
  exists cfg, X, Y, o, o', c, c', held, held'.
  split; [exact Hp|]. split; [exact Hi|]. split; [exact Hj|]. split; [exact Ho|]. split; [exact Ho'|].
  exact (data_races 4 8 1 _ cfg 0 1 X Y o o' c c' held held' Tokens en_u32_4 en_u32_8 en_u32_1
    (alcanzable _ (Task 6 TASK_UDP_DISCOVERY) _ _ abierto_20 I Hp) (O_S 0) Hi Hj Ho Ho').
Defined.

Lemma no_deadlock_witness :
  exists cfg, play espera clientes = Some cfg /\ turn 1 cfg = Waiting Owned /\
    exists j th l' n cfg' th', j ≠ 1%nat /\ cf_threads cfg !! j = Some th /\ l' ∈ th_held th /\ conflicts Owned l' = true /\
    (forall l2, turn j cfg ≠ Waiting l2) /\
    play (replicate n j) cfg = Some cfg' /\ cf_threads cfg' !! j = Some th' /\
    (th_held th' = [] \/ turn j cfg' = Spinning \/ races j cfg' = true).
Proof.
  assert (Hw : (fun cfg => match turn 1 cfg with Waiting l => Some l | _ => None end) <$> play espera clientes
    = Some (Some (Mutex Owned))) by (vm_compute; reflexivity).
  apply fmap_Some_1 in Hw as (cfg & Hp & Hw).
  assert (Hwait : turn 1 cfg = Waiting Owned) by (clear Hp; destruct (turn 1 cfg); congruence).
  exists cfg. split; [exact Hp|]. split; [exact Hwait|].   exact (no_deadlock 4 8 1 _ cfg 1 Owned en_u32_4 en_u32_8 en_u32_1 (alcanzable _ _ _ _ abierto_20 abierto_21 Hp) Hwait).
Defined.

Definition peticion : occurrence := Taken (Task 20 TASK_TCP_CLIENT_MSG).
Definition una : config nat := begin 0 peticion 100 inicio.

Lemma una_reach : conc_reach 4 8 1 (NODE_ROOM - EVENT_COST) una.
Proof. apply conc_begin; [apply conc_init|by eexists|done|exact abierto_20]. Qed.
Lemma una_libre : others_free 0 una.
Proof. intros [|[|j]] th Hne Hj; [done|by injection Hj as <-|done]. Qed.

Lemma uninterrupted_witness :
  exists sv, serve (happen peticion 100%nat) (cf_server una) = Some ((), sv) /\
    exists cfg', alone 0 una cfg' /\ turn 0 cfg' = Finished /\ cf_server cfg' = sv.
Proof.
  assert (Hs : (fun _ => ()) <$> serve (happen peticion 100%nat) (cf_server una) = Some ()) by (vm_compute; reflexivity).
  apply fmap_Some_1 in Hs as ([[] sv] & E & _). exists sv. split; [exact E|].
  exact (proj1 (uninterrupted 4 8 1 _ una 0 (happen peticion 100%nat) [] sv en_u32_4 en_u32_8 en_u32_1 una_reach eq_refl
    una_libre) E).
Defined.

(** *** What the races do *)

(** The turns of a schedule, whatever the races. *)
Definition force (schedule : list nat) (cfg : config nat) : option (config nat) :=
  foldr (fun i r cfg => match turn i cfg with Next cfg' => r cfg' | _ => None end) Some schedule cfg.

(** The petition and the announcement are reachable together; if the announcement
    starts its traversal between two tokens of the petition, the job is left without
    petitions. *)
Lemma strtok_race :
  (fun cfg => (races 0 cfg, races 1 cfg)) <$> play mezcla anuncio = Some (true, true) /\
  (fun cfg => oj_petitions <$> jobs_in (sv_node (cf_server cfg)) !! 7) <$>
    force (replicate 9 0%nat ++ replicate 6 1%nat ++ replicate 7 0%nat) anuncio = Some (Some []).
Proof. split; vm_compute; reflexivity. Qed.

(** Both petitions call [get_next_reserve] without the mutex: two RESERVEs of the job
    are in flight and none of its petitions is granted. *)
Lemma next_reserve_race :
  (fun cfg => (races 0 cfg, races 1 cfg)) <$> play repetido clientes = Some (true, true) /\
  (fun cfg => ((fun j => (oj_next_reserve_idx j, jp_is_granted <$> oj_petitions j)) <$> jobs_in (sv_node (cf_server cfg)) !! 7,
               cn_pending_message <$> sv_conns (cf_server cfg) !! 23%nat,
               cn_pending_message <$> sv_conns (cf_server cfg) !! 24%nat)) <$>
    force (replicate 16 0%nat ++ replicate 28 1%nat ++ replicate 12 0%nat) clientes
  = Some (Some (2, [0; 0]), Some ("RESERVE 7 cpu 1" +:+ str_nl), Some ("RESERVE 7 cpu 1" +:+ str_nl)).
Proof. split; vm_compute; reflexivity. Qed.

End HilosEjemplo.
