(* ===== verification/Atomicity.v ===== *)
(** * Atomicity: the critical sections happen one at a time

    The theorems about the handlers of [src/c_agent/src/comms/resource_adapter.c] are
    about what they do alone.  Here it is shown that the mutexes make this enough for
    what happens between a lock and its unlock: every execution of the threads in
    which nobody calls [strtok] in the middle of somebody else's JOB_REQUEST ends as
    an execution does in which no thread takes a turn while another one holds a mutex.

    The proof follows the executions with one in which a thread that has a mutex is
    still before its lock, and does all of its section when it unlocks. *)

From stdpp Require Import relations.
From S2P Require Import Prelude CString TablaHash CommonTypes LocalResource OwnedJobs KnownNodes NodeStructures Connections Program Adapter ResourceAdapter AdapterSafety Protocol Recovery ThreadPool Outbox Server EventHandler EventSafety Threads ThreadLogic ThreadHandlers ThreadSafety Interleaving.
Local Open Scope Z_scope.

(** ** What a mutex protects *)

(** What the threads share: with the thread [strtok] works for. *)
Definition memory : Type := shared * option nat.

(** [lock_owned] is also held around the traversal of [strtok] in
    [handle_job_request]. *)
Definition part (c : component) : Type :=
  match c with
  | Local => local_resources_t * active_jobs_t
  | Known => known_nodes_t
  | Owned => owned_jobs_t * list string * option nat
  end.

Definition get (c : component) (m : memory) : part c :=
  match c with
  | Local => (nd_resources (sh_node m.1), nd_active_jobs (sh_node m.1))
  | Known => nd_known_nodes (sh_node m.1)
  | Owned => (nd_owned_jobs (sh_node m.1), sh_tokens m.1, m.2)
  end.

Lemma memory_ext (m m' : memory) :
  sh_conns m.1 = sh_conns m'.1 -> (forall c, get c m = get c m') -> m = m'.
Proof.
  destruct m as [[[] ? ?] ?], m' as [[[] ? ?] ?]. simpl. intros -> Hg.
  pose proof (Hg Local) as Hl. pose proof (Hg Known) as Hk. pose proof (Hg Owned) as Ho. simpl in *. by simplify_eq.
Qed.

(** The operations between the lock and the unlock of the component; [close] is
    called with [lock_local]. *)
Definition touches (c : component) {X : Set} (o : op X) : bool :=
  match c, o with
  | Local, OnLocal _ | Local, Close _ | Known, OnKnown _ | Owned, OnOwned _ | Owned, Strtok _ => true
  | _, _ => false
  end.

Section atomicity.
Context {K : Type} `{Kernel K}.
Implicit Types (cfg a : config K) (th ta : thread K) (sv : server K).

Definition memory_of cfg : memory := (sv_shared (cf_server cfg), cf_strtok cfg).

Definition mem_step (i : nat) {X : Set} (o : op X) (m : memory) : option (X * memory) :=
  '(x, s) ← op_step o m.1; Some (x, (s, strtok_after i (Agent (K := K) o) m.2)).

(** Such an operation is about the component only. *)
Lemma mem_step_local c i (X : Set) (o : op X) m x m' :
  touches c o = true -> mem_step i o m = Some (x, m') ->
  sh_conns m'.1 = sh_conns m.1 /\ (forall c', c' ≠ c -> get c' m' = get c' m) /\
  forall m2, get c m2 = get c m -> exists m2', mem_step i o m2 = Some (x, m2') /\ get c m2' = get c m'.
Proof.
  intros Ht. destruct m as [s ow]. unfold mem_step. cbn [fst snd].
  destruct c, o; try done; simpl; intros E.
  - destruct (f _ _) as [[[a r] jobs]|] eqn:Hf; [|done]. injection E as <- <-. split_and!; [done|by intros []|].
    intros [s2 ow2] Hg. injection Hg as Hr Ha. simpl. rewrite Hr, Ha, Hf. by eexists.
  - injection E as <- <-. split_and!; [done|done|]. intros [s2 ow2] Hg. by eexists.
  - destruct (f _) as [[a nodes]|] eqn:Hf; [|done]. injection E as <- <-. split_and!; [done|by intros []|].
    intros [s2 ow2] Hg. simpl in Hg |- *. rewrite Hg, Hf. by eexists.
  - destruct (f _) as [[a jobs]|] eqn:Hf; [|done]. injection E as <- <-. split_and!; [done|by intros []|].
    intros [s2 ow2] Hg. injection Hg as Ho Htk How. simpl. rewrite Ho, Hf. eexists. split; [done|]. simpl. by rewrite Htk, How.
  - unfold strtok in *. injection E as <- <-. split_and!; [done|by intros []|].
    intros [s2 ow2] Hg. injection Hg as Ho Htk How. simpl. rewrite Htk, How. eexists. split; [done|]. simpl. by rewrite Ho.
Qed.

(** ** A critical section in the middle

    The section of thread [i] on the component [c], from the program [m0] it locked
    the mutex to run and the part [v0] it found, up to now; and the descriptors it has
    closed. *)
Inductive inside (i : nat) (c : component) (m0 : prog (server_op K) ()) (v0 : part c) :
    list sys_event -> prog (server_op K) () -> part c -> Prop :=
  | inside_start : inside i c m0 v0 [] m0 v0
  | inside_op l (X : Set) (o : op X) k m x m' :
      inside i c m0 v0 l (Do (Agent o) k) (get c m) -> touches c o = true -> mem_step i o m = Some (x, m') ->
      inside i c m0 v0 (l ++ closes (op_events o)) (k x) (get c m').

(** A thread of the execution, and the same thread where it is in the one that does
    the sections at once. *)
Definition thread_rel (i : nat) (ma m : memory) th ta (l : list sys_event) : Prop :=
  (forall c, Mutex c ∉ th_held th) /\ ta = th /\ l = [] \/
  exists c k, th_held th = [Mutex c] /\ ta = Thread (Do (Agent (Lock c)) k) [] /\
    inside i c (k ()) (get c ma) l (th_prog th) (get c m).

Definition nobody_holds (c : component) cfg : Prop :=
  forall i th, cf_threads cfg !! i = Some th -> Mutex c ∉ th_held th.

Record atomic_rel cfg a (pend : list (list sys_event)) : Prop := {
  ar_length : length (cf_threads a) = length (cf_threads cfg);
  ar_pend : length pend = length (cf_threads cfg);
  ar_thread i th : cf_threads cfg !! i = Some th -> exists ta l,
    cf_threads a !! i = Some ta /\ pend !! i = Some l /\ thread_rel i (memory_of a) (memory_of cfg) th ta l;
  ar_rest c : nobody_holds c cfg -> get c (memory_of a) = get c (memory_of cfg);
  ar_conns : sh_conns (memory_of a).1 = sh_conns (memory_of cfg).1;
  ar_ctx : sv_ctx (cf_server a) = sv_ctx (cf_server cfg);
  ar_kernel : sv_kernel (cf_server a) = sv_kernel (cf_server cfg);
  ar_log : sv_log (cf_server cfg) ≡ₚ sv_log (cf_server a) ++ concat pend
}.

Definition mutex_free cfg : Prop := forall c, nobody_holds c cfg.

Lemma concat_insert {X} (ls : list (list X)) i l :
  ls !! i = Some l -> exists rest, concat ls ≡ₚ l ++ rest /\ forall l', concat (<[i := l']> ls) ≡ₚ l' ++ rest.
Proof.
  revert i. induction ls as [|l0 ls IH]; intros [|i] Hi; simpl in *; [done..| |].
  - injection Hi as ->. by exists (concat ls).
  - destruct (IH i Hi) as (rest & Hr & Hi'). exists (l0 ++ rest). split; [rewrite Hr|intros l'; rewrite (Hi' l')];
      apply Permutation_app_swap_app.
Qed.

Lemma atomic_rel_free cfg a pend : atomic_rel cfg a pend -> mutex_free a.
Proof.
  intros [Hlen _ Hth _ _ _ _ _] c i ta Hi. destruct (lookup_lt_is_Some_2 (cf_threads cfg) i) as [th Hi'].
  { rewrite <- Hlen. by eapply lookup_lt_Some. }
  destruct (Hth i th Hi') as (ta' & l & Hta & _ & Hrel). simplify_eq.
  destruct Hrel as [(Hm & -> & _)|(c' & k & _ & -> & _)]; [done|]. apply not_elem_of_nil.
Qed.

(** *** Turns of a section *)

Lemma turn_touches i c (X : Set) (o : op X) k held cfg :
  cf_threads cfg !! i = Some (Thread (Do (Agent o) k) held) -> touches c o = true ->
  turn i cfg = match mem_step i o (memory_of cfg) with
    | Some (x, m) => Next (Config (Server m.1 (sv_ctx (cf_server cfg)) (sv_kernel (cf_server cfg))
        (sv_log (cf_server cfg) ++ closes (op_events o))) (<[i := Thread (k x) held]> (cf_threads cfg)) m.2)
    | None => Fault
    end.
Proof.
  intros Hth Ht. unfold turn. rewrite Hth. cbn [th_prog th_held].
  assert (Hh : held_after (Agent (K := K) o) held = Some held) by (by destruct c, o).
  assert (Hw : waits_for (Agent (K := K) o) (cf_threads cfg) = None) by (by destruct c, o).
  rewrite Hh, Hw. unfold mem_step, memory_of. cbn [fst snd server_step].
  destruct (op_step o (sv_shared (cf_server cfg))) as [[x s]|]; [|done]. done.
Qed.

(** [a'] is [a] after the thread [i] has worked on the component [c]. *)
Record worked (i : nat) (c : component) (l : list sys_event) (v : part c) th a a' : Prop := {
  wk_threads : cf_threads a' = <[i := th]> (cf_threads a);
  wk_part : get c (memory_of a') = v;
  wk_others c' : c' ≠ c -> get c' (memory_of a') = get c' (memory_of a);
  wk_conns : sh_conns (memory_of a').1 = sh_conns (memory_of a).1;
  wk_ctx : sv_ctx (cf_server a') = sv_ctx (cf_server a);
  wk_kernel : sv_kernel (cf_server a') = sv_kernel (cf_server a);
  wk_log : sv_log (cf_server a') = sv_log (cf_server a) ++ l
}.

Lemma worked_trans i c l l' v v' th th' a a1 a2 :
  worked i c l v th a a1 -> worked i c l' v' th' a1 a2 -> worked i c (l ++ l') v' th' a a2.
Proof.
  intros [Ht1 _ Ho1 Hc1 Hx1 Hk1 Hl1] [Ht2 Hp2 Ho2 Hc2 Hx2 Hk2 Hl2]. split; [|done|..]; try congruence.
  - by rewrite Ht2, Ht1, list_insert_insert_eq.
  - intros c' Hne. by rewrite Ho2, Ho1.
  - by rewrite Hl2, Hl1, app_assoc.
Qed.

Lemma worked_turn i c (X : Set) (o : op X) k held a x m :
  cf_threads a !! i = Some (Thread (Do (Agent o) k) held) -> touches c o = true ->
  mem_step i o (memory_of a) = Some (x, m) ->
  exists a', turn i a = Next a' /\ worked i c (closes (op_events o)) (get c m) (Thread (k x) held) a a'.
Proof.
  intros Hth Ht Hm. destruct (mem_step_local _ _ _ _ _ _ _ Ht Hm) as (Hc & Ho & _).
  eexists. split; [rewrite (turn_touches i c X o k held a Hth Ht), Hm; done|]. destruct m as [s ow]. by split.
Qed.

(** The section done again, from the start and without interruption. *)
Lemma replay i c m0 v0 l m v a :
  inside i c m0 v0 l m v -> cf_threads a !! i = Some (Thread m0 [Mutex c]) -> get c (memory_of a) = v0 ->
  exists a', alone i a a' /\ worked i c l v (Thread m [Mutex c]) a a'.
Proof.
  intros Hin Hth Hv. induction Hin as [|l X o k m x m' _ IH Ht Hm].
  - exists a. split; [apply rtc_refl|]. split; try done; [by rewrite list_insert_id|by rewrite app_nil_r].
  - destruct IH as (a1 & Hal & Hw). pose proof Hw as [Hths Hp _ _ _ _ _].
    destruct (mem_step_local _ _ _ _ _ _ _ Ht Hm) as (_ & _ & Hrun). destruct (Hrun (memory_of a1) Hp) as (m1 & Hm1 & Hg1).
    assert (Hth1 : cf_threads a1 !! i = Some (Thread (Do (Agent o) k) [Mutex c])).
    { rewrite Hths. apply list_lookup_insert_eq. by eapply lookup_lt_Some. }
    destruct (worked_turn i c X o k [Mutex c] a1 x m1 Hth1 Ht Hm1) as (a2 & Ht2 & Hw2). rewrite Hg1 in Hw2.
    exists a2. split; [by eapply rtc_r|by eapply worked_trans].
Qed.

(** Lock, section and unlock. *)
Lemma replay_section i (c : component) k l k' (v : part c) a :
  cf_threads a !! i = Some (Thread (Do (Agent (Lock c)) k) []) -> mutex_free a ->
  inside i c (k ()) (get c (memory_of a)) l (Do (Agent (Unlock c)) k') v ->
  exists a', alone i a a' /\ worked i c l v (Thread (k' ()) []) a a'.
Proof.
  intros Hth Hfree Hin.
  assert (Hav : available c (cf_threads a) = true).
  { apply not_false_is_true. intros (j & th & l' & Hj & Hl & Hc)%available_false.
    destruct l' as [c'| |]; try done. simpl in Hc. apply bool_decide_eq_true_1 in Hc as <-. by apply (Hfree c j th). }
  set (a1 := Config (Server (sv_shared (cf_server a)) (sv_ctx (cf_server a)) (sv_kernel (cf_server a))
    (sv_log (cf_server a) ++ [])) (<[i := Thread (k ()) [Mutex c]]> (cf_threads a)) (cf_strtok a)).
  assert (Ht1 : turn i a = Next a1) by (unfold turn; rewrite Hth; cbn; by rewrite Hav).
  destruct (replay i c (k ()) _ l _ v a1 Hin) as (a2 & Hal & Hw).
  { apply list_lookup_insert_eq. by eapply lookup_lt_Some. }
  { done. }
  pose proof Hw as [Hths Hp Ho Hc Hx Hk Hl].
  assert (Hth2 : cf_threads a2 !! i = Some (Thread (Do (Agent (Unlock c)) k') [Mutex c])).
  { rewrite Hths. apply list_lookup_insert_eq. simpl. rewrite length_insert. by eapply lookup_lt_Some. }
  assert (Hw1 : worked i c [] (get c (memory_of a)) (Thread (k ()) [Mutex c]) a a1) by (split; done || by simpl; rewrite ?app_nil_r).
  set (a3 := Config (Server (sv_shared (cf_server a2)) (sv_ctx (cf_server a2)) (sv_kernel (cf_server a2))
    (sv_log (cf_server a2) ++ [])) (<[i := Thread (k' ()) []]> (cf_threads a2)) (cf_strtok a2)).
  assert (Ht3 : turn i a2 = Next a3).
  { unfold turn. rewrite Hth2. cbn [th_prog th_held held_after]. rewrite bool_decide_eq_true_2 by (by left).
    cbn. by rewrite decide_False by (intros Hne; by apply Hne). }
  exists a3. split; [eapply rtc_l; [exact Ht1|]; by eapply rtc_r|].
  pose proof (worked_trans _ _ _ _ _ _ _ _ _ _ _ Hw1 Hw) as Hw2. rewrite <- (app_nil_r l).
  eapply (worked_trans i c ([] ++ l) []); [exact Hw2|]. split; try done.
Qed.

(** ** One turn of the execution

    A turn outside the sections is the same turn of the other execution; a lock and
    the operations of a section are none, and the unlock is the whole section. *)

Lemma thread_rel_frame i ma m ma' m' th ta l :
  thread_rel i ma m th ta l ->
  (forall c, Mutex c ∈ th_held th -> get c ma' = get c ma /\ get c m' = get c m) -> thread_rel i ma' m' th ta l.
Proof.
  intros [Hrest|(c & k & Hh & Hta & Hin)] Hf; [by left|]. destruct (Hf c) as [Hma Hm]; [rewrite Hh; by left|].
  right. exists c, k. by rewrite Hma, Hm.
Qed.

(** The part a section is about changes in [a] as the section says; or the thread is
    at rest after its turn. *)
Lemma rel_after cfg a pend cfg' a' i th th' ta' l l' :
  atomic_rel cfg a pend -> cf_threads cfg !! i = Some th -> pend !! i = Some l ->
  cf_threads cfg' = <[i := th']> (cf_threads cfg) -> cf_threads a' = <[i := ta']> (cf_threads a) ->
  thread_rel i (memory_of a') (memory_of cfg') th' ta' l' ->
  (forall c, nobody_holds c cfg' -> get c (memory_of a') = get c (memory_of cfg')) ->
  (forall j thj c, j ≠ i -> cf_threads cfg !! j = Some thj -> Mutex c ∈ th_held thj ->
     get c (memory_of a') = get c (memory_of a) /\ get c (memory_of cfg') = get c (memory_of cfg)) ->
  sh_conns (memory_of a').1 = sh_conns (memory_of cfg').1 -> sv_ctx (cf_server a') = sv_ctx (cf_server cfg') ->
  sv_kernel (cf_server a') = sv_kernel (cf_server cfg') ->
  (forall rest, sv_log (cf_server cfg) ≡ₚ sv_log (cf_server a) ++ l ++ rest ->
     sv_log (cf_server cfg') ≡ₚ sv_log (cf_server a') ++ l' ++ rest) ->
  atomic_rel cfg' a' (<[i := l']> pend).
Proof.
  intros [Hlen Hpl Hth Hrest Hc Hx Hk Hlog] Hi Hl Hths Htas Hrel Hrest' Hothers Hc' Hx' Hk' Hlog'.
  pose proof (lookup_lt_Some _ _ _ Hi) as Hlt. split; try done.
  - by rewrite Hths, Htas, !length_insert.
  - by rewrite Hths, !length_insert.
  - intros j thj Hj. rewrite Hths in Hj. rewrite Htas. apply list_lookup_insert_Some in Hj as [(<- & <- & _)|[Hne Hj]].
    + exists ta', l'. rewrite !list_lookup_insert_eq by lia. done.
    + destruct (Hth j thj Hj) as (taj & lj & Htaj & Hlj & Hrj). exists taj, lj. rewrite !list_lookup_insert_ne by done.
      split_and!; [done..|]. eapply thread_rel_frame; [exact Hrj|]. intros c. by apply (Hothers j).
  - destruct (concat_insert pend i l Hl) as (rest & Hr & Hr'). rewrite Hr'. apply Hlog'. by rewrite Hlog, Hr.
Qed.

Definition uses (c : component) {X : Set} (o : server_op K X) : bool :=
  match o with Agent o => touches c o | _ => false end.

(** An operation does the same where what it is about is the same. *)
Lemma step_elsewhere (X : Set) (o : server_op K X) i sv sa ow oa x sv' :
  sh_conns (sv_shared sa) = sh_conns (sv_shared sv) -> sv_ctx sa = sv_ctx sv -> sv_kernel sa = sv_kernel sv ->
  (forall c, uses c o = true -> get c (sv_shared sa, oa) = get c (sv_shared sv, ow)) ->
  server_step X o sv = Some (x, sv') ->
  exists sa' l, server_step X o sa = Some (x, sa') /\ sv_log sv' = sv_log sv ++ l /\ sv_log sa' = sv_log sa ++ l /\
    sh_conns (sv_shared sa') = sh_conns (sv_shared sv') /\ sv_ctx sa' = sv_ctx sv' /\ sv_kernel sa' = sv_kernel sv' /\
    forall c, let m := (sv_shared sv, ow) in let m' := (sv_shared sv', strtok_after i o ow) in
      let ma := (sv_shared sa, oa) in let ma' := (sv_shared sa', strtok_after i o oa) in
      if uses c o then get c ma' = get c m' else get c m' = get c m /\ get c ma' = get c ma.
Proof.
  intros Hc Hx Hk Hu. destruct sv as [s ctx kn lg], sa as [s2 ctx2 kn2 lg2]. simpl in Hc, Hx, Hk. subst ctx2 kn2.
  destruct o as [X o|X call|e| |]; simpl.
  - destruct (op_step o s) as [[y s']|] eqn:E; [|done]. intros [= <- <-]. simpl.
    assert (Hcase : (exists c, touches c o = true) \/ (forall c, touches c o = false) /\ strtok_after i (Agent (K := K) o) ow = ow /\
      strtok_after i (Agent (K := K) o) oa = oa).
    { destruct o; first [left; exists Local; done|left; exists Known; done|left; exists Owned; done|right; by split_and!; [intros []| |]]. }
    destruct Hcase as [[c Ht]|(Hno & How & Hoa)].
    + assert (Hm : mem_step i o (s, ow) = Some (y, (s', strtok_after i (Agent (K := K) o) ow))) by (unfold mem_step; simpl; by rewrite E).
      destruct (mem_step_local c i _ o _ _ _ Ht Hm) as (Hc1 & Ho1 & Hrun).
      destruct (Hrun (s2, oa) (Hu c Ht)) as ([s2' oa'] & Hm2 & Hg). destruct (mem_step_local c i _ o _ _ _ Ht Hm2) as (Hc2 & Ho2 & _).
      unfold mem_step in Hm2. simpl in Hm2. destruct (op_step o s2) as [[y2 s3]|]; [|done]. injection Hm2 as -> -> <-.
      eexists _, _. split; [done|]. simpl in Hc1, Hc2 |- *. split_and!; [done|done|congruence|done|done|].
      intros c'. destruct (decide (c' = c)) as [->|Hne]; [by rewrite Ht|].
      assert (Hf : touches c' o = false) by (by destruct c, c', o).
      rewrite Hf. split; [by apply Ho1|by apply Ho2].
    + clear How Hoa. destruct o; simpl in E;
        try (specialize (Hno Local); done); try (specialize (Hno Known); done); try (specialize (Hno Owned); done).
      * injection E as <- <-. eexists _, _. split; [done|]. split_and!; try done. intros c. by destruct c.
      * injection E as <- <-. eexists _, _. split; [done|]. split_and!; try done. intros c. by destruct c.
      * destruct (f (sh_conns s)) as [y'|] eqn:Hf; [|done]. injection E as -> <-. simpl. rewrite Hc, Hf.
        eexists _, _. split; [done|]. split_and!; try done. intros c. by destruct c.
      * destruct (f (sh_conns s)) as [conns|] eqn:Hf; [|done]. injection E as <- <-. simpl. rewrite Hc, Hf.
        eexists _, _. split; [done|]. split_and!; try done. intros c. by destruct c.
  - destruct (call kn) as [y kn']. intros [= <- <-]. eexists _, []. split; [done|]. simpl. rewrite !app_nil_r. by split_and!.
  - intros [= <- <-]. eexists _, [e]. split; [done|]. by split_and!.
  - intros [= <- <-]. eexists _, []. split; [done|]. simpl. rewrite !app_nil_r. by split_and!.
  - intros [= <- <-]. eexists _, []. split; [done|]. simpl. rewrite !app_nil_r. by split_and!.
Qed.

(** The thread is about to call [strtok] while another one is in a JOB_REQUEST, or
    has [lock_owned] for something else. *)
Definition intrudes (i : nat) cfg : bool :=
  match cf_threads cfg !! i with
  | Some (Thread (Do o _) _) => bool_decide (location_of o = Some Tokens) &&
      existsb (fun th => bool_decide (Mutex Owned ∈ th_held th)) (delete i (cf_threads cfg))
  | _ => false
  end.

Lemma not_intruding i cfg (X : Set) (o : server_op K X) m :
  cf_threads cfg !! i = Some (Thread (Do o m) []) -> location_of o = Some Tokens -> intrudes i cfg = false ->
  nobody_holds Owned cfg.
Proof.
  unfold intrudes. intros Hi Ho. rewrite Hi, Ho. cbn [andb]. rewrite bool_decide_true by done. intros Hex j th Hj Hin.
  destruct (decide (i = j)) as [<-|Hne]; [simplify_eq; by apply not_elem_of_nil in Hin|].
  apply not_true_iff_false in Hex. apply Hex, existsb_exists. exists th.
  split; [by apply list_elem_of_In, (elem_of_delete _ i j)|by apply bool_decide_eq_true_2].
Qed.

Definition outside (h : stage) : Prop := match h with Holds (Mutex _) => False | _ => True end.

Lemma outside_held h c : outside h -> Mutex c ∉ held_at h.
Proof.
  destruct h as [|[| |]|]; simpl; try done; intros _; [apply not_elem_of_nil|..|apply not_elem_of_nil]; by intros [=]%list_elem_of_singleton.
Qed.
Lemma calls_outside h : calls h -> outside h.
Proof. by destruct h as [|[| |]|]. Qed.

Section turn.
Context (totals : list Z) (k : Z) (gs : list known_of) (cfg a : config K) (pend : list (list sys_event)).
Context (Hinv : threads_inv totals k cfg gs) (Hrel : atomic_rel cfg a pend).

(** A mutex has one holder. *)
Lemma held_once i j th th' (c : component) :
  cf_threads cfg !! i = Some th -> cf_threads cfg !! j = Some th' -> Mutex c ∈ th_held th -> Mutex c ∈ th_held th' -> i = j.
Proof.
  intros Hi Hj Hc Hc'. destruct (decide (i = j)) as [|Hne]; [done|].
  destruct (thread_of _ _ _ _ _ _ Hinv Hi) as (g & Hg & [Hh _ _ _]). destruct (thread_of _ _ _ _ _ _ Hinv Hj) as (g' & Hg' & [Hh' _ _ _]).
  rewrite Hh in Hc. rewrite Hh' in Hc'.
  destruct (kn_stage g) as [|l|] eqn:E; simpl in Hc; try by apply not_elem_of_nil in Hc.
  destruct (kn_stage g') as [|l'|] eqn:E'; simpl in Hc'; try by apply not_elem_of_nil in Hc'.
  apply list_elem_of_singleton in Hc as <-, Hc' as <-.
  pose proof (ti_exclusive _ _ _ _ Hinv i j g g' c c Hne Hg Hg' E E') as Hf. simpl in Hf. by rewrite bool_decide_true in Hf.
Qed.

Lemma rel_section_op i (c : component) (X : Set) (o : op X) m cfg' :
  cf_threads cfg !! i = Some (Thread (Do (Agent o) m) [Mutex c]) -> touches c o = true -> turn i cfg = Next cfg' ->
  exists pend', atomic_rel cfg' a pend'.
Proof.
  intros Hi Ht Hturn. destruct (ar_thread _ _ _ Hrel i _ Hi) as (ta & l & Hta & Hl & Hri).
  destruct Hri as [(Hno & _)|(c' & k' & [= <-] & -> & Hin)]; [by destruct (Hno c); left|]. simpl in Hin.
  rewrite (turn_touches i c X o m _ cfg Hi Ht) in Hturn.
  destruct (mem_step i o (memory_of cfg)) as [[x m']|] eqn:Hm; [|done].
  destruct (worked_turn i c X o m _ cfg x m' Hi Ht Hm) as (cfg2 & Hturn2 & [Hths Hp Ho Hc Hx Hk Hlog]).
  rewrite (turn_touches i c X o m _ cfg Hi Ht), Hm, Hturn in Hturn2. injection Hturn2 as <-.
  exists (<[i := l ++ closes (op_events o)]> pend).
  eapply (rel_after cfg a pend cfg' a i); [exact Hrel|exact Hi|exact Hl|exact Hths| | | | | | | |].
  - symmetry. by apply list_insert_id.
  - right. exists c, k'. split; [done|]. split; [done|]. rewrite Hp. by eapply inside_op.
  - intros c' Hc'. assert (Hne : c' ≠ c).
    { intros ->. eapply (Hc' i); [rewrite Hths; apply list_lookup_insert_eq; by eapply lookup_lt_Some|]. by left. }
    rewrite (Ho c' Hne). apply (ar_rest _ _ _ Hrel). intros j th Hj. destruct (decide (j = i)) as [->|Hji].
    + simplify_eq. simpl. intros [=]%list_elem_of_singleton. done.
    + apply (Hc' j). by rewrite Hths, list_lookup_insert_ne.
  - intros j thj c' Hji Hj Hin'. split; [done|]. apply Ho. intros ->. apply Hji.
    eapply (held_once j i); [exact Hj|exact Hi|exact Hin'|by left].
  - rewrite Hc. apply Hrel.
  - rewrite Hx. apply Hrel.
  - rewrite Hk. apply Hrel.
  - intros rest Hr. rewrite Hlog, Hr, <- !app_assoc. do 2 apply Permutation_app_head. apply Permutation_app_comm.
Qed.

Lemma rel_lock i (c : component) m held cfg' :
  cf_threads cfg !! i = Some (Thread (Do (Agent (Lock c)) m) held) -> held = [] -> turn i cfg = Next cfg' ->
  exists pend', atomic_rel cfg' a pend'.
Proof.
  intros Hi -> Hturn. destruct (ar_thread _ _ _ Hrel i _ Hi) as (ta & l & Hta & Hl & Hri).
  destruct Hri as [(_ & -> & ->)|(c' & k' & [=] & _)]. unfold turn in Hturn. rewrite Hi in Hturn. cbn in Hturn.
  destruct (available c (cf_threads cfg)) eqn:Hav; [|done]. injection Hturn as <-. rewrite app_nil_r.
  assert (Hnobody : nobody_holds c cfg).
  { intros j th Hj Hin. unfold available in Hav. rewrite forallb_forall in Hav.
    specialize (Hav th (proj1 (list_elem_of_In _ _) (list_elem_of_lookup_2 _ _ _ Hj))). rewrite forallb_forall in Hav.
    specialize (Hav (Mutex c) (proj1 (list_elem_of_In _ _) Hin)). simpl in Hav. by rewrite bool_decide_true in Hav. }
  exists (<[i := []]> pend).
  eapply (rel_after cfg a pend _ a i); [exact Hrel|exact Hi|exact Hl|done| | | |done|apply Hrel..|done].
  - symmetry. by apply list_insert_id.
  - right. exists c, m. split; [done|]. split; [done|]. simpl.
    change (get c (memory_of (Config _ _ _))) with (get c (memory_of cfg)). rewrite (ar_rest _ _ _ Hrel c Hnobody). apply inside_start.
  - intros c' Hc'. apply (ar_rest _ _ _ Hrel). intros j th Hj. destruct (decide (j = i)) as [->|Hji].
    + simplify_eq. apply not_elem_of_nil.
    + apply (Hc' j). simpl. by rewrite list_lookup_insert_ne.
Qed.

Lemma rel_unlock i (c : component) m cfg' :
  cf_threads cfg !! i = Some (Thread (Do (Agent (Unlock c)) m) [Mutex c]) -> turn i cfg = Next cfg' ->
  exists a' pend', alone i a a' /\ atomic_rel cfg' a' pend'.
Proof.
  intros Hi Hturn. destruct (ar_thread _ _ _ Hrel i _ Hi) as (ta & l & Hta & Hl & Hri).
  destruct Hri as [(Hno & _)|(c' & k' & [= <-] & -> & Hin)]; [by destruct (Hno c); left|]. simpl in Hin.
  unfold turn in Hturn. rewrite Hi in Hturn. cbn [th_prog th_held held_after] in Hturn.
  rewrite bool_decide_eq_true_2 in Hturn by (by left). cbn in Hturn.
  rewrite decide_False in Hturn by (intros Hne; by apply Hne). injection Hturn as <-. rewrite app_nil_r.
  destruct (replay_section i c k' l m _ a Hta (atomic_rel_free _ _ _ Hrel) Hin) as (a' & Hal & [Hths Hp Ho Hc Hx Hk Hlog]).
  exists a', (<[i := []]> pend). split; [done|].
  eapply (rel_after cfg a pend _ a' i); [exact Hrel|exact Hi|exact Hl|done|exact Hths| | | | | | |].
  - left. split; [intros c'; apply not_elem_of_nil|done].
  - intros c' Hc'. change (get c' (memory_of (Config _ _ _))) with (get c' (memory_of cfg)).
    destruct (decide (c' = c)) as [->|Hne]; [exact Hp|]. rewrite (Ho c' Hne). apply (ar_rest _ _ _ Hrel).
    intros j th Hj. destruct (decide (j = i)) as [->|Hji].
    + simplify_eq. simpl. intros [=]%list_elem_of_singleton. done.
    + apply (Hc' j). simpl. by rewrite list_lookup_insert_ne.
  - intros j thj c' Hji Hj Hin'. split; [|done]. apply Ho. intros ->. apply Hji.
    eapply (held_once j i); [exact Hj|exact Hi|exact Hin'|by left].
  - rewrite Hc. apply Hrel.
  - rewrite Hx. apply Hrel.
  - rewrite Hk. apply Hrel.
  - intros rest Hr. by rewrite Hlog, <- app_assoc.
Qed.

Lemma available_rel l : available l (cf_threads cfg) = true -> available l (cf_threads a) = true.
Proof.
  intros Hav. apply not_false_is_true. intros (j & ta & l' & Hj & Hl & Hc)%available_false.
  destruct (lookup_lt_is_Some_2 (cf_threads cfg) j) as [th Hj']; [rewrite <- (ar_length _ _ _ Hrel); by eapply lookup_lt_Some|].
  destruct (ar_thread _ _ _ Hrel j th Hj') as (ta' & lj & Hta & _ & Hrj). simplify_eq.
  destruct Hrj as [(_ & -> & _)|(c & m & _ & -> & _)]; [|by apply not_elem_of_nil in Hl].
  unfold available in Hav. rewrite forallb_forall in Hav.
  specialize (Hav th (proj1 (list_elem_of_In _ _) (list_elem_of_lookup_2 _ _ _ Hj'))). rewrite forallb_forall in Hav.
  specialize (Hav l' (proj1 (list_elem_of_In _ _) Hl)). by rewrite Hc in Hav.
Qed.

(** An operation outside the sections, about nothing a section is about. *)
Lemma rel_elsewhere i (X : Set) (o : server_op K X) m held held' cfg' :
  cf_threads cfg !! i = Some (Thread (Do o m) held) -> (forall c, Mutex c ∉ held) ->
  held_after o held = Some held' -> (forall c, Mutex c ∉ held') ->
  (forall c, uses c o = true -> nobody_holds c cfg) -> turn i cfg = Next cfg' ->
  exists a' pend', alone i a a' /\ atomic_rel cfg' a' pend'.
Proof.
  intros Hi Hh Hafter Hh' Huse Hturn. destruct (ar_thread _ _ _ Hrel i _ Hi) as (ta & l & Hta & Hl & Hri).
  destruct Hri as [(_ & -> & ->)|(c' & k' & Heq & _)]; [|simpl in Heq; subst held; destruct (Hh c'); by left].
  unfold turn in Hturn. rewrite Hi in Hturn. cbn [th_prog th_held] in Hturn. rewrite Hafter in Hturn.
  destruct (waits_for o (cf_threads cfg)) eqn:Hw; [done|].
  destruct (server_step X o (cf_server cfg)) as [[x sv']|] eqn:E; [|done]. injection Hturn as <-.
  destruct (step_elsewhere X o i (cf_server cfg) (cf_server a) (cf_strtok cfg) (cf_strtok a) x sv'
    (ar_conns _ _ _ Hrel) (ar_ctx _ _ _ Hrel) (ar_kernel _ _ _ Hrel)) as (sa' & lg & Ea & Hlg & Hlga & Hc & Hx & Hk & Hparts).
  { intros c Hc. apply (ar_rest _ _ _ Hrel). by apply Huse. }
  { exact E. }
  assert (Hwa : waits_for o (cf_threads a) = None).
  { destruct o as [X o| | | |]; try done. destruct o; try done. simpl in Hw |- *.
    destruct (available l (cf_threads cfg)) eqn:Hav; [|done]. by rewrite (available_rel _ Hav). }
  set (a' := Config sa' (<[i := Thread (m x) held']> (cf_threads a)) (strtok_after i o (cf_strtok a))).
  assert (Hta' : turn i a = Next a').
  { unfold turn. rewrite Hta. cbn [th_prog th_held]. by rewrite Hafter, Hwa, Ea. }
  exists a', (<[i := []]> pend). split; [by apply rtc_once|].
  set (cfg' := Config _ _ _). assert (Hback : forall c, nobody_holds c cfg' -> nobody_holds c cfg).
  { intros c Hc' j th Hj. destruct (decide (j = i)) as [->|Hji]; [simplify_eq; apply Hh|].
    apply (Hc' j). simpl. by rewrite list_lookup_insert_ne. }
  eapply (rel_after cfg a pend cfg' a' i); [exact Hrel|exact Hi|exact Hl|done|done| | | |exact Hc|exact Hx|exact Hk|].
  - by left.
  - intros c Hc'. specialize (Hparts c). cbv zeta in Hparts. destruct (uses c o); [exact Hparts|].
    destruct Hparts as [H1 H2]. etrans; [exact H2|]. etrans; [|symmetry; exact H1]. apply (ar_rest _ _ _ Hrel). by apply Hback.
  - intros j thj c Hji Hj Hin. specialize (Hparts c). cbv zeta in Hparts. destruct (uses c o) eqn:Hu; [|by destruct Hparts].
    by destruct (Huse c Hu j thj Hj).
  - intros rest Hr. simpl in Hr |- *. rewrite Hlg, Hlga, Hr, <- !app_assoc. apply Permutation_app_head, Permutation_app_comm.
Qed.

Lemma rel_turn i cfg' :
  races i cfg = false -> intrudes i cfg = false -> turn i cfg = Next cfg' ->
  exists a' pend', alone i a a' /\ atomic_rel cfg' a' pend'.
Proof.
  intros Hrace Hint Hturn. pose proof Hturn as Ht. unfold turn in Ht.
  destruct (cf_threads cfg !! i) as [[m held]|] eqn:Hi; [|done]. destruct m as [?| | |X o m]; try done. clear Ht.
  destruct (next_ok _ _ _ _ _ _ _ _ _ Hinv Hi) as (g & h' & x & sv' & t' & Hg & -> & Hn & _).
  pose proof (held_after_next _ _ _ Hn) as Hafter.
  assert (Hstay : (exists pend', atomic_rel cfg' a pend') -> exists a' pend', alone i a a' /\ atomic_rel cfg' a' pend').
  { intros [pend' ?]. exists a, pend'. split; [apply rtc_refl|done]. }
  assert (Helse : outside (kn_stage g) -> outside h' -> (forall c, uses c o = true -> nobody_holds c cfg) ->
    exists a' pend', alone i a a' /\ atomic_rel cfg' a' pend').
  { intros Hh Hh' Hu. apply (rel_elsewhere i X o m (held_at (kn_stage g)) (held_at h')); try done; intros c; by apply outside_held. }
  assert (Hnone : (forall c, uses c o = false) -> forall c, uses c o = true -> nobody_holds c cfg) by (intros Hu c; by rewrite Hu).
  destruct o as [X o|X call|e| |]; [|destruct Hn as [Hc ->]; apply Helse; [by apply calls_outside..|by apply Hnone]..].
  destruct o; cbn [next_stage op_stage] in Hn.
  - destruct Hn as [Hh ->]. destruct l as [c| |].
    + apply Hstay. rewrite Hh in Hi. by eapply rel_lock.
    + rewrite Hh in Helse. apply Helse; [done|done|apply Hnone; by intros []].
    + rewrite Hh in Helse. apply Helse; [done|done|apply Hnone; by intros []].
  - destruct Hn as [Hh Hh']. rewrite Hh in Hi, Helse. destruct l as [c| |].
    + by eapply rel_unlock.
    + destruct Hh' as [->|(? & ? & ?)]; [|done]. apply Helse; [done|done|apply Hnone; by intros []].
    + destruct Hh' as [->|(? & ? & ?)]; [|done]. apply Helse; [done|done|apply Hnone; by intros []].
  - destruct Hn as [Hh _]. rewrite Hh in Hi. apply Hstay. by eapply (rel_section_op i Local).
  - destruct Hn as [Hh _]. rewrite Hh in Hi. apply Hstay. by eapply (rel_section_op i Known).
  - destruct Hn as [[Hh _]|[(id & Hh & _) ->]]; [rewrite Hh in Hi; apply Hstay; by eapply (rel_section_op i Owned)|].
    apply Helse; [by rewrite Hh|done|]. intros [] Hu; try done. intros j th Hj.
    destruct (decide (i = j)) as [<-|Hne]; [simplify_eq; simpl; rewrite Hh; apply not_elem_of_nil|].
    destruct (thread_of _ _ _ _ _ _ Hinv Hj) as (gj & Hgj & [Hheld _ _ _]). rewrite Hheld.
    destruct (no_race_due _ _ _ _ _ _ _ (ti_threads _ _ _ _ Hinv) Hi Hg Hrace Hh j gj Hne Hgj) as [Hnh _].
    destruct (kn_stage gj); simpl; try apply not_elem_of_nil. intros <-%list_elem_of_singleton. done.
  - destruct Hn as [Hh ->]. apply Helse; [by destruct Hh as [-> | ->]..|apply Hnone; by intros []].
  - destruct Hn as [Hh ->]. apply Helse; [by rewrite Hh..|apply Hnone; by intros []].
  - destruct Hn as [Hh ->]. destruct (kn_stage g) as [|[[]| |]|] eqn:E; try done; [|apply Hstay; by eapply (rel_section_op i Owned)].
    apply Helse; [done|done|]. intros [] Hu; try done. by apply (not_intruding i cfg _ _ _ Hi eq_refl).
  - destruct Hn as [Hh _]. rewrite Hh in Hi. apply Hstay. by eapply (rel_section_op i Local).
Qed.

End turn.

(** ** Executions *)

(** The turns without races and without intrusions, and the events and tasks that
    begin, that lead from [cfg0] to [cfg]; the indices count the insertions the tables
    surely have room for. *)
Inductive quiet (k0 : Z) (cfg0 : config K) : Z -> config K -> Prop :=
  | quiet_refl : quiet k0 cfg0 k0 cfg0
  | quiet_begin k cfg i o fuel :
      quiet k0 cfg0 k cfg -> is_idle i cfg -> EVENT_COST <= k -> descriptors_ok o ->
      quiet k0 cfg0 (k - EVENT_COST) (begin i o fuel cfg)
  | quiet_turn k cfg i cfg' :
      quiet k0 cfg0 k cfg -> races i cfg = false -> intrudes i cfg = false -> turn i cfg = Next cfg' ->
      quiet k0 cfg0 k cfg'.

(** A thread takes any number of turns with no other in between, from a moment when no
    mutex is held to another. *)
Inductive atomic_step : config K -> config K -> Prop :=
  | atomic_turns i cfg cfg' : mutex_free cfg -> alone i cfg cfg' -> mutex_free cfg' -> atomic_step cfg cfg'
  | atomic_begin i o fuel cfg : is_idle i cfg -> descriptors_ok o -> atomic_step cfg (begin i o fuel cfg).

(** The same but for the order of what was logged by different threads. *)
#[export] Instance config_equiv : Equiv (config K) := fun cfg cfg' =>
  cf_threads cfg = cf_threads cfg' /\ memory_of cfg = memory_of cfg' /\ sv_ctx (cf_server cfg) = sv_ctx (cf_server cfg') /\
  sv_kernel (cf_server cfg) = sv_kernel (cf_server cfg') /\ sv_log (cf_server cfg) ≡ₚ sv_log (cf_server cfg').

#[export] Instance config_equivalence : Equivalence (≡@{config K}).
Proof.
  split; unfold equiv, config_equiv.
  - by intros cfg.
  - intros c1 c2 (? & ? & ? & ? & ?). by split_and!.
  - intros c1 c2 c3 (? & ? & ? & ? & ?) (? & ? & ? & ? & ?). split_and!; (congruence || by etrans).
Qed.

Lemma atomic_rel_refl cfg : mutex_free cfg -> atomic_rel cfg cfg (replicate (length (cf_threads cfg)) []).
Proof.
  intros Hfree. split; try done; [by rewrite length_replicate| |].
  - intros i th Hi. exists th, []. split; [done|]. split; [apply lookup_replicate_2; by eapply lookup_lt_Some|].
    left. split_and!; [|done..]. intros c. by eapply Hfree.
  - replace (concat _) with (@nil sys_event); [by rewrite app_nil_r|]. by induction (length _).
Qed.

Lemma atomic_rel_begin cfg a pend i o fuel :
  mutex_free a -> atomic_rel cfg a pend -> is_idle i cfg -> (forall th, cf_threads cfg !! i = Some th -> th_held th = []) ->
  is_idle i a /\ exists pend', atomic_rel (begin i o fuel cfg) (begin i o fuel a) pend'.
Proof.
  intros Hfree Hrel (th & Hi & Hidle) Hheld. destruct (ar_thread _ _ _ Hrel i th Hi) as (ta & l & Hta & Hl & Hri).
  specialize (Hheld th Hi). destruct Hri as [(_ & -> & ->)|(c & m & Hh & _)]; [|by rewrite Hheld in Hh].
  split; [by exists th|]. exists (<[i := []]> pend).
  eapply (rel_after cfg a pend _ _ i); [exact Hrel|exact Hi|exact Hl|done|done| | | |apply Hrel..|done].
  - left. split_and!; [intros c; apply not_elem_of_nil|done..].
  - intros c Hc. apply (ar_rest _ _ _ Hrel). intros j thj Hj. destruct (decide (j = i)) as [->|Hji].
    + simplify_eq. rewrite Hheld. apply not_elem_of_nil.
    + apply (Hc j). simpl. by rewrite list_lookup_insert_ne.
  - done.
Qed.

Lemma atomic_rel_end cfg a pend : mutex_free cfg -> atomic_rel cfg a pend -> a ≡ cfg.
Proof.
  intros Hfree [Hlen Hpl Hth Hrest Hc Hx Hk Hlog].
  assert (Hone : forall i th ta l, cf_threads cfg !! i = Some th -> thread_rel i (memory_of a) (memory_of cfg) th ta l -> ta = th /\ l = []).
  { intros i th ta l Hi [(_ & -> & ->)|(c & m & Hh & _)]; [done|]. destruct (Hfree c i th Hi). rewrite Hh. by left. }
  split_and!; [|apply memory_ext; [done|intros c; by apply Hrest]|done|done|].
  - apply list_eq. intros i. destruct (cf_threads cfg !! i) as [th|] eqn:Hi.
    + destruct (Hth i th Hi) as (ta & l & -> & _ & Hr). f_equal. by eapply Hone.
    + apply lookup_ge_None. rewrite Hlen. by apply lookup_ge_None.
  - rewrite Hlog. replace (concat pend) with (@nil sys_event); [by rewrite app_nil_r|]. symmetry. apply concat_nil_Forall.
    apply Forall_lookup. intros i l Hl. destruct (lookup_lt_is_Some_2 (cf_threads cfg) i) as [th Hi].
    { rewrite <- Hpl. by eapply lookup_lt_Some. }
    destruct (Hth i th Hi) as (ta & l' & _ & Hl' & Hr). simplify_eq. by eapply Hone.
Qed.

End atomicity.

(** ** Theorem *)

Section reachable.
Context {K : Type} `{Kernel K} `{!KernelLaws} `{!TamePeers K}.
Implicit Types (cfg : config K).

Lemma quiet_reaches cpu ram gpu k0 cfg0 k cfg :
  conc_reach cpu ram gpu k0 cfg0 -> quiet k0 cfg0 k cfg -> conc_reach cpu ram gpu k cfg.
Proof. intros Hreach. induction 1 as [|k cfg i o fuel _ IH|k cfg i cfg' _ IH]; [done|by apply conc_begin|by eapply conc_turn]. Qed.

(** C6: the critical sections happen one at a time: from any reachable configuration
    where no mutex is held, what any interleaving of the threads leads to (without
    races, and with nobody calling [strtok] while another thread has [lock_owned]) is
    also what an execution leads to in which a thread that has locked a mutex takes all
    its turns up to the unlock before any other thread takes one.  The two differ at
    most in the order of the [close]s of different threads among the system calls. *)
Theorem sections_atomic cpu ram gpu k0 cfg0 k cfg :
  in_u32 cpu -> in_u32 ram -> in_u32 gpu -> conc_reach cpu ram gpu k0 cfg0 -> mutex_free cfg0 ->
  quiet k0 cfg0 k cfg -> mutex_free cfg ->
  exists cfg', rtc atomic_step cfg0 cfg' /\ cfg' ≡ cfg.
Proof.
  intros Hc Hr Hg Hreach Hfree0 Hq Hfree.
  enough (exists a pend, rtc atomic_step cfg0 a /\ atomic_rel cfg a pend) as (a & pend & Hs & Hrel).
  { exists a. split; [done|]. by eapply atomic_rel_end. }
  clear Hfree. induction Hq as [|k cfg i o fuel Hq IH Hidle _ Ho|k cfg i cfg' Hq IH Hrace Hint Hturn].
  - eexists cfg0, _. split; [apply rtc_refl|by apply atomic_rel_refl].
  - destruct IH as (a & pend & Hs & Hrel). destruct (conc_reach_inv _ _ _ _ _ Hc Hr Hg (quiet_reaches _ _ _ _ _ _ _ Hreach Hq)) as [gs Hinv].
    destruct (atomic_rel_begin cfg a pend i o fuel (atomic_rel_free _ _ _ Hrel) Hrel Hidle) as (Hi & pend' & Hrel').
    { intros th Hth. destruct Hidle as (th' & Hth' & Hret). destruct (thread_of _ _ _ _ _ _ Hinv Hth) as (g & _ & [Hh _ _ Hsafe]).
      simplify_eq. rewrite Hret in Hsafe. simpl in Hsafe. by rewrite Hh, Hsafe. }
    exists (begin i o fuel a), pend'. split; [|done]. eapply rtc_r; [exact Hs|]. by apply atomic_begin.
  - destruct IH as (a & pend & Hs & Hrel). destruct (conc_reach_inv _ _ _ _ _ Hc Hr Hg (quiet_reaches _ _ _ _ _ _ _ Hreach Hq)) as [gs Hinv].
    destruct (rel_turn _ _ gs cfg a pend Hinv Hrel i cfg' Hrace Hint Hturn) as (a' & pend' & Hal & Hrel').
    exists a', pend'. split; [|done]. eapply rtc_r; [exact Hs|].
    eapply atomic_turns; [by eapply atomic_rel_free|exact Hal|by eapply atomic_rel_free].
Qed.

End reachable.

(** ** A concrete interleaving *)

Module SeccionEjemplo.
Import HilosEjemplo.

(** The turns of a schedule, as long as they are quiet. *)
Fixpoint play_quiet (schedule : list nat) (cfg : config nat) : option (config nat) :=
  match schedule with
  | [] => Some cfg
  | i :: rest =>
      if races i cfg || intrudes i cfg then None
      else match turn i cfg with Next cfg' => play_quiet rest cfg' | _ => None end
  end.

Lemma play_quiet_reach k0 cfg0 k schedule cfg cfg' :
  quiet k0 cfg0 k cfg -> play_quiet schedule cfg = Some cfg' -> quiet k0 cfg0 k cfg'.
Proof.
  revert cfg. induction schedule as [|i rest IH]; intros cfg Hq Hp; [by injection Hp as <-|]. simpl in Hp.
  destruct (races i cfg) eqn:Hrace; [done|]. destruct (intrudes i cfg) eqn:Hint; [done|]. simpl in Hp.
  destruct (turn i cfg) eqn:Ht; try done. eapply IH; [|exact Hp]. by eapply quiet_turn.
Qed.

Definition is_mutex (l : hold) : bool := match l with Mutex _ => true | _ => false end.
Definition none_held (cfg : config nat) : bool := forallb (fun th => negb (existsb is_mutex (th_held th))) (cf_threads cfg).

Lemma none_held_free cfg : none_held cfg = true -> mutex_free cfg.
Proof.
  unfold none_held. rewrite forallb_forall. intros Hall c i th Hi Hin.
  specialize (Hall th (proj1 (list_elem_of_In _ _) (list_elem_of_lookup_2 _ _ _ Hi))). apply negb_true_iff, not_true_iff_false in Hall.
  apply Hall, existsb_exists. exists (Mutex c). split; [by apply list_elem_of_In|done].
Qed.

Lemma clientes_quiet : quiet NODE_ROOM inicio (NODE_ROOM - EVENT_COST - EVENT_COST) clientes.
Proof.
  apply quiet_begin; [apply quiet_begin; [apply quiet_refl|by eexists|done|exact abierto_20]|by eexists|done|exact abierto_21].
Qed.

(** Thread 1 reads its own message while thread 0 is parsing a petition with
    [lock_owned]. *)
Definition mitad : list nat := replicate 9 0%nat.
Definition entero : list nat := mitad ++ replicate 5 1%nat ++ replicate 9 0%nat.

Lemma sections_atomic_witness :
  none_held <$> play_quiet mitad clientes = Some false /\
  exists cfg cfg', play_quiet entero clientes = Some cfg /\ rtc atomic_step inicio cfg' /\ cfg' ≡ cfg.
Proof.
  split; [vm_compute; reflexivity|].
  assert (Hp : none_held <$> play_quiet entero clientes = Some true) by (vm_compute; reflexivity).
  apply fmap_Some_1 in Hp as (cfg & Hp & Hfree). exists cfg.
  destruct (sections_atomic 4 8 1 NODE_ROOM inicio _ cfg en_u32_4 en_u32_8 en_u32_1 (conc_init 4 8 1 2 contexto 23%nat)
    (none_held_free inicio eq_refl) (play_quiet_reach _ _ _ _ _ _ clientes_quiet Hp) (none_held_free cfg (eq_sym Hfree)))
    as (cfg' & Hs & Heq).
  exists cfg'. split; [exact Hp|]. split; [exact Hs|exact Heq].
Defined.

End SeccionEjemplo.
