(* ===== verification/Startup.v ===== *)
(** * Startup: [server_init.c], the listeners of [sys_socket.c] and the start of [main.c]

    How the agent comes into being: its sockets, its timers, the epoll list and the
    state its threads start from.  Each system call is logged with its answer, -1
    included, so that what is open and what epoll watches can be read off the log. *)

From S2P Require Import Prelude CString TablaHash CommonTypes LocalResource OwnedJobs KnownNodes NodeStructures Connections Program Adapter ResourceAdapter AdapterSafety ThreadPool Server EventHandler EventSafety Threads.
Local Open Scope Z_scope.

(** ** System calls *)

Inductive sock_type := SOCK_STREAM | SOCK_DGRAM.
Inductive sock_option := SO_REUSEADDR | SO_REUSEPORT | SO_BROADCAST.

Inductive syscall :=
  | Socket (type : sock_type)
  | SetSockOpt (fd : Z) (opt : sock_option)
  | Bind (fd : Z) (address : string) (port : Z)
  | Listen (fd backlog : Z)
  | GetFlags (fd : Z)
  | SetFlags (fd flags : Z)
  | CloseFd (fd : Z)
  | EpollCreate
  | EpollAdd (epfd fd events : Z)
  | TimerCreate
  | TimerSet (fd first interval : Z).

Definition LISTEN_BACKLOG : Z := 10.
Definition O_NONBLOCK : Z := 2048.
Definition INADDR_ANY : string := "0.0.0.0".

(** [htons] keeps the 16 low bits of the port. *)
Definition htons (port : Z) : Z := port `mod` 2 ^ 16.

(** The answer of the system; every call answers a number. *)
Class System (S : Type) := answer : syscall -> S -> Z * S.

Inductive call : Set -> Type :=
  | Call (c : syscall) : call Z.

(** The calls made so far, each with its answer. *)
Abbreviation calls := (list (syscall * Z)).

Section startup.
Context {S : Type} `{System S}.

Definition call_step (X : Set) (c : call X) (st : S * calls) : option (X * (S * calls)) :=
  match c in call X return option (X * (S * calls)) with
  | Call c => let '(z, s) := answer c (fst st) in Some (z, (s, snd st ++ [(c, z)]))
  end.

Definition boot {A} (m : prog call A) (st : S * calls) : option (A * (S * calls)) := interp call_step m st.
End startup.

Definition syscalls (c : syscall) : prog call Z := trigger (Call c).

(** ** The listeners *)

(** [close(sockfd); return -1;] *)
Definition abandon_socket (sockfd : Z) : prog call Z := _ ← syscalls (CloseFd sockfd); mret (-1).

Definition create_udp_listener_broadcaster (port : Z) : prog call Z :=
  sockfd ← syscalls (Socket SOCK_DGRAM);
  if sockfd =? -1 then mret (-1)
  else
    r ← syscalls (SetSockOpt sockfd SO_REUSEADDR);
    if r <? 0 then abandon_socket sockfd
    else
      r ← syscalls (SetSockOpt sockfd SO_REUSEPORT);
      if r <? 0 then abandon_socket sockfd
      else
        r ← syscalls (SetSockOpt sockfd SO_BROADCAST);
        if r <? 0 then abandon_socket sockfd
        else
          r ← syscalls (Bind sockfd INADDR_ANY (htons port));
          if r =? -1 then abandon_socket sockfd
          else
            flags ← syscalls (GetFlags sockfd);
            _ ← syscalls (SetFlags sockfd (Z.lor flags O_NONBLOCK));
            mret sockfd.

Definition create_tcp_listener (ip_address : string) (port : Z) : prog call Z :=
  sockfd ← syscalls (Socket SOCK_STREAM);
  if sockfd =? -1 then mret (-1)
  else
    r ← syscalls (SetSockOpt sockfd SO_REUSEADDR);
    if negb (r =? 0) then abandon_socket sockfd
    else
      r ← syscalls (Bind sockfd ip_address (htons port));
      if negb (r =? 0) then abandon_socket sockfd
      else
        r ← syscalls (Listen sockfd LISTEN_BACKLOG);
        if negb (r =? 0) then abandon_socket sockfd
        else
          flags ← syscalls (GetFlags sockfd);
          if flags =? -1 then abandon_socket sockfd
          else
            r ← syscalls (SetFlags sockfd (Z.lor flags O_NONBLOCK));
            if r =? -1 then abandon_socket sockfd else mret sockfd.

Definition add_to_epoll_interest_list (epoll_fd target_fd events : Z) : prog call Z :=
  r ← syscalls (EpollAdd epoll_fd target_fd events);
  mret (if r =? -1 then -1 else 0).

(** ** [init_server] and [main] *)

(** [atoi] *)
Definition atoi (s : string) : Z := to_int (atoi_u s).

(** [None] is [exit(EXIT_FAILURE)]; [argv] is as long as [argc] says. *)
Definition init_server (argv : list string) : prog call (option ServerContext) :=
  match argv with
  | [_; lan_ip; port_arg; _; _; _; _] =>
      let port := atoi port_arg in
      epollfd ← syscalls EpollCreate;
      tcp_public_fd ← create_tcp_listener lan_ip port;
      erlang_tcp_fd ← (if port =? 2 ^ 31 - 1 then Fail else create_tcp_listener "127.0.0.1" (port + 1));
      udp_fd ← create_udp_listener_broadcaster UDP_PORT;
      tcp_timerfd ← syscalls TimerCreate;
      udp_timerfd ← syscalls TimerCreate;
      gc_timerfd ← syscalls TimerCreate;
      _ ← syscalls (TimerSet tcp_timerfd 2 0);
      _ ← syscalls (TimerSet udp_timerfd 1 5);
      _ ← syscalls (TimerSet gc_timerfd 5 5);
      _ ← add_to_epoll_interest_list epollfd tcp_timerfd EPOLLIN;
      _ ← add_to_epoll_interest_list epollfd udp_timerfd EPOLLIN;
      _ ← add_to_epoll_interest_list epollfd udp_fd (Z.lor EPOLLIN EPOLLONESHOT);
      _ ← add_to_epoll_interest_list epollfd gc_timerfd EPOLLIN;
      mret (Some (Context port lan_ip epollfd tcp_public_fd erlang_tcp_fd udp_fd tcp_timerfd udp_timerfd gc_timerfd false))
  | _ => mret None
  end.

Definition set_mynode (c : ServerContext) : ServerContext :=
  Context (sc_port c) (sc_lan_ip c) (sc_epollfd c) (sc_tcp_public_fd c) (sc_erlang_tcp_fd c) (sc_udp_fd c)
    (sc_tcp_timerfd c) (sc_udp_timerfd c) (sc_gc_timerfd c) true.

(** The start of [main], up to its loop: the threads are the one that runs it and
    the workers; a negative number of workers is none. *)
Definition main_start {K} (argv : list string) (kernel : K) : prog call (option (config K * pool)) :=
  ctx ← init_server argv;
  match ctx with
  | None => mret None
  | Some c =>
      let arg i := default EmptyString (argv !! i) in
      let my_node := init_node (atoi_u (arg 3%nat)) (atoi_u (arg 4%nat)) (atoi_u (arg 5%nat)) in
      let workers := Z.to_nat (atoi (arg 6%nat)) in
      mret (Some (Config (Server (Shared my_node no_connections []) (set_mynode c) kernel []) (replicate (S workers) idle) None,
                  init_thread_pool workers))
  end.

(** ** What the log says *)

(** The last descriptor opened with that number is no longer open. *)
Fixpoint closed (fd : Z) (fds : list Z) : list Z :=
  match fds with
  | [] => []
  | fd' :: fds' => if fd' =? fd then fds' else fd' :: closed fd fds'
  end.

Definition after_call (fds : list Z) (e : syscall * Z) : list Z :=
  match e with
  | (CloseFd fd, _) => closed fd fds
  | ((Socket _ | EpollCreate | TimerCreate), z) => if z =? -1 then fds else z :: fds
  | _ => fds
  end.

(** The descriptors open after the calls, the last one first. *)
Definition opened (log : calls) : list Z := fold_left after_call log [].

(** What epoll watches: the descriptors added with success, with their events. *)
Definition watched (log : calls) : list (Z * Z) :=
  omap (fun e => match e with (EpollAdd _ fd events, z) => if z =? -1 then None else Some (fd, events) | _ => None end) log.

(** The timers set, with the first expiration and the interval, in seconds. *)
Definition timers (log : calls) : list (Z * Z * Z) :=
  omap (fun e => match e with (TimerSet fd first interval, _) => Some (fd, first, interval) | _ => None end) log.

Definition quiet (new : calls) : Prop := watched new = [] /\ timers new = [].

Lemma opened_app log new : opened (log ++ new) = fold_left after_call new (opened log).
Proof. apply fold_left_app. Qed.

Lemma watched_app log new : watched (log ++ new) = watched log ++ watched new.
Proof. apply omap_app. Qed.

Lemma timers_app log new : timers (log ++ new) = timers log ++ timers new.
Proof. apply omap_app. Qed.

Lemma closed_last fd fds : closed fd (fd :: fds) = fds.
Proof. simpl. by rewrite Z.eqb_refl. Qed.

(** [log'] opens [fd], if it is not -1, and nothing else. *)
Definition opens (fd : Z) (log log' : calls) : Prop :=
  opened log' = (if fd =? -1 then opened log else fd :: opened log) /\
  watched log' = watched log /\ timers log' = timers log.

(** ** Reasoning about the calls *)

Lemma atoi_u_range s : in_u32 (atoi_u s).
Proof.
  unfold atoi_u. destruct (read_sign _) as [neg s1]. destruct (read_digits 0 s1) as [v r]. apply wrap32_range.
Qed.

Section boots.
Context {S : Type} `{System S}.

Definition boots {A} (m : prog call A) (st : S * calls) (Q : A -> S * calls -> Prop) : Prop :=
  exists a st', boot m st = Some (a, st') /\ Q a st'.

Lemma boots_ret {A} (a : A) st (Q : A -> S * calls -> Prop) : Q a st -> boots (mret a) st Q.
Proof. intros HQ. by exists a, st. Qed.

Lemma boots_bind {A B} (m : prog call A) (f : A -> prog call B) st (Q : B -> S * calls -> Prop) :
  boots m st (fun a st' => boots (f a) st' Q) -> boots (m ≫= f) st Q.
Proof.
  intros (a & st1 & Hm & b & st2 & Hf & HQ). exists b, st2. split; [|done]. unfold boot, mbind, prog_mbind in *.
  by rewrite interp_bind, Hm.
Qed.

Lemma boots_call c s log (Q : Z -> S * calls -> Prop) :
  (forall z s', Q z (s', log ++ [(c, z)])) -> boots (syscalls c) (s, log) Q.
Proof.
  intros HQ. unfold boots, boot, interp, syscalls, trigger. cbn. destruct (answer c s) as [z s'] eqn:E.
  exists z, (s', log ++ [(c, z)]). split; [done|apply HQ].
Qed.

Lemma boots_mono {A} (m : prog call A) st (Q Q' : A -> S * calls -> Prop) :
  boots m st Q -> (forall a st', Q a st' -> Q' a st') -> boots m st Q'.
Proof. intros (a & st' & Hm & HQ) Himp. exists a, st'. auto. Qed.

(** A call, and the rest with the log so far. *)
Lemma boots_step {B} c s log (f : Z -> prog call B) (Q : B -> S * calls -> Prop) :
  (forall z s', boots (f z) (s', log ++ [(c, z)]) Q) -> boots (syscalls c ≫= f) (s, log) Q.
Proof. intros Hf. apply boots_bind, boots_call, Hf. Qed.

(** ** The listeners *)

(** Whether a socket opened by the calls is non-blocking: the flags of the last
    [F_SETFL] that succeeded. *)
Definition nonblocking (fd : Z) (log : calls) : bool :=
  fold_left (fun b '(c, z) => match c with
                              | SetFlags fd' flags => if (fd' =? fd) && negb (z =? -1) then negb (Z.land flags O_NONBLOCK =? 0) else b
                              | _ => b
                              end) log false.

Lemma nonblocking_asked flags : negb (Z.land (Z.lor flags O_NONBLOCK) O_NONBLOCK =? 0) = true.
Proof.
  replace (Z.land (Z.lor flags O_NONBLOCK) O_NONBLOCK) with O_NONBLOCK; [done|].
  apply Z.bits_inj'. intros n _. rewrite Z.land_spec, Z.lor_spec. by destruct (Z.testbit flags n), (Z.testbit O_NONBLOCK n).
Qed.

(** A call that failed and whose answer is looked at: those of [fcntl] by the TCP
    listener only. *)
Definition refused (fcntl : bool) (cz : syscall * Z) : Prop :=
  match cz.1 with
  | Socket _ => cz.2 = -1
  | SetSockOpt _ _ | Bind _ _ _ | Listen _ _ => cz.2 ≠ 0
  | GetFlags _ | SetFlags _ _ => fcntl = true /\ cz.2 = -1
  | _ => False
  end.

(** The calls that configure a listener, as they must have been answered. *)
Definition listening (fd : Z) (ip : string) (port : Z) (new : calls) : Prop :=
  exists flags r, flags ≠ -1 /\ r ≠ -1 /\ nonblocking fd new = true /\
    new = [(Socket SOCK_STREAM, fd); (SetSockOpt fd SO_REUSEADDR, 0); (Bind fd ip (htons port), 0);
           (Listen fd LISTEN_BACKLOG, 0); (GetFlags fd, flags); (SetFlags fd (Z.lor flags O_NONBLOCK), r)].

(** The last two answers are not looked at. *)
Definition broadcasting (fd port : Z) (new : calls) : Prop :=
  exists r1 r2 r3 r4 flags r5, 0 <= r1 /\ 0 <= r2 /\ 0 <= r3 /\ r4 ≠ -1 /\ nonblocking fd new = negb (r5 =? -1) /\
    new = [(Socket SOCK_DGRAM, fd); (SetSockOpt fd SO_REUSEADDR, r1); (SetSockOpt fd SO_REUSEPORT, r2);
           (SetSockOpt fd SO_BROADCAST, r3); (Bind fd INADDR_ANY (htons port), r4);
           (GetFlags fd, flags); (SetFlags fd (Z.lor flags O_NONBLOCK), r5)].

(** The result of a listener: a descriptor configured by the calls, or -1, because one
    of them failed, and no descriptor left open. *)
Definition listener (fcntl : bool) (configured : Z -> calls -> Prop) (log : calls) (fd : Z) (st : S * calls) : Prop :=
  exists new, snd st = log ++ new /\ opens fd log (log ++ new) /\ (fd ≠ -1 -> configured fd new) /\
    (fd = -1 -> Exists (refused fcntl) new).

Lemma boots_abandon fcntl configured log new sockfd s :
  fold_left after_call new (opened log) = sockfd :: opened log -> quiet new -> Exists (refused fcntl) new ->
  boots (abandon_socket sockfd) (s, log ++ new) (listener fcntl configured log).
Proof.
  intros Ho [Hw Ht] Hex. apply boots_step. intros z s'. apply boots_ret. exists (new ++ [(CloseFd sockfd, z)]).
  split; [by rewrite app_assoc|]. split; [|split; [done|intros _; apply Exists_app; by left]]. split_and!; rewrite app_assoc.
  - rewrite !opened_app, Ho. apply closed_last.
  - by rewrite !watched_app, Hw, !app_nil_r.
  - by rewrite !timers_app, Ht, !app_nil_r.
Qed.

Lemma listener_none fcntl configured log c s :
  (forall fds, after_call fds (c, -1) = fds) -> quiet [(c, -1)] -> refused fcntl (c, -1) ->
  listener fcntl configured log (-1) (s, log ++ [(c, -1)]).
Proof.
  intros Ho [Hw Ht] Hr. exists [(c, -1)]. split; [done|]. split; [|split; [done|intros _; by constructor]]. split_and!.
  - rewrite opened_app. apply Ho.
  - by rewrite watched_app, Hw, app_nil_r.
  - by rewrite timers_app, Ht, app_nil_r.
Qed.

Lemma listener_some fcntl (configured : Z -> calls -> Prop) log fd new s :
  fold_left after_call new (opened log) = fd :: opened log -> quiet new -> fd ≠ -1 -> configured fd new ->
  listener fcntl configured log fd (s, log ++ new).
Proof.
  intros Ho [Hw Ht] Hfd Hc. exists new. split; [done|]. split; [|by split]. split_and!.
  - rewrite opened_app, Ho. by rewrite (proj2 (Z.eqb_neq _ _) Hfd).
  - by rewrite watched_app, Hw, app_nil_r.
  - by rewrite timers_app, Ht, app_nil_r.
Qed.

(** A call whose failure gives the socket up. *)
Ltac next_call :=
  apply boots_step; intros ? ?; rewrite <- ?app_assoc; simpl (_ ++ _).
Ltac abandons Hfd :=
  apply boots_abandon; [simpl; by rewrite (proj2 (Z.eqb_neq _ _) Hfd)|done
    |repeat first [solve [apply Exists_cons_hd; unfold refused; simpl; first [lia|by split; lia]]|apply Exists_cons_tl]].

Lemma boots_udp port s log :
  boots (create_udp_listener_broadcaster port) (s, log) (listener false (fun fd new => broadcasting fd port new) log).
Proof.
  apply boots_step. intros fd s1. destruct (Z.eqb_spec fd (-1)) as [->|Hfd]; [by apply boots_ret, listener_none|].
  next_call. destruct (Z.ltb_spec z 0); [by abandons Hfd|].
  next_call. destruct (Z.ltb_spec z0 0); [by abandons Hfd|].
  next_call. destruct (Z.ltb_spec z1 0); [by abandons Hfd|].
  next_call. destruct (Z.eqb_spec z2 (-1)); [by abandons Hfd|].
  next_call. next_call. apply boots_ret, listener_some; [simpl; by rewrite (proj2 (Z.eqb_neq _ _) Hfd)|done|done|].
  exists z, z0, z1, z2, z3, z4. split_and!; [done..| |done]. unfold nonblocking. simpl. rewrite Z.eqb_refl. cbn [andb].
  rewrite nonblocking_asked. by destruct (z4 =? -1).
Qed.

Lemma boots_tcp ip port s log :
  boots (create_tcp_listener ip port) (s, log) (listener true (fun fd new => listening fd ip port new) log).
Proof.
  apply boots_step. intros fd s1. destruct (Z.eqb_spec fd (-1)) as [->|Hfd]; [by apply boots_ret, listener_none|].
  next_call. destruct (Z.eqb_spec z 0) as [->|]; [|by abandons Hfd].
  next_call. destruct (Z.eqb_spec z 0) as [->|]; [|by abandons Hfd].
  next_call. destruct (Z.eqb_spec z 0) as [->|]; [|by abandons Hfd].
  next_call. destruct (Z.eqb_spec z (-1)); [by abandons Hfd|].
  next_call. destruct (Z.eqb_spec z0 (-1)); [by abandons Hfd|].
  apply boots_ret, listener_some; [simpl; by rewrite (proj2 (Z.eqb_neq _ _) Hfd)|done|done|]. exists z, z0.
  split_and!; [done..| |done]. unfold nonblocking. simpl. rewrite Z.eqb_refl, (proj2 (Z.eqb_neq z0 (-1))) by done. apply nonblocking_asked.
Qed.

(** ** The start of the agent *)

Definition is_open (fd : Z) : Prop := fd ≠ -1.

(** What [init_server] leaves: the descriptors of the context are those open, the
    timers are set, and epoll watches at most the timers and the UDP socket. *)
Record initialised (argv : list string) (c : ServerContext) (log : calls) : Prop := {
  in_port : atoi <$> argv !! 2%nat = Some (sc_port c);
  in_ip : argv !! 1%nat = Some (sc_lan_ip c);
  in_opened : opened log = filter is_open [sc_gc_timerfd c; sc_udp_timerfd c; sc_tcp_timerfd c; sc_udp_fd c;
                                           sc_erlang_tcp_fd c; sc_tcp_public_fd c; sc_epollfd c];
  in_timers : timers log = [(sc_tcp_timerfd c, 2, 0); (sc_udp_timerfd c, 1, 5); (sc_gc_timerfd c, 5, 5)];
  in_watched : watched log `sublist_of` [(sc_tcp_timerfd c, EPOLLIN); (sc_udp_timerfd c, EPOLLIN);
                                         (sc_udp_fd c, Z.lor EPOLLIN EPOLLONESHOT); (sc_gc_timerfd c, EPOLLIN)]
}.

Lemma filter_open fd l : filter is_open (fd :: l) = if fd =? -1 then filter is_open l else fd :: filter is_open l.
Proof.
  rewrite filter_cons. unfold is_open. by destruct (Z.eqb_spec fd (-1)), (decide (fd ≠ -1)).
Qed.

Lemma boots_open {B} (m : prog call Z) fcntl configured s log (f : Z -> prog call B) (Q : B -> S * calls -> Prop) :
  boots m (s, log) (listener fcntl configured log) ->
  (forall fd s' log', opens fd log log' -> boots (f fd) (s', log') Q) -> boots (m ≫= f) (s, log) Q.
Proof.
  intros Hm Hf. apply boots_bind. eapply boots_mono; [exact Hm|]. intros fd [s' log'] (new & E & Ho & _).
  simpl in E. subst log'. by apply Hf.
Qed.

Lemma boots_opening {B} c s log (f : Z -> prog call B) (Q : B -> S * calls -> Prop) :
  (forall fds z, after_call fds (c, z) = if z =? -1 then fds else z :: fds) -> (forall z, quiet [(c, z)]) ->
  (forall fd s' log', opens fd log log' -> boots (f fd) (s', log') Q) -> boots (syscalls c ≫= f) (s, log) Q.
Proof.
  intros Ho Hq Hf. apply boots_step. intros z s'. apply Hf. destruct (Hq z) as [Hw Ht]. split_and!.
  - rewrite opened_app. apply Ho.
  - by rewrite watched_app, Hw, app_nil_r.
  - by rewrite timers_app, Ht, app_nil_r.
Qed.

Lemma boots_init name ip port cpu ram gpu num s :
  atoi port ≠ 2 ^ 31 - 1 ->
  boots (init_server [name; ip; port; cpu; ram; gpu; num]) (s, []) (fun r st =>
    exists c, r = Some c /\ initialised [name; ip; port; cpu; ram; gpu; num] c (snd st)).
Proof.
  intros Hport. unfold init_server. cbv zeta.
  apply boots_opening; [done|done|]. intros epollfd s1 log1 (Ho1 & Hw1 & Ht1).
  eapply boots_open; [apply boots_tcp|]. intros tcp s2 log2 (Ho2 & Hw2 & Ht2).
  rewrite (proj2 (Z.eqb_neq _ _) Hport).
  eapply boots_open; [apply boots_tcp|]. intros erl s3 log3 (Ho3 & Hw3 & Ht3).
  eapply boots_open; [apply boots_udp|]. intros udp s4 log4 (Ho4 & Hw4 & Ht4).
  apply boots_opening; [done|done|]. intros t1 s5 log5 (Ho5 & Hw5 & Ht5).
  apply boots_opening; [done|done|]. intros t2 s6 log6 (Ho6 & Hw6 & Ht6).
  apply boots_opening; [done|done|]. intros t3 s7 log7 (Ho7 & Hw7 & Ht7).
  do 3 (apply boots_step; intros ? ?). do 4 (apply boots_bind, boots_step; intros ? ?; apply boots_ret).
  apply boots_ret. eexists. split; [done|]. split; cbn [snd sc_port sc_lan_ip sc_gc_timerfd sc_udp_timerfd sc_tcp_timerfd
    sc_udp_fd sc_erlang_tcp_fd sc_tcp_public_fd sc_epollfd]; [done|done|..].
  - rewrite !opened_app. cbn [fold_left after_call]. rewrite !filter_open, Ho7, Ho6, Ho5, Ho4, Ho3, Ho2, Ho1. done.
  - rewrite !timers_app, Ht7, Ht6, Ht5, Ht4, Ht3, Ht2, Ht1. done.
  - rewrite !watched_app, Hw7, Hw6, Hw5, Hw4, Hw3, Hw2, Hw1. simpl.
    repeat destruct (_ =? -1); simpl; repeat constructor.
Qed.

(** *** Properties *)

(** C29: the listeners leak no descriptor and are configured in order.  The TCP one is
    either a new socket on which every call succeeded ([SO_REUSEADDR], bound to the
    address and the port modulo 2^16, listening) and which is non-blocking, or -1
    because one of the calls failed, with whatever it opened closed again.  The UDP one
    is either a new socket with [SO_REUSEADDR], [SO_REUSEPORT] and [SO_BROADCAST], bound
    to the port of any address, or -1 because one of these calls failed, with nothing
    left open; it asks for [O_NONBLOCK] last and looks at neither answer of [fcntl], so
    that the socket it returns is non-blocking exactly when [F_SETFL] did not fail. *)
Theorem listeners_correct ip port st :
  (exists fd st', boot (create_tcp_listener ip port) st = Some (fd, st') /\
     listener true (fun fd new => listening fd ip port new) (snd st) fd st') /\
  (exists fd st', boot (create_udp_listener_broadcaster port) st = Some (fd, st') /\
     listener false (fun fd new => broadcasting fd port new) (snd st) fd st').
Proof. destruct st as [s log]. split; [apply boots_tcp|apply boots_udp]. Qed.

End boots.

(** ** Concrete starts *)

Module StartupEjemplo.

(** Descriptors from 3 on; any other call answers 0. *)
#[export] Instance sano : System Z := fun c n =>
  match c with Socket _ | EpollCreate | TimerCreate => (n, n + 1) | _ => (0, n) end.

(** The port is taken: [bind] fails. *)
Definition ocupado : System Z := fun c n => match c with Bind _ _ _ => (-1, n) | _ => sano c n end.

Definition argumentos : list string := ["c_agent"; "10.0.0.9"; "8100"; "4"; "8"; "1"; "3"].

(** The descriptors and the timers of a start where everything succeeds. *)
Example sano_run :
  (fun r => (opened (snd (snd r)), watched (snd (snd r)), timers (snd (snd r)))) <$> boot (init_server argumentos) (3, [])
    = Some ([9; 8; 7; 6; 5; 4; 3], [(7, EPOLLIN); (8, EPOLLIN); (6, Z.lor EPOLLIN EPOLLONESHOT); (9, EPOLLIN)],
            [(7, 2, 0); (8, 1, 5); (9, 5, 5)]).
Proof. vm_compute. reflexivity. Qed.

(** When the port is taken the agent starts all the same, without listeners. *)
Lemma start_without_listeners :
  exists c, (fun r => fst r) <$> @boot Z ocupado _ (init_server argumentos) (3, []) = Some (Some c) /\
    sc_tcp_public_fd c = -1 /\ sc_erlang_tcp_fd c = -1 /\ sc_udp_fd c = -1.
Proof. eexists. split; [vm_compute; reflexivity|done]. Qed.

(** [fcntl] fails: there is no TCP listener, and the UDP one is returned blocking. *)
Definition sin_fcntl : System Z := fun c n => match c with GetFlags _ | SetFlags _ _ => (-1, n) | _ => sano c n end.

Example udp_blocking :
  (fun r => (fst r, nonblocking 3 (snd (snd r)))) <$> @boot Z sin_fcntl _ (create_udp_listener_broadcaster 8100) (3, [])
    = Some (3, false) /\
  (fun r => fst r) <$> @boot Z sin_fcntl _ (create_tcp_listener "10.0.0.9" 8100) (3, []) = Some (-1).
Proof. split; vm_compute; reflexivity. Qed.

End StartupEjemplo.
