(* ===== verification/Agent.v ===== *)
(** * Agent: the loop of [main.c], the pool and the threads together

    The epoll thread waits for events, serves them one by one and pushes tasks; the
    workers take the tasks from the queue and run them.  A state of the system is a
    configuration of Threads, a pool of ThreadPool and what [main] has still to do
    with the events of its array; each step shows what it serves and what it pushes.
    [system_refines] shows that the executions of the system are executions of both, so
    that the theorems of Interleaving and of ThreadPool hold of them, and that the
    workers are given the tasks of the events that were served. *)

From S2P Require Import Prelude CString TablaHash CommonTypes LocalResource OwnedJobs KnownNodes NodeStructures Connections Program Adapter ResourceAdapter AdapterSafety ThreadPool Server EventHandler EventSafety Threads Startup.
Local Open Scope Z_scope.

Definition MAX_EVENTS : nat := 10.

(** The tasks the loop of [main] pushes for an event. *)
Definition tasks_of (c : ServerContext) (curr_fd event_type : Z) : list WorkerTask :=
  if curr_fd =? sc_tcp_timerfd c then []
  else if curr_fd =? sc_udp_timerfd c then [Task (-1) TASK_UDP_ANNOUNCE]
  else if curr_fd =? sc_gc_timerfd c then [Task (-1) TASK_GARBAGE_COLLECTOR]
  else if curr_fd =? sc_udp_fd c then [Task (sc_udp_fd c) TASK_UDP_DISCOVERY]
  else if (curr_fd =? sc_tcp_public_fd c) || (curr_fd =? sc_erlang_tcp_fd c) then []
  else if negb (Z.land event_type EPOLLIN =? 0) then [Task curr_fd TASK_TCP_CLIENT_MSG] else [].

(** [thread_pool_push_task] in the pool, with whether the task was queued: the signal
    wakes a worker that waits. *)
Inductive pushes (task : WorkerTask) : bool -> pool -> pool -> Prop :=
  | pushes_wake p q' (i : nat) :
      thread_pool_push_task (pl_queue p) task = Some (true, q') -> pl_workers p !! i = Some ThreadPool.Waiting ->
      pushes task true p (Pool q' (<[i := Ready]> (pl_workers p)) (pl_pushed p ++ [task]) (pl_taken p))
  | pushes_quiet p q' :
      thread_pool_push_task (pl_queue p) task = Some (true, q') -> nobody_waits (pl_workers p) ->
      pushes task true p (Pool q' (pl_workers p) (pl_pushed p ++ [task]) (pl_taken p))
  | pushes_full p q' :
      thread_pool_push_task (pl_queue p) task = Some (false, q') ->
      pushes task false p (Pool q' (pl_workers p) (pl_pushed p) (pl_taken p)).

Section system.
Context {K : Type} `{Kernel K}.

(** Thread 0 is the epoll thread, thread [i + 1] the worker [i]; [sy_events] are the
    events of the array not yet served, [sy_tasks] the tasks of the event being
    served not yet pushed. *)
Record system := Sys {
  sy_config : config K;
  sy_pool : pool;
  sy_events : list (Z * Z);
  sy_tasks : list WorkerTask
}.

(** The descriptors epoll reports are open ones. *)
Definition reported (e : Z * Z) : Prop := 0 <= e.1 < Z.of_nat MAX_FDS.

(** What a step shows of itself: an event that begins to be served, with the context
    it finds, or a task offered to the queue, with the answer of the queue. *)
Inductive action :=
  | Served (c : ServerContext) (e : Z * Z)
  | Offered (task : WorkerTask) (queued : bool)
  | Silent.

(** A step and what it shows; the index counts the insertions as in [conc_reach]. *)
Inductive sys_step : Z -> system -> action -> Z -> system -> Prop :=
  (* [epoll_wait] returns; -1 is no event *)
  | sys_wait k cfg p events :
      is_idle 0 cfg -> (length events <= MAX_EVENTS)%nat -> Forall reported events ->
      sys_step k (Sys cfg p [] []) Silent k (Sys cfg p events [])
  (* the next event of the array *)
  | sys_event k cfg p fd event_type events fuel :
      is_idle 0 cfg -> EVENT_COST <= k ->
      sys_step k (Sys cfg p ((fd, event_type) :: events) [])
        (Served (sv_ctx (cf_server cfg)) (fd, event_type)) (k - EVENT_COST)
        (Sys (begin 0 (Reported fd event_type) fuel cfg) p events (tasks_of (sv_ctx (cf_server cfg)) fd event_type))
  | sys_push k cfg p p' events task tasks queued :
      pushes task queued p p' -> sys_step k (Sys cfg p events (task :: tasks)) (Offered task queued) k (Sys cfg p' events tasks)
  (* a worker takes a task, finds none and waits, wakes up, or ends its task *)
  | sys_take k cfg p events tasks (i : nat) task q' fuel :
      pl_workers p !! i = Some Ready -> worker_take (pl_queue p) = Some (Some (task, q')) -> EVENT_COST <= k ->
      sys_step k (Sys cfg p events tasks) Silent (k - EVENT_COST)
        (Sys (begin (S i) (Taken task) fuel cfg)
           (Pool q' (<[i := Running task]> (pl_workers p)) (pl_pushed p) (pl_taken p ++ [task])) events tasks)
  | sys_sleep k cfg p events tasks (i : nat) :
      pl_workers p !! i = Some Ready -> worker_take (pl_queue p) = Some None ->
      sys_step k (Sys cfg p events tasks) Silent k
        (Sys cfg (Pool (pl_queue p) (<[i := ThreadPool.Waiting]> (pl_workers p)) (pl_pushed p) (pl_taken p)) events tasks)
  | sys_spurious k cfg p events tasks (i : nat) :
      pl_workers p !! i = Some ThreadPool.Waiting ->
      sys_step k (Sys cfg p events tasks) Silent k
        (Sys cfg (Pool (pl_queue p) (<[i := Ready]> (pl_workers p)) (pl_pushed p) (pl_taken p)) events tasks)
  | sys_done k cfg p events tasks (i : nat) task :
      pl_workers p !! i = Some (Running task) -> is_idle (S i) cfg ->
      sys_step k (Sys cfg p events tasks) Silent k
        (Sys cfg (Pool (pl_queue p) (<[i := Ready]> (pl_workers p)) (pl_pushed p) (pl_taken p)) events tasks)
  (* a turn of the epoll thread or of a worker *)
  | sys_turn k cfg cfg' p events tasks (i : nat) :
      races i cfg = false -> turn i cfg = Next cfg' ->
      sys_step k (Sys cfg p events tasks) Silent k (Sys cfg' p events tasks).

(** From what [main] enters its loop with, and what was shown since. *)
Inductive sys_history (cpu ram gpu : Z) (workers : nat) : list action -> Z -> system -> Prop :=
  | sys_start ctx kn :
      sys_history cpu ram gpu workers [] NODE_ROOM
        (Sys (Config (Server (Shared (init_node cpu ram gpu) no_connections []) ctx kn []) (replicate (S workers) idle) None)
           (init_thread_pool workers) [] [])
  | sys_next h k sy a k' sy' :
      sys_history cpu ram gpu workers h k sy -> sys_step k sy a k' sy' ->
      sys_history cpu ram gpu workers (h ++ [a]) k' sy'.

Definition sys_reach (cpu ram gpu : Z) (workers : nat) (k : Z) (sy : system) : Prop :=
  exists h, sys_history cpu ram gpu workers h k sy.

(** The events served, each with the context it found, and the tasks offered. *)
Definition served (h : list action) : list (ServerContext * (Z * Z)) :=
  omap (fun a => match a with Served c e => Some (c, e) | _ => None end) h.
Definition offered (h : list action) : list (WorkerTask * bool) :=
  omap (fun a => match a with Offered t b => Some (t, b) | _ => None end) h.

(** ** What the tasks of the events should be *)

(** The descriptors of the context. *)
Definition own_fds (c : ServerContext) : list Z :=
  [sc_tcp_timerfd c; sc_udp_timerfd c; sc_gc_timerfd c; sc_udp_fd c; sc_tcp_public_fd c; sc_erlang_tcp_fd c].

(** A task is what an event asks for: the periodic ones for their timers, a datagram
    for the UDP socket, and a message of a client for any other descriptor with
    something to read, that very descriptor. *)
Definition answers (c : ServerContext) (e : Z * Z) (t : WorkerTask) : Prop :=
  match wt_type t with
  | TASK_UDP_ANNOUNCE => e.1 = sc_udp_timerfd c
  | TASK_GARBAGE_COLLECTOR => e.1 = sc_gc_timerfd c
  | TASK_UDP_DISCOVERY => e.1 = sc_udp_fd c /\ wt_fd t = e.1
  | TASK_TCP_CLIENT_MSG => (e.1 ∉ own_fds c) /\ Z.land e.2 EPOLLIN ≠ 0 /\ wt_fd t = e.1
  end.

(** The loop serves these itself: the startup timer, a connection that comes in, and a
    descriptor with nothing to read. *)
Definition asks_nothing (c : ServerContext) (e : Z * Z) : Prop :=
  e.1 = sc_tcp_timerfd c \/ e.1 = sc_tcp_public_fd c \/ e.1 = sc_erlang_tcp_fd c \/ Z.land e.2 EPOLLIN = 0.

(** One task, in order, for each event that asks for one. *)
Inductive tasks_for : list (ServerContext * (Z * Z)) -> list WorkerTask -> Prop :=
  | for_none : tasks_for [] []
  | for_task l ts c e t : tasks_for l ts -> answers c e t -> tasks_for (l ++ [(c, e)]) (ts ++ [t])
  | for_nothing l ts c e : tasks_for l ts -> asks_nothing c e -> tasks_for (l ++ [(c, e)]) ts.

(** ** The tasks of an event *)

Lemma serve_then {A B} (m : @handler K A) (l : B) fuel sv r sv' :
  serve ((m;; mret l : @handler K B) fuel) sv = Some (r, sv') -> r = l.
Proof. rewrite serve_bind. destruct (serve (m fuel) sv) as [[a sv1]|]; [|done]. by intros [= <- _]. Qed.

Lemma epoll_event_tasks fd event_type fuel sv r sv' :
  serve (epoll_event fd event_type fuel) sv = Some (r, sv') -> r = tasks_of (sv_ctx sv) fd event_type.
Proof.
  unfold epoll_event, tasks_of. rewrite serve_bind. change (serve (get_ctx fuel) sv) with (Some (sv_ctx sv, sv)).
  cbn [mbind option_bind]. repeat (case_match; try apply serve_then); by intros [= <- _].
Qed.

Lemma tasks_ok c fd event_type :
  reported (fd, event_type) -> Forall (fun t => descriptors_ok (Taken t)) (tasks_of c fd event_type).
Proof. intros Hfd. unfold tasks_of. repeat case_match; first [by apply Forall_nil_2|by apply Forall_singleton]. Qed.

Lemma tasks_of_event l ts c fd event_type :
  tasks_for l ts -> tasks_for (l ++ [(c, (fd, event_type))]) (ts ++ tasks_of c fd event_type).
Proof.
  intros Hl. unfold tasks_of, own_fds.
  destruct (Z.eqb_spec fd (sc_tcp_timerfd c)) as [E1|N1]; [rewrite app_nil_r; apply for_nothing; [done|by left]|].
  destruct (Z.eqb_spec fd (sc_udp_timerfd c)) as [E2|N2]; [by apply for_task|].
  destruct (Z.eqb_spec fd (sc_gc_timerfd c)) as [E3|N3]; [by apply for_task|].
  destruct (Z.eqb_spec fd (sc_udp_fd c)) as [E4|N4]; [by apply for_task|].
  destruct (Z.eqb_spec fd (sc_tcp_public_fd c)) as [E5|N5]; [rewrite app_nil_r; apply for_nothing; [done|by right; left]|].
  destruct (Z.eqb_spec fd (sc_erlang_tcp_fd c)) as [E6|N6]; [rewrite app_nil_r; apply for_nothing; [done|by do 2 right; left]|].
  destruct (Z.eqb_spec (Z.land event_type EPOLLIN) 0) as [E7|N7]; simpl; [rewrite app_nil_r; apply for_nothing; [done|by do 3 right]|].
  apply for_task; [done|]. split_and!; [|done|done]. unfold own_fds. rewrite !elem_of_cons, elem_of_nil. simpl. tauto.
Qed.

Lemma tasks_for_event l ts t : tasks_for l ts -> t ∈ ts -> exists c e, (c, e) ∈ l /\ answers c e t.
Proof.
  induction 1 as [|l ts c e t' _ IH Ha|l ts c e _ IH _]; intros Ht; [by apply elem_of_nil in Ht| |].
  - apply elem_of_app in Ht as [Ht| ->%list_elem_of_singleton].
    + destruct (IH Ht) as (c0 & e0 & Hin & Ha0). exists c0, e0. split; [|done]. apply elem_of_app. by left.
    + exists c, e. split; [|done]. apply elem_of_app. right. by apply list_elem_of_singleton.
  - destruct (IH Ht) as (c0 & e0 & Hin & Ha0). exists c0, e0. split; [|done]. apply elem_of_app. by left.
Qed.

(** ** The invariant *)

Lemma pushes_step task b p p' : pushes task b p p' -> pool_step p p'.
Proof. destruct 1; [by eapply step_push_wake|by eapply step_push|by eapply step_push_full]. Qed.

(** A worker keeps running what it runs, and no new task but the one pushed enters. *)
Lemma pushes_keeps task b p p' :
  pushes task b p p' -> length (pl_workers p') = length (pl_workers p) /\
  pl_pushed p' = pl_pushed p ++ (if b then [task] else []) /\ pl_taken p' = pl_taken p /\
  forall (i : nat) w, pl_workers p' !! i = Some w ->
    pl_workers p !! i = Some w \/ w = Ready /\ pl_workers p !! i = Some ThreadPool.Waiting.
Proof.
  destruct 1 as [p q' j Hp Hj|p q' Hp Hn|p q' Hp]; simpl; rewrite ?length_insert, ?app_nil_r; (split_and!; [done..|]);
    intros i w Hi; [|by left..].
  apply list_lookup_insert_Some in Hi as [(<- & <- & _)|[_ Hi]]; [by right|by left].
Qed.

(** What is in the queue was pushed. *)
Lemma taken_ok workers p (P : WorkerTask -> Prop) task q' :
  pool_reach workers p -> Forall P (pl_pushed p) -> worker_take (pl_queue p) = Some (Some (task, q')) -> P task.
Proof.
  intros Hr HP Ht. destruct (pool_reach_wf _ _ Hr) as [Hq Hh _].
  destruct (take_spec _ Hq) as [(E & _)|(t & q2 & E & _ & Hc & _)]; rewrite E in Ht; [done|]. injection Ht as <- _.
  rewrite Hh, Hc in HP. apply Forall_app in HP as [_ HP]. by apply Forall_cons in HP as [? _].
Qed.

Record sys_inv (cpu ram gpu : Z) (workers : nat) (k : Z) (sy : system) : Prop := {
  iv_config : conc_reach cpu ram gpu k (sy_config sy);
  iv_pool : pool_reach workers (sy_pool sy);
  iv_threads : length (cf_threads (sy_config sy)) = S (length (pl_workers (sy_pool sy)));
  iv_idle (i : nat) w : pl_workers (sy_pool sy) !! i = Some w -> (forall t, w ≠ Running t) -> is_idle (S i) (sy_config sy);
  iv_events : Forall reported (sy_events sy);
  iv_tasks : Forall (fun t => descriptors_ok (Taken t)) (sy_tasks sy ++ pl_pushed (sy_pool sy))
}.

(** Beginning to run something leaves the other threads as they were. *)
Lemma idle_begin i j o fuel (cfg : config K) : i ≠ j -> is_idle j cfg -> is_idle j (begin i o fuel cfg).
Proof. intros Hne (th & Hth & Hi). exists th. split; [|done]. simpl. by rewrite list_lookup_insert_ne. Qed.

(** A thread with nothing to do takes no turn, and the turns of the others leave it. *)
Lemma idle_turn i j (cfg cfg' : config K) : turn i cfg = Next cfg' -> is_idle j cfg -> is_idle j cfg'.
Proof.
  intros Ht (th & Hth & Hi). unfold turn in Ht. destruct (cf_threads cfg !! i) as [[m held]|] eqn:Hthi; [|done].
  cbn [th_prog th_held] in Ht. destruct m as [a| | |X o c]; try done.
  destruct (held_after _ _); [|done]. destruct (waits_for _ _); [done|]. destruct (server_step _ _ _) as [[x sv]|]; [|done].
  injection Ht as <-. exists th. split; [|done]. simpl. rewrite list_lookup_insert_ne; [done|]. intros ->.
  rewrite Hthi in Hth. by injection Hth as <-.
Qed.

Lemma turn_threads i (cfg cfg' : config K) : turn i cfg = Next cfg' -> length (cf_threads cfg') = length (cf_threads cfg).
Proof.
  intros Ht. unfold turn in Ht. destruct (cf_threads cfg !! i) as [[m held]|]; [|done]. cbn [th_prog th_held] in Ht.
  destruct m as [a| | |X o c]; try done. destruct (held_after _ _); [|done]. destruct (waits_for _ _); [done|].
  destruct (server_step _ _ _) as [[x sv]|]; [|done]. injection Ht as <-. simpl. apply length_insert.
Qed.

(** A worker that changes state without running a task leaves the others. *)
Lemma idle_change cfg p (i j : nat) w0 w w' :
  (forall (i : nat) w, pl_workers p !! i = Some w -> (forall t, w ≠ Running t) -> is_idle (S i) cfg) ->
  pl_workers p !! i = Some w0 -> ((forall t, w0 ≠ Running t) \/ is_idle (S i) cfg) ->
  <[i := w]> (pl_workers p) !! j = Some w' -> (forall t, w' ≠ Running t) -> is_idle (S j) (cfg : config K).
Proof.
  intros Hidle Hi H0 Hj Hw. apply list_lookup_insert_Some in Hj as [(<- & _ & _)|[_ Hj]]; [|by eapply Hidle].
  destruct H0; [by eapply Hidle|done].
Qed.

Lemma sys_step_inv cpu ram gpu workers k sy a k' sy' :
  sys_inv cpu ram gpu workers k sy -> sys_step k sy a k' sy' -> sys_inv cpu ram gpu workers k' sy'.
Proof.
  intros [Hcfg Hp Hlen Hidle Hev Htk] Hstep.
  destruct Hstep as [k cfg p events Hi Hn Hall|k cfg p fd ty events fuel Hi Hk|k cfg p p' events task tasks b Hpush
    |k cfg p events tasks i task q' fuel Hi Ht Hk|k cfg p events tasks i Hi Ht|k cfg p events tasks i Hi
    |k cfg p events tasks i task Hi Hid|k cfg cfg' p events tasks i Hr Ht];
    cbn [sy_config sy_pool sy_events sy_tasks] in *.
  - by split.
  - apply Forall_cons in Hev as [Hfd Hev]. split; cbn [sy_config sy_pool sy_events sy_tasks]; [|done|..].
    + apply conc_begin; [done|done|done|exact Hfd].
    + simpl. by rewrite length_insert.
    + intros i w Hw Hnr. apply idle_begin; [done|by eapply Hidle].
    + done.
    + apply Forall_app. split; [by apply tasks_ok|done].
  - destruct (pushes_keeps _ _ _ _ Hpush) as (Hl & Hpd & _ & Hw). simpl in Htk. apply Forall_cons in Htk as [Hok Htk].
    split; cbn [sy_config sy_pool sy_events sy_tasks]; [done| |by rewrite Hl| |done|].
    + by eapply pool_next, pushes_step.
    + intros i w Hi Hnr. destruct (Hw i w Hi) as [Hi0|[_ Hi0]]; by eapply Hidle.
    + rewrite Hpd, app_assoc. apply Forall_app. split; [done|]. destruct b; [by constructor|by apply Forall_nil_2].
  - apply Forall_app in Htk as [Htk Hpd].
    assert (Hid : is_idle (S i) cfg) by by eapply Hidle.
    split; cbn [sy_config sy_pool sy_events sy_tasks pl_workers pl_pushed]; [| | | |done|by apply Forall_app].
    + apply conc_begin; [done|done|done|]. exact (taken_ok _ _ _ _ _ Hp Hpd Ht).
    + eapply pool_next; [exact Hp|]. by apply step_take.
    + simpl. by rewrite !length_insert.
    + intros j w Hj Hnr. apply list_lookup_insert_Some in Hj as [(_ & <- & _)|[Hne Hj]]; [by destruct (Hnr task)|].
      apply idle_begin; [lia|by eapply Hidle].
  - split; cbn [sy_config sy_pool sy_events sy_tasks pl_workers pl_pushed]; [done| |by rewrite length_insert| |done|done].
    + eapply pool_next; [exact Hp|]. by apply step_wait.
    + intros j w Hj Hnr. eapply idle_change; [exact Hidle|exact Hi|by left|exact Hj|exact Hnr].
  - split; cbn [sy_config sy_pool sy_events sy_tasks pl_workers pl_pushed]; [done| |by rewrite length_insert| |done|done].
    + eapply pool_next; [exact Hp|]. by apply step_spurious.
    + intros j w Hj Hnr. eapply idle_change; [exact Hidle|exact Hi|by left|exact Hj|exact Hnr].
  - split; cbn [sy_config sy_pool sy_events sy_tasks pl_workers pl_pushed]; [done| |by rewrite length_insert| |done|done].
    + eapply pool_next; [exact Hp|]. by eapply step_done.
    + intros j w Hj Hnr. eapply idle_change; [exact Hidle|exact Hi|by right|exact Hj|exact Hnr].
  - split; cbn [sy_config sy_pool sy_events sy_tasks]; [by eapply conc_turn|done|by erewrite turn_threads| |done|done].
    intros j w Hj Hnr. eapply idle_turn; [exact Ht|by eapply Hidle].
Qed.

Lemma sys_history_inv cpu ram gpu workers h k sy :
  sys_history cpu ram gpu workers h k sy -> sys_inv cpu ram gpu workers k sy.
Proof.
  induction 1 as [ctx kn|h k sy a k' sy' _ IH Hstep]; [|by eapply sys_step_inv].
  split; simpl; [apply (conc_init _ _ _ (S workers))|apply pool_init|by rewrite !length_replicate| |done|done].
  intros i w Hw _. apply lookup_replicate in Hw as [-> Hi]. exists idle. split; [|done]. simpl.
  apply lookup_replicate. by split.
Qed.

(** What is waiting, queued, taken and running comes from the events served. *)
Record sys_told (h : list action) (sy : system) : Prop := {
  td_tasks : tasks_for (served h) ((offered h).*1 ++ sy_tasks sy);
  td_pushed : pl_pushed (sy_pool sy) = (filter (fun tb => tb.2 = true) (offered h)).*1;
  td_running (i : nat) t : pl_workers (sy_pool sy) !! i = Some (Running t) -> t ∈ pl_taken (sy_pool sy)
}.

Lemma served_app h h' : served (h ++ h') = served h ++ served h'.
Proof. apply omap_app. Qed.

Lemma offered_app h h' : offered (h ++ h') = offered h ++ offered h'.
Proof. apply omap_app. Qed.

(** A worker put into a state in which it runs nothing. *)
Lemma running_change (ws : list worker) (i j : nat) w t (l : list WorkerTask) :
  (forall (i : nat) t, ws !! i = Some (Running t) -> t ∈ l) -> (w = Running t -> t ∈ l) ->
  <[i := w]> ws !! j = Some (Running t) -> t ∈ l.
Proof.
  intros Hws Hw Hj. apply list_lookup_insert_Some in Hj as [(_ & E & _)|[_ Hj]]; [by apply Hw|by eapply Hws].
Qed.

Lemma sys_step_told h k sy a k' sy' : sys_told h sy -> sys_step k sy a k' sy' -> sys_told (h ++ [a]) sy'.
Proof.
  intros [Htk Hpd Hrun] Hstep.
  destruct Hstep as [k cfg p events Hi Hn Hall|k cfg p fd ty events fuel Hi Hk|k cfg p p' events task tasks b Hpush
    |k cfg p events tasks i task q' fuel Hi Ht Hk|k cfg p events tasks i Hi Ht|k cfg p events tasks i Hi
    |k cfg p events tasks i task Hi Hid|k cfg cfg' p events tasks i Hr Ht];
    cbn [sy_config sy_pool sy_events sy_tasks] in *;
    (split; cbn [sy_config sy_pool sy_events sy_tasks pl_workers pl_pushed pl_taken];
     rewrite ?served_app, ?offered_app; cbn [served offered omap list_omap]; rewrite ?app_nil_r in Htk; rewrite ?app_nil_r); try done.
  - by apply tasks_of_event.
  - by rewrite fmap_app, <- app_assoc.
  - destruct (pushes_keeps _ _ _ _ Hpush) as (_ & -> & _). rewrite filter_app, fmap_app, Hpd. by destruct b.
  - intros i t Hi. destruct (pushes_keeps _ _ _ _ Hpush) as (_ & _ & -> & Hw). destruct (Hw _ _ Hi) as [Hi0|[? _]]; [|done]. by eapply Hrun.
  - intros j t Hj. eapply running_change; [| |exact Hj]; [intros i' t' Hi'; apply elem_of_app; left; by eapply Hrun|].
    intros [= ->]. apply elem_of_app. right. by apply list_elem_of_singleton.
  - intros j t Hj. by eapply running_change; [exact Hrun| |exact Hj].
  - intros j t Hj. by eapply running_change; [exact Hrun| |exact Hj].
  - intros j t Hj. by eapply running_change; [exact Hrun| |exact Hj].
Qed.

Lemma sys_history_told cpu ram gpu workers h k sy : sys_history cpu ram gpu workers h k sy -> sys_told h sy.
Proof.
  induction 1 as [ctx kn|h k sy a k' sy' _ IH Hstep]; [|by eapply sys_step_told].
  split; simpl; [apply for_none|done|]. intros i t Hi. by apply lookup_replicate in Hi as [? _].
Qed.

(** A task that was taken was offered. *)
Lemma taken_offered h workers p t :
  pool_reach workers p -> pl_pushed p = (filter (fun tb => tb.2 = true) (offered h)).*1 -> t ∈ pl_taken p -> t ∈ (offered h).*1.
Proof.
  intros Hr Hpd Ht. destruct (pool_reach_wf _ _ Hr) as [_ Hh _].
  assert (Hin : t ∈ pl_pushed p) by (rewrite Hh; apply elem_of_app; by left). rewrite Hpd in Hin.
  apply list_elem_of_fmap in Hin as (tb & -> & Hin). apply list_elem_of_filter in Hin as [_ Hin].
  apply list_elem_of_fmap. by exists tb.
Qed.

(** ** Properties *)

(** C11: the agent put together refines its parts and gives the workers the work of its
    events.  In every execution of the epoll loop, the queue and the workers, whatever
    epoll reports and however the threads interleave: the threads are in a
    configuration that Threads reaches and the queue in one that ThreadPool reaches;
    the tasks offered to the queue, with the one still to be offered, are one for each
    event served that asks for one, in the order of the events, and for that event: the
    announcement and the check for their timers, the discovery for the UDP socket, and
    for every other descriptor with something to read the message of that very
    descriptor; those in the queue or taken are the ones offered that it had room for,
    in order, and are lost by nobody; whatever a worker runs is the task of an event
    that was served, and a worker that runs none has no program left. *)
Theorem system_refines cpu ram gpu workers h k sy :
  sys_history cpu ram gpu workers h k sy ->
  conc_reach cpu ram gpu k (sy_config sy) /\ pool_reach workers (sy_pool sy) /\
  length (cf_threads (sy_config sy)) = S (length (pl_workers (sy_pool sy))) /\
  tasks_for (served h) ((offered h).*1 ++ sy_tasks sy) /\
  (filter (fun tb => tb.2 = true) (offered h)).*1 = pl_taken (sy_pool sy) ++ contents (pl_queue (sy_pool sy)) /\
  Forall (fun t => descriptors_ok (Taken t)) (pl_pushed (sy_pool sy)) /\
  forall (i : nat) w, pl_workers (sy_pool sy) !! i = Some w ->
    (exists t c e, w = Running t /\ (c, e) ∈ served h /\ answers c e t) \/ is_idle (S i) (sy_config sy).
Proof.
  intros Hr. destruct (sys_history_inv _ _ _ _ _ _ _ Hr) as [Hcfg Hp Hlen Hidle _ Htk].
  destruct (sys_history_told _ _ _ _ _ _ _ Hr) as [Hfor Hpd Hrun]. apply Forall_app in Htk as [_ Htk].
  destruct (pool_reach_wf _ _ Hp) as [_ Hh _].
  split_and!; [done|done|done|done|by rewrite <- Hpd, Hh|done|].
  intros i w Hw. destruct w as [| |t]; [right; by eapply Hidle|right; by eapply Hidle|left].
  destruct (tasks_for_event _ _ t Hfor) as (c & e & Hin & Ha); [|by exists t, c, e].
  apply elem_of_app. left. eapply taken_offered; [done|done|by eapply Hrun].
Qed.

(** C30: the start of the agent: with any number of arguments but six it makes no
    system call and exits; with six, whatever the system answers, the descriptors of
    the context are exactly those left open, the three timers are set to their
    periods, epoll watches the timers and the UDP socket and no TCP listener yet
    (those wait for the startup timer), and [main] enters its loop in an initial state
    of the system, with the quantities of the third to fifth arguments and as many
    workers as the last one says. *)
Theorem main_start_correct {S} `{System S} argv (kernel : K) s :
  (length argv ≠ 7%nat -> boot (main_start argv kernel) (s, []) = Some (None, (s, []))) /\
  (length argv = 7%nat -> atoi <$> argv !! 2%nat ≠ Some (2 ^ 31 - 1) ->
   exists c cfg p s' log cpu ram gpu workers,
     boot (main_start argv kernel) (s, []) = Some (Some (cfg, p), (s', log)) /\
     initialised argv c log /\ sv_ctx (cf_server cfg) = set_mynode c /\
     atoi_u <$> argv !! 3%nat = Some cpu /\ atoi_u <$> argv !! 4%nat = Some ram /\ atoi_u <$> argv !! 5%nat = Some gpu /\
     in_u32 cpu /\ in_u32 ram /\ in_u32 gpu /\ Z.to_nat <$> (atoi <$> argv !! 6%nat) = Some workers /\
     sys_reach cpu ram gpu workers NODE_ROOM (Sys cfg p [] [])).
Proof.
  split.
  - intros Hlen. unfold main_start, boot, mbind, prog_mbind. rewrite interp_bind.
    destruct argv as [|a1 [|a2 [|a3 [|a4 [|a5 [|a6 [|a7 [|a8 argv]]]]]]]]; done.
  - intros Hlen Hport. destruct argv as [|name [|ip [|port [|cpu [|ram [|gpu [|num [|a8 argv]]]]]]]]; try done.
    assert (Hp : atoi port ≠ 2 ^ 31 - 1) by (intros E; apply Hport; simpl; by rewrite E).
    destruct (boots_init name ip port cpu ram gpu num s Hp) as (r & [s' log] & Hm & c & -> & Hinit).
    exists c. do 8 eexists. split; [|split; [exact Hinit|]].
    { unfold main_start, boot, mbind, prog_mbind in *. rewrite interp_bind, Hm. done. }
    split_and!; [done..|apply atoi_u_range|apply atoi_u_range|apply atoi_u_range|done|eexists; apply sys_start].
Qed.

End system.

(** ** A concrete execution *)

Module AgentEjemplo.
Import EventEjemplo StartupEjemplo.

Lemma main_start_correct_witness :
  exists c cfg p s' log cpu ram gpu workers,
     boot (main_start argumentos 23%nat) (3, []) = Some (Some (cfg, p), (s', log)) /\
     initialised argumentos c log /\ sv_ctx (cf_server cfg) = set_mynode c /\
     atoi_u <$> argumentos !! 3%nat = Some cpu /\ atoi_u <$> argumentos !! 4%nat = Some ram /\
     atoi_u <$> argumentos !! 5%nat = Some gpu /\
     in_u32 cpu /\ in_u32 ram /\ in_u32 gpu /\ Z.to_nat <$> (atoi <$> argumentos !! 6%nat) = Some workers /\
     @sys_reach nat EventEjemplo.sistema cpu ram gpu workers NODE_ROOM (Sys cfg p [] []).
Proof.
  refine (proj2 (@main_start_correct nat EventEjemplo.sistema Z sano argumentos 23%nat 3) eq_refl _).
  intros E. vm_compute in E. discriminate E.
Defined.

Definition comienzo : system := Sys (Config inicio (replicate 4 idle) None) (init_thread_pool 3) [] [].
Definition mensaje : WorkerTask := Task 20 TASK_TCP_CLIENT_MSG.

(** epoll reports a message on descriptor 20; its task is pushed and a worker takes
    it. *)
Definition cola : TaskQueue := match thread_pool_push_task init_queue mensaje with Some (_, q) => q | None => init_queue end.
Definition vacia : TaskQueue := match worker_take cola with Some (Some (_, q)) => q | _ => init_queue end.
Definition tomado : system :=
  Sys (begin 1 (Taken mensaje) 50 (begin 0 (Reported 20 EPOLLIN) 50 (sy_config comienzo)))
    (Pool vacia [Running mensaje; Ready; Ready] [mensaje] [mensaje]) [] [].

(** What the execution showed. *)
Definition vivido : list action :=
  [Silent; Served (sv_ctx inicio) (20, EPOLLIN); Offered mensaje true; Silent].

Lemma tomado_history : sys_history 4 8 1 3 vivido (NODE_ROOM - EVENT_COST - EVENT_COST) tomado.
Proof.
  assert (H1 : sys_history 4 8 1 3 [Silent] NODE_ROOM (Sys (sy_config comienzo) (init_thread_pool 3) [(20, EPOLLIN)] [])).
  { apply (sys_next _ _ _ _ [] NODE_ROOM comienzo); [apply sys_start|]. apply sys_wait; [by eexists|simpl; unfold MAX_EVENTS; lia|].
    apply Forall_singleton. unfold reported, MAX_FDS. simpl. lia. }
  apply (sys_next _ _ _ _ [_; _; _]) with (a := Silent) (k := NODE_ROOM - EVENT_COST)
    (sy := Sys (begin 0 (Reported 20 EPOLLIN) 50 (sy_config comienzo)) (Pool cola [Ready; Ready; Ready] [mensaje] []) [] []).
  - apply (sys_next _ _ _ _ [_; _]) with (a := Offered mensaje true) (k := NODE_ROOM - EVENT_COST)
      (sy := Sys (begin 0 (Reported 20 EPOLLIN) 50 (sy_config comienzo)) (init_thread_pool 3) [] [mensaje]).
    + apply (sys_next _ _ _ _ [_] _ _ _ _ _ H1).
      replace [mensaje] with (tasks_of (sv_ctx (cf_server (sy_config comienzo))) 20 EPOLLIN) by (vm_compute; reflexivity).
      apply (sys_event NODE_ROOM (sy_config comienzo) _ 20 EPOLLIN [] 50%nat); [by eexists|done].
    + apply sys_push. apply (pushes_quiet mensaje (init_thread_pool 3)).
      * vm_compute. reflexivity.
      * intros i Hi. simpl in Hi. by apply (lookup_replicate 3 Ready) in Hi as [? _].
  - apply (sys_take _ _ (Pool cola [Ready; Ready; Ready] [mensaje] []) _ _ 0%nat mensaje vacia 50%nat); [done|vm_compute; reflexivity|done].
Qed.

Lemma system_refines_witness :
  conc_reach 4 8 1 (NODE_ROOM - EVENT_COST - EVENT_COST) (sy_config tomado) /\ pool_reach 3 (sy_pool tomado) /\
  length (cf_threads (sy_config tomado)) = S (length (pl_workers (sy_pool tomado))) /\
  tasks_for (served vivido) ((offered vivido).*1 ++ sy_tasks tomado) /\
  (filter (fun tb => tb.2 = true) (offered vivido)).*1 = pl_taken (sy_pool tomado) ++ contents (pl_queue (sy_pool tomado)) /\
  Forall (fun t => descriptors_ok (Taken t)) (pl_pushed (sy_pool tomado)) /\
  forall (i : nat) w, pl_workers (sy_pool tomado) !! i = Some w ->
    (exists t c e, w = Running t /\ (c, e) ∈ served vivido /\ answers c e t) \/ is_idle (S i) (sy_config tomado).
Proof. exact (system_refines 4 8 1 3 vivido _ tomado tomado_history). Defined.

End AgentEjemplo.
