(* ===== verification/Reservation.v ===== *)
(** * Reservation: what the agents of a cluster do together, abstractly

    The protocol of RESERVE, GRANTED and RELEASE between the agents, as a step relation
    on the jobs, the reservations, the waiting requests and the messages in transit of
    the whole cluster.  The file ClusterSafety shows that the agents do nothing else.

    The relation is more permissive than the agents (a message may be lost, and
    messages may arrive in any order), and its invariant says in which phase each job
    is: at most one question about it is open, and what it counts as granted is
    reserved for it. *)

From S2P Require Import Prelude CString TablaHash CommonTypes LocalResource OwnedJobs.
Local Open Scope Z_scope.

(** ** Messages *)

(** What an agent or a scheduler writes on a connection.  A RESERVE carries its
    target, of which only the type and the quantity are in the text. *)
Inductive msg :=
  | MReserve (id : Z) (t : target)
  | MRelease (id : Z) (t : target)
  | MGranted (id : Z)
  | MDenied (id : Z)
  | MRequest (id : Z) (ts : list target)
  | MJobRelease (id : Z)
  | MJobGranted (id : Z)
  | MJobDenied (id : Z)
  | MJobTimeout (id : Z).

(** A message that waits at an agent, on a descriptor. *)
Abbreviation packet := (nat * Z * msg)%type.
(** A request that waits in a queue of an agent. *)
Abbreviation wait := (nat * elem_job_request_t)%type.

(** A reservation is of an agent, a job, the descriptor it was asked on and a type. *)
Abbreviation slot := (nat * (Z * Z * resource_t))%type.

Record protocol := Protocol {
  pr_jobs : gmap (nat * Z) elem_owned_job_t;
  pr_held : gmap slot elem_active_job_t;
  pr_waits : list wait;
  pr_box : list packet;
  pr_asked : list (nat * Z * list target)       (* every request so far *)
}.

Definition same_key (e e' : elem_job_request_t) : Prop :=
  jr_job_id e = jr_job_id e' /\ jr_socket e = jr_socket e' /\ jr_resource_type e = jr_resource_type e'.

(** The petition the job awaits an answer to. *)
Definition awaiting (j : elem_owned_job_t) (t : target) : Prop :=
  exists p, last_sent j = Some p /\ jp_is_granted p = 0 /\ target_of p = t.

Lemma awaiting_inj j t t' : awaiting j t -> awaiting j t' -> t = t'.
Proof. intros (p & Hp & _ & <-) (p' & Hp' & _ & <-). congruence. Qed.

Lemma settled_awaiting j t : settled j -> ~ awaiting j t.
Proof. intros Hs (p & Hp & H0 & _). rewrite (Hs p Hp) in H0. done. Qed.

(** No target of the job has been asked for. *)
Definition unstarted (ts : list target) (j : elem_owned_job_t) : Prop :=
  job_wf j /\ oj_next_reserve_idx j = 0 /\ targets j = take MAX_JOB_RESOURCES ts.

Section protocol.
(** [peer a fd] is the other end of a connection, if it is an agent; [link a t] is
    where the RESERVEs of [a] for [t] arrive. *)
Context (peer : nat -> Z -> option (nat * Z)) (link : nat -> target -> option (nat * Z)).

(** No two targets are of the same resource of the same agent. *)
Definition keys_ok (a : nat) (ts : list target) : Prop :=
  forall (i i' : nat) t t' site, ts !! i = Some t -> ts !! i' = Some t' ->
    link a t = Some site -> link a t' = Some site -> tg_type t = tg_type t' -> i = i'.

Definition reply (b : nat) (s : Z) (m : msg) : list packet :=
  match peer b s with Some (a, fd) => [(a, fd, m)] | None => [] end.
Definition ask (a : nat) (id : Z) (t : target) : list packet :=
  match link a t with Some (b, s) => [(b, s, MReserve id t)] | None => [] end.

(** The job a message or a waiting request is about, if it is of its protocol. *)
Definition owner (x : packet) : option (nat * Z) :=
  let '(a, fd, m) := x in
  match m with
  | MReserve id _ | MRelease id _ => '(a', _) ← peer a fd; Some (a', id)
  | MGranted id | MRequest id _ => Some (a, id)
  | _ => None
  end.
Definition wait_owner (w : wait) : option (nat * Z) :=
  '(a, _) ← peer w.1 (jr_socket w.2); Some (a, jr_job_id w.2).

Definition is_release (a : nat) (id : Z) (x : packet) : Prop :=
  exists b s t fd, x = (b, s, MRelease id t) /\ peer b s = Some (a, fd).

Definition held_for (b : nat) (s id : Z) (t : target) : slot := (b, (id, s, tg_type t)).
Definition grant (s id : Z) (t : target) : elem_active_job_t := ActiveJob id s (tg_quantity t) (tg_type t).

(** ** The steps *)

Inductive proto_step : protocol -> protocol -> Prop :=
  | ps_ask J H W B A a fd id ts :                 (* a scheduler asks for a new job *)
      (a, id) ∉ A.*1 -> keys_ok a ts ->
      proto_step (Protocol J H W B A) (Protocol J H W ((a, fd, MRequest id ts) :: B) ((a, id, ts) :: A))
  | ps_tell J H W B A x :                         (* a message that reserves nothing *)
      owner x = None -> proto_step (Protocol J H W B A) (Protocol J H W (x :: B) A)
  | ps_lose J H W B B' A x :                      (* a message is ignored, or lost *)
      B ≡ₚ x :: B' -> proto_step (Protocol J H W B A) (Protocol J H W B' A)
  | ps_start J H W B B' A a fd id ts j :
      B ≡ₚ (a, fd, MRequest id ts) :: B' -> unstarted ts j ->
      proto_step (Protocol J H W B A) (Protocol (<[(a, id) := j]> J) H W B' A)
  | ps_next J H W B B' A a id j t j' :            (* the next RESERVE, when no answer is due *)
      J !! (a, id) = Some j -> settled j -> next_body j = Some (Some t, j') ->
      B' = B \/ B' = ask a id t ++ B ->
      proto_step (Protocol J H W B A) (Protocol (<[(a, id) := j']> J) H W B' A)
  | ps_grant J H W B B' A b s id t :
      B ≡ₚ (b, s, MReserve id t) :: B' ->
      proto_step (Protocol J H W B A) (Protocol J (<[held_for b s id t := grant s id t]> H) W (reply b s (MGranted id) ++ B') A)
  | ps_queue J H W B B' A b s id t :
      B ≡ₚ (b, s, MReserve id t) :: B' ->
      proto_step (Protocol J H W B A) (Protocol J H ((b, JobRequest id s (tg_quantity t) (tg_type t)) :: W) B' A)
  | ps_wake J H W W' B B' A b e e' :              (* a waiting request is granted *)
      (b, e) ∈ W -> W ≡ₚ (b, e') :: W' -> same_key e e' ->
      B' = B \/ B' = reply b (jr_socket e) (MGranted (jr_job_id e)) ++ B ->
      proto_step (Protocol J H W B A)
        (Protocol J (<[(b, (jr_job_id e, jr_socket e, jr_resource_type e)) :=
           ActiveJob (jr_job_id e) (jr_socket e) (jr_resource_quantity e) (jr_resource_type e)]> H) W' B' A)
  | ps_mark J H W B B' A a fd id ip port j z j' :
      B ≡ₚ (a, fd, MGranted id) :: B' -> J !! (a, id) = Some j -> mark_body ip port j = Some (z, j') ->
      proto_step (Protocol J H W B A) (Protocol (<[(a, id) := j']> J) H W B' A)
  | ps_end J H W B A a id j l :                   (* a job ends, and gives back what it holds *)
      J !! (a, id) = Some j -> Forall (is_release a id) l ->
      proto_step (Protocol J H W B A) (Protocol (delete (a, id) J) H W (l ++ B) A)
  | ps_free J H H' W B B' A b s id t :
      B ≡ₚ (b, s, MRelease id t) :: B' ->
      (forall ty, valid_res ty -> H' !! (b, (id, s, ty)) = None) ->
      (forall b' id' s' ty, (b', id', s') ≠ (b, id, s) -> H' !! (b', (id', s', ty)) = H !! (b', (id', s', ty))) ->
      proto_step (Protocol J H W B A) (Protocol J H' W B' A).

(** ** The phases of a job *)

(** A job of the agent [a] whose granted petitions are all reserved. *)
Record good (H : gmap slot elem_active_job_t) (a : nat) (id : Z) (j : elem_owned_job_t) : Prop := {
  gd_wf : job_wf j;
  gd_seq : job_seq j;
  gd_keys : keys_ok a (targets j);
  gd_held t : t ∈ granted j -> exists b s, link a t = Some (b, s) /\ H !! held_for b s id t = Some (grant s id t)
}.

(** Every reservation of the job is for a target with [Q]. *)
Definition only (H : gmap slot elem_active_job_t) (a : nat) (id : Z) (Q : target -> Prop) : Prop :=
  forall b s fd ty g, peer b s = Some (a, fd) -> H !! (b, (id, s, ty)) = Some g ->
    exists t, Q t /\ link a t = Some (b, s) /\ tg_type t = ty.

Definition counts (j : elem_owned_job_t) (t : target) : Prop := t ∈ granted j.
Definition expects (j : elem_owned_job_t) (t : target) : Prop := t ∈ granted j \/ awaiting j t.

(** The job, the messages and the waiting requests about it. *)
Inductive phase (H : gmap slot elem_active_job_t) (a : nat) (id : Z) (A : list (nat * Z * list target)) :
    option elem_owned_job_t -> list packet -> list wait -> Prop :=
  | ph_unasked : (a, id) ∉ A.*1 -> only H a id (fun _ => False) -> phase H a id A None [] []
  | ph_requested fd ts : (a, id) ∈ A.*1 -> only H a id (fun _ => False) -> keys_ok a ts ->
      phase H a id A None [(a, fd, MRequest id ts)] []
  | ph_idle j : (a, id) ∈ A.*1 -> only H a id (expects j) -> good H a id j -> phase H a id A (Some j) [] []
  | ph_asked j t b s : (a, id) ∈ A.*1 -> only H a id (counts j) -> good H a id j -> awaiting j t -> link a t = Some (b, s) ->
      phase H a id A (Some j) [(b, s, MReserve id t)] []
  | ph_waiting j t b s : (a, id) ∈ A.*1 -> only H a id (counts j) -> good H a id j -> awaiting j t -> link a t = Some (b, s) ->
      phase H a id A (Some j) [] [(b, JobRequest id s (tg_quantity t) (tg_type t))]
  | ph_answered j t b s fd : (a, id) ∈ A.*1 -> only H a id (expects j) -> good H a id j -> awaiting j t -> link a t = Some (b, s) ->
      H !! held_for b s id t = Some (grant s id t) -> phase H a id A (Some j) [(a, fd, MGranted id)] []
  | ph_ended B W : (a, id) ∈ A.*1 -> Forall (fun x => forall fd ts, x ≠ (a, fd, MRequest id ts)) B ->
      phase H a id A None B W.

Abbreviation own a id B := (filter (fun x => owner x = Some (a, id)) B).
Abbreviation own_waits a id W := (filter (fun w => wait_owner w = Some (a, id)) W).

Definition proto_inv (P : protocol) : Prop :=
  forall a id, phase (pr_held P) a id (pr_asked P) (pr_jobs P !! (a, id)) (own a id (pr_box P)) (own_waits a id (pr_waits P)).

(** ** The invariant is kept *)

(** A target is asked for on a connection of the agent. *)
Context (link_peer : forall a t b s, link a t = Some (b, s) -> exists fd, peer b s = Some (a, fd)).

Lemma good_held H H' a id j :
  (forall b s fd ty, peer b s = Some (a, fd) -> H' !! (b, (id, s, ty)) = H !! (b, (id, s, ty))) ->
  good H a id j -> good H' a id j.
Proof.
  intros Hf [? ? ? Hh]. split; [done..|]. intros t Ht. destruct (Hh t Ht) as (b & s & Hl & Hg).
  destruct (link_peer _ _ _ _ Hl) as [fd Hp]. exists b, s. split; [done|]. rewrite <- Hg. by eapply Hf.
Qed.

Lemma only_held H H' a id Q :
  (forall b s fd ty, peer b s = Some (a, fd) -> H' !! (b, (id, s, ty)) = H !! (b, (id, s, ty))) ->
  only H a id Q -> only H' a id Q.
Proof. intros Hf Ho b s fd ty g Hp Hg. rewrite (Hf b s fd ty Hp) in Hg. by apply (Ho b s fd ty g). Qed.

Lemma only_mono H a id (Q Q' : target -> Prop) : (forall t, Q t -> Q' t) -> only H a id Q -> only H a id Q'.
Proof. intros HQ Ho b s fd ty g Hp Hg. destruct (Ho b s fd ty g Hp Hg) as (t & Ht & ?). eauto. Qed.

(** A target that the job awaits is reserved. *)
Lemma only_grant H a id j t b s g :
  only H a id (counts j) -> awaiting j t -> link a t = Some (b, s) ->
  only (<[held_for b s id t := g]> H) a id (expects j).
Proof.
  intros Ho Haw Hl b' s' fd ty g' Hp Hg. destruct (decide (held_for b s id t = (b', (id, s', ty)))) as [E|E].
  - injection E as <- <- <-. exists t. split; [by right|done].
  - rewrite lookup_insert_ne in Hg by done. destruct (Ho b' s' fd ty g' Hp Hg) as (t' & Ht & ?). exists t'. split; [by left|done].
Qed.

Lemma counts_expects j t : counts j t -> expects j t.
Proof. by left. Qed.

(** Reservations of others do not matter. *)
Lemma phase_held H H' a id A o B W :
  (forall b s fd ty, peer b s = Some (a, fd) -> H' !! (b, (id, s, ty)) = H !! (b, (id, s, ty))) ->
  phase H a id A o B W -> phase H' a id A o B W.
Proof.
  intros Hf Hp. pose proof (good_held H H' a id) as Hg. pose proof (only_held H H' a id) as Hon.
  destruct Hp; try (by econstructor; eauto).
  destruct (link_peer a t b s) as [fd' Hp]; [done|]. eapply ph_answered; eauto. etrans; [by eapply Hf|done].
Qed.

Lemma phase_perm H a id A o B B' W W' :
  B ≡ₚ B' -> W ≡ₚ W' -> phase H a id A o B W -> phase H a id A o B' W'.
Proof.
  intros HB HW Hp. destruct Hp;
    repeat match goal with
    | E : [] ≡ₚ _ |- _ => apply Permutation_nil_l in E; subst
    | E : [_] ≡ₚ _ |- _ => apply Permutation_singleton_l in E; subst
    end; try (by econstructor; eauto).
  apply ph_ended; [done|]. by rewrite <- HB.
Qed.

Lemma own_cons a id x B :
  own a id (x :: B) = (if decide (owner x = Some (a, id)) then [x] else []) ++ own a id B.
Proof. rewrite filter_cons. by destruct (decide _). Qed.
Lemma own_waits_cons a id w W :
  own_waits a id (w :: W) = (if decide (wait_owner w = Some (a, id)) then [w] else []) ++ own_waits a id W.
Proof. rewrite filter_cons. by destruct (decide _). Qed.

Lemma own_perm a id B B' : B ≡ₚ B' -> own a id B ≡ₚ own a id B'.
Proof. intros ->. done. Qed.
Lemma own_waits_perm a id W W' : W ≡ₚ W' -> own_waits a id W ≡ₚ own_waits a id W'.
Proof. intros ->. done. Qed.

Lemma phase_lose H a id A o x B W : phase H a id A o (x :: B) W -> phase H a id A o B W.
Proof.
  intros Hp. pose proof (only_mono H a id) as Hon. pose proof counts_expects.
  inversion Hp; subst; try (by econstructor; eauto). apply ph_ended; [done|]. by eapply Forall_inv_tail.
Qed.

(** A message of another job, in front or taken away. *)
Lemma own_other a id x B : owner x ≠ Some (a, id) -> own a id (x :: B) = own a id B.
Proof. intros Hx. by rewrite own_cons, decide_False. Qed.
Lemma own_mine a id x B : owner x = Some (a, id) -> own a id (x :: B) = x :: own a id B.
Proof. intros Hx. by rewrite own_cons, decide_True. Qed.

Lemma phase_taken H a id A o B x B' W :
  B ≡ₚ x :: B' -> phase H a id A o (own a id B) W ->
  owner x = Some (a, id) /\ phase H a id A o (x :: own a id B') W \/
  owner x ≠ Some (a, id) /\ phase H a id A o (own a id B') W.
Proof.
  intros HB Hp. eapply phase_perm in Hp; [|by apply own_perm, HB|done].
  destruct (decide (owner x = Some (a, id))) as [Hx|Hx]; [left; rewrite own_mine in Hp by done|right; rewrite own_other in Hp by done]; done.
Qed.

(** A reservation of the job changes nothing for the others. *)
Lemma phase_other_slot H a id A o B W b s id' ty g :
  ('(a', _) ← peer b s; Some (a', id')) ≠ Some (a, id) ->
  phase H a id A o B W -> phase (<[(b, (id', s, ty)) := g]> H) a id A o B W.
Proof.
  intros Hne. apply phase_held. intros b' s' fd ty' Hp. apply lookup_insert_ne. intros [= -> -> -> ->].
  rewrite Hp in Hne. done.
Qed.

Lemma reply_other a id b s id' B :
  ('(a', _) ← peer b s; Some (a', id')) ≠ Some (a, id) -> own a id (reply b s (MGranted id') ++ B) = own a id B.
Proof. unfold reply. destruct (peer b s) as [[a' fd]|]; [|done]. intros Hne. by apply own_other. Qed.

Lemma reply_mine a id b s fd B :
  peer b s = Some (a, fd) -> own a id (reply b s (MGranted id) ++ B) = (a, fd, MGranted id) :: own a id B.
Proof. unfold reply. intros ->. by apply own_mine. Qed.

(** A good job stays good when a target that it awaits is reserved. *)
Lemma good_grant H a id j t b s :
  good H a id j -> awaiting j t -> link a t = Some (b, s) -> good (<[held_for b s id t := grant s id t]> H) a id j.
Proof.
  intros [Hw Hs Hk Hh] (p & Hl & H0 & Ht) Hlink. split; [done..|]. intros t' Ht'.
  destruct (Hh t' Ht') as (b' & s' & Hl' & Hg). exists b', s'. split; [done|].
  destruct (decide (held_for b' s' id t' = held_for b s id t)) as [E|E]; [|by rewrite lookup_insert_ne].
  exfalso. injection E as -> -> Hty. unfold granted in Ht'.
  apply list_elem_of_fmap in Ht' as (p' & -> & [Hp' Hin]%list_elem_of_filter).
  apply list_elem_of_lookup in Hin as [i' Hi']. unfold last_sent in Hl. destruct (_ =? 0); [done|].
  set (i := Z.to_nat _) in Hl. assert (i = i') as ->; [|congruence].
  subst t. eapply Hk; [| |exact Hlink|exact Hl'|done]; unfold targets; rewrite list_lookup_fmap; [by rewrite Hl|by rewrite Hi'].
Qed.

Lemma inv_grant J H W B B' A b s id t :
  B ≡ₚ (b, s, MReserve id t) :: B' -> proto_inv (Protocol J H W B A) ->
  proto_inv (Protocol J (<[held_for b s id t := grant s id t]> H) W (reply b s (MGranted id) ++ B') A).
Proof.
  intros HB Hinv a id0. specialize (Hinv a id0). simpl in *.
  destruct (phase_taken _ _ _ _ _ _ _ _ _ HB Hinv) as [[Hx Hp]|[Hx Hp]].
  - simpl in Hx. destruct (peer b s) as [[a' fd]|] eqn:Hpe; [|done]. injection Hx as -> ->.
    rewrite (reply_mine _ _ _ _ fd) by done. inversion Hp; subst.
    + eapply ph_answered; [done|by apply only_grant|by apply good_grant|done|done|apply lookup_insert_eq].
    + apply ph_ended; [done|]. constructor; [done|]. by eapply Forall_inv_tail.
  - rewrite reply_other by done. by apply phase_other_slot.
Qed.

Lemma inv_queue J H W B B' A b s id t :
  B ≡ₚ (b, s, MReserve id t) :: B' -> proto_inv (Protocol J H W B A) ->
  proto_inv (Protocol J H ((b, JobRequest id s (tg_quantity t) (tg_type t)) :: W) B' A).
Proof.
  intros HB Hinv a id0. specialize (Hinv a id0). simpl in *. rewrite own_waits_cons. unfold wait_owner at 1. simpl.
  destruct (phase_taken _ _ _ _ _ _ _ _ _ HB Hinv) as [[Hx Hp]|[Hx Hp]]; simpl in Hx.
  - rewrite decide_True by done. destruct (peer b s) as [[a' fd]|] eqn:Hpe; [|done]. injection Hx as -> ->.
    inversion Hp; subst; [by eapply ph_waiting|]. apply ph_ended; [done|]. by eapply Forall_inv_tail.
  - by rewrite decide_False.
Qed.

Lemma good_next H a id j t j' :
  good H a id j -> settled j -> next_body j = Some (Some t, j') ->
  good H a id j' /\ awaiting j' t /\ granted j' = granted j.
Proof.
  intros [Hw Hs Hk Hh] Hset Hb.
  destruct (next_body_spec j Hw) as (o & j2 & Hb2 & Hw' & _ & _ & _ & _ & Htg & Hgr & Hps & Ho & _ & Hn).
  assert (o = Some t /\ j2 = j') as [-> ->] by (split; congruence). simpl in Hn. split; [|split; [|done]].
  - split; [done|exact (job_seq_next _ _ _ Hw Hs Hset Hb)|by rewrite Htg|by rewrite Hgr].
  - destruct (next_bounds j Hw) as [Hn1 Hn2]. symmetry in Ho. unfold targets in Ho.
    apply list_lookup_fmap_Some in Ho as (p & -> & Hp). exists p. split_and!; [| |done].
    + unfold last_sent. rewrite Hn. destruct (Z.eqb_spec (oj_next_reserve_idx j + Z.of_nat 1) 0); [lia|].
      rewrite Hps, <- Hp. f_equal. lia.
    + pose proof (jw_unsent _ Hw) as Hu. rewrite (drop_S _ _ _ Hp) in Hu. by apply Forall_inv in Hu.
Qed.

Lemma inv_next J H W B B' A a id j t j' :
  J !! (a, id) = Some j -> settled j -> next_body j = Some (Some t, j') -> B' = B \/ B' = ask a id t ++ B ->
  proto_inv (Protocol J H W B A) -> proto_inv (Protocol (<[(a, id) := j']> J) H W B' A).
Proof.
  intros Hj Hset Hb HB Hinv a0 id0. specialize (Hinv a0 id0). simpl in *.
  assert (Hask : own a0 id0 B' = own a0 id0 B \/ (a0, id0) = (a, id) /\
    exists b s, link a t = Some (b, s) /\ own a0 id0 B' = (b, s, MReserve id t) :: own a0 id0 B).
  { destruct HB as [->| ->]; [by left|]. unfold ask. destruct (link a t) as [[b s]|] eqn:Hl; [|by left].
    destruct (link_peer _ _ _ _ Hl) as [fd Hp].
    destruct (decide ((a0, id0) = (a, id))) as [[= -> ->]|Hne].
    - right. split; [done|]. exists b, s. split; [done|]. apply own_mine. simpl. by rewrite Hp.
    - left. apply own_other. simpl. rewrite Hp. simpl. congruence. }
  destruct (decide ((a0, id0) = (a, id))) as [[= -> ->]|Hne].
  - rewrite lookup_insert_eq. rewrite Hj in Hinv.
    assert (Hidle : own a id B = [] /\ own_waits a id W = [] /\ (a, id) ∈ A.*1 /\ only H a id (expects j) /\ good H a id j).
    { inversion Hinv; subst; try done;
      match goal with Haw : awaiting _ _ |- _ => by destruct (settled_awaiting _ _ Hset Haw) end. }
    destruct Hidle as (HB0 & HW0 & Ha & Hon & Hg). destruct (good_next _ _ _ _ _ _ Hg Hset Hb) as (Hg' & Haw & Hgr).
    assert (Hon' : only H a id (counts j')).
    { eapply only_mono; [|exact Hon]. intros t' [Ht'|Ht']; [unfold counts; by rewrite Hgr|by destruct (settled_awaiting _ _ Hset Ht')]. }
    destruct Hask as [->|(_ & b & s & Hl & ->)]; rewrite HB0, HW0; [|by eapply ph_asked].
    apply ph_idle; [done| |done]. eapply only_mono; [|exact Hon']. apply counts_expects.
  - rewrite lookup_insert_ne by congruence. destruct Hask as [->|[? _]]; done.
Qed.

Lemma good_mark H a id ip port j z j' t b s :
  good H a id j -> awaiting j t -> link a t = Some (b, s) -> H !! held_for b s id t = Some (grant s id t) ->
  mark_body ip port j = Some (z, j') -> good H a id j' /\ forall t', expects j t' -> expects j' t'.
Proof.
  intros [Hw Hs Hk Hh] (p & Hl & H0 & Ht) Hlink Hheld Hb.
  destruct (mark_body_spec ip port j Hw) as (z2 & j2 & Hb2 & Hw' & _ & _ & _ & _ & Htg & _ & Hcase).
  assert (z2 = z /\ j2 = j') as [-> ->] by (split; congruence).
  assert (Hcases : j' = j \/ granted j' ≡ₚ t :: granted j).
  { destruct Hcase as [(_ & _ & ->)|(_ & (q & p2 & p' & Hq & Hp & _ & _ & Hg) & _)]; [by left|right].
    rewrite Hg. unfold last_sent in Hl. destruct (_ =? 0) eqn:Hz; [done|]. apply Z.eqb_neq in Hz.
    replace (Z.to_nat (oj_next_reserve_idx j - 1)) with q in Hl by lia. rewrite Hp in Hl. injection Hl as ->. by rewrite Ht. }
  split.
  - split; [done|exact (job_seq_mark _ _ _ _ _ Hw Hs Hb)|by rewrite Htg|]. intros t' Ht'.
    destruct Hcases as [->|Hg]; [by apply Hh|]. rewrite Hg in Ht'.
    apply elem_of_cons in Ht' as [->|Ht']; [by exists b, s|by apply Hh].
  - destruct Hcases as [->|Hg]; [done|]. intros t' [Ht'|Ht']; left; rewrite Hg; [by right|].
    rewrite (awaiting_inj j t' t); [by left|done|by exists p].
Qed.

Lemma inv_mark J H W B B' A a fd id ip port j z j' :
  B ≡ₚ (a, fd, MGranted id) :: B' -> J !! (a, id) = Some j -> mark_body ip port j = Some (z, j') ->
  proto_inv (Protocol J H W B A) -> proto_inv (Protocol (<[(a, id) := j']> J) H W B' A).
Proof.
  intros HB Hj Hb Hinv a0 id0. specialize (Hinv a0 id0). simpl in *.
  destruct (phase_taken _ _ _ _ _ _ _ _ _ HB Hinv) as [[[= <- <-] Hp]|[Hx Hp]].
  - rewrite lookup_insert_eq. rewrite Hj in Hp. inversion Hp; subst.
    match goal with Hg : good _ _ _ _, Haw : awaiting _ _, Hl : link _ _ = _, Hh : H !! _ = _ |- _ =>
      destruct (good_mark _ _ _ _ _ _ _ _ _ _ _ Hg Haw Hl Hh Hb) as [Hg' Hexp] end.
    apply ph_idle; [done|by eapply only_mono|done].
  - rewrite lookup_insert_ne by (intros [= -> ->]; by apply Hx). done.
Qed.

Lemma inv_wake J H W W' B B' A b e e' :
  (b, e) ∈ W -> W ≡ₚ (b, e') :: W' -> same_key e e' ->
  B' = B \/ B' = reply b (jr_socket e) (MGranted (jr_job_id e)) ++ B ->
  proto_inv (Protocol J H W B A) ->
  proto_inv (Protocol J (<[(b, (jr_job_id e, jr_socket e, jr_resource_type e)) :=
    ActiveJob (jr_job_id e) (jr_socket e) (jr_resource_quantity e) (jr_resource_type e)]> H) W' B' A).
Proof.
  intros Hin HW (Hid & Hso & Hty) HB Hinv a id. specialize (Hinv a id). simpl in *.
  eapply phase_perm in Hinv; [|done|by apply own_waits_perm, HW]. rewrite own_waits_cons in Hinv.
  assert (Hwo : wait_owner (b, e') = wait_owner (b, e)) by (unfold wait_owner; simpl; by rewrite Hid, Hso).
  destruct (decide _) as [Hx|Hx]; rewrite Hwo in Hx.
  - pose proof Hx as Hwe. unfold wait_owner in Hx. simpl in Hx.
    destruct (peer b (jr_socket e)) as [[a' fd]|] eqn:Hpe; [|done]. injection Hx as -> <-.
    assert (Hown : own a (jr_job_id e) B' = own a (jr_job_id e) B \/
      own a (jr_job_id e) B' = (a, fd, MGranted (jr_job_id e)) :: own a (jr_job_id e) B).
    { destruct HB as [->| ->]; [by left|right]. by apply reply_mine. }
    inversion Hinv as [| | | |j t b0 s Ha Hon Hg Haw Hl HJ HB0| |]; subst.
    + assert (Hmine : (b, e) ∈ own_waits a (jr_job_id e) W)
        by (by apply list_elem_of_filter).
      rewrite (own_waits_perm a (jr_job_id e) _ _ HW), own_waits_cons in Hmine.
      rewrite decide_True in Hmine by congruence. simpl in Hmine.
      match goal with E : [] = own_waits _ _ W' |- _ => rewrite <- E in Hmine end.
      apply list_elem_of_singleton in Hmine as [= ->]. simpl in *.
      destruct Hown as [->| ->]; rewrite <- HB0.
      * apply ph_idle; [done|by apply (only_grant H a _ j t b s)|by apply (good_grant H a _ j t b s)].
      * apply (ph_answered _ _ _ _ j t b s); [done|by apply only_grant|by apply good_grant|done..|apply lookup_insert_eq].
    + apply ph_ended; [done|]. destruct Hown as [->| ->]; [done|]. by constructor.
  - apply phase_other_slot; [done|]. destruct HB as [->| ->]; [done|]. by rewrite reply_other.
Qed.

Lemma inv_ask J H W B A a fd id ts :
  (a, id) ∉ A.*1 -> keys_ok a ts -> proto_inv (Protocol J H W B A) ->
  proto_inv (Protocol J H W ((a, fd, MRequest id ts) :: B) ((a, id, ts) :: A)).
Proof.
  intros Ha Hk Hinv a0 id0. specialize (Hinv a0 id0). simpl in *.
  destruct (decide ((a0, id0) = (a, id))) as [[= -> ->]|Hne].
  - rewrite own_mine by done. inversion Hinv; subst; try done. apply ph_requested; [by left|done..].
  - rewrite own_other by (simpl; congruence).
    inversion Hinv; subst; econstructor; eauto; try (by right). by intros [?|?]%elem_of_cons.
Qed.

Lemma inv_start J H W B B' A a fd id ts j :
  B ≡ₚ (a, fd, MRequest id ts) :: B' -> unstarted ts j ->
  proto_inv (Protocol J H W B A) -> proto_inv (Protocol (<[(a, id) := j]> J) H W B' A).
Proof.
  intros HB (Hw & Hn & Htg) Hinv a0 id0. specialize (Hinv a0 id0). simpl in *.
  destruct (phase_taken _ _ _ _ _ _ _ _ _ HB Hinv) as [[[= <- <-] Hp]|[Hx Hp]].
  - rewrite lookup_insert_eq. inversion Hp as [|fd' ts' Ha Hon Hk| | | | |B0 W0 Ha HF]; subst.
    + apply ph_idle; [done|by apply (only_mono _ _ _ (fun _ => False))|]. split; [done| | |].
      * intros i p _ Hlt. lia.
      * intros i i' t t' site Hi Hi'. rewrite Htg in Hi, Hi'. apply lookup_take_Some in Hi as [Hi _].
        apply lookup_take_Some in Hi' as [Hi' _]. by apply (Hk i i' t t').
      * intros t Ht. rewrite granted_take, Hn in Ht by done. by apply not_elem_of_nil in Ht.
    + apply Forall_inv in HF. by destruct (HF fd ts).
  - rewrite lookup_insert_ne by (intros [= -> ->]; by apply Hx). done.
Qed.

Lemma inv_end J H W B A a id j l :
  J !! (a, id) = Some j -> Forall (is_release a id) l ->
  proto_inv (Protocol J H W B A) -> proto_inv (Protocol (delete (a, id) J) H W (l ++ B) A).
Proof.
  intros Hj Hl Hinv a0 id0. specialize (Hinv a0 id0). simpl in *. rewrite filter_app.
  destruct (decide ((a0, id0) = (a, id))) as [[= -> ->]|Hne].
  - rewrite lookup_delete_eq. rewrite Hj in Hinv.
    apply ph_ended; [by inversion Hinv|]. apply Forall_app. split.
    + apply Forall_forall. intros x [_ Hx]%list_elem_of_filter fd ts ->. rewrite Forall_forall in Hl.
      by destruct (Hl _ Hx) as (b & s & t & fd' & [=] & _).
    + inversion Hinv; subst; repeat constructor; done.
  - rewrite lookup_delete_ne by congruence. replace (own a0 id0 l) with (@nil packet); [done|].
    symmetry. apply filter_false. eapply Forall_impl; [exact Hl|]. intros x (b & s & t & fd & -> & Hp) Ho.
    simpl in Ho. rewrite Hp in Ho. simpl in Ho. congruence.
Qed.

Lemma inv_free J H H' W B B' A b s id t :
  B ≡ₚ (b, s, MRelease id t) :: B' ->
  (forall b' id' s' ty, (b', id', s') ≠ (b, id, s) -> H' !! (b', (id', s', ty)) = H !! (b', (id', s', ty))) ->
  proto_inv (Protocol J H W B A) -> proto_inv (Protocol J H' W B' A).
Proof.
  intros HB Hf Hinv a id0. specialize (Hinv a id0). simpl in *.
  destruct (phase_taken _ _ _ _ _ _ _ _ _ HB Hinv) as [[Hx Hp]|[Hx Hp]].
  - inversion Hp; subst. apply ph_ended; [done|]. by eapply Forall_inv_tail.
  - eapply phase_held; [|exact Hp]. intros b' s' fd ty Hpe. apply Hf. intros [= -> -> ->].
    simpl in Hx. by rewrite Hpe in Hx.
Qed.

Lemma proto_step_inv P P' : proto_inv P -> proto_step P P' -> proto_inv P'.
Proof.
  intros Hinv Hs. destruct Hs.
  - by apply inv_ask.
  - intros a id. specialize (Hinv a id). simpl in *. rewrite own_other; [done|congruence].
  - intros a id. specialize (Hinv a id). simpl in *.
    destruct (phase_taken _ _ _ _ _ _ _ _ _ H0 Hinv) as [[_ Hp]|[_ Hp]]; [by eapply phase_lose|done].
  - by eapply inv_start.
  - by eapply inv_next.
  - by eapply inv_grant.
  - by eapply inv_queue.
  - by eapply inv_wake.
  - by eapply inv_mark.
  - by eapply inv_end.
  - by eapply inv_free.
Qed.

(** *** What a job counts as granted is reserved *)

Lemma proto_good P a id j : proto_inv P -> pr_jobs P !! (a, id) = Some j -> good (pr_held P) a id j.
Proof. intros Hinv Hj. specialize (Hinv a id). rewrite Hj in Hinv. by inversion Hinv. Qed.

(** A job with a request in a queue: the request is for the target it awaits, and all
    its reservations are for targets it counts as granted. *)
Lemma proto_waiting P a id j b e :
  proto_inv P -> pr_jobs P !! (a, id) = Some j -> (b, e) ∈ pr_waits P -> wait_owner (b, e) = Some (a, id) ->
  only (pr_held P) a id (counts j) /\
  exists t, awaiting j t /\ link a t = Some (b, jr_socket e) /\ tg_type t = jr_resource_type e.
Proof.
  intros Hinv Hj Hin Ho. specialize (Hinv a id). rewrite Hj in Hinv.
  assert (Hmine : (b, e) ∈ own_waits a id (pr_waits P)) by (by apply list_elem_of_filter).
  inversion Hinv as [| | | |j' t b0 s Ha Hon Hg Haw Hl HJ HB HW| |]; subst;
    try (match goal with E : [] = own_waits _ _ _ |- _ => rewrite <- E in Hmine; by apply not_elem_of_nil in Hmine end).
  rewrite <- HW in Hmine. apply list_elem_of_singleton in Hmine as [= -> ->]. split; [done|]. by exists t.
Qed.

(** What a job counts as granted it asked for before what it awaits. *)
Lemma granted_before j t t' :
  job_wf j -> t' ∈ granted j -> awaiting j t ->
  exists i i', (i' < i)%nat /\ targets j !! i = Some t /\ targets j !! i' = Some t'.
Proof.
  intros Hw Ht' (p & Hl & H0 & Ht). unfold granted in Ht'.
  apply list_elem_of_fmap in Ht' as (p' & -> & [Hp' Hin]%list_elem_of_filter).
  apply list_elem_of_lookup in Hin as [i' Hi']. unfold last_sent in Hl. destruct (_ =? 0) eqn:Hz; [done|].
  apply Z.eqb_neq in Hz. destruct (next_bounds j Hw) as [Hn1 Hn2].
  exists (Z.to_nat (oj_next_reserve_idx j - 1)), i'. split; [|unfold targets; rewrite !list_lookup_fmap, Hl, Hi'; by subst].
  destruct (decide (i' < Z.to_nat (oj_next_reserve_idx j))%nat) as [Hlt|Hge].
  - destruct (decide (i' = Z.to_nat (oj_next_reserve_idx j - 1))) as [->|Hne]; [congruence|lia].
  - pose proof (jw_unsent _ Hw) as Hu. rewrite Forall_forall in Hu. exfalso.
    enough (jp_is_granted p' = 0) by congruence. apply Hu. apply list_elem_of_lookup.
    exists (i' - Z.to_nat (oj_next_reserve_idx j))%nat. rewrite lookup_drop. rewrite <- Hi'. f_equal. lia.
Qed.

(** *** A job has the petitions it was asked with *)

Record asked_for (P : protocol) : Prop := {
  af_jobs a id j : pr_jobs P !! (a, id) = Some j ->
    exists ts, (a, id, ts) ∈ pr_asked P /\ targets j = take MAX_JOB_RESOURCES ts;
  af_box a fd id ts : (a, fd, MRequest id ts) ∈ pr_box P -> (a, id, ts) ∈ pr_asked P
}.

(** A job with the petitions of the old one, or of a request. *)
Lemma asked_insert J H W B H' W' B' A a id j' ts :
  asked_for (Protocol J H W B A) -> (a, id, ts) ∈ A -> targets j' = take MAX_JOB_RESOURCES ts ->
  (forall a fd id ts, (a, fd, MRequest id ts) ∈ B' -> (a, fd, MRequest id ts) ∈ B) ->
  asked_for (Protocol (<[(a, id) := j']> J) H' W' B' A).
Proof.
  intros [Hj Hb] Ha Ht Hsub. split; simpl in *.
  - intros a0 id0 j0 [[[= -> ->] ->]|[_ Hj0]]%lookup_insert_Some; [by exists ts|by apply Hj].
  - intros a0 fd id0 ts0 Hin. by eapply Hb, Hsub.
Qed.

(** Fewer jobs and no more requests. *)
Lemma asked_less J H W B J' H' W' B' A :
  asked_for (Protocol J H W B A) -> J' ⊆ J ->
  (forall a fd id ts, (a, fd, MRequest id ts) ∈ B' -> (a, fd, MRequest id ts) ∈ B) ->
  asked_for (Protocol J' H' W' B' A).
Proof.
  intros [Hj Hb] HJ Hsub. split; simpl in *.
  - intros a id j Hl. by eapply Hj, lookup_weaken.
  - intros a fd id ts Hin. by eapply Hb, Hsub.
Qed.

Lemma taken_request (x : packet) (B B' : list packet) a fd id ts :
  B ≡ₚ x :: B' -> (a, fd, MRequest id ts) ∈ B' -> (a, fd, MRequest id ts) ∈ B.
Proof. intros -> Hin. by right. Qed.

Lemma reply_request b s m (B : list packet) a fd id ts :
  (forall id ts, m ≠ MRequest id ts) -> (a, fd, MRequest id ts) ∈ reply b s m ++ B -> (a, fd, MRequest id ts) ∈ B.
Proof.
  unfold reply. intros Hm. destruct (peer b s) as [[a' fd']|]; [|done]. intros [[= _ _ E]|Hin]%elem_of_cons; [|done].
  by destruct (Hm id ts).
Qed.

Lemma proto_step_asked P P' : proto_inv P -> asked_for P -> proto_step P P' -> asked_for P'.
Proof.
  intros Hinv Hask Hs. pose proof Hask as [Hj Hb]. destruct Hs as
    [J H W B A a fd id ts Ha Hk|J H W B A x Hx|J H W B B' A x HB|J H W B B' A a fd id ts j HB (_ & _ & Ht)
    |J H W B B' A a id j t j' Hl Hset Hn HB|J H W B B' A b s id t HB|J H W B B' A b s id t HB
    |J H W W' B B' A b e e' Hin HW Hkey HB|J H W B B' A a fd id ip port j z j' HB Hl Hm|J H W B A a id j l Hl HF
    |J H H' W B B' A b s id t HB _ _]; simpl in Hj, Hb.
  - split; simpl.
    + intros a0 id0 j0 Hj0. destruct (Hj _ _ _ Hj0) as (ts0 & Hin & ?). exists ts0. split; [by right|done].
    + intros a0 fd0 id0 ts0 [[= -> _ -> ->]|Hin]%elem_of_cons; [by left|right; by eapply Hb].
  - eapply asked_less; [done..|]. intros a fd id ts [<-|Hin]%elem_of_cons; done.
  - eapply asked_less; [done..|]. intros a fd id ts. by eapply taken_request.
  - eapply asked_insert; [done| |exact Ht|]; [apply (Hb a fd); rewrite HB; by left|]. intros a0 fd0 id0 ts0. by eapply taken_request.
  - destruct (Hj a id j Hl) as (ts & Hts & Htg). pose proof (gd_wf _ _ _ _ (proto_good _ a id j Hinv Hl)) as Hw.
    destruct (next_body_spec j Hw) as (o & j2 & Hb2 & _ & _ & _ & _ & _ & Htg2 & _).
    assert (j2 = j') as -> by congruence. eapply asked_insert; [done|exact Hts|by rewrite Htg2|].
    intros a0 fd0 id0 ts0 Hin. destruct HB as [->| ->]; [done|]. unfold ask in Hin.
    destruct (link a t) as [[b s]|]; [|done]. by apply elem_of_cons in Hin as [[=]|Hin].
  - eapply asked_less; [done..|]. intros a fd id0 ts Hin%reply_request; [by eapply taken_request|done].
  - eapply asked_less; [done..|]. intros a fd id0 ts. by eapply taken_request.
  - eapply asked_less; [done..|]. intros a fd id0 ts Hin0. destruct HB as [->| ->]; [done|]. by apply reply_request in Hin0.
  - destruct (Hj a id j Hl) as (ts & Hts & Htg). pose proof (gd_wf _ _ _ _ (proto_good _ a id j Hinv Hl)) as Hw.
    destruct (mark_body_spec ip port j Hw) as (z2 & j2 & Hb2 & _ & _ & _ & _ & _ & Htg2 & _).
    assert (j2 = j') as -> by congruence. eapply asked_insert; [done|exact Hts|by rewrite Htg2|].
    intros a0 fd0 id0 ts0. by eapply taken_request.
  - eapply asked_less; [done|apply delete_subseteq|]. intros a0 fd id0 ts [Hin|Hin]%elem_of_app; [|done].
    rewrite Forall_forall in HF. by destruct (HF _ Hin) as (b & s & t & fd' & [=] & _).
  - eapply asked_less; [done..|]. intros a0 fd id0 ts. by eapply taken_request.
Qed.

Lemma proto_empty : proto_inv (Protocol ∅ ∅ [] [] []).
Proof. intros a id. simpl (pr_jobs _). rewrite lookup_empty. apply ph_unasked; [apply not_elem_of_nil|].
  intros b s fd ty g _ Hg. simpl in Hg. by rewrite lookup_empty in Hg.
Qed.

Lemma asked_empty : asked_for (Protocol ∅ ∅ [] [] []).
Proof.
  split; simpl; [intros a id j; by rewrite lookup_empty|]. intros a fd id ts Hin. by apply not_elem_of_nil in Hin.
Qed.

End protocol.
