(* ===== verification/Cluster.v ===== *)
(** * Cluster: several agents connected to each other

    The agents of EventHandler, each with its scheduler, and the connections between
    them: what an agent sends with its system calls is what another one receives.
    Each agent handles its events one at a time (Interleaving is about its threads);
    the agents take their turns in any order.

    The connections between the agents are given and stay open, and nobody is
    announced: what happens when an agent is lost is in Recovery. *)

From Stdlib Require Import Ascii.
From S2P Require Import Prelude CString TablaHash CommonTypes LocalResource OwnedJobs KnownNodes NodeStructures Connections Program Adapter ResourceAdapter AdapterSafety Protocol Recovery ThreadPool Outbox Server EventHandler EventSafety Reservation.
Local Open Scope Z_scope.

(** ** The text of the messages *)

Definition line_of (m : msg) : string :=
  match m with
  | MReserve id t => reserve_line id t
  | MRelease id t => release_line id t
  | MGranted id => job_line "GRANTED" id
  | MDenied id => job_line "DENIED" id
  | MRequest id ts => job_request_text id ts
  | MJobRelease id => job_line "JOB_RELEASE" id
  | MJobGranted id => job_line "JOB_GRANTED" id
  | MJobDenied id => job_line "JOB_DENIED" id
  | MJobTimeout id => job_line "JOB_TIMEOUT" id
  end.

Definition text_of (m : msg) : string := line_of m +:+ str_nl.

(** ** The network card of an agent

    What has arrived on each descriptor and has not been read, and what the agent has
    sent in the current event.  The system accepts every send; a [recv] returns what
    is left of the first text on the descriptor, which [cl_joins] makes of several
    messages.  No connection is made or accepted. *)
Record nic := Nic { nic_in : list (Z * string); nic_out : list (Z * string); nic_env : environment }.

Fixpoint receive (fd : Z) (n : nat) (l : list (Z * string)) : option (string * list (Z * string)) :=
  match l with
  | [] => None
  | (fd', text) :: l' =>
      if fd' =? fd then
        Some (str_take n text, if (String.length text <=? n)%nat then l' else (fd, str_drop n text) :: l')
      else '(bytes, l2) ← receive fd n l'; Some (bytes, (fd', text) :: l2)
  end.

#[export] Instance nic_kernel : Kernel nic := {
  k_send fd s k := (AnswerSent (String.length s), Nic (nic_in k) (nic_out k ++ [(fd, s)]) (nic_env k));
  k_recv fd n k :=
    match receive fd n (nic_in k) with
    | Some (bytes, l) => (Received bytes, Nic l (nic_out k) (nic_env k))
    | None => (RecvAgain, k)
    end;
  k_recvfrom _ _ k := (None, k);
  k_accept _ k := ((-1, EmptyString), k);
  k_socket k := (-1, k);
  k_connect _ _ _ k := (ConnectError, k);
  k_getsockopt _ k := (true, k);
  k_env k := (nic_env k, k)
}.

(** ** The cluster

    [net_size]: the number of agents.  [net_peer a fd]: the agent and the descriptor at
    the other end, when it is an agent; the others are schedulers.  [net_conns a]: the
    table of the agent. *)
Record network := Network { net_size : nat; net_peer : nat -> Z -> option (nat * Z); net_conns : nat -> connections }.

Record network_ok (net : network) : Prop := {
  nk_sym a fd b s : net_peer net a fd = Some (b, s) -> net_peer net b s = Some (a, fd);
  nk_range a fd b s : net_peer net a fd = Some (b, s) -> 0 <= fd < Z.of_nat MAX_FDS;
  nk_size a fd b s : net_peer net a fd = Some (b, s) -> (b < net_size net)%nat;
  nk_conns a : conns_ok (net_conns net a);
  nk_short a : Forall conn_short (net_conns net a)
}.

(** Where [send_outbox] sends a message: the descriptor it names, or that of the
    connection with its address. *)
Definition route (conns : connections) (m : out_msg_t) : option Z :=
  if target_fd m =? -1 then
    fd ← find_fd_by_ip_port conns (target_ip m) (wrap32 (target_port m));
    if fd =? -1 then None else Some fd
  else Some (target_fd m).

(** Where the RESERVEs of the agent [a] for [t] arrive. *)
Definition net_link (net : network) (a : nat) (t : target) : option (nat * Z) :=
  fd ← route (net_conns net a) (to_node t EmptyString); net_peer net a fd.

Record cluster := Cluster { cl_agents : list (server nic); cl_told : list (nat * Z * string) }.

Definition set_env (env : environment) (sv : server nic) : server nic :=
  set_kernel (Nic (nic_in (sv_kernel sv)) (nic_out (sv_kernel sv)) env) sv.
Definition arrive (fd : Z) (text : string) (sv : server nic) : server nic :=
  set_kernel (Nic (nic_in (sv_kernel sv) ++ [(fd, text)]) (nic_out (sv_kernel sv)) (nic_env (sv_kernel sv))) sv.
Definition refill (inbox : list (Z * string)) (sv : server nic) : server nic :=
  set_kernel (Nic inbox (nic_out (sv_kernel sv)) (nic_env (sv_kernel sv))) sv.
Definition silent (sv : server nic) : server nic :=
  set_kernel (Nic (nic_in (sv_kernel sv)) [] (nic_env (sv_kernel sv))) sv.

Section cluster.
Context (net : network).

(** What the agent [a] sent goes to its peer, or is told to its scheduler. *)
Definition hand (a : nat) (c : cluster) (x : Z * string) : cluster :=
  let '(fd, text) := x in
  match net_peer net a fd with
  | Some (b, s) => Cluster (alter (arrive s text) b (cl_agents c)) (cl_told c)
  | None => Cluster (cl_agents c) (cl_told c ++ [(a, fd, text)])
  end.

(** The cluster after an event of the agent [a] that left it as [sv]. *)
Definition after (a : nat) (sv : server nic) (c : cluster) : cluster :=
  foldl (hand a) (Cluster (<[a := silent sv]> (cl_agents c)) (cl_told c)) (nic_out (sv_kernel sv)).

(** A scheduler writes. *)
Definition write (a : nat) (fd : Z) (text : string) (c : cluster) : cluster :=
  Cluster (alter (arrive fd text) a (cl_agents c)) (cl_told c).

(** The tasks the epoll thread gives the workers: something has arrived on a
    connection, or it is time for the periodic check. *)
Definition due (sv : server nic) (task : WorkerTask) : Prop :=
  match wt_type task with
  | TASK_TCP_CLIENT_MSG => wt_fd task ∈ (nic_in (sv_kernel sv)).*1
  | TASK_GARBAGE_COLLECTOR => True
  | _ => False
  end.

(** The identifiers of the jobs: the scheduler takes them from
    [erlang:unique_integer], so that no two jobs of an agent have the same. *)
Definition id_ok (id : Z) : Prop := 0 <= id < 2 ^ 31.

(** A petition a client may write: it fits the receive buffer and does not name a
    resource of a node twice (see [duplicate_reserve_leaks]). *)
Record request_fits (id : Z) (ts : list target) : Prop := {
  rf_id : id_ok id;
  rf_targets : Forall petition_ok ts;
  rf_keys : NoDup ((fun t => (tg_ip t, tg_port t, tg_type t)) <$> ts);
  rf_line : no_char ch_nl (job_request_text id ts) = true;
  rf_text : no_char "000" (job_request_text id ts) = true;
  rf_length : (String.length (text_of (MRequest id ts)) < BUFFER_SIZE)%nat
}.

(** An agent just started, with its connections. *)
Definition fresh_agent (a : nat) (sv : server nic) : Prop :=
  exists cpu ram gpu ctx env, in_u32 cpu /\ in_u32 ram /\ in_u32 gpu /\ sc_mynode ctx = true /\
    sv = Server (Shared (init_node cpu ram gpu) (net_conns net a) []) ctx (Nic [] [] env) [].

(** The states of the cluster, with the room the tables surely have and the jobs asked
    for so far.  Between two events the connections may bring together texts that
    arrived one after the other, as far as the receive buffer goes; beyond that a line
    would be cut, and the agent does not put the parts together. *)
Inductive cl_reach : Z -> list (nat * Z * list target) -> cluster -> Prop :=
  | cl_start agents :
      length agents = net_size net -> (forall a sv, agents !! a = Some sv -> fresh_agent a sv) -> cl_reach NODE_ROOM [] (Cluster agents [])
  | cl_event k A c a sv env task sv' :
      cl_reach k A c -> EVENT_COST <= k -> cl_agents c !! a = Some sv -> due sv task ->
      returns (run_task task) (set_env env sv) () sv' ->
      cl_reach (k - EVENT_COST) A (after a sv' c)
  | cl_asks k A c a fd id ts :
      cl_reach k A c -> 0 <= fd < Z.of_nat MAX_FDS -> net_peer net a fd = None ->
      (a, id) ∉ A.*1 -> request_fits id ts ->
      cl_reach k ((a, id, ts) :: A) (write a fd (text_of (MRequest id ts)) c)
  | cl_releases k A c a fd id :
      cl_reach k A c -> 0 <= fd < Z.of_nat MAX_FDS -> net_peer net a fd = None -> id_ok id ->
      cl_reach k A (write a fd (text_of (MJobRelease id)) c)
  | cl_joins k A c a sv fd pre text mid text' post :
      cl_reach k A c -> cl_agents c !! a = Some sv ->
      nic_in (sv_kernel sv) = pre ++ (fd, text) :: mid ++ (fd, text') :: post -> fd ∉ mid.*1 ->
      (String.length (text +:+ text') < BUFFER_SIZE)%nat ->
      cl_reach k A (Cluster (<[a := refill (pre ++ (fd, text +:+ text') :: mid ++ post) sv]> (cl_agents c)) (cl_told c)).

End cluster.
