(* ===== verification/ClusterEvents.v ===== *)
(** * ClusterEvents: what an agent of a cluster does with a message

    The agents of Cluster, each on its own: what they send on their network card, and
    what an event leaves of the node and of the outbox ([reaction]), for every message
    of the protocol. *)

From Stdlib Require Import Ascii.
From S2P Require Import Prelude CString TablaHash CommonTypes LocalResource OwnedJobs KnownNodes NodeStructures Connections Program Adapter ResourceAdapter AdapterSafety Protocol Recovery ThreadPool Outbox Server EventHandler EventSafety Reservation Cluster.
Local Open Scope Z_scope.

(** ** The agents on their network card *)

#[export] Instance nic_laws : @KernelLaws nic nic_kernel.
Proof.
  apply (Build_KernelLaws (fun _ _ => 0%nat)).
  - by intros fd s k k' [=].
  - by intros fd s k n k' [= <- _].
  - intros fd n k b k' Hk. simpl in Hk. destruct (receive fd n (nic_in k)) as [[bytes l]|] eqn:E; [|done].
    injection Hk as <- _. revert bytes l E. induction (nic_in k) as [|[fd' text] l' IH]; intros bytes l E; [done|].
    simpl in E. destruct (fd' =? fd); [injection E as <- _; rewrite str_take_length; lia|].
    destruct (receive fd n l') as [[b2 l2]|]; [|done]. injection E as <- _. by eapply IH.
  - intros fd k z ip k' [= <- <- _]. simpl. lia.
  - intros k z k' [= <- _]. lia.
Qed.

Lemma receive_first fd n pre text post :
  fd ∉ pre.*1 -> (String.length text <= n)%nat -> receive fd n (pre ++ (fd, text) :: post) = Some (text, pre ++ post).
Proof.
  intros Hpre Hl. induction pre as [|[fd' text'] pre IH]; simpl.
  - by rewrite Z.eqb_refl, (proj2 (Nat.leb_le _ _) Hl), str_take_all.
  - apply not_elem_of_cons in Hpre as [Hne Hpre]. rewrite (proj2 (Z.eqb_neq _ _)) by done. by rewrite (IH Hpre).
Qed.

Definition sent (x : Z * string) (sv : server nic) : server nic :=
  set_kernel (Nic (nic_in (sv_kernel sv)) (nic_out (sv_kernel sv) ++ [x]) (nic_env (sv_kernel sv))) sv.

(** [sv'] is [sv] after sending [xs]; the log aside. *)
Record sent_all (xs : list (Z * string)) (sv sv' : server nic) : Prop := {
  sa_shared : sv_shared sv' = sv_shared sv;
  sa_ctx : sv_ctx sv' = sv_ctx sv;
  sa_kernel : sv_kernel sv' = Nic (nic_in (sv_kernel sv)) (nic_out (sv_kernel sv) ++ xs) (nic_env (sv_kernel sv))
}.

Lemma sent_all_nil sv : sent_all [] sv sv.
Proof. split; [done..|]. rewrite app_nil_r. by destruct (sv_kernel sv). Qed.

Lemma sent_all_app xs ys sv sv1 sv2 : sent_all xs sv sv1 -> sent_all ys sv1 sv2 -> sent_all (xs ++ ys) sv sv2.
Proof. intros [? ? Hk1] [? ? Hk2]. split; [congruence..|]. rewrite Hk2, Hk1. simpl. by rewrite app_assoc. Qed.

Lemma evals_send_nic fd text sv :
  text ≠ EmptyString -> evals (send_tcp_message fd text) sv (fun _ sv' => sent_all [(fd, text)] sv sv').
Proof.
  intros Hne. assert (Hpos : (0 < String.length text)%nat) by (destruct text; [done|simpl; lia]). exists 2%nat. eexists _, _. split; cycle 1.
  - intros [|[|fuel]] Hf; [lia..|]. unfold send_tcp_message.
    assert (Hk : k_send fd (str_drop 0 text) (sv_kernel sv) = (AnswerSent (String.length text), sv_kernel (sent (fd, text) sv)))
      by done.
    rewrite (send_loop_unfold (S fuel) _ fd text 0 sv _ _ Hpos Hk).
    change (str_drop 0 text) with text. rewrite (proj2 (Nat.ltb_lt 0 (String.length text))) by done.
    cbn [send_loop]. rewrite (proj2 (Nat.ltb_ge (0 + String.length text) (String.length text))) by lia.
    by unfold serve, mret, handler_ret, interp.
  - by split.
Qed.

(** What a message becomes on the wire. *)
Definition routed (conns : connections) (m : out_msg_t) : option (Z * string) :=
  fd ← route conns m; Some (fd, message m).

Lemma evals_send_out_nic m sv :
  conns_ok (sv_conns sv) -> message m ≠ EmptyString ->
  evals (send_out_msg m) sv (fun _ sv' => sent_all (option_list (routed (sv_conns sv) m)) sv sv').
Proof.
  intros Hc Hne. unfold send_out_msg, routed, route. apply evals_bind.
  destruct (Z.eqb_spec (target_fd m) (-1)) as [Htf|Htf].
  - destruct (find_fd_total (sv_conns sv) (target_ip m) (wrap32 (target_port m)) Hc) as (fd & Hfd & _).
    apply evals_bind. eapply evals_adapter; [by apply run_read_table|]. apply evals_ret. simpl fst.
    rewrite Hfd. cbn [mbind option_bind]. set (sv1 := Server _ _ _ _).
    assert (Hsv : sent_all [] sv sv1) by (split; [done..|]; simpl; rewrite app_nil_r; by destruct (sv_kernel sv)).
    destruct (Z.eqb_spec fd (-1)) as [->|Hfd1]; cbn [negb].
    + apply evals_bind. unfold connect_to_tcp_node. apply evals_bind. eapply evals_asked; [done|].
      apply evals_ret, evals_ret. destruct Hsv as [? ? Hk]. by split.
    + apply evals_bind. eapply evals_mono; [by apply evals_send_nic|]. intros z sv2 Hs. apply evals_ret.
      by eapply (sent_all_app []).
  - apply evals_ret. rewrite (proj2 (Z.eqb_neq _ _) Htf). cbn [negb]. apply evals_bind.
    eapply evals_mono; [by apply evals_send_nic|]. intros z sv2 Hs. by apply evals_ret.
Qed.

Lemma evals_send_outbox_nic ms sv :
  conns_ok (sv_conns sv) -> Forall (fun m => message m ≠ EmptyString) ms ->
  evals (send_outbox ms) sv (fun _ sv' => sent_all (omap (routed (sv_conns sv)) ms) sv sv').
Proof.
  intros Hc Hms. unfold send_outbox. rewrite Forall_forall in Hms.
  eapply evals_mono; [apply (evals_each (fun rest sv' => exists pre, ms = pre ++ rest /\
    sent_all (omap (routed (sv_conns sv)) pre) sv sv'))|].
  - exists []. split; [done|apply sent_all_nil].
  - intros m rest sv1 Hm (pre & -> & Hs). pose proof (sa_shared _ _ _ Hs) as Hsh.
    eapply evals_mono; [apply evals_send_out_nic; [by rewrite Hsh|by apply Hms]|].
    intros [] sv2 Hs2. rewrite Hsh in Hs2. exists (pre ++ [m]). split; [by rewrite <- app_assoc|].
    rewrite omap_app. eapply sent_all_app; [exact Hs|]. simpl. by destruct (routed _ m).
  - intros _ sv' (pre & Hpre & Hs). rewrite app_nil_r in Hpre. by rewrite Hpre.
Qed.

(** ** One event *)

(** After an event in which [ms] was put in the outbox: [inbox] is what is left to
    read. *)
Record reacted (Q : node_data_t -> list out_msg_t -> Prop) (inbox : list (Z * string)) (sv sv' : server nic) : Prop := {
  re_conns : sv_conns sv' = sv_conns sv;
  re_ctx : sv_ctx sv' = sv_ctx sv;
  re_msgs : exists ms, Q (sv_node sv') ms /\
    sv_kernel sv' = Nic inbox (nic_out (sv_kernel sv) ++ omap (routed (sv_conns sv)) (take MAX_OUTBOX ms)) (nic_env (sv_kernel sv))
}.

Abbreviation texts ms := (Forall (fun m => message m ≠ EmptyString) ms).

Definition patch_of (sv : server nic) (ip : option string) (socket : Z) (buffer : option string) (action : JuaniAction) : adapter () :=
  resource_adapter_patch (nic_env (sv_kernel sv)) (Some (sv_ctx sv)) ip (wrap32 socket) buffer action.

(** A call of the adapter and the sending of its outbox. *)
Lemma evals_call_send {A} ip socket buffer action sv Q (r : list out_msg_t -> A) :
  conns_ok (sv_conns sv) ->
  runs (Caller (Some MAX_OUTBOX) (sv_conns sv)) (sv_node sv) [] (patch_of sv ip socket buffer action)
    (fun _ n' ms' => Q n' ms' /\ texts ms') ->
  evals (outbox ← call_patch ip socket buffer (Some MAX_OUTBOX) action; send_outbox outbox;; mret (r outbox)) sv
    (fun _ sv' => reacted Q (nic_in (sv_kernel sv)) sv sv').
Proof.
  intros Hc Hr. destruct (Hr _ (call_view (Some MAX_OUTBOX) sv)) as ([] & st & n' & ms & Hp & [Hn Ho Hcs] & HQ & Ht).
  apply evals_bind. eapply evals_call; [done|exact Hp|]. intros _.
  assert (Hl : left_in st = take MAX_OUTBOX ms) by (unfold left_in; by rewrite Ho). rewrite Hl.
  apply evals_bind. eapply evals_mono; [apply evals_send_outbox_nic|].
  - simpl. rewrite Hcs. exact Hc.
  - apply Forall_take, Ht.
  - intros [] sv' [Hsh Hx Hk]. apply evals_ret. simpl in Hsh, Hx, Hk. rewrite Hcs in Hk. split.
    + rewrite Hsh. exact Hcs.
    + exact Hx.
    + exists ms. split; [rewrite Hsh, Hn; exact HQ|exact Hk].
Qed.

Lemma c_text_all s : no_char "000" s = true -> c_text s = s.
Proof.
  induction s as [|a s IH]; simpl; [done|]. intros [Ha Hs]%andb_true_iff. apply negb_true_iff in Ha.
  rewrite Ha. by rewrite IH.
Qed.

(** One line of what was read. *)
Lemma evals_line ip fd line sv Q :
  conns_ok (sv_conns sv) -> line ≠ EmptyString ->
  runs (Caller (Some MAX_OUTBOX) (sv_conns sv)) (sv_node sv) []
    (patch_of sv (Some ip) fd (Some line) ACTION_RESPOND) (fun _ n' ms' => Q n' ms' /\ texts ms') ->
  evals (handle_line ip fd line) sv (fun _ sv' => reacted Q (nic_in (sv_kernel sv)) sv sv').
Proof.
  intros Hc Hne Hr. unfold handle_line.
  rewrite (proj2 (Nat.ltb_lt 0 (String.length line))) by (destruct line; [done|simpl; lia]).
  destruct (evals_call_send (A := ()) (Some ip) fd (Some line) ACTION_RESPOND sv Q (fun _ => ()) Hc Hr)
    as (f & [] & sv' & HQ & Hf).
  exists f, (), sv'. split; [done|].
  intros fuel Hle. specialize (Hf fuel Hle). rewrite serve_bind in Hf. rewrite serve_bind.
  destruct (serve (call_patch _ _ _ _ _ fuel) sv) as [[outbox sv2]|]; [|done]. cbn [mbind option_bind] in Hf |- *.
  rewrite serve_bind in Hf. destruct outbox as [|m outbox]; [exact Hf|].
  change (serve (send_outbox (m :: outbox) fuel) sv2 = Some ((), sv')).
  destruct (serve (send_outbox (m :: outbox) fuel) sv2) as [[[] sv3]|]; [exact Hf|done].
Qed.

(** A text read from a connection. *)
Lemma evals_attend k totals sv fd c text inbox (R : server nic -> Prop) :
  server_inv k totals sv -> 0 <= fd < Z.of_nat MAX_FDS -> sv_conns sv !! Z.to_nat fd = Some c ->
  receive fd (BUFFER_SIZE - 1) (nic_in (sv_kernel sv)) = Some (text, inbox) ->
  text ≠ EmptyString -> no_char "000" text = true ->
  (forall e sv', R sv' -> R (log_event e sv')) ->
  evals (each (strtok_all ch_nl text) (handle_line (cn_ip c) fd)) (refill inbox sv) (fun _ sv' => R sv') ->
  evals (run_task (Task fd TASK_TCP_CLIENT_MSG)) sv (fun _ sv' => R sv').
Proof.
  intros Hi Hfd Hc Hrecv Hne Hnul HR Hl.
  assert (Hk : k_recv fd (BUFFER_SIZE - 1) (sv_kernel sv) = (Received text, sv_kernel (refill inbox sv))).
  { unfold k_recv, nic_kernel. by rewrite Hrecv. }
  unfold run_task. cbn [wt_type wt_fd]. apply evals_bind.
  unfold handle_client_message. apply evals_bind. eapply evals_copy_ip; [exact Hi|done|]. intros c' Hc' _.
  rewrite Hc in Hc'. injection Hc' as <-. apply evals_bind. unfold receive_tcp_message. apply evals_bind.
  eapply evals_asked; [exact Hk|]. apply evals_ret. cbv iota beta.
  rewrite (proj2 (Z.ltb_lt _ _)) by (destruct text; [done|simpl; lia]). apply evals_bind.
  rewrite c_text_all by done. eapply evals_mono; [exact Hl|]. intros [] sv2 HR2.
  apply evals_ret. cbn [negb Z.eqb]. by apply evals_sys, HR.
Qed.

(** ** What the handlers print *)

Lemma id_u32 id : id_ok id -> in_u32 id.
Proof. unfold id_ok, in_u32, UINT_RANGE. lia. Qed.
Lemma id_int id : id_ok id -> to_int id = id.
Proof. unfold id_ok, to_int, UINT_RANGE. intros Hid. by rewrite (proj2 (Z.ltb_lt _ _)) by lia. Qed.

Lemma reserve_text id t : id_ok id -> target_ok t -> reserve_msg id t = text_of (MReserve id t).
Proof. intros Hid Ht. apply reserve_msg_line; [by apply id_u32|done]. Qed.
Lemma release_text id t : id_ok id -> target_ok t -> release_msg id t = text_of (MRelease id t).
Proof. intros Hid Ht. apply release_msg_line; [by apply id_u32|done]. Qed.

Lemma job_text kw id :
  id_ok id -> no_char "%" kw = true -> (String.length kw <= 11)%nat ->
  snprintf 64 (kw +:+ " %u" +:+ str_nl) [PU id] = job_line kw id +:+ str_nl.
Proof. intros Hid. by apply job_msg_line, id_u32. Qed.

Lemma granted_text id : id_ok id -> snprintf 64 ("GRANTED %u" +:+ str_nl) [PU id] = text_of (MGranted id).
Proof. intros Hid. apply (job_text "GRANTED"); [done..|simpl; lia]. Qed.
Lemma denied_text id : id_ok id -> snprintf 64 ("DENIED %u" +:+ str_nl) [PU id] = text_of (MDenied id).
Proof. intros Hid. apply (job_text "DENIED"); [done..|simpl; lia]. Qed.
Lemma job_granted_text id : id_ok id -> snprintf 64 ("JOB_GRANTED %u" +:+ str_nl) [PU id] = text_of (MJobGranted id).
Proof. intros Hid. apply (job_text "JOB_GRANTED"); [done..|simpl; lia]. Qed.
Lemma job_denied_text id : id_ok id -> snprintf 64 ("JOB_DENIED %u" +:+ str_nl) [PU id] = text_of (MJobDenied id).
Proof. intros Hid. apply (job_text "JOB_DENIED"); [done..|simpl; lia]. Qed.
Lemma job_timeout_text id : id_ok id -> snprintf 64 ("JOB_TIMEOUT %u" +:+ str_nl) [PU id] = text_of (MJobTimeout id).
Proof. intros Hid. apply (job_text "JOB_TIMEOUT"); [done..|simpl; lia]. Qed.

(** The signed form of the waking loop is the same for these identifiers. *)
Lemma wake_text e : id_ok (jr_job_id e) -> wake_msg e = to_fd (jr_socket e) (text_of (MGranted (jr_job_id e))).
Proof.
  intros Hid. unfold wake_msg. f_equal. rewrite id_int by done. rewrite <- granted_text by done.
  unfold snprintf. f_equal. unfold id_ok in Hid.
  change (format false ("GRANTED %d" +:+ str_nl) [PD (jr_job_id e)]) with ("GRANTED " +:+ itoa (jr_job_id e) +:+ format false str_nl []).
  unfold itoa. by rewrite (proj2 (Z.ltb_ge _ _)) by lia.
Qed.

Lemma text_nonempty m : text_of m ≠ EmptyString.
Proof. unfold text_of. destruct (line_of m); done. Qed.

(** ** Agents of a cluster

    Their jobs and the requests that wait there come from the clients of the
    cluster. *)

Definition wait_ok (e : elem_job_request_t) : Prop := id_ok (jr_job_id e) /\ 0 <= jr_socket e < Z.of_nat MAX_FDS.

Record tame_node (n : node_data_t) : Prop := {
  tn_jobs : map_Forall (fun id j => id_ok id /\ Forall petition_ok (targets j)) (jobs_in n);
  tn_waits : forall t, valid_res t -> Forall wait_ok (pend (nd_resources n) t);
  tn_known : nd_known_nodes n = create_known_nodes
}.

Definition msg_ok (m : msg) : Prop :=
  match m with
  | MReserve id t | MRelease id t => id_ok id /\ target_ok t
  | MRequest id ts => request_fits id ts
  | MGranted id | MDenied id | MJobRelease id | MJobGranted id | MJobDenied id | MJobTimeout id => id_ok id
  end.

(** Every message is one line, which fits in the receive buffer. *)
Record one_line (m : msg) : Prop := {
  ol_nl : no_char ch_nl (line_of m) = true;
  ol_nul : no_char "000" (line_of m) = true;
  ol_length : (String.length (text_of m) < BUFFER_SIZE)%nat
}.

Lemma line_nonempty m : line_of m ≠ EmptyString.
Proof. by destruct m. Qed.

Lemma target_one_line kw id t :
  in_u32 id -> target_ok t -> no_char ch_nl kw = true -> no_char "000" kw = true -> (String.length kw <= 20)%nat ->
  let l := kw +:+ utoa id +:+ " " +:+ res_name (tg_type t) +:+ " " +:+ utoa (tg_quantity t) in
  no_char ch_nl l = true /\ no_char "000" l = true /\ (String.length (l +:+ str_nl) < BUFFER_SIZE)%nat.
Proof.
  intros Hid [Hq _] Hnl Hnul Hlen l. subst l. rewrite !no_char_app, Hnl, Hnul, !no_char_utoa by done.
  split_and!; [by destruct (tg_type t)..|]. rewrite !str_length_app, res_name_length.
  pose proof (utoa_length id Hid). pose proof (utoa_length _ Hq). unfold BUFFER_SIZE. simpl. lia.
Qed.

Lemma job_one_line kw id :
  in_u32 id -> no_char ch_nl kw = true -> no_char "000" kw = true -> (String.length kw <= 20)%nat ->
  let l := job_line kw id in
  no_char ch_nl l = true /\ no_char "000" l = true /\ (String.length (l +:+ str_nl) < BUFFER_SIZE)%nat.
Proof.
  intros Hid Hnl Hnul Hlen l. subst l. unfold job_line. rewrite !no_char_app, Hnl, Hnul, !no_char_utoa by done.
  split_and!; [done..|]. rewrite !str_length_app. pose proof (utoa_length id Hid). unfold BUFFER_SIZE. simpl. lia.
Qed.

Lemma msg_one_line m : msg_ok m -> one_line m.
Proof.
  intros Hm. enough (no_char ch_nl (line_of m) = true /\ no_char "000" (line_of m) = true /\
    (String.length (line_of m +:+ str_nl) < BUFFER_SIZE)%nat) as (? & ? & ?) by done.
  destruct m as [id t|id t|id|id|id ts|id|id|id|id]; simpl in Hm.
  1: destruct Hm as [Hid%id_u32 Ht]; by apply (target_one_line "RESERVE "); [..|simpl; lia].
  1: destruct Hm as [Hid%id_u32 Ht]; by apply (target_one_line "RELEASE "); [..|simpl; lia].
  3: by destruct Hm.
  all: apply id_u32 in Hm; apply job_one_line; [done..|simpl; lia].
Qed.

(** The text of several messages, as a [recv] may return it. *)
Definition texts_of (ms : list msg) : string := foldr (fun m s => text_of m +:+ s) EmptyString ms.

Lemma texts_of_app ms ms' : texts_of (ms ++ ms') = texts_of ms +:+ texts_of ms'.
Proof. induction ms as [|m ms IH]; simpl; [done|]. by rewrite IH, str_app_assoc. Qed.

Lemma texts_of_nonempty ms : ms ≠ [] -> texts_of ms ≠ EmptyString.
Proof. destruct ms as [|m ms]; [done|]. intros _. simpl. by destruct m. Qed.

Lemma texts_of_lines ms :
  Forall msg_ok ms -> strtok_all ch_nl (texts_of ms) = line_of <$> ms /\ no_char "000" (texts_of ms) = true.
Proof.
  induction 1 as [|m ms Hm _ [IH1 IH2]]; [done|]. destruct (msg_one_line m Hm) as [Hnl Hnul _].
  simpl texts_of. unfold text_of, str_nl. split.
  - rewrite str_app_assoc. simpl. rewrite strtok_all_cons by (done || apply line_nonempty). by rewrite IH1.
  - by rewrite !no_char_app, Hnul, IH2.
Qed.

(** None of them overflows the array of [handle_reserve]. *)
Lemma texts_tame ms : Forall msg_ok ms -> tame (texts_of ms).
Proof.
  intros Hms. destruct (texts_of_lines ms Hms) as [Hl Hnul]. unfold tame. rewrite c_text_all, Hl by done.
  apply Forall_fmap. eapply Forall_impl; [exact Hms|]. intros m Hm. simpl.
  destruct m as [id t|id t|id|id|id ts|id|id|id|id]; try done.
  destruct Hm as [Hid Ht]. change (line_of _) with (reserve_line id t). rewrite scan_reserve by (done || by apply id_u32).
  unfold reserve_overflow. by rewrite res_name_length.
Qed.

Lemma tame_no_hidden n : tame_node n -> no_hidden (nd_resources n).
Proof.
  intros [_ Hw _] t Ht. eapply Forall_impl; [by apply Hw|]. intros e [Hid _]. unfold id_ok, JOB_ID_HIDDEN, UINT_RANGE in *. lia.
Qed.

Lemma granted_petitions n id j t : tame_node n -> jobs_in n !! id = Some j -> t ∈ granted j -> petition_ok t.
Proof.
  intros Htame Hj Ht. destruct (tn_jobs _ Htame id j Hj) as [_ Hts]. rewrite Forall_forall in Hts. apply Hts.
  unfold granted in Ht. apply list_elem_of_fmap in Ht as (p & -> & [_ Hp]%list_elem_of_filter).
  unfold targets. by apply list_elem_of_fmap_2.
Qed.

(** What holds of the requests that wait holds of those that are woken. *)
Lemma wakes_Forall (P : elem_job_request_t -> Prop) r jobs es r' jobs' :
  shape r -> wakes r jobs es r' jobs' -> (forall t, valid_res t -> Forall P (pend r t)) ->
  Forall P es /\ forall t, valid_res t -> Forall P (pend r' t).
Proof.
  intros Hs Hw Hp. revert Hs Hp. induction Hw as [r jobs|r jobs t e s es r' jobs' Hg Hw IH]; intros Hs Hp; [by split|].
  pose proof (cg_resources _ _ _ _ _ Hg) as Hr. pose proof (cg_type _ _ _ _ _ Hg) as Ht.
  assert (Hs1 : shape (set_avail r t (av r t - jr_resource_quantity e))) by by apply shape_set_avail.
  destruct (IH) as [Hes Hp'].
  - rewrite Hr. by apply shape_set_queue.
  - intros t' Ht'. rewrite Hr, pend_set_queue by done. destruct (decide _) as [->|]; [|by apply Hp].
    apply queue_delete_Forall. by apply Hp.
  - split; [|done]. constructor; [|done]. destruct (cg_first _ _ _ _ _ Hg) as (pre & next & Hpe & _).
    specialize (Hp t Ht). rewrite Hpe in Hp. by apply Forall_app in Hp as [_ [? _]%Forall_cons_1].
Qed.

(** The messages an agent does nothing with: a GRANTED for a job it does not have or on
    a connection whose port is not known, and those for a scheduler. *)
Definition unheard (n : node_data_t) (port : Z) (m : msg) : Prop :=
  match m with
  | MGranted id => port = 0 \/ jobs_in n !! id = None
  | MJobGranted _ | MJobDenied _ | MJobTimeout _ => True
  | _ => False
  end.

(** What an agent does with a message from [ip], on a connection registered with
    [port]: the node and the messages it leaves. *)
Inductive reaction (k : Z) (n : node_data_t) (fd : Z) (ip : string) (port : Z) : msg -> node_data_t -> list out_msg_t -> Prop :=
  | ra_reserve id t z r' jobs' :
      new_job_outcome (nd_resources n) (nd_active_jobs n) id fd (tg_quantity t) (tg_type t) z r' jobs' ->
      reaction k n fd ip port (MReserve id t) (set_local n r' jobs') (reserve_reply fd id z)
  | ra_release id t s es r' jobs' :
      del_effect k (nd_resources n) (nd_active_jobs n) id fd resource_types s -> wakes s.1 s.2 es r' jobs' ->
      reaction k n fd ip port (MRelease id t) (set_local n r' jobs') (wake_msg <$> es)
  | ra_granted id j z j' j2 jobs' ms :
      port ≠ 0 -> jobs_in n !! id = Some j -> mark_body ip port j = Some (z, j') -> granted_effect id j j' z j2 ms ->
      jobs_map jobs' = <[id := j2]> (jobs_in n) ->
      reaction k n fd ip port (MGranted id) (set_owned n jobs') ms
  | ra_denied id n' :
      without_job k id n n' ->
      reaction k n fd ip port (MDenied id) n'
        (releases id (job_granted n id) ++ [to_fd (job_owner n id) (text_of (MJobDenied id))])
  | ra_job_release id n' :
      without_job k id n n' -> reaction k n fd ip port (MJobRelease id) n' (releases id (job_granted n id))
  | ra_request id ts now j0 o j jobs' :
      job_wf j0 -> fresh_job id fd now ts j0 -> next_body j0 = Some (o, j) ->
      jobs_map jobs' = <[id := j]> (jobs_in n) ->
      reaction k n fd ip port (MRequest id ts) (set_owned n jobs')
        match o with Some t => [to_node t (reserve_msg id t)] | None => [] end
  | ra_ignored m : unheard n port m -> reaction k n fd ip port m n [].

Section reacting.
Context (k : Z) (totals : list Z) (sv : server nic) (c : ConnectionState) (fd : Z).
Context (Hi : server_inv k totals sv) (Hk : 1 <= k) (Hmy : sc_mynode (sv_ctx sv) = true)
  (Hfd : 0 <= fd < Z.of_nat MAX_FDS) (Htame : tame_node (sv_node sv)).

Let n := sv_node sv.
Let cl := Caller (Some MAX_OUTBOX) (sv_conns sv).

Lemma fd_wrap : wrap32 fd = fd.
Proof. apply wrap32_small. unfold in_u32, UINT_RANGE. unfold MAX_FDS in Hfd. lia. Qed.
Lemma fd_int : to_int fd = fd.
Proof. apply id_int. unfold id_ok. unfold MAX_FDS in Hfd. lia. Qed.
Lemma fd_u32 : in_u32 fd.
Proof. unfold in_u32, UINT_RANGE. unfold MAX_FDS in Hfd. lia. Qed.

Lemma runs_patch ip line (Q : () -> node_data_t -> list out_msg_t -> Prop) :
  runs cl n [] (respond (nic_env (sv_kernel sv)) ip fd line) Q -> runs cl n [] (patch_of sv ip fd (Some line) ACTION_RESPOND) Q.
Proof.
  intros Hr. unfold patch_of, resource_adapter_patch. rewrite Hmy, fd_wrap. cbn [negb]. by apply runs_bind, runs_reset.
Qed.

Lemma releases_texts id : id_ok id -> texts (releases id (job_granted n id)).
Proof.
  intros Hid. unfold releases, job_granted. destruct (jobs_in n !! id) as [j|] eqn:Hj; [|constructor].
  apply Forall_fmap, Forall_forall. intros t Ht. simpl. rewrite release_text; [apply text_nonempty|done|].
  by apply (granted_petitions n id j).
Qed.

(** The end of a job leaves a tame node. *)
Lemma tame_without id n' : without_job k id n n' -> tame_node n'.
Proof.
  intros (_ & Hm & Hr & _ & Hkn). destruct Htame as [Hj Hw Hn]. split; [|by rewrite Hr|by rewrite Hkn].
  rewrite Hm. by apply map_Forall_delete.
Qed.

Lemma tame_local r jobs :
  (forall t, valid_res t -> Forall wait_ok (pend r t)) -> tame_node (set_local n r jobs).
Proof. intros Hw. destruct Htame. by split. Qed.

Lemma tame_owned jobs id j :
  jobs_map jobs = <[id := j]> (jobs_in n) -> id_ok id -> Forall petition_ok (targets j) -> tame_node (set_owned n jobs).
Proof.
  intros Hm Hid Hts. destruct Htame as [Hj Hw Hn]. split; [|done..]. simpl. rewrite Hm. by apply map_Forall_insert_2.
Qed.

(** The port the connection was registered with. *)
Definition port_of (conns : connections) : Z := default 0 (get_connection_port conns fd).

Definition done_with (m : msg) (_ : ()) (n' : node_data_t) (ms' : list out_msg_t) : Prop :=
  (reaction k n fd (cn_ip c) (port_of (sv_conns sv)) m n' ms' /\ tame_node n') /\ texts ms'.

Lemma done_ignored m : unheard n (port_of (sv_conns sv)) m -> done_with m () n [].
Proof. intros Hm. split; [split; [by constructor|done]|constructor]. Qed.

Abbreviation reacts m :=
  (runs cl n [] (patch_of sv (Some (cn_ip c)) fd (Some (line_of m)) ACTION_RESPOND) (done_with m)).

Lemma local_of : local_wf k (nd_resources n) (nd_active_jobs n).
Proof. exact (nw_local _ _ (ai_wf _ _ _ (si_agent _ _ _ Hi))). Qed.
Lemma owned_of_inv : owned_wf k (nd_owned_jobs n).
Proof. exact (nw_owned _ _ (ai_wf _ _ _ (si_agent _ _ _ Hi))). Qed.

Lemma reserve_reply_text id z :
  id_ok id -> reserve_reply fd id z = (if z =? 1 then [to_fd fd (text_of (MGranted id))]
    else if z =? -1 then [to_fd fd (text_of (MDenied id))] else []).
Proof. intros Hid. unfold reserve_reply. by rewrite granted_text, denied_text. Qed.

Lemma reacts_reserve id t : id_ok id -> target_ok t -> reacts (MReserve id t).
Proof.
  intros Hid Ht. apply runs_patch.
  change (respond (nic_env (sv_kernel sv)) (Some (cn_ip c)) fd (line_of (MReserve id t))) with (handle_reserve fd (reserve_line id t)).
  eapply runs_mono; [apply (runs_reserve _ k); [apply full_max|exact local_of|done|exact fd_u32|by apply id_u32|done]|].
  intros [] n' ms' (z & r' & jobs' & Hout & _ & -> & ->). split; [split|].
  - by constructor.
  - apply tame_local. intros ty Hty. destruct Htame as [_ Hw _].
    pose proof (lw_shape _ _ _ local_of) as Hs. inversion Hout; subst; [by apply Hw| |by apply Hw].
    rewrite pend_set_queue by (done || apply Ht). destruct (decide _) as [->|]; [|by apply Hw].
    apply Forall_app. split; [by apply Hw|]. apply Forall_singleton. by split.
  - rewrite reserve_reply_text by done. destruct (z =? 1); [|destruct (z =? -1)]; repeat constructor; apply text_nonempty.
Qed.

Lemma reacts_release id t : id_ok id -> target_ok t -> reacts (MRelease id t).
Proof.
  intros Hid Ht. apply runs_patch.
  change (respond (nic_env (sv_kernel sv)) (Some (cn_ip c)) fd (line_of (MRelease id t))) with
    (handle_release (rnd (nic_env (sv_kernel sv))) (garbage (nic_env (sv_kernel sv))) fd (release_line id t)).
  eapply runs_mono; [eapply (runs_release _ k); [apply full_max|exact local_of|by apply tame_no_hidden|
    apply scan_release; [by apply id_u32|done]]|].
  intros [] n' ms' (s & es & r' & jobs' & _ & Hef & Hw & -> & -> & _ & _).
  pose proof Hef as (Hl1 & Hp1 & _).
  destruct (wakes_Forall wait_ok _ _ _ _ _ (lw_shape _ _ _ Hl1) Hw) as [Hes Hp'].
  { intros ty Hty. rewrite Hp1. by apply (tn_waits _ Htame). }
  split; [split|]; [by econstructor|by apply tame_local|].
  apply Forall_fmap. eapply Forall_impl; [exact Hes|]. intros e [He _]. change (message (wake_msg e) ≠ EmptyString). rewrite wake_text by done. apply text_nonempty.
Qed.

Lemma reacts_denied id : id_ok id -> reacts (MDenied id).
Proof.
  intros Hid. apply runs_patch.
  change (respond (nic_env (sv_kernel sv)) (Some (cn_ip c)) fd (line_of (MDenied id))) with (handle_denied (job_line "DENIED" id)).
  eapply runs_mono; [apply (runs_denied _ k); [apply full_max|exact owned_of_inv|]|].
  { apply scan_job; [by apply id_u32|done]. }
  intros [] n' ms' [Hw ->]. rewrite job_denied_text by done. split; [split|]; [by constructor|by eapply tame_without|].
  apply Forall_app. split; [by apply releases_texts|]. repeat constructor. apply text_nonempty.
Qed.

Lemma reacts_job_release id : id_ok id -> reacts (MJobRelease id).
Proof.
  intros Hid. apply runs_patch.
  change (respond (nic_env (sv_kernel sv)) (Some (cn_ip c)) fd (line_of (MJobRelease id)))
    with (handle_job_release (job_line "JOB_RELEASE" id)).
  eapply runs_mono; [apply (runs_job_release _ k); [apply full_max|exact owned_of_inv|]|].
  { apply scan_job; [by apply id_u32|done]. }
  intros [] n' ms' [Hw ->]. split; [split|]; [by constructor|by eapply tame_without|by apply releases_texts].
Qed.
Lemma set_owned_same (n' : node_data_t) : set_owned n' (nd_owned_jobs n') = n'.
Proof. by destruct n'. Qed.

Lemma next_petition j0 o j t : job_wf j0 -> next_body j0 = Some (o, j) -> o = Some t -> t ∈ targets j0 /\ targets j = targets j0.
Proof.
  intros Hw Hb ->. destruct (next_body_spec j0 Hw) as (o2 & j2 & Hb2 & _ & _ & _ & _ & _ & Htg & _ & _ & Ho & _).
  assert (o2 = Some t /\ j2 = j) as [-> ->] by (split; congruence). split; [|done]. by eapply list_elem_of_lookup_2.
Qed.

Lemma next_targets j0 o j : job_wf j0 -> next_body j0 = Some (o, j) -> targets j = targets j0.
Proof.
  intros Hw Hb. destruct (next_body_spec j0 Hw) as (o2 & j2 & Hb2 & _ & _ & _ & _ & _ & Htg & _).
  assert (j2 = j) as -> by congruence. done.
Qed.

Lemma mark_targets ip port j z j' : job_wf j -> mark_body ip port j = Some (z, j') -> targets j' = targets j /\ job_wf j'.
Proof.
  intros Hw Hb. destruct (mark_body_spec ip port j Hw) as (z2 & j2 & Hb2 & Hw' & _ & _ & _ & _ & Htg & _).
  assert (j2 = j') as -> by congruence. done.
Qed.

Lemma reacts_granted id : id_ok id -> reacts (MGranted id).
Proof.
  intros Hid. apply runs_patch.
  change (respond (nic_env (sv_kernel sv)) (Some (cn_ip c)) fd (line_of (MGranted id))) with
    (port ← connection_port (to_int fd); handle_granted (Some (cn_ip c)) port (job_line "GRANTED" id)).
  pose proof (si_conns _ _ _ Hi) as Hc. apply runs_bind. rewrite fd_int.
  assert (Hport : get_connection_port (sv_conns sv) fd = Some (port_of (sv_conns sv))).
  { unfold port_of. by rewrite get_connection_port_spec. }
  eapply runs_connection_port; [exact Hport|]. set (port := port_of (sv_conns sv)) in *.
  assert (Hs : sscanf (job_line "GRANTED" id) "GRANTED %u" = [VU id]) by (by apply scan_job; [apply id_u32|]).
  destruct (Z.eqb_spec port 0) as [H0|H0].
  { unfold handle_granted. rewrite Hs, (proj2 (Z.eqb_eq _ _) H0). apply runs_ret, done_ignored. by left. }
  destruct (jobs_in n !! id) as [j|] eqn:Hj.
  - eapply runs_mono; [by apply (runs_granted _ k _ id j); [apply full_max|exact owned_of_inv|..]|].
    intros [] n' ms' (z & j' & j2 & jobs' & Hb & Hef & _ & Hm & ->).
    pose proof (ow_job _ _ _ _ owned_of_inv Hj) as Hjw. destruct (mark_targets _ _ _ _ _ Hjw Hb) as [Htg Hjw'].
    destruct (tn_jobs _ Htame id j Hj) as [_ Hts].
    assert (Ht2 : targets j2 = targets j) by (destruct Hef as [|o j2 Hn|]; [done|by rewrite (next_targets _ _ _ Hjw' Hn)|done]).
    split; [split|]; [by econstructor|by eapply tame_owned; [|done|rewrite Ht2]|].
    destruct Hef as [|[t|] j2 Hn|]; [| |constructor..].
    + apply Forall_singleton. simpl. rewrite job_granted_text by done. apply text_nonempty.
    + apply Forall_singleton. simpl. rewrite reserve_text; [apply text_nonempty|done|].
      destruct (next_petition _ _ _ _ Hjw' Hn eq_refl) as [Hin _]. rewrite Htg in Hin.
      rewrite Forall_forall in Hts. by apply Hts.
  - unfold handle_granted. rewrite Hs, (proj2 (Z.eqb_neq _ _) H0).
    destruct (mark_petition_spec k _ id (cn_ip c) port owned_of_inv) as (z & jobs' & Hmk & _ & Hm).
    rewrite Hj in Hm. destruct Hm as [-> ->]. apply runs_bind, runs_lock, runs_bind. eapply runs_lift; [done|].
    apply runs_bind. eapply runs_on_owned; [exact Hmk|]. rewrite set_owned_same. cbn [Z.eqb].
    apply runs_bind, runs_ret, runs_unlock, done_ignored. by right.
Qed.

Lemma reacts_request id ts : request_fits id ts -> reacts (MRequest id ts).
Proof.
  intros [Hid Hts _ _ _ _]. apply runs_patch.
  change (respond (nic_env (sv_kernel sv)) (Some (cn_ip c)) fd (line_of (MRequest id ts))) with
    (handle_job_request (now1 (nic_env (sv_kernel sv))) fd (job_request_text id ts)).
  eapply runs_mono; [apply (runs_job_request _ k); [apply full_max|exact owned_of_inv|done|by apply id_u32|done]|].
  intros [] n' ms' (jobs' & j0 & o & j & Hjw & Hf & Hb & -> & _ & Hm & ->).
  assert (Htg : Forall petition_ok (targets j0)) by (destruct Hf as (-> & _); by apply Forall_take).
  split; [split|].
  - by eapply ra_request.
  - eapply tame_owned; [exact Hm|done|]. by rewrite (next_targets _ _ _ Hjw Hb).
  - destruct o as [t|]; [|constructor]. apply Forall_singleton. simpl. rewrite reserve_text; [apply text_nonempty|done|].
    destruct (next_petition _ _ _ _ Hjw Hb eq_refl) as [Hin _]. rewrite Forall_forall in Htg. by apply Htg.
Qed.

(** Every message of the cluster. *)
Lemma reacts_all m : msg_ok m -> reacts m.
Proof.
  destruct m; simpl.
  - intros [? ?]. by apply reacts_reserve.
  - intros [? ?]. by apply reacts_release.
  - apply reacts_granted.
  - apply reacts_denied.
  - apply reacts_request.
  - apply reacts_job_release.
  - intros _. by apply runs_patch, runs_ret, done_ignored.
  - intros _. by apply runs_patch, runs_ret, done_ignored.
  - intros _. by apply runs_patch, runs_ret, done_ignored.
Qed.

End reacting.

