(* ===== verification/ClusterSimulation.v ===== *)
(** * ClusterSimulation: an event of an agent is a sequence of steps of the protocol

    Each [reaction] of an agent of Cluster, its periodic check included, is matched by
    steps of [proto_step] of Reservation, from any abstract state that represents the
    nodes and the messages before it to one that represents those after it. *)

From Stdlib Require Import Ascii.
From stdpp Require Import relations.
From S2P Require Import Prelude Queues TablaHash CString CommonTypes LocalResource OwnedJobs KnownNodes NodeStructures Connections Program Adapter ResourceAdapter AdapterSafety Protocol Recovery ThreadPool Outbox Server EventHandler EventSafety Reservation Cluster ClusterEvents.
Local Open Scope Z_scope.

(** ** The refinement *)

Section refinement.
Context (net : network) (Hnet : network_ok net).

Abbreviation peer := (net_peer net).
Abbreviation link := (net_link net).
Abbreviation proto_step := (proto_step peer link).

Lemma link_peer a t b s : link a t = Some (b, s) -> exists fd, peer b s = Some (a, fd).
Proof.
  unfold net_link. destruct (route _ _) as [fd|]; [|done]. simpl. intros Hp. exists fd. by apply (nk_sym _ Hnet).
Qed.

(** The requests that wait at an agent. *)
Definition waiting (n : node_data_t) : list elem_job_request_t := resource_types ≫= pend (nd_resources n).

Abbreviation spread f l := (concat (imap f l)).

(** [P] is the abstract state of the nodes, with the messages [B] in transit. *)
Record represents (nodes : list node_data_t) (B : list packet) (A : list (nat * Z * list target)) (P : protocol) : Prop := {
  rp_jobs a id : pr_jobs P !! (a, id) = n ← nodes !! a; jobs_in n !! id;
  rp_held b key : pr_held P !! (b, key) = n ← nodes !! b; contenido (nd_active_jobs n) !! key;
  rp_waits : pr_waits P ≡ₚ spread (fun b n => pair b <$> waiting n) nodes;
  rp_box : pr_box P ≡ₚ B;
  rp_asked : pr_asked P = A
}.

(** Steps of the protocol lead from any abstract state of the one to one of the
    other. *)
Definition sim (nodes : list node_data_t) (B : list packet) (A : list (nat * Z * list target))
    (nodes' : list node_data_t) (B' : list packet) (A' : list (nat * Z * list target)) : Prop :=
  forall P, represents nodes B A P -> exists P', rtc proto_step P P' /\ represents nodes' B' A' P'.

Lemma sim_refl nodes B A : sim nodes B A nodes B A.
Proof. intros P HP. exists P. split; [apply rtc_refl|done]. Qed.

Lemma sim_trans nodes B A nodes1 B1 A1 nodes2 B2 A2 :
  sim nodes B A nodes1 B1 A1 -> sim nodes1 B1 A1 nodes2 B2 A2 -> sim nodes B A nodes2 B2 A2.
Proof.
  intros H1 H2 P HP. destruct (H1 P HP) as (P1 & Hs1 & HP1). destruct (H2 P1 HP1) as (P2 & Hs2 & HP2).
  exists P2. split; [by eapply rtc_trans|done].
Qed.

Lemma sim_perm nodes B B' A : B ≡ₚ B' -> sim nodes B A nodes B' A.
Proof. intros HB P [? ? ? Hb ?]. exists P. split; [apply rtc_refl|]. split; [done..|by rewrite Hb|done]. Qed.

Lemma represents_perm nodes B B' A P : B ≡ₚ B' -> represents nodes B A P -> represents nodes B' A P.
Proof. intros HB [? ? ? Hb ?]. split; [done..|by rewrite Hb|done]. Qed.

Lemma sim_once nodes B A nodes' B' A' :
  (forall J H W Bx, represents nodes B A (Protocol J H W Bx A) ->
     exists P', proto_step (Protocol J H W Bx A) P' /\ represents nodes' B' A' P') -> sim nodes B A nodes' B' A'.
Proof.
  intros Hs [J H W Bx Ax] HP. pose proof (rp_asked _ _ _ _ HP) as HA. simpl in HA. subst Ax.
  destruct (Hs J H W Bx HP) as (P' & Hst & HP'). exists P'. split; [by apply rtc_once|done].
Qed.

Lemma sim_lose nodes B A x : sim nodes (x :: B) A nodes B A.
Proof.
  apply sim_once. intros J H W Bx [? ? ? Hb ?]. eexists. split; [by eapply ps_lose|]. by split.
Qed.

Lemma sim_tell nodes B A x : owner peer x = None -> sim nodes B A nodes (x :: B) A.
Proof.
  intros Hx. apply sim_once. intros J H W Bx [? ? ? Hb ?]. eexists. split; [by apply (ps_tell _ _ J H W Bx A x)|].
  split; [done..| |done]. simpl in *. by rewrite Hb.
Qed.

Lemma sim_tells nodes B A l : Forall (fun x => owner peer x = None) l -> sim nodes B A nodes (l ++ B) A.
Proof.
  induction 1 as [|x l Hx Hl IH]; [apply sim_refl|]. eapply sim_trans; [exact IH|]. by apply sim_tell.
Qed.

(** A list of all the agents, and one of them. *)
Lemma spread_split {X Y} (f : nat -> X -> list Y) (l : list X) (a : nat) (x : X) :
  l !! a = Some x -> exists rest, forall y, spread f (<[a := y]> l) ≡ₚ f a y ++ rest.
Proof.
  revert f a. induction l as [|z l IH]; intros f [|a] Hl; simpl in *; [done..| |].
  - exists (spread (f ∘ S) l). intros y. done.
  - destruct (IH (f ∘ S) a Hl) as [rest Hr]. exists (f 0%nat z ++ rest). intros y.
    simpl. rewrite (Hr y). simpl. by rewrite Permutation_app_swap_app.
Qed.

(** The node of one agent changes. *)
Lemma represents_node nodes B A J H W Bx a n n' J' H' W' B' :
  represents nodes B A (Protocol J H W Bx A) -> nodes !! a = Some n ->
  (forall a' id, J' !! (a', id) = if decide (a' = a) then jobs_in n' !! id else J !! (a', id)) ->
  (forall b key, H' !! (b, key) = if decide (b = a) then contenido (nd_active_jobs n') !! key else H !! (b, key)) ->
  (forall rest, W ≡ₚ (pair a <$> waiting n) ++ rest -> W' ≡ₚ (pair a <$> waiting n') ++ rest) ->
  represents (<[a := n']> nodes) B' A (Protocol J' H' W' B' A).
Proof.
  intros [Hj Hh Hw _ _] Hn HJ HH HW. simpl in *. pose proof (lookup_lt_Some _ _ _ Hn) as Hlt. split; simpl.
  - intros a' id. rewrite HJ, list_lookup_insert, Hj by done. repeat case_decide; naive_solver.
  - intros b key. rewrite HH, list_lookup_insert, Hh by done. repeat case_decide; naive_solver.
  - destruct (spread_split (fun b n => pair b <$> waiting n) nodes a n Hn) as [rest Hr].
    rewrite (Hr n'). apply HW. rewrite Hw, <- (Hr n). by rewrite list_insert_id.
  - done.
  - done.
Qed.

(** Only the jobs of the agent change. *)
Lemma represents_owned nodes B A J H W Bx a n n' J' B' :
  represents nodes B A (Protocol J H W Bx A) -> nodes !! a = Some n ->
  nd_resources n' = nd_resources n -> nd_active_jobs n' = nd_active_jobs n ->
  (forall a' id, J' !! (a', id) = if decide (a' = a) then jobs_in n' !! id else J !! (a', id)) ->
  represents (<[a := n']> nodes) B' A (Protocol J' H W B' A).
Proof.
  intros HP Hn Hr Ha HJ. eapply represents_node; [done|done|done| |].
  - intros b key. pose proof (rp_held _ _ _ _ HP b key) as Hk. simpl in Hk. rewrite Hk, Ha.
    case_decide; [subst; by rewrite Hn|done].
  - intros rest. unfold waiting. by rewrite Hr.
Qed.

Lemma represents_job nodes B A J H W Bx a n n' id j B' :
  represents nodes B A (Protocol J H W Bx A) -> nodes !! a = Some n ->
  nd_resources n' = nd_resources n -> nd_active_jobs n' = nd_active_jobs n -> jobs_in n' = <[id := j]> (jobs_in n) ->
  represents (<[a := n']> nodes) B' A (Protocol (<[(a, id) := j]> J) H W B' A).
Proof.
  intros HP Hn Hr Ha Hm. eapply represents_owned; [done..|]. intros a' id'. rewrite Hm.
  destruct (decide (a' = a)) as [->|Hne]; [|by rewrite lookup_insert_ne by congruence].
  destruct (decide (id' = id)) as [->|Hne]; [by rewrite !lookup_insert_eq|]. rewrite !lookup_insert_ne by congruence.
  pose proof (rp_jobs _ _ _ _ HP a id') as Hj. simpl in Hj. by rewrite Hj, Hn.
Qed.

Lemma represents_no_job nodes B A J H W Bx a n n' id B' :
  represents nodes B A (Protocol J H W Bx A) -> nodes !! a = Some n ->
  nd_resources n' = nd_resources n -> nd_active_jobs n' = nd_active_jobs n -> jobs_in n' = delete id (jobs_in n) ->
  represents (<[a := n']> nodes) B' A (Protocol (delete (a, id) J) H W B' A).
Proof.
  intros HP Hn Hr Ha Hm. eapply represents_owned; [done..|]. intros a' id'. rewrite Hm.
  destruct (decide (a' = a)) as [->|Hne]; [|by rewrite lookup_delete_ne by congruence].
  destruct (decide (id' = id)) as [->|Hne]; [by rewrite !lookup_delete_eq|]. rewrite !lookup_delete_ne by congruence.
  pose proof (rp_jobs _ _ _ _ HP a id') as Hj. simpl in Hj. by rewrite Hj, Hn.
Qed.

(** Only its reservations and its queues change. *)
Lemma represents_local nodes B A J H W Bx a n r jobs H' W' B' :
  represents nodes B A (Protocol J H W Bx A) -> nodes !! a = Some n ->
  (forall b key, H' !! (b, key) = if decide (b = a) then contenido jobs !! key else H !! (b, key)) ->
  (forall rest, W ≡ₚ (pair a <$> waiting n) ++ rest -> W' ≡ₚ (pair a <$> waiting (set_local n r jobs)) ++ rest) ->
  represents (<[a := set_local n r jobs]> nodes) B' A (Protocol J H' W' B' A).
Proof.
  intros HP Hn HH HW. eapply represents_node; [done|done| |done|done].
  intros a' id. pose proof (rp_jobs _ _ _ _ HP a' id) as Hj. simpl in Hj. rewrite Hj.
  case_decide; [subst; by rewrite Hn|done].
Qed.

Lemma represents_insert nodes B A J H W Bx a n jobs key g :
  represents nodes B A (Protocol J H W Bx A) -> nodes !! a = Some n ->
  contenido jobs = <[key := g]> (contenido (nd_active_jobs n)) ->
  forall b key', (<[(a, key) := g]> H : gmap slot elem_active_job_t) !! (b, key') =
    if decide (b = a) then contenido jobs !! key' else H !! (b, key').
Proof.
  intros HP Hn Hc b key'. rewrite Hc.
  destruct (decide (b = a)) as [->|Hne]; [|by rewrite lookup_insert_ne by congruence].
  destruct (decide (key' = key)) as [->|Hne]; [by rewrite !lookup_insert_eq|]. rewrite !lookup_insert_ne by congruence.
  pose proof (rp_held _ _ _ _ HP a key') as Hh. simpl in Hh. by rewrite Hh, Hn.
Qed.

Lemma represents_same nodes B A J H W Bx a n :
  represents nodes B A (Protocol J H W Bx A) -> nodes !! a = Some n ->
  forall b key', H !! (b, key') = if decide (b = a) then contenido (nd_active_jobs n) !! key' else H !! (b, key').
Proof.
  intros HP Hn b key'. pose proof (rp_held _ _ _ _ HP b key') as Hh. simpl in Hh.
  case_decide; [subst; by rewrite Hh, Hn|done].
Qed.

Lemma waiting_local n r jobs : waiting (set_local n r jobs) = resource_types ≫= pend r.
Proof. done. Qed.

(** The queue of one type among those of the agent. *)
Lemma waiting_split r t :
  valid_res t -> exists rest, forall r', (forall t', t' ≠ t -> pend r' t' = pend r t') ->
    resource_types ≫= pend r' ≡ₚ pend r' t ++ rest.
Proof.
  intros Ht. destruct (proj1 (elem_of_Permutation _ _) (proj1 (valid_res_types t) Ht)) as [others Ho].
  exists (others ≫= pend r). intros r' Hr'. rewrite Ho, bind_cons.
  enough (others ≫= pend r' = others ≫= pend r) as -> by done.
  pose proof resource_types_NoDup as Hnd. rewrite Ho in Hnd. apply NoDup_cons in Hnd as [Hnot _].
  clear Ho. induction others as [|t' others IH]; [done|]. apply not_elem_of_cons in Hnot as [Hne Hnot].
  by rewrite !bind_cons, IH, Hr' by done.
Qed.

(** ** What each reaction is in the protocol *)

Section agent.
Context (a : nat).

(** Where a message in the outbox of the agent arrives, as the messages [ps] say
    what their text is. *)
Definition posted (p : out_msg_t * msg) : list packet :=
  match (fd ← route (net_conns net a) p.1; peer a fd) with Some (b, s) => [(b, s, p.2)] | None => [] end.
Definition says (p : out_msg_t * msg) : Prop := message p.1 = text_of p.2 /\ msg_ok p.2.
Abbreviation posts ps := (ps ≫= posted).

Lemma posts_one p : posts [p] = posted p.
Proof. apply app_nil_r. Qed.

Definition node_pair (t : target) (m : msg) : out_msg_t * msg := (to_node t (text_of m), m).
Definition fd_pair (fd : Z) (m : msg) : out_msg_t * msg := (to_fd fd (text_of m), m).

Lemma says_node t m : msg_ok m -> says (node_pair t m).
Proof. by split. Qed.
Lemma says_fd fd m : msg_ok m -> says (fd_pair fd m).
Proof. by split. Qed.

Lemma posted_node t m : posted (node_pair t m) = match link a t with Some (b, s) => [(b, s, m)] | None => [] end.
Proof. done. Qed.

Lemma posted_fd s m : 0 <= s < Z.of_nat MAX_FDS -> posted (fd_pair s m) = reply peer a s m.
Proof.
  intros Hs. unfold posted, route, reply, fd_pair, to_fd. simpl. rewrite id_int by (unfold id_ok, MAX_FDS in *; lia).
  rewrite (proj2 (Z.eqb_neq _ _)) by lia. simpl. by destruct (peer a s) as [[]|].
Qed.

(** Messages that reserve and free nothing, and the RELEASEs of a job. *)
Definition told (m : msg) : Prop :=
  match m with MDenied _ | MJobRelease _ | MJobGranted _ | MJobDenied _ | MJobTimeout _ => True | _ => False end.

Lemma posted_all (Q : packet -> Prop) ps k :
  Forall (fun p => Forall Q (posted p)) ps -> Forall Q (posts (take k ps)).
Proof.
  intros Hps. apply (Forall_take _ k) in Hps. induction Hps as [|p l Hp Hl IH]; [constructor|]. rewrite bind_cons. by apply Forall_app.
Qed.

Lemma posted_told p : told p.2 -> Forall (fun x => owner peer x = None) (posted p).
Proof.
  unfold posted. destruct p as [d m]; simpl. destruct (_ ≫= _) as [[b s]|]; [|constructor].
  intros Hm. apply Forall_singleton. by destruct m.
Qed.

Lemma posted_release id t : Forall (is_release peer a id) (posted (node_pair t (MRelease id t))).
Proof.
  rewrite posted_node. destruct (link a t) as [[b s]|] eqn:Hl; [|constructor]. apply Forall_singleton.
  destruct (link_peer _ _ _ _ Hl) as [fd Hp]. by exists b, s, t, fd.
Qed.

Lemma tell_steps J H W B A T :
  Forall (fun x => owner peer x = None) T -> rtc proto_step (Protocol J H W B A) (Protocol J H W (T ++ B) A).
Proof.
  induction 1 as [|x T Hx HT IH]; [apply rtc_refl|]. eapply rtc_r; [exact IH|]. simpl.
  by apply (ps_tell _ _ J H W (T ++ B) A x).
Qed.

(** A job ends: its RELEASEs, and what is told about it. *)
Lemma ends_steps J H W B A id j L T :
  J !! (a, id) = Some j -> Forall (is_release peer a id) L -> Forall (fun x => owner peer x = None) T ->
  rtc proto_step (Protocol J H W B A) (Protocol (delete (a, id) J) H W (L ++ T ++ B) A).
Proof.
  intros Hj HL HT. eapply rtc_r; [by apply tell_steps|by eapply ps_end].
Qed.

(** From the message [x] and [n] to [n'] and the messages [ms]. *)
Definition simulated (X : list packet) (n n' : node_data_t) (ms : list out_msg_t) : Prop :=
  exists ps, ps.*1 = ms /\ Forall says ps /\
    forall nodes B A, nodes !! a = Some n ->
      sim nodes (X ++ B) A (<[a := n']> nodes) (posts (take MAX_OUTBOX ps) ++ B) A.

Lemma sim_lose_all nodes B A X : sim nodes (X ++ B) A nodes B A.
Proof. induction X as [|x X IH]; [apply sim_refl|]. eapply sim_trans; [apply sim_lose|exact IH]. Qed.

Lemma simulated_lost X n : simulated X n n [].
Proof.
  exists []. split; [done|]. split; [constructor|]. intros nodes B A Hn. rewrite list_insert_id by done.
  apply sim_lose_all.
Qed.

Lemma sim_steps nodes B A nodes' B' A' :
  (forall J H W Bx, represents nodes B A (Protocol J H W Bx A) -> Bx ≡ₚ B ->
     exists P', rtc proto_step (Protocol J H W Bx A) P' /\ represents nodes' B' A' P') -> sim nodes B A nodes' B' A'.
Proof.
  intros Hs [J H W Bx Ax] HP. pose proof (rp_asked _ _ _ _ HP) as HA. pose proof (rp_box _ _ _ _ HP) as HB.
  simpl in HA, HB. subst Ax. exact (Hs J H W Bx HP HB).
Qed.

Lemma set_local_same n : set_local n (nd_resources n) (nd_active_jobs n) = n.
Proof. by destruct n. Qed.

Lemma simulated_reserve k n fd id t z r' jobs' :
  local_wf k (nd_resources n) (nd_active_jobs n) -> 0 <= fd < Z.of_nat MAX_FDS -> id_ok id -> target_ok t ->
  new_job_outcome (nd_resources n) (nd_active_jobs n) id fd (tg_quantity t) (tg_type t) z r' jobs' ->
  simulated [(a, fd, MReserve id t)] n (set_local n r' jobs') (reserve_reply fd id z).
Proof.
  intros Hl Hfd Hid [_ Hty] Hout. rewrite reserve_reply_text by done. destruct Hout as [|Hav|r' jobs' Hav -> Hc]; cbn [Z.eqb].
  - exists [fd_pair fd (MDenied id)]. split; [done|]. split; [by apply Forall_singleton|].
    intros nodes B A Hn. rewrite set_local_same, list_insert_id by done.
    eapply sim_trans; [apply sim_lose|]. apply sim_tells, posted_all, Forall_singleton, posted_told. done.
  - exists []. split; [done|]. split; [constructor|]. intros nodes B A Hn. apply sim_once.
    intros J H W Bx HP. eexists. split; [eapply ps_queue, (rp_box _ _ _ _ HP)|].
    eapply represents_local; [done|done|by eapply represents_same|]. intros rest Hw. rewrite waiting_local.
    destruct (waiting_split (nd_resources n) (tg_type t) Hty) as [others Ho].
    pose proof (fun t' => pend_set_queue (nd_resources n) (tg_type t)
      (pend (nd_resources n) (tg_type t) ++ [JobRequest id fd (tg_quantity t) (tg_type t)]) t' (lw_shape _ _ _ Hl) Hty) as Hp.
    rewrite (Ho (set_queue _ _ _)) by (intros t' Hne; by rewrite Hp, decide_False).
    unfold waiting in Hw. rewrite Hw, (Ho (nd_resources n)) by done. rewrite Hp, decide_True by done.
    rewrite !fmap_app. simpl. rewrite <- !app_assoc. apply Permutation_middle.
  - exists [fd_pair fd (MGranted id)]. split; [done|]. split; [by apply Forall_singleton|].
    intros nodes B A Hn. apply sim_once. intros J H W Bx HP.
    simpl take. rewrite posts_one, posted_fd by done.
    eexists. split; [eapply ps_grant, (rp_box _ _ _ _ HP)|].
    eapply represents_local; [done|done|by eapply represents_insert|]. done.
Qed.

(** *** Waking the requests that wait *)

Definition wake_pair (e : elem_job_request_t) : out_msg_t * msg := fd_pair (jr_socket e) (MGranted (jr_job_id e)).

Lemma wake_pairs es : Forall wait_ok es -> (wake_pair <$> es).*1 = wake_msg <$> es /\ Forall says (wake_pair <$> es).
Proof.
  induction 1 as [|e es [Hid _] _ [IH1 IH2]]; [by split|]. rewrite !fmap_cons, IH1. split.
  - f_equal. by rewrite wake_text.
  - by constructor.
Qed.

Lemma same_key_comp e e' : comp_job_request e' e = 0 -> same_key e e'.
Proof.
  unfold comp_job_request, same_key. destruct (_ || _) eqn:Hc; [done|]. intros _.
  apply orb_false_iff in Hc as [[Hid Hty]%orb_false_iff Hso].
  rewrite negb_false_iff in Hid, Hty, Hso. apply Z.eqb_eq in Hid, Hso. apply bool_decide_eq_true in Hty. done.
Qed.

(** What holds of every request that waits. *)
Definition queues (r : local_resources_t) : Prop :=
  shape r /\ forall t, valid_res t -> Forall (fun e => wait_ok e /\ jr_resource_type e = t) (pend r t).

Lemma chk_grants_removed r jobs t e s :
  queues r -> chk_grants r jobs t e s ->
  exists e' rest, same_key e e' /\ wait_ok e /\ jr_resource_type e = t /\ e ∈ pend r t /\ pend r t ≡ₚ e' :: rest /\
    queues (chk_resources s) /\
    (forall t', pend (chk_resources s) t' = if decide (t' = t) then rest else pend r t').
Proof.
  intros [Hs Hq] Hg. pose proof (cg_type _ _ _ _ _ Hg) as Ht.
  assert (Hin : e ∈ pend r t).
  { destruct (cg_first _ _ _ _ _ Hg) as (pre & next & -> & _). set_solver. }
  assert (Hs1 : shape (set_avail r t (av r t - jr_resource_quantity e))) by by apply shape_set_avail.
  pose proof (fun t' => pend_set_queue _ t (queue_delete (pend r t) e comp_job_request) t' Hs1 Ht) as Hp.
  rewrite <- (cg_resources _ _ _ _ _ Hg) in Hp.
  destruct (queue_delete_cases (pend r t) e comp_job_request) as [[HF _]|(q1 & e' & q2 & Hqq & _ & He & Hdel)].
  { rewrite Forall_forall in HF. destruct (HF e Hin). apply comp_job_request_refl. }
  pose proof (proj1 (Forall_forall _ _) (Hq t Ht) e Hin) as [Hwe Hte].
  exists e', (q1 ++ q2). split_and!; [by apply same_key_comp|done|done|done| | |].
  - rewrite Hqq. by rewrite Permutation_middle.
  - split; [rewrite (cg_resources _ _ _ _ _ Hg); by apply shape_set_queue|].
    intros t' Ht'. rewrite Hp. case_decide; [subst; apply queue_delete_Forall|]; by apply Hq.
  - intros t'. rewrite Hp, Hdel. by case_decide.
Qed.

Lemma sim_wakes r jobs es r' jobs' :
  wakes r jobs es r' jobs' -> queues r -> Forall wait_ok es /\
  forall n k nodes B A, nodes !! a = Some (set_local n r jobs) ->
    sim nodes B A (<[a := set_local n r' jobs']> nodes) (posts (take k (wake_pair <$> es)) ++ B) A.
Proof.
  induction 1 as [r jobs|r jobs t e s es r' jobs' Hg Hw IH]; intros Hq.
  { split; [constructor|]. intros n k nodes B A Hn. simpl (wake_pair <$> []). rewrite take_nil, list_insert_id by done. apply sim_refl. }
  destruct (chk_grants_removed _ _ _ _ _ Hq Hg) as (e' & rest & Hkey & Hwe & Hte & Hin & Hperm & Hq1 & Hp1).
  destruct (IH Hq1) as [Hes Hsim]. clear IH. split; [by constructor|]. intros n k nodes B A Hn.
  set (n1 := set_local n (chk_resources s) (chk_active s)).
  assert (Hw1 : waiting (set_local n r jobs) ≡ₚ e' :: waiting n1).
  { destruct (waiting_split r t (cg_type _ _ _ _ _ Hg)) as [others Ho]. unfold n1. rewrite !waiting_local, (Ho r) by done.
    rewrite (Ho (chk_resources s)) by (intros t' Hne; pose proof (Hp1 t') as Hp; by rewrite decide_False in Hp).
    rewrite Hp1, decide_True by done. by rewrite Hperm. }
  assert (Hfirst : sim nodes B A (<[a := n1]> nodes) (posts (take k [wake_pair e]) ++ B) A).
  { apply sim_steps. intros J H W Bx HP HB.
    destruct (spread_split (fun b n => pair b <$> waiting n) nodes a _ Hn) as [far Hfar].
    assert (HW : W ≡ₚ (pair a <$> waiting (set_local n r jobs)) ++ far).
    { pose proof (rp_waits _ _ _ _ HP) as HWx. simpl in HWx. rewrite HWx.
      rewrite <- (list_insert_id nodes a _ Hn) at 1. by rewrite Hfar. }
    eexists. split.
    - eapply rtc_l; [eapply (ps_wake _ _ J H W ((pair a <$> waiting n1) ++ far) Bx (posts (take k [wake_pair e]) ++ Bx) A a e e'); [| |exact Hkey|]|].
      + rewrite HW. apply elem_of_app. left. apply list_elem_of_fmap. exists e. split; [done|].
        rewrite waiting_local. apply list_elem_of_bind. exists t. split; [done|].
        by apply valid_res_types, (cg_type _ _ _ _ _ Hg).
      + by rewrite HW, Hw1.
      + destruct k; [by left|right]. simpl take. rewrite take_nil, posts_one. unfold wake_pair. by rewrite posted_fd by apply Hwe.
      + apply rtc_refl.
    - apply (represents_perm _ (posts (take k [wake_pair e]) ++ Bx)); [by rewrite HB|].
      apply (represents_local nodes B A J H W Bx a (set_local n r jobs)); [done|done| |].
      + rewrite Hte. apply (represents_insert _ _ _ _ _ _ _ _ _ _ _ _ HP Hn). by rewrite (cg_active _ _ _ _ _ Hg).
      + intros near Hnear. rewrite HW in Hnear. apply Permutation_app_inv_l in Hnear. by rewrite Hnear. }
  eapply sim_trans; [exact Hfirst|].
  eapply sim_trans; [apply (Hsim n (k - 1)%nat); by apply list_lookup_insert_eq, (lookup_lt_Some _ _ _ Hn)|].
  rewrite list_insert_insert_eq. apply sim_perm. destruct k as [|k]; [done|]. rewrite Nat.sub_succ, Nat.sub_0_r, fmap_cons.
  simpl take. rewrite take_nil, posts_one, bind_cons. rewrite <- !app_assoc. apply Permutation_app_swap_app.
Qed.


Lemma queues_of k n :
  local_wf k (nd_resources n) (nd_active_jobs n) -> tame_node n -> queues (nd_resources n).
Proof.
  intros Hl Htame. split; [exact (lw_shape _ _ _ Hl)|]. intros t Ht. apply Forall_and. split; [by apply tn_waits|].
  eapply Forall_impl; [by apply (lw_pend _ _ _ Hl)|]. by intros e (? & _).
Qed.

Lemma simulated_release k n fd id t s es r' jobs' :
  local_wf k (nd_resources n) (nd_active_jobs n) -> tame_node n ->
  del_effect k (nd_resources n) (nd_active_jobs n) id fd resource_types s -> wakes s.1 s.2 es r' jobs' ->
  simulated [(a, fd, MRelease id t)] n (set_local n r' jobs') (wake_msg <$> es).
Proof.
  intros Hl Htame (Hl1 & Hp1 & _ & _ & Hc1) Hw. destruct s as [r1 jobs1]. simpl in *.
  assert (Hq : queues r1).
  { destruct (queues_of k n Hl Htame) as [_ Hq]. split; [exact (lw_shape _ _ _ Hl1)|]. intros ty. rewrite Hp1. apply Hq. }
  destruct (sim_wakes _ _ _ _ _ Hw Hq) as [Hes Hsim]. destruct (wake_pairs es Hes) as [Hfst Hsays].
  exists (wake_pair <$> es). split; [done|]. split; [done|]. intros nodes B A Hn.
  pose proof (lookup_lt_Some _ _ _ Hn) as Hlt.
  apply (sim_trans _ _ _ (<[a := set_local n r1 jobs1]> nodes) B A); cycle 1.
  { pose proof (Hsim n MAX_OUTBOX (<[a := set_local n r1 jobs1]> nodes) B A) as Hs.
    rewrite list_insert_insert_eq in Hs. apply Hs. by apply list_lookup_insert_eq. }
  apply sim_once. intros J H W Bx HP.
  set (gone := fun kv : slot * elem_active_job_t => ~ (kv.1.1 = a /\ kv.1.2.1 = (id, fd) /\ kv.1.2.2 ∈ resource_types)).
  assert (HH : forall b key, (filter gone H) !! (b, key) =
    if decide (b = a /\ key.1 = (id, fd) /\ key.2 ∈ resource_types) then None else H !! (b, key)).
  { intros b key. destruct (H !! (b, key)) as [g|] eqn:Hg; case_decide as Hd.
    - apply map_lookup_filter_None_2. right. intros g' _ Hng. by apply Hng.
    - apply map_lookup_filter_Some_2; done.
    - apply map_lookup_filter_None_2. by left.
    - apply map_lookup_filter_None_2. by left. }
  eexists. split; [eapply (ps_free _ _ J H (filter gone H) W); [exact (rp_box _ _ _ _ HP)| |]|].
  - intros ty Hty. rewrite HH, decide_True; [done|]. split_and!; [done..|]. by apply valid_res_types.
  - intros b' id' s' ty Hne. rewrite HH, decide_False; [done|]. intros (-> & [= -> ->] & _). done.
  - eapply represents_local; [done|done| |].
    + intros b key. rewrite HH, Hc1, (represents_same _ _ _ _ _ _ _ _ _ HP Hn). repeat case_decide; naive_solver.
    + intros rest HW. rewrite waiting_local.
      enough (resource_types ≫= pend r1 = waiting n) as -> by done. by apply list_bind_ext.
Qed.

(** *** Jobs that end and jobs that go on *)

Definition release_pairs (id : Z) (l : list target) : list (out_msg_t * msg) := (fun t => node_pair t (MRelease id t)) <$> l.

Lemma release_pairs_fst id l : id_ok id -> Forall target_ok l ->
  (release_pairs id l).*1 = releases id l /\ Forall says (release_pairs id l).
Proof.
  intros Hid. induction 1 as [|t l Ht _ [IH1 IH2]]; [by split|]. unfold release_pairs, releases in *.
  rewrite !fmap_cons, IH1. split; [f_equal; by rewrite release_text|by constructor].
Qed.

Lemma job_granted_ok n id : tame_node n -> Forall target_ok (job_granted n id).
Proof.
  intros Htame. unfold job_granted. destruct (jobs_in n !! id) as [j|] eqn:Hj; [|constructor].
  apply Forall_forall. intros t Ht. apply (granted_petitions n id j t Htame Hj Ht).
Qed.

Lemma end_steps n id (T : list (out_msg_t * msg)) J H W B A k :
  J !! (a, id) = jobs_in n !! id -> Forall (fun p => told p.2) T ->
  rtc proto_step (Protocol J H W B A)
    (Protocol (delete (a, id) J) H W (posts (take k (release_pairs id (job_granted n id) ++ T)) ++ B) A).
Proof.
  intros Hj HT. rewrite take_app, bind_app, <- app_assoc.
  assert (HTs : Forall (fun x => owner peer x = None) (posts (take (k - length (release_pairs id (job_granted n id))) T))).
  { apply posted_all. eapply Forall_impl; [exact HT|]. intros p. apply posted_told. }
  unfold job_granted in *. destruct (jobs_in n !! id) as [j|].
  - eapply ends_steps; [done| |done]. apply posted_all, Forall_fmap, Forall_forall. intros t _. apply posted_release.
  - rewrite delete_id by done. change (release_pairs id []) with (@nil (out_msg_t * msg)) in *. rewrite take_nil.
    exact (tell_steps J H W B A _ HTs).
Qed.

Lemma simulated_end X k n n' id T :
  without_job k id n n' -> tame_node n -> id_ok id -> Forall (fun p => told p.2) T -> Forall says T ->
  simulated X n n' (releases id (job_granted n id) ++ T.*1).
Proof.
  intros (_ & Hm & Hr & Ha & _) Htame Hid HT Hsays.
  destruct (release_pairs_fst id (job_granted n id) Hid (job_granted_ok n id Htame)) as [Hfst Hrel].
  exists (release_pairs id (job_granted n id) ++ T). split; [by rewrite fmap_app, Hfst|]. split; [by apply Forall_app|].
  intros nodes B A Hn. eapply sim_trans; [apply sim_lose_all|]. apply sim_steps. intros J H W Bx HP HB.
  eexists. split.
  - apply (end_steps n id T); [|done]. pose proof (rp_jobs _ _ _ _ HP a id) as Hj. simpl in Hj. by rewrite Hj, Hn.
  - eapply represents_perm; [|by eapply represents_no_job]. by rewrite HB.
Qed.

(** The next RESERVE of a job. *)
Definition next_pairs (id : Z) (o : option target) : list (out_msg_t * msg) :=
  match o with Some t => [node_pair t (MReserve id t)] | None => [] end.

Lemma next_steps J H W B A id j o j' :
  J !! (a, id) = Some j -> settled j -> next_body j = Some (o, j') ->
  rtc proto_step (Protocol J H W B A) (Protocol (<[(a, id) := j']> J) H W (posts (take MAX_OUTBOX (next_pairs id o)) ++ B) A).
Proof.
  intros Hj Hs Hb. destruct o as [t|].
  - apply rtc_once. eapply ps_next; [done..|]. right. unfold next_pairs. simpl take. by rewrite posts_one.
  - assert (j' = j) as ->.
    { unfold next_body in Hb. destruct (_ <=? _); [congruence|]. by destruct (oj_petitions j !! _). }
    rewrite insert_id by done. apply rtc_refl.
Qed.

Lemma next_pairs_says id o j j' :
  id_ok id -> Forall petition_ok (targets j) -> job_wf j -> next_body j = Some (o, j') ->
  (next_pairs id o).*1 = match o with Some t => [to_node t (reserve_msg id t)] | None => [] end /\
  Forall says (next_pairs id o).
Proof.
  intros Hid Hts Hw Hb. destruct o as [t|]; [|by split]. destruct (next_petition j (Some t) j' t Hw Hb eq_refl) as [Hin _].
  pose proof (proj1 (Forall_forall _ _) Hts t Hin) as [Hok _]. simpl. rewrite reserve_text by done.
  split; [done|]. by apply Forall_singleton, says_node.
Qed.

Lemma simulated_granted k n fd id ip port j z j' j2 jobs' ms :
  owned_wf k (nd_owned_jobs n) -> tame_node n -> id_ok id ->
  jobs_in n !! id = Some j -> mark_body ip port j = Some (z, j') -> granted_effect id j j' z j2 ms ->
  jobs_map jobs' = <[id := j2]> (jobs_in n) ->
  simulated [(a, fd, MGranted id)] n (set_owned n jobs') ms.
Proof.
  intros Ho Htame Hid Hj Hb Hef Hm. pose proof (ow_job _ _ _ _ Ho Hj) as Hjw.
  destruct (mark_targets _ _ _ _ _ Hjw Hb) as [Htg Hjw'].
  assert (Hps : exists ps, ps.*1 = ms /\ Forall says ps /\ forall J H W B A, J !! (a, id) = Some j' ->
    rtc proto_step (Protocol J H W B A) (Protocol (<[(a, id) := j2]> J) H W (posts (take MAX_OUTBOX ps) ++ B) A)).
  { destruct Hef as [|o j2 Hn|].
    - exists [fd_pair (oj_owner_socket j) (MJobGranted id)]. split; [by simpl; rewrite job_granted_text|].
      split; [by apply Forall_singleton|]. intros J H W B A HJ. rewrite insert_id by done.
      by apply tell_steps, posted_all, Forall_singleton, posted_told.
    - assert (Hts : Forall petition_ok (targets j')) by (rewrite Htg; by apply (tn_jobs _ Htame id)).
      destruct (next_pairs_says id o j' j2 Hid Hts Hjw' Hn) as [Hf Hs]. exists (next_pairs id o). split; [done|].
      split; [done|]. intros J H W B A HJ. eapply next_steps; [done| |done]. by apply (settled_mark ip port j 0).
    - exists []. split; [done|]. split; [constructor|]. intros J H W B A HJ. rewrite insert_id by done. apply rtc_refl. }
  destruct Hps as (ps & Hf & Hs & Hsteps). exists ps. split; [done|]. split; [done|].
  intros nodes B A Hn. apply sim_steps. intros J H W Bx HP HB.
  assert (HJ : J !! (a, id) = Some j) by (pose proof (rp_jobs _ _ _ _ HP a id) as Hx; simpl in Hx; by rewrite Hx, Hn).
  eexists. split.
  - eapply rtc_l; [by eapply (ps_mark _ _ J H W Bx B A a fd id)|]. apply Hsteps, lookup_insert_eq.
  - rewrite insert_insert_eq. by eapply represents_job.
Qed.

Lemma simulated_request n fd id ts now j0 o j jobs' :
  request_fits id ts -> job_wf j0 -> fresh_job id fd now ts j0 -> next_body j0 = Some (o, j) ->
  jobs_map jobs' = <[id := j]> (jobs_in n) ->
  simulated [(a, fd, MRequest id ts)] n (set_owned n jobs')
    match o with Some t => [to_node t (reserve_msg id t)] | None => [] end.
Proof.
  intros [Hid Hts _ _ _ _] Hjw (Htg & _ & _ & H0 & _) Hb Hm.
  destruct (next_pairs_says id o j0 j Hid) as [Hf Hs]; [rewrite Htg; exact (Forall_take _ _ _ Hts)|done..|].
  exists (next_pairs id o). split; [done|]. split; [done|]. intros nodes B A Hn. apply sim_steps. intros J H W Bx HP HB.
  eexists. split.
  - eapply rtc_l; [eapply (ps_start _ _ J H W Bx B A a fd id ts j0); done|].
    eapply next_steps; [apply lookup_insert_eq| |done]. intros p. unfold last_sent. by rewrite H0.
  - rewrite insert_insert_eq. by eapply represents_job.
Qed.

Lemma simulated_reaction k n fd ip port m n' ms :
  node_wf k n -> tame_node n -> 0 <= fd < Z.of_nat MAX_FDS -> msg_ok m -> reaction k n fd ip port m n' ms ->
  simulated [(a, fd, m)] n n' ms.
Proof.
  intros Hwf Htame Hfd Hm Hr. pose proof (nw_local _ _ Hwf) as Hl. pose proof (nw_owned _ _ Hwf) as Ho.
  destruct Hr; simpl in Hm.
  - destruct Hm. by eapply simulated_reserve.
  - by eapply simulated_release.
  - by eapply simulated_granted.
  - apply (simulated_end _ k n n' id [fd_pair (job_owner n id) (MJobDenied id)]); [done..| |]; by apply Forall_singleton.
  - rewrite <- (app_nil_r (releases _ _)). by apply (simulated_end _ k n n' id []).
  - by eapply simulated_request.
  - apply simulated_lost.
Qed.

(** *** The periodic check *)

Definition timeout_pairs (n : node_data_t) (id : Z) : list (out_msg_t * msg) :=
  release_pairs id (job_granted n id) ++ [fd_pair (job_owner n id) (MJobTimeout id)].

Lemma timeout_pairs_fst n ids : tame_node n -> jobs_of n ids ->
  (ids ≫= timeout_pairs n).*1 = replies timeout_reply n ids /\ Forall says (ids ≫= timeout_pairs n).
Proof.
  intros Htame [_ Hex]. induction ids as [|id ids IH]; [by split|].
  destruct IH as [IH1 IH2]; [intros id' Hid'; apply Hex; by right|]. destruct (Hex id) as [j Hj]; [by left|].
  destruct (tn_jobs _ Htame id j Hj) as [Hid _].
  destruct (release_pairs_fst id (job_granted n id) Hid (job_granted_ok n id Htame)) as [Hfst Hrel].
  unfold replies in *. rewrite !bind_cons, fmap_app, IH1, Hj. unfold timeout_pairs. rewrite fmap_app, Hfst.
  split; [|apply Forall_app; split; [apply Forall_app; split; [done|by apply Forall_singleton]|done]].
  f_equal. unfold timeout_reply, job_granted, job_owner. rewrite Hj. by rewrite job_timeout_text.
Qed.

Lemma timeout_steps n ids J H W B A :
  NoDup ids -> (forall id, J !! (a, id) = jobs_in n !! id) ->
  rtc proto_step (Protocol J H W B A)
    (Protocol (foldr (fun id J => delete (a, id) J) J ids) H W (posts (ids ≫= timeout_pairs n) ++ B) A).
Proof.
  intros Hnd HJ. induction Hnd as [|id ids Hid Hnd IH]; [apply rtc_refl|]. eapply rtc_trans; [exact IH|]. clear IH.
  rewrite bind_cons, bind_app, <- app_assoc. simpl foldr.
  rewrite <- (firstn_all (timeout_pairs n id)) at 1. unfold timeout_pairs at 2.
  apply end_steps; [|by apply Forall_singleton]. rewrite <- HJ. clear Hnd. induction ids as [|id' ids IH]; [done|].
  apply not_elem_of_cons in Hid as [Hne Hid]. simpl. rewrite lookup_delete_ne by congruence. by apply IH.
Qed.

Lemma tame_without_jobs k ids n n' : tame_node n -> without_jobs k ids n n' -> tame_node n'.
Proof.
  intros [Hj Hq Hkn] Hw. split.
  - intros id j Hl. rewrite (wj_jobs _ _ _ _ Hw) in Hl. case_decide; [done|]. by apply Hj.
  - by rewrite (wj_resources _ _ _ _ Hw).
  - by rewrite (wj_known _ _ _ _ Hw).
Qed.

Lemma no_dead now : remove_inactive_nodes create_known_nodes 10 now = Some ([], create_known_nodes).
Proof. reflexivity. Qed.

Lemma simulated_check k conns now1 now2 n n' ms :
  tame_node n -> check_done k conns now1 now2 n n' ms -> simulated [] n n' ms /\ tame_node n'.
Proof.
  intros Htame (dead & nodes' & n1 & ms1 & served & rest & Hdead & Hb & Hp & [Hfit _] & Hw & ->).
  rewrite (tn_known _ Htame), no_dead in Hdead. injection Hdead as <- <-.
  assert (n1 = n /\ ms1 = []) as [-> ->].
  { inversion Hb; subst. split; [|done]. destruct Htame as [_ _ Hkn]. destruct n; simpl in *; by subst. }
  clear Hb. apply picks_jobs in Hp as [Hnd Hex].
  assert (Hserved : jobs_of n served).
  { split; [by apply NoDup_app in Hnd as [? _]|]. intros id Hin. apply Hex, elem_of_app. by left. }
  split.
  - destruct (timeout_pairs_fst n served Htame Hserved) as [Hfst Hsays].
    exists (served ≫= timeout_pairs n). split; [done|]. split; [done|]. intros nodes B A Hn.
    rewrite take_ge; cycle 1.
    { destruct served as [|id served]; [simpl; lia|]. rewrite <- (length_fmap fst), Hfst. by apply Hfit. }
    apply sim_steps. intros J H W Bx HP HB. pose proof (rp_jobs _ _ _ _ HP) as HJ. simpl in HJ.
    eexists. split; [apply (timeout_steps n); [by destruct Hserved|intros id; by rewrite HJ, Hn]|].
    eapply represents_perm; [|eapply represents_owned; [done|done|exact (wj_resources _ _ _ _ Hw)|exact (wj_active _ _ _ _ Hw)|]].
    + by rewrite HB.
    + intros a' id.
      assert (Hlk : (foldr (fun id J => delete (a, id) J) J served) !! (a', id) =
        if decide (a' = a /\ id ∈ served) then None else J !! (a', id)).
      { clear. induction served as [|id' served IH]; simpl.
        - by rewrite decide_False by set_solver.
        - destruct (decide ((a', id) = (a, id'))) as [[= -> ->]|Hne].
          + by rewrite lookup_delete_eq, decide_True by set_solver.
          + rewrite lookup_delete_ne, IH by congruence. apply decide_ext. set_solver. }
      rewrite Hlk, (wj_jobs _ _ _ _ Hw), HJ. repeat case_decide; subst; rewrite ?Hn; naive_solver.
  - by eapply tame_without_jobs.
Qed.

(** *** Its events *)

(** What the agent did from [sv] to [sv'] with the packets [X]. *)
Record acted (X : list packet) (inbox : list (Z * string)) (sv sv' : server nic) : Prop := {
  ac_conns : sv_conns sv' = sv_conns sv;
  ac_ctx : sv_ctx sv' = sv_ctx sv;
  ac_tame : tame_node (sv_node sv');
  ac_msgs : exists ps, Forall says ps /\
    sv_kernel sv' = Nic inbox (nic_out (sv_kernel sv) ++ omap (routed (sv_conns sv)) ps.*1) (nic_env (sv_kernel sv)) /\
    forall nodes B A, nodes !! a = Some (sv_node sv) ->
      sim nodes (X ++ B) A (<[a := sv_node sv']> nodes) (posts ps ++ B) A
}.

Lemma acted_refl sv : tame_node (sv_node sv) -> acted [] (nic_in (sv_kernel sv)) sv sv.
Proof.
  intros Ht. split; [done..|]. exists []. split; [constructor|]. split; [by destruct sv as [? ? [] ?]; simpl; rewrite app_nil_r|].
  intros nodes B A Hn. rewrite list_insert_id by done. apply sim_refl.
Qed.

Lemma acted_log X inbox e sv sv' : acted X inbox sv sv' -> acted X inbox sv (log_event e sv').
Proof. by intros [? ? ? ?]. Qed.

Lemma acted_trans X Y sv sv1 sv2 inbox inbox' :
  acted X inbox sv sv1 -> acted Y inbox' sv1 sv2 -> acted (X ++ Y) inbox' sv sv2.
Proof.
  intros [Hc1 Hx1 _ (ps1 & Hs1 & Hk1 & Hsim1)] [Hc2 Hx2 Ht2 (ps2 & Hs2 & Hk2 & Hsim2)].
  split; [congruence..|done|]. exists (ps1 ++ ps2). split; [by apply Forall_app|]. split.
  - rewrite Hk2, Hk1, Hc1. simpl. by rewrite fmap_app, omap_app, app_assoc.
  - intros nodes B A Hn. rewrite <- app_assoc. eapply sim_trans; [by apply Hsim1|].
    eapply sim_trans; [apply sim_perm, Permutation_app_swap_app|].
    eapply sim_trans; [apply (Hsim2 _ _ A); by apply list_lookup_insert_eq, (lookup_lt_Some _ _ _ Hn)|].
    rewrite list_insert_insert_eq. apply sim_perm. rewrite bind_app, <- app_assoc. apply Permutation_app_swap_app.
Qed.

Lemma reacted_acted X inbox sv sv' :
  reacted (fun n' ms => simulated X (sv_node sv) n' ms /\ tame_node n') inbox sv sv' -> acted X inbox sv sv'.
Proof.
  intros [Hc Hx (ms & [(ps & Hf & Hs & Hsim) Ht] & Hk)]. split; [done..|].
  exists (take MAX_OUTBOX ps). split; [exact (Forall_take _ _ _ Hs)|]. split; [|done]. by rewrite fmap_take, Hf.
Qed.

Lemma says_texts ps : Forall says ps -> texts ps.*1.
Proof. intros Hs. apply Forall_fmap. eapply Forall_impl; [exact Hs|]. intros p [Hp _]. simpl. rewrite Hp. apply text_nonempty. Qed.

Lemma gc_round_acted k totals sv :
  server_inv k totals sv -> sc_mynode (sv_ctx sv) = true -> tame_node (sv_node sv) ->
  evals gc_round sv (fun _ sv' => acted [] (nic_in (sv_kernel sv)) sv sv').
Proof.
  intros Hi Hmy Ht. pose proof (si_conns _ _ _ Hi) as Hc. eapply evals_mono; [|intros ms sv' Hr; by apply reacted_acted, Hr].
  apply (evals_call_send None (-1) None ACTION_CHECK_DEADNODES sv _ (fun outbox => outbox) Hc).
  unfold patch_of, resource_adapter_patch. rewrite Hmy. cbn [negb].
  apply runs_bind, runs_reset. eapply runs_mono; [apply (runs_check_deadnodes k); [exact (ai_wf _ _ _ (si_agent _ _ _ Hi))|exact Hc]|].
  intros [] n' ms Hd. destruct (simulated_check _ _ _ _ _ _ _ Ht Hd) as [Hsim Ht'].
  split; [done|]. destruct Hsim as (ps & <- & Hs & _). by apply says_texts.
Qed.

(** *** The lines of one text *)

Lemma acts_line k totals sv fd c m :
  server_inv k totals sv -> 1 <= k -> sc_mynode (sv_ctx sv) = true -> tame_node (sv_node sv) ->
  sv_conns sv !! Z.to_nat fd = Some c -> 0 <= fd < Z.of_nat MAX_FDS -> msg_ok m ->
  evals (handle_line (cn_ip c) fd (line_of m)) sv (fun _ sv' => acted [(a, fd, m)] (nic_in (sv_kernel sv)) sv sv').
Proof.
  intros Hi Hk Hmy Ht Hc Hfd Hm. eapply evals_mono.
  - apply (evals_line _ _ _ _ (fun n' ms => simulated [(a, fd, m)] (sv_node sv) n' ms /\ tame_node n'));
      [exact (si_conns _ _ _ Hi)|apply line_nonempty|].
    eapply runs_mono; [by apply (reacts_all k totals sv c fd Hi)|].
    intros [] n' ms [[Hr Ht'] Htx]. split; [|done]. split; [|done].
    eapply simulated_reaction; [exact (ai_wf _ _ _ (si_agent _ _ _ Hi))|done..].
  - intros [] sv' Hr. by apply reacted_acted.
Qed.

Lemma keeps_line k totals sv fd ip m :
  server_inv k totals sv -> 1 <= k -> msg_ok m ->
  evals (handle_line ip fd (line_of m)) sv (fun _ sv' => server_inv (k - 1) totals sv').
Proof.
  intros Hi Hk Hm. assert (Hms : Forall msg_ok [m]) by by apply Forall_singleton.
  destruct (texts_of_lines [m] Hms) as [Hl Hnul]. pose proof (texts_tame [m] Hms) as Ht.
  unfold tame in Ht. rewrite c_text_all, Hl in Ht by done.
  destruct (evals_lines k totals ip fd [line_of m] sv Hi Hk Ht) as (f & [] & sv' & HQ & Hf).
  exists f, (), sv'. split; [done|]. intros f' Hle. specialize (Hf f' Hle). simpl in Hf. rewrite serve_bind in Hf.
  destruct (serve _ sv) as [[[] sv1]|]; [exact Hf|done].
Qed.

Lemma acts_lines k totals sv fd c ms :
  server_inv k totals sv -> Z.of_nat (length ms) <= k -> sc_mynode (sv_ctx sv) = true -> tame_node (sv_node sv) ->
  sv_conns sv !! Z.to_nat fd = Some c -> 0 <= fd < Z.of_nat MAX_FDS -> Forall msg_ok ms ->
  evals (each (line_of <$> ms) (handle_line (cn_ip c) fd)) sv
    (fun _ sv' => acted ((fun m => (a, fd, m)) <$> ms) (nic_in (sv_kernel sv)) sv sv').
Proof.
  intros Hi Hk Hmy Ht Hc Hfd Hms. eapply evals_mono.
  - apply (evals_each (fun rest sv' => exists before after, ms = before ++ after /\ rest = line_of <$> after /\
      server_inv (Z.of_nat (length after)) totals sv' /\
      acted ((fun m => (a, fd, m)) <$> before) (nic_in (sv_kernel sv)) sv sv')).
    + exists [], ms. split_and!; [done|done|eapply server_inv_weaken; [|exact Hi]; lia|by apply acted_refl].
    + intros line rest sv1 _ (before & after & -> & Hrest & Hi1 & Ha1). destruct after as [|m after]; [done|].
      injection Hrest as -> ->. pose proof Ha1 as [Hc1 Hx1 Ht1 (ps & _ & Hk1 & _)].
      apply Forall_app in Hms as [_ [Hm _]%Forall_cons_1]. eapply evals_mono.
      * apply evals_both; [by apply (keeps_line _ totals sv1 fd (cn_ip c) m Hi1); [simpl; lia|]|].
        apply (acts_line _ totals sv1 fd c m Hi1); [simpl; lia|by rewrite Hx1|done|by rewrite Hc1|done|done].
      * intros [] sv2 [Hi2 Ha2]. exists (before ++ [m]), after. split_and!; [by rewrite <- app_assoc|done| |].
        { by replace (Z.of_nat (length after)) with (Z.of_nat (length (m :: after)) - 1) by (simpl; lia). }
        rewrite Hk1 in Ha2. rewrite fmap_app. by eapply acted_trans.
  - intros [] sv' (before & after & -> & Hrest & _ & Ha). destruct after as [|m after]; [|done]. by rewrite app_nil_r.
Qed.

(** *** The events *)

(** What has arrived at an agent: the messages of each text, and where. *)
Definition inbox_text (M : list (Z * list msg)) : list (Z * string) := (fun x => (x.1, texts_of x.2)) <$> M.
Definition packets_of (x : Z * list msg) : list packet := (fun m => (a, x.1, m)) <$> x.2.

Record arrived (x : Z * list msg) : Prop := {
  ar_fd : 0 <= x.1 < Z.of_nat MAX_FDS;
  ar_some : x.2 ≠ [];
  ar_msgs : Forall msg_ok x.2;
  ar_length : (String.length (texts_of x.2) < BUFFER_SIZE)%nat
}.

Lemma first_text M fd :
  fd ∈ (inbox_text M).*1 -> exists pre ms post, M = pre ++ (fd, ms) :: post /\ fd ∉ (inbox_text pre).*1.
Proof.
  induction M as [|[fd' m'] M IH]; intros Hin; [by apply not_elem_of_nil in Hin|].
  destruct (decide (fd = fd')) as [->|Hne]; [exists [], m', M; split; [done|apply not_elem_of_nil]|].
  apply elem_of_cons in Hin as [?|Hin]; [done|]. destruct (IH Hin) as (pre & m & post & -> & Hpre).
  exists ((fd', m') :: pre), m, post. split; [done|]. by apply not_elem_of_cons.
Qed.

Lemma texts_of_length ms : (length ms <= String.length (texts_of ms))%nat.
Proof. induction ms as [|m ms IH]; simpl; [lia|]. unfold text_of, str_nl. rewrite !str_length_app. simpl. lia. Qed.

Lemma evals_message k totals sv fd M :
  server_inv k totals sv -> EVENT_COST <= k -> sc_mynode (sv_ctx sv) = true -> tame_node (sv_node sv) ->
  nic_in (sv_kernel sv) = inbox_text M -> Forall arrived M -> fd ∈ (nic_in (sv_kernel sv)).*1 ->
  evals (run_task (Task fd TASK_TCP_CLIENT_MSG)) sv (fun _ sv' => server_inv (k - EVENT_COST) totals sv' /\
    exists X M', M ≡ₚ X ++ M' /\ acted (X ≫= packets_of) (inbox_text M') sv sv').
Proof.
  intros Hi Hk Hmy Ht Hin Hm Hdue. rewrite Hin in Hdue. destruct (first_text M fd Hdue) as (pre & ms & post & -> & Hpre).
  pose proof Hm as [_ [[Hfd Hne Hok Hlen] _]%Forall_cons_1]%Forall_app. simpl in Hfd, Hne, Hok, Hlen.
  pose proof (texts_of_length ms) as Hcount. destruct (texts_of_lines ms Hok) as [Hl Hnul].
  assert (Hrecv : receive fd (BUFFER_SIZE - 1) (nic_in (sv_kernel sv)) = Some (texts_of ms, inbox_text (pre ++ post))).
  { rewrite Hin. unfold inbox_text. rewrite fmap_app, fmap_cons. cbn [fst snd].
    rewrite receive_first by (done || lia). by rewrite fmap_app. }
  destruct (entry_some k totals fd sv Hi Hfd) as (c & Hc & _ & _). apply evals_both.
  - apply evals_task; [done|done|]. split; [done|]. intros b kn Hb. unfold k_recv, nic_kernel in Hb.
    rewrite Hrecv in Hb. injection Hb as <- _. by apply texts_tame.
  - eapply evals_mono; [apply (evals_attend k totals sv fd c (texts_of ms) (inbox_text (pre ++ post))
      (acted (packets_of (fd, ms)) (inbox_text (pre ++ post)) sv)); [done..|by apply texts_of_nonempty|done|intros; by apply acted_log|]|].
    + rewrite Hl. eapply evals_mono; [apply (acts_lines k totals (refill _ sv) fd c ms)|]; try done.
      * by apply server_kernel.
      * unfold EVENT_COST in Hk. lia.
      * intros [] sv' [? ? ? ?]. by split.
    + intros [] sv' Ha. exists [(fd, ms)], (pre ++ post). split; [by rewrite <- Permutation_middle|].
      rewrite bind_cons. simpl. by rewrite app_nil_r.
Qed.

Lemma evals_event k totals sv task M :
  server_inv k totals sv -> EVENT_COST <= k -> sc_mynode (sv_ctx sv) = true -> tame_node (sv_node sv) ->
  nic_in (sv_kernel sv) = inbox_text M -> Forall arrived M -> due sv task ->
  evals (run_task task) sv (fun _ sv' => server_inv (k - EVENT_COST) totals sv' /\
    exists X M', M ≡ₚ X ++ M' /\ acted (X ≫= packets_of) (inbox_text M') sv sv').
Proof.
  intros Hi Hk Hmy Ht Hin Hm Hdue. destruct task as [fd []]; simpl in Hdue; [by apply evals_message|done..|].
  apply evals_both; [by apply evals_task|].
  eapply evals_mono; [apply (evals_gc_keeps (fun sv' => acted [] (nic_in (sv_kernel sv)) sv sv' /\ sc_mynode (sv_ctx sv') = true) k totals);
    [|exact Hi|]|].
  - intros sv1 Hi1 [Ha1 Hmy1]. pose proof Ha1 as [_ Hx1 Ht1 (ps1 & _ & Hk1 & _)].
    eapply evals_mono; [by eapply gc_round_acted|]. intros ms2 sv2 Ha2. rewrite Hk1 in Ha2. simpl in Ha2.
    split; [by eapply (acted_trans [] [])|]. by rewrite (ac_ctx _ _ _ _ Ha2).
  - split; [|done]. by apply acted_log, acted_refl.
  - intros [] sv' [[_ [Ha _]] _]. exists [], M. split; [done|]. by rewrite <- Hin.
Qed.

End agent.
End refinement.
