(* ===== verification/ClusterSafety.v ===== *)
(** * ClusterSafety: what holds of every state of the cluster

    The states of Cluster refine those of Reservation, so that what its invariant says
    holds of them: what a job counts as granted is reserved for it at the agent it was
    asked of, and no resource of the cluster is counted twice. *)

From Stdlib Require Import Ascii.
From stdpp Require Import relations.
From S2P Require Import Prelude Queues TablaHash CString CommonTypes LocalResource OwnedJobs KnownNodes NodeStructures Connections Program Adapter ResourceAdapter AdapterSafety Protocol Recovery ThreadPool Outbox Server EventHandler EventSafety Reservation Cluster ClusterEvents ClusterSimulation.
Local Open Scope Z_scope.

Section cluster.
Context (net : network) (Hnet : network_ok net).

Abbreviation peer := (net_peer net).
Abbreviation link := (net_link net).
Abbreviation proto_step := (proto_step peer link).
Abbreviation posts a ps := (ps ≫= posted net a).

(** ** The invariant *)

(** The texts of [M] have arrived at the agent [a]. *)
Record agent_ok (k : Z) (a : nat) (M : list (Z * list msg)) (sv : server nic) : Prop := {
  ao_inv : exists totals, server_inv k totals sv;
  ao_conns : sv_conns sv = net_conns net a;
  ao_mynode : sc_mynode (sv_ctx sv) = true;
  ao_tame : tame_node (sv_node sv);
  ao_in : nic_in (sv_kernel sv) = inbox_text M;
  ao_arrived : Forall arrived M;
  ao_out : nic_out (sv_kernel sv) = []
}.

Record cluster_ok (k : Z) (boxes : list (list (Z * list msg))) (agents : list (server nic)) : Prop := {
  co_size : length agents = net_size net;
  co_boxes : length boxes = net_size net;
  co_agents a sv M : agents !! a = Some sv -> boxes !! a = Some M -> agent_ok k a M sv
}.

Definition nodes_of (agents : list (server nic)) : list node_data_t := (fun sv => sv_node sv) <$> agents.

(** What is in transit. *)
Definition box_packets (a : nat) (M : list (Z * list msg)) : list packet := M ≫= packets_of a.
Definition packets (boxes : list (list (Z * list msg))) : list packet := concat (imap box_packets boxes).

Lemma agent_ok_weaken k k' a M sv : 0 <= k' <= k -> agent_ok k a M sv -> agent_ok k' a M sv.
Proof. intros Hk [[totals Hi] ? ? ? ? ? ?]. split; [|done..]. exists totals. by eapply server_inv_weaken. Qed.

(** *** Messages that arrive *)

Lemma arrive_ok k a M sv fd m :
  0 <= fd < Z.of_nat MAX_FDS -> msg_ok m -> agent_ok k a M sv -> agent_ok k a (M ++ [(fd, [m])]) (arrive fd (text_of m) sv).
Proof.
  intros Hfd Hm [[totals Hi] ? ? ? Hin Harr ?]. split; try done.
  - exists totals. by destruct Hi.
  - simpl. unfold inbox_text in *. rewrite Hin, fmap_app. simpl. by rewrite str_app_nil_r.
  - apply Forall_app. split; [done|]. apply Forall_singleton. split; simpl; [done|done|by apply Forall_singleton|].
    rewrite str_app_nil_r. by apply msg_one_line.
Qed.

(** One agent and its box change. *)
Lemma set_box k boxes agents a M M' sv :
  cluster_ok k boxes agents -> boxes !! a = Some M -> agent_ok k a M' sv ->
  cluster_ok k (<[a := M']> boxes) (<[a := sv]> agents) /\
  exists rest, packets boxes ≡ₚ box_packets a M ++ rest /\ packets (<[a := M']> boxes) ≡ₚ box_packets a M' ++ rest.
Proof.
  intros [Hs Hb Ha] HM Hok. pose proof (lookup_lt_Some _ _ _ HM) as Hlt. split.
  - split; [by rewrite length_insert..|]. intros b svb Mb Hsvb HMb. destruct (decide (b = a)) as [->|Hne].
    + rewrite list_lookup_insert_eq in Hsvb by lia. rewrite list_lookup_insert_eq in HMb by lia. by simplify_eq.
    + rewrite list_lookup_insert_ne in Hsvb by done. rewrite list_lookup_insert_ne in HMb by done. by apply Ha.
  - unfold packets. destruct (spread_split box_packets boxes a M HM) as [rest Hr]. exists rest. split; [|done].
    rewrite <- (Hr M). by rewrite list_insert_id.
Qed.

Lemma arrives k boxes agents b fd m :
  cluster_ok k boxes agents -> 0 <= fd < Z.of_nat MAX_FDS -> msg_ok m -> (b < net_size net)%nat ->
  exists boxes', cluster_ok k boxes' (alter (arrive fd (text_of m)) b agents) /\
    packets boxes' ≡ₚ (b, fd, m) :: packets boxes.
Proof.
  intros Hc Hfd Hm Hlt. pose proof Hc as [Hs Hb Ha]. destruct (lookup_lt_is_Some_2 boxes b) as [M HM]; [lia|].
  destruct (lookup_lt_is_Some_2 agents b) as [sv Hsv]; [lia|].
  destruct (set_box k boxes agents b M (M ++ [(fd, [m])]) (arrive fd (text_of m) sv) Hc HM) as (Hc' & rest & Hr & Hr').
  { by apply arrive_ok, Ha. }
  exists (<[b := M ++ [(fd, [m])]]> boxes). split.
  - replace (alter (arrive fd (text_of m)) b agents) with (<[b := arrive fd (text_of m) sv]> agents); [done|].
    apply list_eq. intros a. rewrite list_lookup_alter. case_decide; subst.
    + rewrite Hsv, list_lookup_insert_eq by lia. done.
    + by rewrite list_lookup_insert_ne.
  - rewrite Hr', Hr. unfold box_packets. rewrite bind_app, <- app_assoc. symmetry. apply Permutation_middle.
Qed.

Lemma arrive_nodes fd text b (agents : list (server nic)) : nodes_of (alter (arrive fd text) b agents) = nodes_of agents.
Proof.
  apply list_eq. intros a. unfold nodes_of. rewrite !list_lookup_fmap, list_lookup_alter. case_decide; [|done].
  subst. by destruct (agents !! a).
Qed.

(** What an agent sent arrives. *)
Lemma hands k a ps : Forall says ps -> forall boxes c, cluster_ok k boxes (cl_agents c) ->
  let c' := foldl (hand net a) c (omap (routed (net_conns net a)) ps.*1) in
  exists boxes', cluster_ok k boxes' (cl_agents c') /\ packets boxes' ≡ₚ posts a ps ++ packets boxes /\
    nodes_of (cl_agents c') = nodes_of (cl_agents c).
Proof.
  induction 1 as [|[d m] ps [Htext Hok] Hps IH]; intros boxes c Hc; [by exists boxes|]. cbv zeta.
  assert (Hone : exists boxes1 c1, cluster_ok k boxes1 (cl_agents c1) /\ packets boxes1 ≡ₚ posted net a (d, m) ++ packets boxes /\
    nodes_of (cl_agents c1) = nodes_of (cl_agents c) /\
    foldl (hand net a) c (omap (routed (net_conns net a)) ((d, m) :: ps).*1) =
    foldl (hand net a) c1 (omap (routed (net_conns net a)) ps.*1)).
  { rewrite fmap_cons. unfold posted. simpl in Htext |- *. unfold routed at 1.
    destruct (route (net_conns net a) d) as [fd|]; simpl; [|by exists boxes, c].
    destruct (peer a fd) as [[b s]|] eqn:Hp; simpl; cycle 1.
    { by exists boxes, (Cluster (cl_agents c) (cl_told c ++ [(a, fd, message d)])). }
    destruct (arrives k boxes (cl_agents c) b s m Hc) as (boxes1 & Hc1 & Hb1).
    - apply (nk_range _ Hnet b s a fd). by apply nk_sym.
    - done.
    - by apply (nk_size _ Hnet a fd b s).
    - exists boxes1, (Cluster (alter (arrive s (message d)) b (cl_agents c)) (cl_told c)). simpl.
      rewrite Htext. split_and!; [done|done|by rewrite arrive_nodes|done]. }
  destruct Hone as (boxes1 & c1 & Hc1 & Hb1 & Hn1 & ->). destruct (IH boxes1 c1 Hc1) as (boxes2 & Hc2 & Hb2 & Hn2).
  exists boxes2. split; [done|]. split; [|congruence]. rewrite Hb2, Hb1, bind_cons, <- app_assoc.
  apply Permutation_app_swap_app.
Qed.

(** ** The steps of the cluster *)

Abbreviation proto_start := (Protocol ∅ ∅ [] [] []).

(** The cluster represents a state the protocol can reach. *)
Definition refines (k : Z) (A : list (nat * Z * list target)) (c : cluster) : Prop :=
  exists boxes P, cluster_ok k boxes (cl_agents c) /\ rtc proto_step proto_start P /\
    represents (nodes_of (cl_agents c)) (packets boxes) A P.

Lemma refines_sim k k' A A' c c' :
  refines k A c ->
  (forall boxes, cluster_ok k boxes (cl_agents c) -> exists boxes', cluster_ok k' boxes' (cl_agents c') /\
     sim net (nodes_of (cl_agents c)) (packets boxes) A (nodes_of (cl_agents c')) (packets boxes') A') ->
  refines k' A' c'.
Proof.
  intros (boxes & P & Hc & HP & Hr) Hstep. destruct (Hstep boxes Hc) as (boxes' & Hc' & Hsim).
  destruct (Hsim P Hr) as (P' & HP' & Hr'). exists boxes', P'. split; [done|]. split; [by eapply rtc_trans|done].
Qed.

Lemma refines_event k A c a sv env task sv' :
  refines k A c -> EVENT_COST <= k -> cl_agents c !! a = Some sv -> due sv task ->
  returns (run_task task) (set_env env sv) () sv' -> refines (k - EVENT_COST) A (after net a sv' c).
Proof.
  intros Hr Hk Hsv Hdue Hret. eapply refines_sim; [exact Hr|]. clear Hr. intros boxes Hc. pose proof Hc as [Hs Hb Ha].
  pose proof (lookup_lt_Some _ _ _ Hsv) as Hlt. destruct (lookup_lt_is_Some_2 boxes a) as [M HM]; [lia|].
  destruct (Ha a sv M Hsv HM) as [[totals Hi] Hcs Hmy Ht Hin Harr Hout].
  assert (Hi' : server_inv k totals (set_env env sv)) by (by destruct Hi).
  destruct (evals_det _ _ _ _ _ (evals_event net Hnet a k totals (set_env env sv) task M Hi' Hk Hmy Ht Hin Harr Hdue) Hret)
    as (Hi2 & X & M' & HMX & [Hcs2 Hx2 Ht2 (ps & Hps & Hk2 & Hsim)]).
  simpl in Hcs2, Hx2, Hk2, Hsim. rewrite Hout, Hcs in Hk2. simpl in Hk2.
  set (c0 := Cluster (<[a := silent sv']> (cl_agents c)) (cl_told c)).
  assert (Hc0 : cluster_ok (k - EVENT_COST) (<[a := M']> boxes) (cl_agents c0)).
  { split; simpl; rewrite ?length_insert; [done|done|]. intros b svb Mb Hsvb HMb.
    destruct (decide (b = a)) as [->|Hne].
    - rewrite list_lookup_insert_eq in Hsvb by done. rewrite list_lookup_insert_eq in HMb by lia. simplify_eq.
      split; simpl; try done; [exists totals; by destruct Hi2|congruence|by rewrite Hx2|by rewrite Hk2|].
      rewrite HMX in Harr. by apply Forall_app in Harr as [_ ?].
    - rewrite list_lookup_insert_ne in Hsvb by done. rewrite list_lookup_insert_ne in HMb by done. eapply agent_ok_weaken; [|by apply Ha].
      unfold EVENT_COST, BUFFER_SIZE in *. lia. }
  destruct (hands _ a ps Hps _ c0 Hc0) as (boxes' & Hc' & Hb' & Hn'). exists boxes'.
  assert (Hafter : after net a sv' c = foldl (hand net a) c0 (omap (routed (net_conns net a)) ps.*1))
    by (unfold after; by rewrite Hk2).
  rewrite Hafter. split; [done|]. rewrite Hn'.
  assert (Hnodes : nodes_of (cl_agents c0) = <[a := sv_node sv']> (nodes_of (cl_agents c))).
  { unfold nodes_of, c0. simpl. by rewrite list_fmap_insert. }
  rewrite Hnodes. unfold packets in *.
  destruct (spread_split box_packets boxes a M HM) as [rest Hrest].
  pose proof (Hrest M) as HrestM. rewrite list_insert_id in HrestM by done.
  eapply sim_trans; [apply (sim_perm _ _ _ (box_packets a X ++ box_packets a M' ++ rest))|].
  { unfold box_packets in *. by rewrite HrestM, HMX, bind_app, <- app_assoc. }
  eapply sim_trans; [apply Hsim; unfold nodes_of; by rewrite list_lookup_fmap, Hsv|].
  apply sim_perm. by rewrite Hb', Hrest.
Qed.

(** *** What the schedulers write *)

Lemma strncmp_eq_short s1 s2 n :
  (String.length s1 <= n)%nat -> (String.length s2 <= n)%nat -> strncmp_eq s1 s2 n = true -> s1 = s2.
Proof.
  revert s1 s2. induction n as [|n IH]; intros [|c s1] [|d s2] H1 H2; simpl in *; try done; try lia.
  intros [->%Ascii.eqb_eq Hs]%andb_true_iff. f_equal. apply IH; [lia..|done].
Qed.

Lemma find_fd_entry conns ip port fd :
  conns_ok conns -> find_fd_by_ip_port conns ip port = Some fd -> fd ≠ -1 ->
  exists c, conns !! Z.to_nat fd = Some c /\ conn_matches ip port c = true.
Proof.
  intros Hok Hfd Hne. destruct (find_fd_loop_spec conns ip port MAX_FDS 0) as (z & Hz & Hcase); [by rewrite Hok|].
  unfold find_fd_by_ip_port in Hfd. rewrite Hz in Hfd. injection Hfd as <-.
  destruct Hcase as [[? _]|(j & c & -> & _ & Hc & Hm & _)]; [done|]. exists c. by rewrite Nat2Z.id.
Qed.

(** A node is known by its address. *)
Lemma route_entry a t fd :
  petition_ok t -> route (net_conns net a) (to_node t EmptyString) = Some fd ->
  exists c, net_conns net a !! Z.to_nat fd = Some c /\ cn_ip c = tg_ip t /\ cn_port c = tg_port t.
Proof.
  intros ([_ _] & Hport & _ & Hip & _) Hr. pose proof (nk_conns _ Hnet a) as Hok.
  unfold route, to_node in Hr. cbn [target_fd target_ip target_port Z.eqb] in Hr.
  rewrite str_take_all, wrap32_to_int in Hr by done.
  destruct (find_fd_by_ip_port _ _ _) as [z|] eqn:Hz; [|done]. simpl in Hr.
  destruct (Z.eqb_spec z (-1)); [done|]. injection Hr as ->. destruct (find_fd_entry _ _ _ _ Hok Hz) as (c & Hc & Hm); [done|].
  exists c. unfold conn_matches in Hm. rewrite !andb_true_iff, Z.eqb_eq in Hm. destruct Hm as [[_ Hp] Hs].
  split_and!; [done| |done]. apply (strncmp_eq_short _ _ 15); [|done|done].
  exact (Forall_lookup_1 _ _ _ _ (nk_short _ Hnet a) Hc).
Qed.

Lemma request_keys a id ts : request_fits id ts -> keys_ok link a ts.
Proof.
  intros [_ Hts Hkeys _ _ _] i i' t t' [b s] Hi Hi' Hl Hl' Hty.
  assert (Hfd : exists fd, route (net_conns net a) (to_node t EmptyString) = Some fd /\
    route (net_conns net a) (to_node t' EmptyString) = Some fd).
  { unfold net_link in Hl, Hl'. destruct (route _ (to_node t _)) as [fd|]; [|done].
    destruct (route _ (to_node t' _)) as [fd'|]; [|done]. simpl in Hl, Hl'. exists fd. split; [done|].
    apply (nk_sym _ Hnet) in Hl. apply (nk_sym _ Hnet) in Hl'. congruence. }
  destruct Hfd as (fd & Hr & Hr'). rewrite Forall_forall in Hts.
  destruct (route_entry a t fd (Hts _ (list_elem_of_lookup_2 _ _ _ Hi)) Hr) as (c & Hc & Hip & Hport).
  destruct (route_entry a t' fd (Hts _ (list_elem_of_lookup_2 _ _ _ Hi')) Hr') as (c' & Hc' & Hip' & Hport').
  assert (c' = c) as -> by congruence.
  eapply (NoDup_lookup _ i i' (tg_ip t, tg_port t, tg_type t) Hkeys); rewrite list_lookup_fmap.
  - by rewrite Hi.
  - rewrite Hi'. simpl. congruence.
Qed.

Lemma refines_write k A c a fd m A' :
  refines k A c -> 0 <= fd < Z.of_nat MAX_FDS -> msg_ok m ->
  (forall nodes B, sim net nodes B A nodes ((a, fd, m) :: B) A') -> refines k A' (write a fd (text_of m) c).
Proof.
  intros Hr Hfd Hm Hsim. eapply refines_sim; [exact Hr|]. intros boxes Hc. simpl. rewrite arrive_nodes.
  destruct (decide (a < net_size net)%nat) as [Hlt|Hge].
  - destruct (arrives k boxes (cl_agents c) a fd m Hc Hfd Hm Hlt) as (boxes' & Hc' & Hb'). exists boxes'. split; [done|].
    eapply sim_trans; [apply Hsim|]. apply sim_perm. by rewrite Hb'.
  - exists boxes. assert (Hid : alter (arrive fd (text_of m)) a (cl_agents c) = cl_agents c).
    { apply list_eq. intros b. rewrite list_lookup_alter. case_decide; [|done]. subst.
      rewrite lookup_ge_None_2; [done|]. rewrite (co_size _ _ _ Hc). lia. }
    rewrite Hid. split; [done|]. eapply sim_trans; [apply Hsim|]. apply sim_lose.
Qed.

(** *** Texts brought together *)

Lemma inbox_split M fd pre text mid text' post :
  inbox_text M = pre ++ (fd, text) :: mid ++ (fd, text') :: post ->
  exists M1 ms M2 ms' M3, M = M1 ++ (fd, ms) :: M2 ++ (fd, ms') :: M3 /\ inbox_text M1 = pre /\ texts_of ms = text /\
    inbox_text M2 = mid /\ texts_of ms' = text' /\ inbox_text M3 = post.
Proof.
  unfold inbox_text. intros (M1 & N & -> & Hn & ->)%fmap_app_inv.
  symmetry in Hn. apply fmap_cons_inv in Hn as ([fd1 ms] & N1 & [= -> ->] & Hn1 & ->).
  symmetry in Hn1. apply fmap_app_inv in Hn1 as (M2 & N2 & -> & Hn2 & ->).
  symmetry in Hn2. apply fmap_cons_inv in Hn2 as ([fd2 ms'] & M3 & [= -> ->] & -> & ->).
  by exists M1, ms, M2, ms', M3.
Qed.

Lemma joined_ok k a M1 fd ms M2 ms' M3 sv :
  (String.length (texts_of ms +:+ texts_of ms') < BUFFER_SIZE)%nat ->
  agent_ok k a (M1 ++ (fd, ms) :: M2 ++ (fd, ms') :: M3) sv ->
  let M := M1 ++ (fd, ms ++ ms') :: M2 ++ M3 in agent_ok k a M (refill (inbox_text M) sv).
Proof.
  intros Hlen [[totals Hi] ? ? ? Hin Harr ?]. split; try done; [exists totals; by apply server_kernel|].
  apply Forall_app in Harr as [H1 [[Hfd Hne Hms _] [H2 [[_ _ Hms' _] H3]%Forall_cons_1]%Forall_app]%Forall_cons_1].
  apply Forall_app. split; [done|]. apply Forall_cons. split; [|by apply Forall_app].
  split; simpl in *; [done|by destruct ms|by apply Forall_app|by rewrite texts_of_app].
Qed.

Lemma refines_joins k A c a sv fd pre text mid text' post :
  refines k A c -> cl_agents c !! a = Some sv ->
  nic_in (sv_kernel sv) = pre ++ (fd, text) :: mid ++ (fd, text') :: post ->
  (String.length (text +:+ text') < BUFFER_SIZE)%nat ->
  refines k A (Cluster (<[a := refill (pre ++ (fd, text +:+ text') :: mid ++ post) sv]> (cl_agents c)) (cl_told c)).
Proof.
  intros Hr Hsv Hin Hlen. eapply refines_sim; [exact Hr|]. intros boxes Hc. pose proof Hc as [Hs Hb Ha].
  pose proof (lookup_lt_Some _ _ _ Hsv). destruct (lookup_lt_is_Some_2 boxes a) as [M HM]; [lia|].
  pose proof (Ha a sv M Hsv HM) as Hok. rewrite (ao_in _ _ _ _ Hok) in Hin.
  destruct (inbox_split M fd pre text mid text' post Hin) as (M1 & ms & M2 & ms' & M3 & -> & <- & <- & <- & <- & <-).
  pose proof (joined_ok k a M1 fd ms M2 ms' M3 sv Hlen Hok) as Hok'. cbv zeta in Hok'.
  destruct (set_box k boxes (cl_agents c) a _ _ _ Hc HM Hok') as (Hc' & rest & Hp & Hp').
  eexists. simpl. split.
  - unfold inbox_text in *. rewrite !fmap_app, fmap_cons, fmap_app in Hc'. simpl in Hc'. rewrite texts_of_app in Hc'. exact Hc'.
  - assert (Hn : nodes_of (<[a := refill (inbox_text M1 ++ (fd, texts_of ms +:+ texts_of ms') :: inbox_text M2 ++ inbox_text M3) sv]>
      (cl_agents c)) = nodes_of (cl_agents c)).
    { unfold nodes_of. rewrite list_fmap_insert. apply list_insert_id. by rewrite list_lookup_fmap, Hsv. }
    rewrite Hn. apply sim_perm. rewrite Hp, Hp'. apply Permutation_app_tail. unfold box_packets.
    rewrite !bind_app, !bind_cons, !bind_app, bind_cons. unfold packets_of. simpl. rewrite fmap_app, <- !app_assoc.
    do 2 apply Permutation_app_head. apply Permutation_app_swap_app.
Qed.

Lemma sim_ask nodes B A a fd id ts :
  (a, id) ∉ A.*1 -> keys_ok link a ts -> sim net nodes B A nodes ((a, fd, MRequest id ts) :: B) ((a, id, ts) :: A).
Proof.
  intros Ha Hk. apply sim_once. intros J H W Bx [? ? ? Hb ?]. eexists. split; [by apply (ps_ask _ _ J H W Bx A a fd id ts)|].
  split; [done..| |done]. simpl in *. by rewrite Hb.
Qed.

(** *** The start *)

Lemma fresh_ok a sv : fresh_agent net a sv -> agent_ok NODE_ROOM a [] sv /\
  jobs_in (sv_node sv) = ∅ /\ contenido (nd_active_jobs (sv_node sv)) = ∅ /\ waiting (sv_node sv) = [].
Proof.
  intros (cpu & ram & gpu & ctx & env & Hc & Hr & Hg & Hmy & ->). simpl. split_and!; [|done..].
  split; simpl; try done.
  - exists [cpu; gpu; ram]. split; simpl; [|apply (nk_conns _ Hnet)|apply (nk_short _ Hnet)].
    split; [by apply init_node_wf|by intros id j Hj|done].
  - split; [by intros id j Hj| |done]. intros t Ht. by destruct t.
Qed.

Lemma spread_nil {X Y} (f : nat -> X -> list Y) l :
  (forall a x, l !! a = Some x -> f a x = []) -> concat (imap f l) = [].
Proof.
  revert f. induction l as [|x l IH]; intros f Hf; [done|]. simpl. rewrite (Hf 0%nat x) by done. simpl.
  apply IH. intros a y Hy. by apply (Hf (S a)).
Qed.

Lemma refines_start agents :
  length agents = net_size net -> (forall a sv, agents !! a = Some sv -> fresh_agent net a sv) ->
  refines NODE_ROOM [] (Cluster agents []).
Proof.
  intros Hlen Hfresh. exists (replicate (net_size net) []), proto_start. split; [|split; [apply rtc_refl|]].
  - split; simpl; [done|by rewrite length_replicate|]. intros a sv M Hsv HM.
    apply lookup_replicate in HM as [-> _]. by apply fresh_ok, Hfresh.
  - assert (Hno : forall a n, nodes_of agents !! a = Some n ->
      jobs_in n = ∅ /\ contenido (nd_active_jobs n) = ∅ /\ waiting n = []).
    { intros a n Hn. unfold nodes_of in Hn. rewrite list_lookup_fmap in Hn. apply fmap_Some in Hn as (sv & Hsv & ->).
      by apply fresh_ok with a, Hfresh. }
    split; simpl; [| | | |done].
    + intros a id. rewrite lookup_empty. destruct (nodes_of agents !! a) as [n|] eqn:Hn; [|done]. simpl.
      destruct (Hno a n Hn) as (-> & _). by rewrite lookup_empty.
    + intros a key. rewrite lookup_empty. destruct (nodes_of agents !! a) as [n|] eqn:Hn; [|done]. simpl.
      destruct (Hno a n Hn) as (_ & -> & _). by rewrite lookup_empty.
    + rewrite spread_nil; [done|]. intros a n Hn. by destruct (Hno a n Hn) as (_ & _ & ->).
    + unfold packets. rewrite spread_nil; [done|]. intros a M HM. by apply lookup_replicate in HM as [-> _].
Qed.

Lemma reach_refines k A c : cl_reach net k A c -> refines k A c.
Proof.
  induction 1 as [agents Hlen Hfresh|k A c a sv env task sv' _ IH Hk Hsv Hdue Hret|k A c a fd id ts _ IH Hfd Hp Ha Hf|k A c a fd id _ IH Hfd Hp Hid|k A c a sv fd pre text mid text' post _ IH Hsv Hin _ Hlen].
  - by apply refines_start.
  - by eapply refines_event.
  - apply (refines_write k A c a fd (MRequest id ts)); [done..|]. intros nodes B. apply sim_ask; [done|].
    by eapply request_keys.
  - apply (refines_write k A c a fd (MJobRelease id)); [done..|]. intros nodes B. by apply sim_tell.
  - by eapply refines_joins.
Qed.

(** *** The jobs of a reachable cluster *)

Lemma proto_steps_inv P P' : rtc proto_step P P' -> proto_inv peer link P -> proto_inv peer link P'.
Proof.
  induction 1 as [P|P P1 P2 Hs _ IH]; [done|]. intros Hinv. apply IH.
  eapply proto_step_inv; [exact (link_peer net Hnet)|done|done].
Qed.

Lemma proto_reach_inv P : rtc proto_step proto_start P -> proto_inv peer link P.
Proof. intros HP. eapply proto_steps_inv; [exact HP|]. apply proto_empty. Qed.

Lemma proto_reach_asked P : rtc proto_step proto_start P -> asked_for P.
Proof.
  intros HP. enough (forall P0, rtc proto_step P0 P -> proto_inv peer link P0 -> asked_for P0 -> asked_for P) as Hs.
  { apply (Hs _ HP); [apply proto_empty|apply asked_empty]. }
  clear HP. intros P0. induction 1 as [P|P0 P1 P Hs _ IH]; [done|]. intros Hinv Hask. apply IH.
  - eapply proto_step_inv; [exact (link_peer net Hnet)|done|done].
  - by eapply proto_step_asked.
Qed.

(** A job has the petitions of its request. *)
Lemma reach_asked k A c a sv id j :
  cl_reach net k A c -> cl_agents c !! a = Some sv -> jobs_in (sv_node sv) !! id = Some j ->
  exists ts, (a, id, ts) ∈ A /\ targets j = take MAX_JOB_RESOURCES ts.
Proof.
  intros Hreach Hsv Hj. destruct (reach_refines k A c Hreach) as (boxes & P & Hc & HP & [Hrj _ _ _ <-]).
  apply (af_jobs P (proto_reach_asked P HP)). rewrite Hrj. unfold nodes_of. by rewrite list_lookup_fmap, Hsv.
Qed.

(** A reservation of the target [t] of the job [id] of the agent [a] at the agent [b],
    who knows [a] by [s]. *)
Definition reserved (c : cluster) (a : nat) (id : Z) (t : target) (b : nat) (s : Z) : Prop :=
  link a t = Some (b, s) /\ exists sv, cl_agents c !! b = Some sv /\
    contenido (nd_active_jobs (sv_node sv)) !! (id, s, tg_type t) = Some (grant s id t).

Lemma reach_job k A c a sv id j :
  cl_reach net k A c -> cl_agents c !! a = Some sv -> jobs_in (sv_node sv) !! id = Some j ->
  keys_ok link a (targets j) /\ forall t, t ∈ granted j -> exists b s, reserved c a id t b s.
Proof.
  intros Hreach Hsv Hj. destruct (reach_refines k A c Hreach) as (boxes & P & Hc & HP & [Hrj Hrh _ _ _]).
  assert (HJ : pr_jobs P !! (a, id) = Some j) by (rewrite Hrj; unfold nodes_of; by rewrite list_lookup_fmap, Hsv).
  destruct (proto_good _ _ P a id j (proto_reach_inv P HP) HJ) as [_ _ Hk Hh]. split; [done|].
  intros t Ht. destruct (Hh t Ht) as (b & s & Hl & Hg). exists b, s. split; [done|]. unfold held_for in Hg. rewrite Hrh in Hg.
  unfold nodes_of in Hg. rewrite list_lookup_fmap in Hg. destruct (cl_agents c !! b) as [svb|]; [|done]. by exists svb.
Qed.

(** ** Theorems *)

(** C4: the agents of a cluster, connected to each other, refine the protocol of
    Reservation: in every state that events of the agents, in any order, and requests
    of their schedulers can lead to, the jobs, the reservations, the waiting requests
    and the messages in transit are those of a state the protocol can reach, and what
    every agent has to read is the text of the messages in transit to it, in order. *)
Theorem cluster_refines k A c :
  cl_reach net k A c ->
  exists boxes P, rtc proto_step proto_start P /\ represents (nodes_of (cl_agents c)) (packets boxes) A P /\
    forall a sv, cl_agents c !! a = Some sv -> exists M, boxes !! a = Some M /\ nic_in (sv_kernel sv) = inbox_text M.
Proof.
  intros Hreach. destruct (reach_refines k A c Hreach) as (boxes & P & [Hs Hb Ha] & HP & Hr).
  exists boxes, P. split; [done|]. split; [done|]. intros a sv Hsv. pose proof (lookup_lt_Some _ _ _ Hsv).
  destruct (lookup_lt_is_Some_2 boxes a) as [M HM]; [lia|]. exists M. split; [done|]. by apply (Ha a sv M Hsv HM).
Qed.

(** C2: what a job counts as granted is really reserved for it: in every reachable
    state of the cluster, for every granted petition of every job of every agent, the
    agent the petition was sent to has, at the same time, a reservation of that
    quantity of that type for that job on the connection with the agent of the job. *)
Theorem cluster_reserved k A c a sv id j t :
  cl_reach net k A c -> cl_agents c !! a = Some sv -> jobs_in (sv_node sv) !! id = Some j -> t ∈ granted j ->
  exists b s, reserved c a id t b s.
Proof. intros Hreach Hsv Hj. by apply (reach_job k A c a sv id j). Qed.

(** Every petition of type [ty] counted as granted by some job of the cluster at the
    agent [b]. *)
Definition counted (c : cluster) (b : nat) (ty : resource_t) : list (nat * Z * target) :=
  '(a, sv) ← imap pair (cl_agents c);
  '(id, j) ← map_to_list (jobs_in (sv_node sv));
  (fun t => (a, id, t)) <$> filter (fun t => tg_type t = ty /\ fst <$> link a t = Some b) (granted j).

Definition as_grant (x : nat * Z * target) : elem_active_job_t :=
  let '(a, id, t) := x in grant match link a t with Some (_, s) => s | None => 0 end id t.

Lemma counted_spec c b ty a id t :
  (a, id, t) ∈ counted c b ty <-> exists sv j, cl_agents c !! a = Some sv /\ jobs_in (sv_node sv) !! id = Some j /\
    t ∈ granted j /\ tg_type t = ty /\ fst <$> link a t = Some b.
Proof.
  unfold counted. rewrite list_elem_of_bind. split.
  - intros ([a' sv] & Hx & Ha). apply elem_of_lookup_imap in Ha as (i & sv' & [= -> ->] & Hsv).
    apply list_elem_of_bind in Hx as ([id' j] & Hx & Hj). apply elem_of_map_to_list in Hj.
    apply list_elem_of_fmap in Hx as (t' & [= -> -> ->] & [[Hty Hl] Ht]%list_elem_of_filter). by exists sv', j.
  - intros (sv & j & Hsv & Hj & Ht & Hty & Hl). exists (a, sv). split; [|by apply elem_of_lookup_imap_2].
    apply list_elem_of_bind. exists (id, j). split; [|by apply elem_of_map_to_list].
    apply list_elem_of_fmap_2, list_elem_of_filter. done.
Qed.

(** A list whose elements with [P] occur once. *)
Lemma NoDup_filter_once {X} (P : X -> Prop) `{!forall x, Decision (P x)} (l : list X) :
  (forall (i i' : nat) x, l !! i = Some x -> l !! i' = Some x -> P x -> i = i') -> NoDup (filter P l).
Proof.
  induction l as [|x l IH]; intros Hl; [constructor|]. rewrite filter_cons.
  assert (Hrest : NoDup (filter P l)).
  { apply IH. intros i i' y Hi Hi' Hy. by injection (Hl (S i) (S i') y Hi Hi' Hy). }
  case_decide as Hx; [|done]. constructor; [|done]. intros [_ [i Hi]%list_elem_of_lookup]%list_elem_of_filter.
  by specialize (Hl 0%nat (S i) x eq_refl Hi Hx).
Qed.

Lemma granted_sublist j : sublist (granted j) (targets j).
Proof.
  unfold granted, targets. apply fmap_sublist. induction (oj_petitions j) as [|p l IH]; [done|]. rewrite filter_cons.
  case_decide; by constructor.
Qed.

Lemma filter_sublist {X} (P : X -> Prop) `{!forall x, Decision (P x)} (l1 l2 : list X) :
  sublist l1 l2 -> sublist (filter P l1) (filter P l2).
Proof.
  induction 1 as [|x l1 l2 Hs IH|x l1 l2 Hs IH]; [done|..]; rewrite !filter_cons; case_decide; try done; by constructor.
Qed.

Lemma counted_NoDup k A c b ty : cl_reach net k A c -> NoDup (counted c b ty).
Proof.
  intros Hreach. unfold counted. apply NoDup_bind.
  - intros [a sv] [a' sv'] [[a2 id] t] Ha Ha' Hx Hx'.
    apply elem_of_lookup_imap in Ha as (i & sv1 & [= -> ->] & Hsv). apply elem_of_lookup_imap in Ha' as (i' & sv2 & [= -> ->] & Hsv').
    apply list_elem_of_bind in Hx as ([id1 j1] & Hx & _). apply list_elem_of_bind in Hx' as ([id2 j2] & Hx' & _).
    apply list_elem_of_fmap in Hx as (? & Ex & _). apply list_elem_of_fmap in Hx' as (? & Ex' & _). by simplify_eq.
  - intros [a sv] Ha. apply elem_of_lookup_imap in Ha as (i & sv1 & [= -> ->] & Hsv). apply NoDup_bind.
    + intros [id j] [id' j'] [[a2 id2] t] Hj Hj' Hx Hx'. apply elem_of_map_to_list in Hj. apply elem_of_map_to_list in Hj'.
      apply list_elem_of_fmap in Hx as (? & Ex & _). apply list_elem_of_fmap in Hx' as (? & Ex' & _). by simplify_eq.
    + intros [id j] Hj. apply elem_of_map_to_list in Hj. apply NoDup_fmap_2; [by intros ? ? [=]|].
      destruct (reach_job k A c i sv1 id j Hreach Hsv Hj) as [Hk _].
      eapply sublist_NoDup; [|apply filter_sublist, granted_sublist].
      apply NoDup_filter_once. intros i1 i2 t H1 H2 [_ Hl]. destruct (link i t) as [site|] eqn:Hsite; [|done].
      by apply (Hk i1 i2 t t site).
    + apply NoDup_map_to_list.
  - apply (NoDup_fmap_1 fst). apply NoDup_alt. intros i i' a Hi Hi'. rewrite list_lookup_fmap, list_lookup_imap in Hi, Hi'.
    destruct (cl_agents c !! i), (cl_agents c !! i'); naive_solver.
Qed.

(** C3: no resource of the cluster is counted twice: in every reachable state, what
    the jobs of all the agents count as granted of a resource of an agent, together
    with what that agent has free, is at most what it was configured with. *)
Theorem cluster_never_overcommits k A c b sv ty :
  cl_reach net k A c -> cl_agents c !! b = Some sv -> valid_res ty ->
  sumZ (fun x => tg_quantity x.2) (counted c b ty) + av (nd_resources (sv_node sv)) ty <= tot (nd_resources (sv_node sv)) ty.
Proof.
  intros Hreach Hsv Hty. pose proof (counted_NoDup k A c b ty Hreach) as Hnd.
  destruct (reach_refines k A c Hreach) as (boxes & P & [Hs Hb Ha] & _). pose proof (lookup_lt_Some _ _ _ Hsv).
  destruct (lookup_lt_is_Some_2 boxes b) as [M HM]; [lia|]. destruct (Ha b sv M Hsv HM) as [[totals Hi] _ _ _ _ _ _].
  pose proof (nw_local _ _ (ai_wf _ _ _ (si_agent _ _ _ Hi))) as Hl.
  destruct (slack_bounds _ _ _ ty Hl Hty) as (_ & _ & Hle & _).
  set (jobs := nd_active_jobs (sv_node sv)) in *.
  assert (Hin : forall x, x ∈ counted c b ty -> exists s, link x.1.1 x.2 = Some (b, s) /\ as_grant x = grant s x.1.2 x.2 /\
    tg_type x.2 = ty /\ as_grant x ∈ items jobs).
  { intros [[a id] t] Hx. apply counted_spec in Hx as (sva & j & Hsva & Hj & Ht & Htt & Hlk).
    destruct (proj2 (reach_job k A c a sva id j Hreach Hsva Hj) t Ht) as (b' & s & Hlink & svb & Hsvb & Hc).
    rewrite Hlink in Hlk. injection Hlk as ->. simplify_eq. exists s. simpl. rewrite Hlink. split_and!; [done..|].
    apply contenido_lookup in Hc as [Hc _]; [done|]. apply wf_items_NoDup, (lw_tabla _ _ _ Hl). }
  assert (Hinj : forall x y, x ∈ counted c b ty -> y ∈ counted c b ty -> as_grant x = as_grant y -> x = y).
  { intros [[a id] t] [[a' id'] t'] Hx Hy. pose proof Hx as Hx0. pose proof Hy as Hy0.
    apply Hin in Hx as (s & Hlk & -> & Htt & _). apply Hin in Hy as (s' & Hlk' & -> & Htt' & _). simpl in *.
    intros [= -> -> _]. apply (link_peer net Hnet) in Hlk as Hp. apply (link_peer net Hnet) in Hlk' as Hp'.
    destruct Hp as [fd Hp], Hp' as [fd' Hp']. assert (a' = a) as -> by congruence. f_equal.
    apply counted_spec in Hx0 as (sva & j & Hsva & Hj & Ht & _). apply counted_spec in Hy0 as (sva' & j' & Hsva' & Hj' & Ht' & _).
    rewrite Hsva in Hsva'. injection Hsva' as <-. rewrite Hj in Hj'. injection Hj' as <-.
    destruct (reach_job k A c a sva id' j Hreach Hsva Hj) as [Hk _].
    pose proof (elem_of_sublist _ _ _ Ht (granted_sublist j)) as [i Hii]%list_elem_of_lookup.
    pose proof (elem_of_sublist _ _ _ Ht' (granted_sublist j)) as [i' Hii']%list_elem_of_lookup.
    assert (i' = i) as -> by (apply (Hk i' i t' t (b, s')); [exact Hii'|exact Hii|exact Hlk'|exact Hlk|congruence]). congruence. }
  assert (Hsub : as_grant <$> counted c b ty ⊆+ items jobs).
  { apply NoDup_submseteq; [by apply NoDup_fmap_2_strong|]. intros g Hg. apply list_elem_of_fmap in Hg as (x & -> & Hx).
    by apply Hin in Hx as (_ & _ & _ & _ & ?). }
  apply submseteq_Permutation in Hsub as [rest Hrest].
  assert (Hsum : sumZ (fun x => tg_quantity x.2) (counted c b ty) = active_qty ty (as_grant <$> counted c b ty)).
  { clear Hrest Hnd Hinj. induction (counted c b ty) as [|x l IH]; [done|]. unfold active_qty in *.
    rewrite fmap_cons, !sumZ_cons. rewrite IH by (intros y Hy; apply Hin; by right).
    destruct (Hin x) as (s & _ & -> & Htt & _); [by left|]. simpl. by rewrite decide_True. }
  unfold active_qty in *. rewrite Hrest, sumZ_app in Hle. rewrite Hsum.
  assert (0 <= active_qty ty rest); [|unfold active_qty in *; lia]. apply active_qty_nonneg.
  pose proof (lw_items _ _ _ Hl) as Hok. fold jobs in Hok. rewrite Hrest in Hok. by apply Forall_app in Hok as [_ ?].
Qed.

(** C21: no agent of a cluster is ever stuck: whatever has been asked and whatever has
    happened, each agent handles what has arrived on any connection, and its periodic
    check, returns, and leaves the cluster in a reachable state. *)
Theorem cluster_progress k A c a sv env task :
  cl_reach net k A c -> EVENT_COST <= k -> cl_agents c !! a = Some sv -> due sv task ->
  exists sv', returns (run_task task) (set_env env sv) () sv' /\ cl_reach net (k - EVENT_COST) A (after net a sv' c).
Proof.
  intros Hreach Hk Hsv Hdue. destruct (reach_refines k A c Hreach) as (boxes & P & [Hs Hb Ha] & _).
  pose proof (lookup_lt_Some _ _ _ Hsv) as Hlt. destruct (lookup_lt_is_Some_2 boxes a) as [M HM]; [lia|].
  destruct (Ha a sv M Hsv HM) as [[totals Hi] Hcs Hmy Ht Hin Harr Hout].
  assert (Hi' : server_inv k totals (set_env env sv)) by (by destruct Hi).
  destruct (evals_returns _ _ _ (evals_event net Hnet a k totals (set_env env sv) task M Hi' Hk Hmy Ht Hin Harr Hdue))
    as ([] & sv' & Hret & _).
  exists sv'. split; [done|]. by eapply cl_event.
Qed.

End cluster.

(** ** A concrete cluster

    Two agents: 0 opened the connection, which is 5 for it and 6 for 1 (who accepted it
    and registered no port); the scheduler of 0 is on 9. *)
Module ClusterEjemplo.

Definition red_peer (a : nat) (fd : Z) : option (nat * Z) :=
  if (Nat.eqb a 0 && (fd =? 5))%bool then Some (1%nat, 6)
  else if (Nat.eqb a 1 && (fd =? 6))%bool then Some (0%nat, 5) else None.

Definition tabla (a : nat) : connections :=
  match a with
  | O => <[5%nat := Connection 1 "10.0.0.1" 8100 EmptyString 0]> no_connections
  | _ => <[6%nat := Connection 1 "10.0.0.0" 0 EmptyString 0]> no_connections
  end.

Definition red : network := Network 2 red_peer tabla.

Lemma red_peers a fd b s :
  red_peer a fd = Some (b, s) -> (a, fd, b, s) = (0%nat, 5, 1%nat, 6) \/ (a, fd, b, s) = (1%nat, 6, 0%nat, 5).
Proof.
  unfold red_peer. destruct (Z.eqb_spec fd 5), (Z.eqb_spec fd 6), a as [|[|a]]; simpl; try done;
    intros [= <- <-]; subst; (discriminate || auto).
Qed.

Lemma red_ok : network_ok red.
Proof.
  split; simpl.
  - by intros a fd b s [[= -> -> -> ->]|[= -> -> -> ->]]%red_peers.
  - intros a fd b s [[= -> -> -> ->]|[= -> -> -> ->]]%red_peers; unfold MAX_FDS; lia.
  - intros a fd b s [[= -> -> -> ->]|[= -> -> -> ->]]%red_peers; lia.
  - by intros [|a].
  - intros [|a]; unfold tabla; (apply Forall_insert; [apply Forall_replicate|]); unfold conn_short; simpl; lia.
Qed.

Definition entorno : environment := Env 1000 1000 (fun i => Z.of_nat i) EmptyString.
Definition contexto (a : nat) : ServerContext := Context 8100 (if Nat.eqb a 0 then "10.0.0.0" else "10.0.0.1") 3 4 10 7 8 11 12 true.
Definition agente (a : nat) : server nic :=
  Server (Shared (init_node 4 8 1) (tabla a) []) (contexto a) (Nic [] [] entorno) [].
Definition inicio : cluster := Cluster [agente 0; agente 1] [].

Lemma inicio_reach : cl_reach red NODE_ROOM [] inicio.
Proof.
  apply cl_start; [done|]. intros a sv Hsv. exists 4, 8, 1, (contexto a), entorno.
  destruct a as [|[|a]]; simpl in Hsv; simplify_eq; done.
Qed.

(** The client of 0 asks for two units of the cpu of 1. *)
Definition peticion : target := Target "10.0.0.1" 8100 CPU 2.

Definition atender (a : nat) (fd : Z) (c : cluster) : server nic :=
  default (agente 0) (sv ← cl_agents c !! a; snd <$> serve (run_task (Task fd TASK_TCP_CLIENT_MSG) 20%nat) (set_env entorno sv)).
Definition turno (a : nat) (fd : Z) (c : cluster) : cluster := after red a (atender a fd c) c.

Definition pedido : cluster := write 0 9 (text_of (MRequest 7 [peticion])) inicio.
Definition enviado : cluster := turno 0 9 pedido.
Definition concedido : cluster := turno 1 6 enviado.
Definition anotado : cluster := turno 0 5 concedido.

Lemma turno_reach k A c a fd :
  cl_reach red k A c -> EVENT_COST <= k ->
  (forall f, (sv ← cl_agents c !! a; guard (fd ∈ (nic_in (sv_kernel sv)).*1);;
     serve (run_task (Task fd TASK_TCP_CLIENT_MSG) (20 + f)%nat) (set_env entorno sv)) = Some ((), atender a fd c)) ->
  cl_reach red (k - EVENT_COST) A (turno a fd c).
Proof.
  intros Hc Hk Hf. destruct (cl_agents c !! a) as [sv|] eqn:Hsv; [|by specialize (Hf 0%nat)]. simpl in Hf.
  apply (cl_event red k A c a sv entorno (Task fd TASK_TCP_CLIENT_MSG)); [done|done|done|..].
  - unfold due. cbn [wt_type wt_fd]. specialize (Hf 0%nat). by case_guard.
  - exists 20%nat. intros f Hle. replace f with (20 + (f - 20))%nat by lia. specialize (Hf (f - 20)%nat). by case_guard.
Qed.

Lemma peticion_fits id : id = 7 \/ id = 8 -> request_fits id [peticion].
Proof.
  intros Hid. split; [unfold id_ok; lia| |apply NoDup_singleton|..];
    try (destruct Hid as [-> | ->]; reflexivity || (apply Nat.ltb_lt; reflexivity)).
  apply Forall_singleton. unfold petition_ok, target_ok, in_u32, UINT_RANGE. simpl. split_and!; (done || lia).
Qed.

Lemma anotado_reach : cl_reach red (NODE_ROOM - EVENT_COST - EVENT_COST - EVENT_COST) [(0%nat, 7, [peticion])] anotado.
Proof.
  assert (Hp : cl_reach red NODE_ROOM [(0%nat, 7, [peticion])] pedido).
  { apply cl_asks; [exact inicio_reach|unfold MAX_FDS; lia|done|apply not_elem_of_nil|by apply peticion_fits; left]. }
  assert (He : cl_reach red (NODE_ROOM - EVENT_COST) [(0%nat, 7, [peticion])] enviado).
  { apply turno_reach; [exact Hp|done|]. intros f. vm_compute. reflexivity. }
  assert (Hc : cl_reach red (NODE_ROOM - EVENT_COST - EVENT_COST) [(0%nat, 7, [peticion])] concedido).
  { apply turno_reach; [exact He|done|]. intros f. vm_compute. reflexivity. }
  apply turno_reach; [exact Hc|done|]. intros f. vm_compute. reflexivity.
Qed.

Definition resto : Z := NODE_ROOM - EVENT_COST - EVENT_COST - EVENT_COST.
Definition trabajo : elem_owned_job_t :=
  default (OwnedJob 0 0 0 0 0 []) (sv ← cl_agents anotado !! 0%nat; jobs_in (sv_node sv) !! 7).
Definition agente_0 : server nic := default (agente 0) (cl_agents anotado !! 0%nat).
Definition agente_1 : server nic := default (agente 1) (cl_agents anotado !! 1%nat).

Lemma cluster_refines_witness :
  exists boxes P, rtc (proto_step (net_peer red) (net_link red)) (Protocol ∅ ∅ [] [] []) P /\
    represents (nodes_of (cl_agents anotado)) (packets boxes) [(0%nat, 7, [peticion])] P /\
    forall a sv, cl_agents anotado !! a = Some sv -> exists M, boxes !! a = Some M /\ nic_in (sv_kernel sv) = inbox_text M.
Proof. exact (cluster_refines red red_ok resto [(0%nat, 7, [peticion])] anotado anotado_reach). Defined.

Lemma cluster_reserved_witness : exists b s, reserved red anotado 0 7 peticion b s.
Proof.
  exact (cluster_reserved red red_ok resto [(0%nat, 7, [peticion])] anotado 0 agente_0 7 trabajo peticion anotado_reach
    ltac:(vm_compute; reflexivity) ltac:(vm_compute; reflexivity) ltac:(vm_compute; left)).
Defined.

(** 2 units counted, 2 free, 4 in all. *)
Lemma cluster_never_overcommits_witness :
  sumZ (fun x => tg_quantity x.2) (counted red anotado 1 CPU) + av (nd_resources (sv_node agente_1)) CPU
    <= tot (nd_resources (sv_node agente_1)) CPU.
Proof.
  exact (cluster_never_overcommits red red_ok resto [(0%nat, 7, [peticion])] anotado 1 agente_1 CPU anotado_reach
    ltac:(vm_compute; reflexivity) ltac:(done)).
Defined.

Example counted_run :
  (counted red anotado 1 CPU, av (nd_resources (sv_node agente_1)) CPU, cl_told anotado) =
    ([(0%nat, 7, peticion)], 2, [(0%nat, 9, "JOB_GRANTED 7" +:+ str_nl)]).
Proof. vm_compute. reflexivity. Qed.

Lemma cluster_progress_witness :
  exists sv', returns (run_task (Task (-1) TASK_GARBAGE_COLLECTOR)) (set_env entorno agente_0) () sv' /\
    cl_reach red (resto - EVENT_COST) [(0%nat, 7, [peticion])] (after red 0 sv' anotado).
Proof.
  exact (cluster_progress red red_ok resto [(0%nat, 7, [peticion])] anotado 0 agente_0 entorno (Task (-1) TASK_GARBAGE_COLLECTOR)
    anotado_reach ltac:(done) ltac:(vm_compute; reflexivity) I).
Defined.

(** Two requests that are read at once are both handled. *)
Definition pedidos_de (l : list Z) : cluster :=
  foldl (fun c id => write 0 9 (text_of (MRequest id [peticion])) c) inicio l.
Definition lector : server nic := default (agente 0) (cl_agents (pedidos_de [7; 8]) !! 0%nat).
Definition juntos : cluster :=
  Cluster (<[0%nat := refill [(9, text_of (MRequest 7 [peticion]) +:+ text_of (MRequest 8 [peticion]))] lector]>
    (cl_agents (pedidos_de [7; 8]))) (cl_told (pedidos_de [7; 8])).

Lemma juntos_reach : cl_reach red NODE_ROOM [(0%nat, 8, [peticion]); (0%nat, 7, [peticion])] juntos.
Proof.
  assert (Hp : cl_reach red NODE_ROOM [(0%nat, 8, [peticion]); (0%nat, 7, [peticion])] (pedidos_de [7; 8])).
  { apply (cl_asks red _ [(0%nat, 7, [peticion])] (pedidos_de [7]) 0 9 8); [|unfold MAX_FDS; lia|done|set_solver|by apply peticion_fits; right].
    apply (cl_asks red _ [] inicio 0 9 7); [exact inicio_reach|unfold MAX_FDS; lia|done|set_solver|by apply peticion_fits; left]. }
  apply (cl_joins red _ _ _ 0 lector 9 []
    (text_of (MRequest 7 [peticion])) [] (text_of (MRequest 8 [peticion])) [] Hp); [done|done|apply not_elem_of_nil|].
  apply Nat.ltb_lt. vm_compute. reflexivity.
Qed.

Example joined_run :
  let c := turno 0 9 juntos in
  ((fun sv => (size (jobs_in (sv_node sv)), nic_in (sv_kernel sv))) <$> cl_agents c !! 0%nat,
   (fun sv => nic_in (sv_kernel sv)) <$> cl_agents c !! 1%nat)
  = (Some (2%nat, []), Some [(6, text_of (MReserve 7 peticion)); (6, text_of (MReserve 8 peticion))]).
Proof. vm_compute. reflexivity. Qed.

(** A job that ends while its RESERVE waits at another agent: the request is granted
    later all the same, nobody counts it, and it is not given back. *)
Definition grande : target := Target "10.0.0.1" 8100 CPU 3.
Definition dos_pedidos : cluster :=
  turno 1 6 (turno 1 6 (turno 0 9 (turno 0 9
    (write 0 9 (text_of (MRequest 8 [grande])) (write 0 9 (text_of (MRequest 7 [grande])) inicio))))).
Definition abandonado : cluster := turno 0 9 (write 0 9 (text_of (MJobRelease 8)) (turno 0 5 dos_pedidos)).
Definition liberado : cluster := turno 0 5 (turno 1 6 (turno 0 9 (write 0 9 (text_of (MJobRelease 7)) abandonado))).

Example waiting_request_leaks :
  ((fun sv => (size (jobs_in (sv_node sv)), nic_in (sv_kernel sv))) <$> cl_agents liberado !! 0%nat,
   (fun sv => (items (nd_active_jobs (sv_node sv)), av (nd_resources (sv_node sv)) CPU, nic_in (sv_kernel sv)))
     <$> cl_agents liberado !! 1%nat)
  = (Some (0%nat, []), Some ([ActiveJob 8 6 3 CPU], 1, [])).
Proof. vm_compute. reflexivity. Qed.

End ClusterEjemplo.
