(* ===== verification/ClusterOrder.v ===== *)
(** * ClusterOrder: ordered requests cannot wait for each other in a circle

    The schedulers sort the petitions of a job by node and resource before they write
    the JOB_REQUEST ([generate_job_request] in [src/erlang/job_scheduler.erl]), so that
    jobs that hold some resources while they wait for others cannot block each other
    for ever.  Here that is proved of the agents: in every reachable state of a cluster
    whose jobs are so ordered, some job that waits waits only for jobs that do not. *)

From Stdlib Require Import Ascii.
From stdpp Require Import relations lexico orders.
From S2P Require Import Prelude Queues TablaHash CString CommonTypes LocalResource OwnedJobs KnownNodes NodeStructures Connections Program Adapter ResourceAdapter AdapterSafety Protocol Recovery ThreadPool Outbox Server EventHandler EventSafety Reservation Cluster ClusterEvents ClusterSimulation ClusterSafety.
Local Open Scope Z_scope.

(** ** Who waits for whom *)

(** A job: its agent and its identifier. *)
Abbreviation job := (nat * Z)%type.

Definition job_of (c : cluster) (J : job) : option elem_owned_job_t :=
  sv ← cl_agents c !! J.1; jobs_in (sv_node sv) !! J.2.
Definition running (c : cluster) (J : job) : Prop := is_Some (job_of c J).

(** What a petition names: the address of a node and the type of a resource. *)
Definition resource_key : Type := string * Z * resource_t.
Definition key_of (t : target) : resource_key := (tg_ip t, tg_port t, tg_type t).

Section order.
Context (net : network) (Hnet : network_ok net).

(** A request of [J] is in the queue of the resource [ty] of the agent [b], and a
    reservation of [J] is on it. *)
Definition waits (c : cluster) (J : job) (b : nat) (ty : resource_t) : Prop :=
  exists sv e fd, cl_agents c !! b = Some sv /\ e ∈ pend (nd_resources (sv_node sv)) ty /\
    jr_job_id e = J.2 /\ net_peer net b (jr_socket e) = Some (J.1, fd).
Definition holds (c : cluster) (J : job) (b : nat) (ty : resource_t) : Prop :=
  exists sv s fd g, cl_agents c !! b = Some sv /\ net_peer net b s = Some (J.1, fd) /\
    contenido (nd_active_jobs (sv_node sv)) !! (J.2, s, ty) = Some g.

(** [J] waits for a resource of which [J'] holds a part. *)
Definition blocked_by (c : cluster) (J J' : job) : Prop :=
  running c J /\ running c J' /\ exists b ty, valid_res ty /\ waits c J b ty /\ holds c J' b ty.

(** Every agent is asked under one address only. *)
Definition one_address : Prop :=
  exists addr : nat -> string * Z, forall a t b s,
    petition_ok t -> net_link net a t = Some (b, s) -> (tg_ip t, tg_port t) = addr b.

Context (lt : resource_key -> resource_key -> Prop) `{!StrictOrder lt} `{!RelDecision lt}.

Lemma lt_irrefl x : ~ lt x x.
Proof. exact (StrictOrder_Irreflexive x). Qed.

(** The petitions are sorted. *)
Definition ascending (ts : list target) : Prop :=
  forall (i i' : nat) t t', (i < i')%nat -> ts !! i = Some t -> ts !! i' = Some t' -> lt (key_of t) (key_of t').

Definition all_ascending (c : cluster) : Prop := forall J j, job_of c J = Some j -> ascending (targets j).

(** *** A job that waits *)

Lemma job_of_spec c J j :
  job_of c J = Some j <-> exists sv, cl_agents c !! J.1 = Some sv /\ jobs_in (sv_node sv) !! J.2 = Some j.
Proof.
  unfold job_of. split.
  - intros Hj. apply bind_Some in Hj as (sv & Hsv & Hj). by exists sv.
  - intros (sv & -> & Hj). done.
Qed.

Lemma elem_of_concat {X} (x : X) (ls : list (list X)) l : x ∈ l -> l ∈ ls -> x ∈ concat ls.
Proof.
  intros Hx Hl. induction ls as [|l' ls IH]; [by apply not_elem_of_nil in Hl|]. simpl. apply elem_of_app.
  apply elem_of_cons in Hl as [->|Hl]; [by left|right; by apply IH].
Qed.

(** The target it awaits, and where its reservations come from. *)
Lemma waits_spec k A c J j b ty :
  cl_reach net k A c -> job_of c J = Some j -> valid_res ty -> waits c J b ty ->
  job_wf j /\ Forall petition_ok (targets j) /\
  (exists t s, awaiting j t /\ net_link net J.1 t = Some (b, s) /\ tg_type t = ty) /\
  forall b' ty', holds c J b' ty' -> exists t s, t ∈ granted j /\ net_link net J.1 t = Some (b', s) /\ tg_type t = ty'.
Proof.
  destruct J as [a id]. intros Hreach (sva & Hsva & Hj)%job_of_spec Hty (svb & e & fd & Hsvb & He & Hid & Hp). simpl in *.
  destruct (reach_refines net Hnet k A c Hreach) as (boxes & P & [Hs Hb Ha] & HP & [Hrj Hrh Hrw _ _]).
  pose proof (proto_reach_inv net Hnet P HP) as Hinv.
  assert (Hbox : forall x sv, cl_agents c !! x = Some sv -> exists M, agent_ok net k x M sv).
  { intros x sv Hx. pose proof (lookup_lt_Some _ _ _ Hx). destruct (lookup_lt_is_Some_2 boxes x) as [M HM]; [lia|].
    exists M. by apply Ha. }
  assert (HJ : pr_jobs P !! (a, id) = Some j) by (rewrite Hrj; unfold nodes_of; by rewrite list_lookup_fmap, Hsva).
  assert (HW : (b, e) ∈ pr_waits P).
  { rewrite Hrw. apply (elem_of_concat _ _ (pair b <$> waiting (sv_node svb))).
    - apply list_elem_of_fmap_2, list_elem_of_bind. exists ty. split; [done|]. by apply valid_res_types.
    - apply elem_of_lookup_imap. exists b, (sv_node svb). split; [done|]. unfold nodes_of. by rewrite list_lookup_fmap, Hsvb. }
  assert (Hnode : nodes_of (cl_agents c) !! a = Some (sv_node sva)) by (unfold nodes_of; by rewrite list_lookup_fmap, Hsva).
  destruct (Hbox b svb Hsvb) as (Mb & [[tb Hib] _ _ _ _ _ _]). destruct (Hbox a sva Hsva) as (Ma & [[ta Hia] _ _ Hta _ _ _]).
  assert (Hety : jr_resource_type e = ty).
  { pose proof (lw_pend _ _ _ (nw_local _ _ (ai_wf _ _ _ (si_agent _ _ _ Hib))) ty Hty) as Hpe.
    rewrite Forall_forall in Hpe. by apply Hpe. }
  destruct (proto_waiting _ _ P a id j b e Hinv HJ HW) as (Hon & t & Haw & Hl & Htt).
  { unfold wait_owner. simpl. by rewrite Hp, Hid. }
  split_and!.
  - by apply (ow_job _ _ _ _ (nw_owned _ _ (ai_wf _ _ _ (si_agent _ _ _ Hia))) Hj).
  - by apply (tn_jobs _ Hta id j Hj).
  - exists t, (jr_socket e). by rewrite <- Hety.
  - intros b' ty' (svb' & s & fd' & g & Hsvb' & Hp' & Hg). simpl in Hp', Hg.
    destruct (Hon b' s fd' ty' g Hp') as (t' & Ht' & Hl' & Hty').
    { rewrite Hrh. unfold nodes_of. by rewrite list_lookup_fmap, Hsvb'. }
    by exists t', s.
Qed.

(** Along the relation the resources waited for grow. *)
Lemma blocked_grows k A c J J' j j' b ty b' ty' t t' :
  cl_reach net k A c -> one_address -> all_ascending c ->
  job_of c J = Some j -> waits c J b ty -> valid_res ty -> awaiting j t ->
  job_of c J' = Some j' -> holds c J' b ty -> waits c J' b' ty' -> valid_res ty' -> awaiting j' t' ->
  lt (key_of t) (key_of t').
Proof.
  intros Hreach [addr Haddr] Hasc Hj Hw Hty Ht Hj' Hh Hw' Hty' Ht'.
  destruct (waits_spec k A c J j b ty Hreach Hj Hty Hw) as (Hjw & Hok & (t0 & s0 & Ht0 & Hl & Htt) & _).
  rewrite <- (awaiting_inj j t0 t) by done. clear t Ht.
  destruct (waits_spec k A c J' j' b' ty' Hreach Hj' Hty' Hw') as (Hjw' & Hok' & _ & Hheld).
  destruct (Hheld b ty Hh) as (h & s & Hgr & Hlh & Hth).
  destruct (granted_before j' t' h Hjw' Hgr Ht') as (i & i' & Hlt & Hi & Hi').
  enough (key_of t0 = key_of h) as -> by (by apply (Hasc J' j' Hj' i' i)).
  rewrite Forall_forall in Hok, Hok'.
  assert (Ha0 : (tg_ip t0, tg_port t0) = addr b).
  { apply (Haddr J.1 t0 b s0); [|done]. apply Hok. destruct Ht0 as (p & Hp & _ & <-). unfold last_sent in Hp.
    destruct (_ =? 0); [done|]. unfold targets. by eapply list_elem_of_fmap_2, list_elem_of_lookup_2. }
  assert (Hah : (tg_ip h, tg_port h) = addr b).
  { apply (Haddr J'.1 h b s); [|done]. by eapply Hok', list_elem_of_lookup_2. }
  unfold key_of. congruence.
Qed.

(** The petitions of a job are those of its request. *)
Lemma requests_ascending k A c :
  cl_reach net k A c -> Forall (fun r => ascending r.2) A -> all_ascending c.
Proof.
  intros Hreach HA J j (sv & Hsv & Hj)%job_of_spec.
  destruct (reach_asked net Hnet k A c J.1 sv J.2 j Hreach Hsv Hj) as (ts & Hin & Ht).
  rewrite Forall_forall in HA. specialize (HA _ Hin). simpl in HA. intros i i' t t' Hlt Hi Hi'. rewrite Ht in Hi, Hi'.
  apply lookup_take_Some in Hi as [Hi _]. apply lookup_take_Some in Hi' as [Hi' _]. by apply (HA i i').
Qed.

(** *** No circle, and somebody at the front *)

(** [J] waits in some queue, for the petition [t]. *)
Definition waits_for (c : cluster) (J : job) (t : target) : Prop :=
  exists j b ty, job_of c J = Some j /\ valid_res ty /\ waits c J b ty /\ awaiting j t.

Lemma waits_for_unique c J t t' : waits_for c J t -> waits_for c J t' -> t = t'.
Proof. intros (j & b & ty & Hj & _ & _ & Ht) (j' & b' & ty' & Hj' & _ & _ & Ht'). apply (awaiting_inj j); congruence. Qed.

Lemma waits_for_some k A c J b ty :
  cl_reach net k A c -> running c J -> valid_res ty -> waits c J b ty -> exists t, waits_for c J t.
Proof.
  intros Hreach [j Hj] Hty Hw. destruct (waits_spec k A c J j b ty Hreach Hj Hty Hw) as (_ & _ & (t & _ & Ht & _) & _).
  exists t, j, b, ty. done.
Qed.

Lemma blocked_step k A c J J' t' :
  cl_reach net k A c -> one_address -> all_ascending c -> blocked_by c J J' -> waits_for c J' t' ->
  exists t, waits_for c J t /\ lt (key_of t) (key_of t').
Proof.
  intros Hreach Haddr Hasc (HJ & _ & b & ty & Hty & Hw & Hh) (j' & b' & ty' & Hj' & Hty' & Hw' & Ht').
  destruct (waits_for_some k A c J b ty Hreach HJ Hty Hw) as [t Ht]. exists t. split; [done|].
  destruct HJ as [j Hj]. assert (Haw : awaiting j t).
  { destruct Ht as (j0 & _ & _ & Hj0 & _ & _ & Ht). congruence. }
  by apply (blocked_grows k A c J J' j j' b ty b' ty' t t').
Qed.

Lemma blocked_chain k A c J J' t' :
  cl_reach net k A c -> one_address -> all_ascending c -> tc (blocked_by c) J J' -> waits_for c J' t' ->
  exists t, waits_for c J t /\ lt (key_of t) (key_of t').
Proof.
  intros Hreach Haddr Hasc Hc. induction Hc as [J J' Hb|J J1 J' Hb _ IH]; intros Ht'; [by apply (blocked_step k A c J J' t')|].
  destruct (IH Ht') as (t1 & Ht1 & Hlt). destruct (blocked_step k A c J J1 t1 Hreach Haddr Hasc Hb Ht1) as (t & Ht & Hlt').
  exists t. split; [done|by etrans].
Qed.

Lemma blocked_first c J J' : tc (blocked_by c) J J' -> exists J1, blocked_by c J J1.
Proof. intros Hc. destruct Hc as [J J' Hb|J J1 J' Hb _]; by eexists. Qed.

(** An element with nothing above it. *)
Lemma maximal_in {X} (f : X -> resource_key) (x : X) (l : list X) :
  exists m, m ∈ x :: l /\ forall y, y ∈ x :: l -> ~ lt (f m) (f y).
Proof.
  revert x. induction l as [|y l IH]; intros x.
  - exists x. split; [by left|]. intros y ->%list_elem_of_singleton. exact (lt_irrefl (f x)).
  - destruct (IH y) as (m & Hm & Hmax). destruct (decide (lt (f m) (f x))) as [Hlt|Hlt].
    + exists x. split; [by left|]. intros z [->|Hz]%elem_of_cons; [exact (lt_irrefl (f x))|].
      intros Hxz. apply (Hmax z Hz). by etrans.
    + exists m. split; [by right|]. intros z [->|Hz]%elem_of_cons; [done|by apply Hmax].
Qed.

(** The jobs that wait, with the petition each one awaits. *)
Definition waiters (c : cluster) : list (job * target) :=
  '(b, sv) ← imap pair (cl_agents c);
  ty ← resource_types;
  e ← pend (nd_resources (sv_node sv)) ty;
  match (x ← net_peer net b (jr_socket e); let J := (x.1, jr_job_id e) in j ← job_of c J; p ← last_sent j; Some (J, target_of p)) with
  | Some r => [r]
  | None => []
  end.

Lemma waiters_spec c J t : waits_for c J t -> (J, t) ∈ waiters c.
Proof.
  intros (j & b & ty & Hj & Hty & (sv & e & fd & Hsv & He & Hid & Hp) & (p & Hl & _ & <-)).
  apply list_elem_of_bind. exists (b, sv). split; [|by apply elem_of_lookup_imap_2].
  apply list_elem_of_bind. exists ty. split; [|by apply valid_res_types].
  apply list_elem_of_bind. exists e. split; [|done]. rewrite Hp. simpl. rewrite Hid. destruct J as [a id]. simpl.
  rewrite Hj. simpl. rewrite Hl. by left.
Qed.

Lemma waiters_sound k A c J t : cl_reach net k A c -> (J, t) ∈ waiters c ->
  waits_for c J t /\ exists b ty, valid_res ty /\ waits c J b ty.
Proof.
  intros Hreach Hin. apply list_elem_of_bind in Hin as ([b sv] & Hin & Hb).
  apply elem_of_lookup_imap in Hb as (b' & sv' & [= -> ->] & Hsv).
  apply list_elem_of_bind in Hin as (ty & Hin & Hty). apply valid_res_types in Hty.
  apply list_elem_of_bind in Hin as (e & Hin & He).
  destruct (net_peer net b' (jr_socket e)) as [[a fd]|] eqn:Hp; [|by apply not_elem_of_nil in Hin]. simpl in Hin.
  destruct (job_of c (a, jr_job_id e)) as [j|] eqn:Hj; [|by apply not_elem_of_nil in Hin]. simpl in Hin.
  destruct (last_sent j) as [p|] eqn:Hl; [|by apply not_elem_of_nil in Hin]. simpl in Hin.
  apply list_elem_of_singleton in Hin as [= -> ->].
  assert (Hw : waits c (a, jr_job_id e) b' ty) by (by exists sv', e, fd).
  split; [|by exists b', ty]. exists j, b', ty. split_and!; [done..|].
  destruct (waits_spec k A c _ j b' ty Hreach Hj Hty Hw) as (_ & _ & (t & _ & (p' & Hl' & H0 & Ht) & _) & _).
  exists p. split; [done|]. split; [congruence|done].
Qed.

(** ** Theorems *)

(** Also: the order of the petitions prevents deadlock: when every request the schedulers
    have written has its petitions sorted (by any strict order on addresses and types)
    and every agent is asked under one address, then in every state their requests and
    the events of the agents can lead to, no job waits in a circle for a resource
    another one holds; and if some job waits, there is one that waits for a resource
    whose holders wait for nothing. *)
Theorem ordered_no_deadlock k A c :
  cl_reach net k A c -> one_address -> Forall (fun r => ascending r.2) A ->
  (forall J, ~ tc (blocked_by c) J J) /\
  forall J b ty, running c J -> valid_res ty -> waits c J b ty ->
    exists J1 b1 ty1, running c J1 /\ valid_res ty1 /\ waits c J1 b1 ty1 /\
      forall J2, running c J2 -> holds c J2 b1 ty1 -> forall b2 ty2, valid_res ty2 -> ~ waits c J2 b2 ty2.
Proof.
  intros Hreach Haddr Hasc. apply (requests_ascending k A c Hreach) in Hasc. split.
  - intros J Hc. destruct (blocked_first c J J Hc) as (J' & HJ & _ & b & ty & Hty & Hw & _). destruct (waits_for_some k A c J b ty Hreach HJ Hty Hw) as [t Ht].
    destruct (blocked_chain k A c J J t Hreach Haddr Hasc Hc Ht) as (t' & Ht' & Hlt).
    rewrite (waits_for_unique c J t' t Ht' Ht) in Hlt. exact (lt_irrefl _ Hlt).
  - intros J b ty HJ Hty Hw. destruct (waits_for_some k A c J b ty Hreach HJ Hty Hw) as [t Ht].
    apply waiters_spec in Ht. destruct (waiters c) as [|x l] eqn:Hl; [by apply not_elem_of_nil in Ht|].
    destruct (maximal_in (fun x => key_of x.2) x l) as ([J1 t1] & Hm & Hmax). rewrite <- Hl in Hm, Hmax.
    destruct (waiters_sound k A c J1 t1 Hreach Hm) as [Hw1 (b1 & ty1 & Hty1 & Hq1)].
    assert (HJ1 : running c J1) by (destruct Hw1 as (j1 & _ & _ & Hj1 & _); by exists j1).
    exists J1, b1, ty1. split_and!; [done..|]. intros J2 HJ2 Hh b2 ty2 Hty2 Hw2.
    destruct (waits_for_some k A c J2 b2 ty2 Hreach HJ2 Hty2 Hw2) as [t2 Ht2].
    destruct (blocked_step k A c J1 J2 t2 Hreach Haddr Hasc) as (t1' & Ht1' & Hlt); [by split_and!; [| |exists b1, ty1]|done|].
    rewrite (waits_for_unique c J1 t1' t1 Ht1' Hw1) in Hlt. apply (Hmax (J2, t2)); [by apply waiters_spec|done].
Qed.

End order.

(** ** Concrete runs *)

Module OrderEjemplo.
Import ClusterEjemplo.

(** An order like that of the schedulers (see [Client]): the address as a list of
    characters, the port, and cpu, mem, gpu. *)
Definition resource_order (t : resource_t) : nat := match t with CPU => 1 | RAM => 2 | _ => 3 end.
Definition rank (k : resource_key) : list N * (Z * nat) :=
  (N_of_ascii <$> String.list_ascii_of_string k.1.1, (k.1.2, resource_order k.2)).
Definition petition_lt (k k' : resource_key) : Prop := lexico (rank k) (rank k').

#[export] Instance petition_lt_order : StrictOrder petition_lt.
Proof.
  unfold petition_lt. split.
  - intros k. exact (StrictOrder_Irreflexive (R := lexico) (rank k)).
  - intros k1 k2 k3. exact (StrictOrder_Transitive (R := lexico) (rank k1) (rank k2) (rank k3)).
Qed.

#[export] Instance petition_lt_dec : RelDecision petition_lt.
Proof. intros k k'. unfold petition_lt. apply _. Defined.

Lemma red_one_address : one_address red.
Proof.
  exists (fun b => match b with O => ("10.0.0.0", 0) | _ => ("10.0.0.1", 8100) end). intros a t b s Ht Hl.
  unfold net_link in Hl. destruct (route (net_conns red a) (to_node t EmptyString)) as [fd|] eqn:Hr; [|done]. simpl in Hl.
  destruct (route_entry red red_ok a t fd Ht Hr) as (c & Hc & <- & <-).
  apply red_peers in Hl as [[= -> -> -> ->]|[= -> -> -> ->]]; vm_compute in Hc; by injection Hc as <-.
Qed.

(** Two jobs of the scheduler of 0, both read and asked for. *)
Definition pedidos (l7 l8 : list target) : cluster :=
  write 0 9 (text_of (MRequest 8 l8)) (write 0 9 (text_of (MRequest 7 l7)) inicio).
Definition leidos (c : cluster) : cluster := turno 0 9 (turno 0 9 c).
Definition en_1 (c : cluster) : cluster := turno 1 6 (turno 1 6 c).
Definition en_0 (c : cluster) : cluster := turno 0 5 (turno 0 5 c).

Definition toda_cpu : target := Target "10.0.0.1" 8100 CPU 4.
Definition toda_mem : target := Target "10.0.0.1" 8100 RAM 8.

(** With the petitions sorted, 7 gets the cpu and 8 waits for it. *)
Definition ordenado : cluster := en_1 (leidos (pedidos [toda_cpu; toda_mem] [toda_cpu; toda_mem])).
(** Not sorted, each one gets what the other one waits for. *)
Definition cruzado : cluster := en_1 (en_0 (en_1 (leidos (pedidos [toda_cpu; toda_mem] [toda_mem; toda_cpu])))).

Lemma sorted_fits id : id = 7 \/ id = 8 -> request_fits id [toda_cpu; toda_mem].
Proof.
  intros Hid. split; try (destruct Hid as [-> | ->]; reflexivity || (apply Nat.ltb_lt; reflexivity)).
  - unfold id_ok. lia.
  - repeat apply Forall_cons_2; [..|constructor]; unfold petition_ok, target_ok, in_u32, UINT_RANGE; simpl;
      split_and!; (done || lia).
  - apply (bool_decide_unpack _). by vm_compute.
Qed.

Definition cuarto : Z := NODE_ROOM - EVENT_COST - EVENT_COST - EVENT_COST - EVENT_COST.

Lemma ordenado_reach : cl_reach red cuarto [(0%nat, 8, [toda_cpu; toda_mem]); (0%nat, 7, [toda_cpu; toda_mem])] ordenado.
Proof.
  assert (Hp : cl_reach red NODE_ROOM [(0%nat, 8, [toda_cpu; toda_mem]); (0%nat, 7, [toda_cpu; toda_mem])] (pedidos [toda_cpu; toda_mem] [toda_cpu; toda_mem])).
  { apply cl_asks; [|unfold MAX_FDS; lia|done|set_solver|by apply sorted_fits; right].
    apply cl_asks; [exact inicio_reach|unfold MAX_FDS; lia|done|set_solver|by apply sorted_fits; left]. }
  unfold ordenado, cuarto, en_1, leidos.
  do 4 (apply turno_reach; [|done|intros f; vm_compute; reflexivity]). exact Hp.
Qed.

Lemma sorted_ascending : ascending petition_lt [toda_cpu; toda_mem].
Proof.
  intros [|[|i]] [|[|i']] t t' Hlt Hi Hi'; try lia; simpl in *; simplify_eq; try done.
  apply (bool_decide_unpack _). by vm_compute.
Qed.

Lemma ordered_no_deadlock_witness :
  (forall J, ~ tc (blocked_by red ordenado) J J) /\
  forall J b ty, running ordenado J -> valid_res ty -> waits red ordenado J b ty ->
    exists J1 b1 ty1, running ordenado J1 /\ valid_res ty1 /\ waits red ordenado J1 b1 ty1 /\
      forall J2, running ordenado J2 -> holds red ordenado J2 b1 ty1 -> forall b2 ty2, valid_res ty2 -> ~ waits red ordenado J2 b2 ty2.
Proof.
  exact (ordered_no_deadlock red red_ok petition_lt cuarto [(0%nat, 8, [toda_cpu; toda_mem]); (0%nat, 7, [toda_cpu; toda_mem])] ordenado ordenado_reach
    red_one_address ltac:(repeat apply Forall_cons_2; (exact sorted_ascending || constructor))).
Defined.

Ltac blocks e g :=
  split; [by eexists; vm_compute|split; [by eexists; vm_compute|]];
  exists 1%nat, (jr_resource_type e); split; [done|split];
  [eexists _, e, 5; split_and!; [by vm_compute|vm_compute; by left|done|done]
  |eexists _, 6, 5, g; split_and!; by vm_compute].

(** Job 8 waits for 7, and 7 for nothing. *)
Example ordered_blocked : blocked_by red ordenado (0%nat, 8) (0%nat, 7).
Proof. blocks (JobRequest 8 6 4 CPU) (ActiveJob 7 6 4 CPU). Qed.

(** Without the order the agents reach a circle. *)
Example unordered_deadlock : tc (blocked_by red cruzado) (0%nat, 7) (0%nat, 7).
Proof.
  apply (tc_l _ _ (0%nat, 8)); [|apply tc_once].
  - blocks (JobRequest 7 6 8 RAM) (ActiveJob 8 6 8 RAM).
  - blocks (JobRequest 8 6 4 CPU) (ActiveJob 7 6 4 CPU).
Qed.

(** The periodic check of 0 ends both jobs after 21 seconds, and the messages it sends
    are read: all the memory of 1 is left reserved for job 7, which does not exist any
    more, and nothing is in transit. *)
Definition ahora : environment := Env 1021 1021 (fun i => Z.of_nat i) EmptyString.
Definition vencido : cluster :=
  after red 0 (default (agente 0) (sv ← cl_agents cruzado !! 0%nat;
    snd <$> serve (run_task (Task (-1) TASK_GARBAGE_COLLECTOR) 20%nat) (set_env ahora sv))) cruzado.

Example timeout_leaks :
  let c := en_0 (en_1 vencido) in
  (cl_told c, (fun sv => (size (jobs_in (sv_node sv)), nic_in (sv_kernel sv))) <$> cl_agents c !! 0%nat,
   (fun sv => (items (nd_active_jobs (sv_node sv)), avail (nd_resources (sv_node sv)), nic_in (sv_kernel sv)))
     <$> cl_agents c !! 1%nat)
  = ([(0%nat, 9, "JOB_TIMEOUT 7" +:+ str_nl); (0%nat, 9, "JOB_TIMEOUT 8" +:+ str_nl)], Some (0%nat, []),
     Some ([ActiveJob 7 6 8 RAM], [4; 1; 0], [])).
Proof. vm_compute. reflexivity. Qed.

End OrderEjemplo.
