(* ===== verification/Client.v ===== *)
(** * Client: the scheduler and its agent

    What [src/erlang/job_scheduler.erl] and the agent make of each other's messages:
    the answer to GET_NODES is read back as the directory it was made from, the
    request the scheduler draws from it is a request the agent accepts, with the
    petitions in order, and the requests of such schedulers cannot wait for each
    other in a circle. *)

From Stdlib Require Import Ascii.
From stdpp Require Import relations lexico.
From S2P Require Import Prelude TablaHash CString CommonTypes Erlang Scheduler Bridge LocalResource OwnedJobs KnownNodes NodeStructures Connections Program Adapter ResourceAdapter AdapterSafety Protocol Recovery Server EventHandler EventSafety Reservation Cluster ClusterEvents ClusterSimulation ClusterSafety ClusterOrder.
Local Open Scope Z_scope.

(** ** The answer to GET_NODES *)

Section directory.
Context (parse_strict_address : string -> bool).

(** An address as agents have them, which the scheduler accepts. *)
Record ip_ok (ip : string) : Prop := {
  ip_parses : parse_strict_address ip = true;
  ip_length : (String.length ip <= 15)%nat;
  ip_nonempty : ip ≠ EmptyString;
  ip_colon : no_char ":" ip = true;
  ip_semicolon : no_char ";" ip = true;
  ip_space : no_space ip = true
}.

Definition announced_ok (n : elem_known_nodes_t) : Prop :=
  node_ok n /\ ip_ok (kn_node_ip n) /\ 1 <= kn_node_port n <= 65535.

(** The record the scheduler makes of a node. *)
Definition listed (n : elem_known_nodes_t) : node :=
  Node (kn_node_ip n) (utoa (kn_node_port n)) (Some (node_avail n CPU)) (Some (node_avail n RAM)) (Some (node_avail n GPU)).

Definition line_words (n : elem_known_nodes_t) : list string :=
  [kn_node_ip n; utoa (kn_node_port n); "cpu"; utoa (node_avail n CPU); "mem"; utoa (node_avail n RAM); "gpu";
   utoa (node_avail n GPU)].

Lemma node_line_words n : node_line n = String.concat ":" (line_words n).
Proof. unfold node_line, node_args, line_words. simpl. repeat (rewrite ?str_app_assoc, ?str_app_nil_r; simpl). done. Qed.

Lemma avail_u32 n t : node_ok n -> in_u32 (node_avail n t).
Proof.
  intros (_ & _ & Ha). unfold node_avail. destruct (nth_in_or_default (res_code t) (kn_avail n) 0) as [Hin | ->]; [|done].
  rewrite Forall_forall in Ha. by apply Ha, list_elem_of_In.
Qed.

Lemma read_line n : announced_ok n -> validate_and_get_node parse_strict_address (node_line n) = Some (listed n).
Proof.
  intros (Hok & Hip & Hp). pose proof (avail_u32 n CPU Hok) as Hc. pose proof (avail_u32 n RAM Hok) as Hr.
  pose proof (avail_u32 n GPU Hok) as Hg. unfold validate_and_get_node.
  rewrite node_line_words. unfold line_words. rewrite (split_all_concat ":").
  2: { repeat (apply Forall_cons; split); try apply Hip; try (by apply no_char_utoa); done. }
  rewrite (ip_parses _ Hip). cbn [assert_def mbind option_bind].
  rewrite list_to_integer_utoa by apply Hok. cbn [mbind option_bind].
  rewrite (proj2 (andb_true_iff _ _)) by (split; apply Z.leb_le; lia). cbn [assert_def mbind option_bind to_pairs].
  rewrite !trim_word by (apply no_space_utoa; unfold in_u32 in *; lia).
  by rewrite !list_to_integer_utoa.
Qed.

Lemma read_lines l :
  Forall announced_ok l -> mapM (validate_and_get_node parse_strict_address) (node_line <$> l) = Some (listed <$> l).
Proof.
  intros Hl. apply mapM_Some. apply Forall2_fmap. apply Forall_Forall2_diag. eapply Forall_impl; [exact Hl|]. apply read_line.
Qed.

Lemma line_chars n : announced_ok n -> no_space (node_line n) = true /\ no_char ";" (node_line n) = true.
Proof.
  intros (Hok & Hip & Hp). rewrite node_line_words. unfold line_words. cbn [String.concat].
  pose proof (avail_u32 n CPU Hok) as [Hc _]. pose proof (avail_u32 n RAM Hok) as [Hr _].
  pose proof (avail_u32 n GPU Hok) as [Hg _].
  rewrite !no_space_app, !no_char_app, !no_space_utoa, !(no_char_utoa ";"), (ip_space _ Hip), (ip_semicolon _ Hip) by (done || lia).
  done.
Qed.

Lemma joined_no_space l : Forall announced_ok l -> no_space (String.concat ";" (node_line <$> l)) = true.
Proof.
  induction 1 as [|n l Hn Hl IH]; [done|]. destruct (line_chars n Hn) as [Hs _]. destruct l as [|m l]; [done|].
  change (String.concat ";" (node_line <$> n :: m :: l)) with (node_line n +:+ ";" +:+ String.concat ";" (node_line <$> m :: l)).
  by rewrite !no_space_app, Hs, IH.
Qed.

Lemma joined_nonempty n l : String.concat ";" (node_line <$> n :: l) ≠ EmptyString.
Proof.
  intros H. apply (f_equal String.length) in H. rewrite fmap_cons, node_line_words in H. unfold line_words in H.
  destruct l; cbn [fmap list_fmap String.concat] in H; rewrite !str_length_app in H; simpl in H; lia.
Qed.

(** The payload read back. *)
Lemma read_payload l :
  Forall announced_ok l ->
  handle_packet parse_strict_address ("NODES " +:+ String.concat ";" (node_line <$> l) +:+ str_nl) =
    match l with [] => Skip "No nodes available" | _ => NodeRecords (listed <$> l) end.
Proof.
  intros Hl. unfold handle_packet, do_handle_packet. rewrite after_prefix_app.
  pose proof (joined_no_space l Hl) as Hs. unfold get_node_list. rewrite trim_line by done.
  destruct l as [|n l]; [done|]. rewrite (proj2 (String.eqb_neq _ _)) by apply joined_nonempty.
  assert (Hsp : split_all ";" (String.concat ";" (node_line <$> n :: l)) = node_line <$> n :: l).
  { rewrite fmap_cons. apply split_all_concat. rewrite <- fmap_cons. apply Forall_fmap.
    eapply Forall_impl; [exact Hl|]. intros m Hm. by apply line_chars. }
  by rewrite Hsp, read_lines.
Qed.

(** The nodes an answer lists. *)
Definition answered (nodes : known_nodes_t) : list elem_known_nodes_t := fitting (Z.of_nat BUFFER_SIZE - 6) (items nodes).

Lemma runs_get_nodes cl k n socket :
  full_outbox cl -> known_wf k (nd_known_nodes n) ->
  runs cl n [] (handle_get_nodes_response socket) (fun _ n' ms => n' = n /\
    ms = [to_fd socket ("NODES " +:+ String.concat ";" (node_line <$> answered (nd_known_nodes n)) +:+ str_nl)]).
Proof.
  intros Hcl Hk. destruct (payload_spec k (nd_known_nodes n) EmptyString (Z.of_nat BUFFER_SIZE) Hk) as [Hp Hlen]; [done|].
  fold (answered (nd_known_nodes n)) in Hp, Hlen. set (payload := "NODES " +:+ _) in *.
  assert (Hpl : (String.length payload < BUFFER_SIZE)%nat).
  { subst payload. rewrite !str_length_app, Nat2Z.id in *. simpl. lia. }
  unfold handle_get_nodes_response. apply runs_bind, runs_lock, runs_bind.
  eapply runs_on_known; [unfold query; by rewrite Hp|]. apply runs_bind, runs_unlock.
  apply runs_add; [by apply full_can_send|]. split; [by destruct n|]. simpl. unfold queue_out, to_fd, snprintf.
  cbn [format print_arg]. change (Ascii.eqb "%" "%") with true. cbn [format print_arg].
  change (Ascii.eqb "s" "s") with true. cbv iota. rewrite !str_app_nil_r.
  rewrite (str_take_all (BUFFER_SIZE + 1 - 1)) by lia. by rewrite str_take_all by lia.
Qed.

(** C32: the directory as the scheduler sees it: the agent answers GET_NODES with one
    message, shorter than the buffer, and the scheduler reads it back as exactly the
    nodes it lists, in order, with the addresses, ports and free amounts last
    announced, or as the answer of an agent that knows nobody; every known node is
    listed when their records fit.  The agent is unchanged. *)
Theorem nodes_read_back k n conns socket :
  known_wf k (nd_known_nodes n) -> Forall announced_ok (items (nd_known_nodes n)) ->
  exists payload, exec conns (handle_get_nodes_response socket) n = Some (n, [to_fd socket payload]) /\
    (String.length payload < BUFFER_SIZE)%nat /\
    let l := answered (nd_known_nodes n) in
    handle_packet parse_strict_address payload =
      match l with [] => Skip "No nodes available" | _ => NodeRecords (listed <$> l) end /\
    l `sublist_of` items (nd_known_nodes n) /\ NoDup (node_key <$> l) /\
    (records_length (items (nd_known_nodes n)) < Z.of_nat BUFFER_SIZE - 6 -> l = items (nd_known_nodes n)).
Proof.
  intros Hk Hl. destruct (runs_exec conns n _ _ (runs_get_nodes _ k n socket (full_max _) Hk)) as (n' & ms & He & -> & ->).
  eexists. split; [exact He|].
  destruct (payload_spec k (nd_known_nodes n) EmptyString (Z.of_nat BUFFER_SIZE) Hk) as [_ Hlen]; [done|].
  fold (answered (nd_known_nodes n)) in Hlen. pose proof (fitting_sublist (Z.of_nat BUFFER_SIZE - 6) (items (nd_known_nodes n))) as Hsub.
  split; [rewrite !str_length_app, Nat2Z.id in *; simpl; lia|]. cbv zeta. split_and!.
  - apply read_payload. rewrite Forall_forall in Hl |- *. intros x Hx. apply Hl. by eapply elem_of_submseteq, sublist_submseteq.
  - exact Hsub.
  - eapply sublist_NoDup; [exact (wf_items_NoDup _ (kw_tabla _ _ Hk))|by apply fmap_sublist].
  - apply fitting_all.
Qed.

End directory.

(** ** The request of a job *)

Definition resource_type (r : resource) : resource_t := match r with Cpu => CPU | Mem => RAM | Gpu => GPU end.
Definition erl_resource (t : resource_t) : resource := match t with CPU => Cpu | RAM => Mem | _ => Gpu end.

(** The petition as the agent reads it. *)
Definition target_of_petition (p : petition) : target :=
  Target (pt_ip p) (default 0 (list_to_integer (pt_port p))) (resource_type (pt_resource p)) (pt_amount p).

(** The order of the scheduler, on what the agents call a resource. *)
Definition sched_rank (k : resource_key) : list N * (list N * nat) := rank k.1.1 (utoa k.1.2) (erl_resource k.2).
Definition sched_lt (k k' : resource_key) : Prop := lexico (sched_rank k) (sched_rank k').

#[export] Instance sched_lt_order : StrictOrder sched_lt.
Proof.
  unfold sched_lt. split.
  - intros k. exact (StrictOrder_Irreflexive (R := lexico) (sched_rank k)).
  - intros k1 k2 k3. exact (StrictOrder_Transitive (R := lexico) (sched_rank k1) (sched_rank k2) (sched_rank k3)).
Qed.

#[export] Instance sched_lt_dec : RelDecision sched_lt.
Proof. intros k k'. unfold sched_lt. apply _. Defined.

Definition petition_key (p : petition) : string * string * resource := (pt_ip p, pt_port p, pt_resource p).

Lemma rank_key p q : petition_rank p = petition_rank q -> petition_key p = petition_key q.
Proof.
  unfold petition_rank, rank, petition_key. intros [= Hi%chars_inj Hp%chars_inj Hr]. rewrite Hi, Hp. f_equal.
  by destruct (pt_resource p), (pt_resource q).
Qed.

Lemma sorted_lookup {A} (R : relation A) l (i j : nat) x y :
  StronglySorted R l -> (i < j)%nat -> l !! i = Some x -> l !! j = Some y -> R x y.
Proof.
  intros Hs Hij Hx Hy. rewrite <- (take_drop (S i) l) in Hs.
  eapply StronglySorted_app_1_elem_of; [exact Hs| |].
  - apply (list_elem_of_lookup_2 _ i). rewrite lookup_take_lt by lia. done.
  - apply (list_elem_of_lookup_2 _ (j - S i)). rewrite lookup_drop. by replace (S i + (j - S i))%nat with j by lia.
Qed.

(** Sorted petitions for different resources are in strictly increasing order. *)
Lemma sorted_ranks ps i j p q :
  StronglySorted rank_le ps -> NoDup (petition_key <$> ps) -> (i < j)%nat -> ps !! i = Some p -> ps !! j = Some q ->
  lexico (petition_rank p) (petition_rank q).
Proof.
  intros Hs Hnd Hij Hp Hq. destruct (sorted_lookup _ _ _ _ _ _ Hs Hij Hp Hq) as [Heq%rank_key|]; [|done].
  assert (i = j); [|lia]. eapply NoDup_lookup; [exact Hnd| |]; rewrite list_lookup_fmap.
  - by rewrite Hp.
  - rewrite Hq. simpl. by rewrite Heq.
Qed.

Lemma no_space_blank s : no_space s = true -> no_char " " s = true.
Proof.
  induction s as [|c s IH]; simpl; [done|]. intros [Hc Hs]%andb_true_iff. rewrite IH by done.
  destruct (Ascii.eqb_spec c " ") as [->|]; done.
Qed.

Lemma concat_blank a ws : String.concat " " (a :: ws) = foldl (fun acc w => acc +:+ " " +:+ w) a ws.
Proof.
  revert a. induction ws as [|w ws IH]; intros a; [done|].
  change (String.concat " " (a :: w :: ws)) with (a +:+ " " +:+ String.concat " " (w :: ws)). simpl foldl. rewrite <- IH.
  destruct ws as [|w' ws]; [done|].
  change (String.concat " " (?x :: w' :: ws)) with (x +:+ " " +:+ String.concat " " (w' :: ws)).
  by rewrite !str_app_assoc.
Qed.

Section request.
Context (parse_strict_address : string -> bool).
Local Abbreviation known_ok := (announced_ok parse_strict_address).

(** A petition to the node [n], for a part of what it announced. *)
Record part_of (n : elem_known_nodes_t) (p : petition) : Prop := {
  po_ip : pt_ip p = kn_node_ip n;
  po_port : pt_port p = utoa (kn_node_port n);
  po_amount : 1 <= pt_amount p <= node_avail n (resource_type (pt_resource p))
}.

Lemma offered_listed n r m : (r, m) ∈ offered (listed n) -> m = node_avail n (resource_type r).
Proof.
  unfold offered, listed. intros ((r' & a) & Hin & H)%list_elem_of_omap.
  repeat (apply elem_of_cons in Hin as [[= -> ->]|Hin]; [simpl in H; destruct (0 <? _); [by injection H as <- <-|done]|]).
  by apply not_elem_of_nil in Hin.
Qed.

Lemma picked_parts n g : picked_from (listed n) g -> Forall (part_of n) g.
Proof.
  unfold picked_from. intros Hg. apply Forall_forall. intros p Hp. apply list_elem_of_lookup in Hp as [i Hi].
  destruct (Forall2_lookup_r _ _ _ _ _ Hg Hi) as ([r m] & Hrm & H1 & H2 & H3 & H4).
  split; [done|done|]. apply list_elem_of_lookup_2, offered_listed in Hrm. by rewrite H3, <- Hrm.
Qed.

Lemma offered_NoDup n : NoDup (offered n).*1.
Proof.
  apply (sublist_NoDup _ [Cpu; Mem; Gpu]); [repeat constructor; set_solver|]. unfold offered. simpl.
  destruct (en_cpu n) as [c|], (en_mem n) as [m|], (en_gpu n) as [g|]; simpl;
    repeat match goal with |- context [0 <? ?z] => destruct (0 <? z) end; simpl;
    repeat (apply sublist_skip || apply sublist_cons || apply sublist_nil_l).
Qed.

Lemma picked_resources n g : picked_from n g -> pt_resource <$> g = (offered n).*1.
Proof.
  unfold picked_from. induction 1 as [|[r m] p l g (_ & _ & Hr & _) _ IH]; [done|]. rewrite !fmap_cons. by f_equal.
Qed.

Lemma picked_key n g : picked_from n g -> petition_key <$> g = (fun r => (en_ip n, en_port n, r)) <$> (offered n).*1.
Proof.
  unfold picked_from. induction 1 as [|[r m] p l g (Hi & Hp & Hr & _) _ IH]; [done|]. rewrite !fmap_cons. f_equal; [|done].
  unfold petition_key. simpl. by rewrite Hi, Hp, Hr.
Qed.

(** Different nodes, and different resources of each. *)
Lemma picked_NoDup sel gs :
  NoDup ((fun n => (en_ip n, en_port n)) <$> sel) -> Forall2 picked_from sel gs -> NoDup (petition_key <$> concat gs).
Proof.
  intros Hnd Hgs. induction Hgs as [|n g sel gs Hg Hgs IH]; [constructor|]. rewrite fmap_cons in Hnd.
  apply NoDup_cons in Hnd as [Hn Hnd]. simpl concat. rewrite fmap_app. apply NoDup_app. split_and!; [| |by apply IH].
  - rewrite (picked_key n g Hg). apply NoDup_fmap_2; [by intros ? ? [= ->]|apply offered_NoDup].
  - intros key Hk Hin. apply Hn. rewrite (picked_key n g Hg) in Hk. apply list_elem_of_fmap in Hk as (r & -> & _).
    apply list_elem_of_fmap in Hin as (p & Hkey & Hp). apply list_elem_of_In, in_concat in Hp as (g' & Hg' & Hp).
    apply list_elem_of_In, list_elem_of_lookup in Hg' as [i Hi]. destruct (Forall2_lookup_r _ _ _ _ _ Hgs Hi) as (n' & Hn' & Hpick).
    apply list_elem_of_In in Hp. apply (list_elem_of_fmap_2 petition_key) in Hp. rewrite (picked_key n' g' Hpick) in Hp.
    apply list_elem_of_fmap in Hp as (r' & Hk' & _). apply list_elem_of_fmap. exists n'. split; [congruence|].
    by eapply list_elem_of_lookup_2.
Qed.

Lemma utoa_inj z z' : in_u32 z -> in_u32 z' -> utoa z = utoa z' -> z = z'.
Proof. intros Hz Hz' H. apply (f_equal list_to_integer) in H. rewrite !list_to_integer_utoa in H by done. congruence. Qed.

Lemma listed_NoDup l :
  Forall known_ok l -> NoDup (node_key <$> l) -> NoDup ((fun n => (en_ip n, en_port n)) <$> (listed <$> l)).
Proof.
  intros Hl Hnd. rewrite <- list_fmap_compose. induction Hl as [|n l (Hok & _ & Hp) Hl IH]; [constructor|].
  rewrite fmap_cons. apply NoDup_cons in Hnd as [Hn Hnd]. constructor; [|by apply IH].
  intros (m & [= Hi Hpo] & Hm)%list_elem_of_fmap. apply Hn. apply list_elem_of_fmap. exists m. split; [|done].
  rewrite Forall_forall in Hl. destruct (Hl m Hm) as (Hokm & _ & _). unfold node_key. rewrite Hi. f_equal.
  apply utoa_inj; [apply Hok|apply Hokm|done].
Qed.

Lemma submseteq_NoDup {A} (l k : list A) : l ⊆+ k -> NoDup k -> NoDup l.
Proof. intros [k' Hp]%submseteq_Permutation Hk. rewrite Hp in Hk. by apply NoDup_app in Hk as (? & _). Qed.

(** Every petition of a request is for a part of a node of the list, and no resource
    of a node is named twice. *)
Lemma request_parts Env id l text ps :
  Forall known_ok l -> NoDup (node_key <$> l) -> request_of Env id (listed <$> l) text ps ->
  Forall (fun p => exists n, n ∈ l /\ part_of n p) ps /\ NoDup (petition_key <$> ps).
Proof.
  intros Hl Hnd [_ (sel & gs & Hsub & _ & Hgs & Hps) _]. split.
  - apply Forall_forall. intros p Hp. rewrite Hps in Hp. apply list_elem_of_In, in_concat in Hp as (g & Hg & Hp).
    apply list_elem_of_In, list_elem_of_lookup in Hg as [i Hi]. destruct (Forall2_lookup_r _ _ _ _ _ Hgs Hi) as (n & Hn & Hpick).
    apply list_elem_of_lookup_2 in Hn. apply (elem_of_submseteq _ _ _ Hn) in Hsub.
    apply list_elem_of_fmap in Hsub as (m & -> & Hm). exists m. split; [done|]. apply picked_parts in Hpick.
    rewrite Forall_forall in Hpick. apply Hpick. by apply list_elem_of_In.
  - rewrite Hps. apply (picked_NoDup sel); [|done].
    eapply submseteq_NoDup; [by apply fmap_submseteq|by apply listed_NoDup].
Qed.

(** *** As the agent reads it *)

Definition agent_petition (n : elem_known_nodes_t) (p : petition) : Prop :=
  target_of_petition p = Target (kn_node_ip n) (kn_node_port n) (resource_type (pt_resource p)) (pt_amount p) /\
  petition_ok (target_of_petition p) /\ (forall acc, build_job_request acc p = acc +:+ " " +:+ petition_text (target_of_petition p)) /\
  petition_rank p = sched_rank (key_of (target_of_petition p)).

Lemma read_petition n p : known_ok n -> part_of n p -> agent_petition n p.
Proof.
  intros (Hok & Hip & Hport) [Hi Hpo Ha]. pose proof (avail_u32 n (resource_type (pt_resource p)) Hok) as Hu.
  assert (Hamount : in_u32 (pt_amount p)) by (unfold in_u32 in *; lia).
  assert (Ht : target_of_petition p = Target (kn_node_ip n) (kn_node_port n) (resource_type (pt_resource p)) (pt_amount p)).
  { unfold target_of_petition. rewrite Hi, Hpo, list_to_integer_utoa by apply Hok. done. }
  split; [done|]. rewrite Ht. split_and!.
  - split; [split; [done|by destruct (pt_resource p)]|]. simpl. split_and!; try apply Hip; [apply Hok|].
    apply no_space_blank, Hip.
  - intros acc. unfold build_job_request, petition_text. simpl. rewrite Hi, Hpo, integer_to_list_u32 by done.
    by destruct (pt_resource p).
  - unfold petition_rank, sched_rank, key_of. simpl. rewrite Hi, Hpo. by destruct (pt_resource p).
Qed.

Lemma request_text ps id acc :
  Forall (fun p => exists n, agent_petition n p) ps -> in_u32 id -> acc = "JOB_REQUEST " +:+ integer_to_list id ->
  foldl build_job_request acc ps = job_request_text id (target_of_petition <$> ps).
Proof.
  intros Hps Hid ->. rewrite integer_to_list_u32 by done. unfold job_request_text.
  change (String.concat " " ("JOB_REQUEST" :: utoa id :: ?ws)) with ("JOB_REQUEST " +:+ String.concat " " (utoa id :: ws)).
  assert (Hc : forall a, "JOB_REQUEST " +:+ String.concat " " (a :: (petition_text <$> (target_of_petition <$> ps)))
            = String.concat " " (("JOB_REQUEST " +:+ a) :: (petition_text <$> (target_of_petition <$> ps)))).
  { intros a. by destruct ps. }
  rewrite Hc, concat_blank. generalize ("JOB_REQUEST " +:+ utoa id). clear Hc.
  induction Hps as [|p ps (n & _ & _ & Hb & _) _ IH]; intros acc; [done|]. simpl. by rewrite Hb, IH.
Qed.

Record agent_request (l : list elem_known_nodes_t) (id : Z) (text : string) (ts : list target) : Prop := {
  ar_text : text = job_request_text id ts +:+ str_nl;
  ar_targets : Forall petition_ok ts;
  ar_keys : NoDup (key_of <$> ts);
  ar_amounts : Forall (fun t => exists n, n ∈ l /\ (tg_ip t, tg_port t) = node_key n /\ 1 <= tg_quantity t <= node_avail n (tg_type t)) ts
}.

Lemma read_request Env id l text ps :
  Forall known_ok l -> NoDup (node_key <$> l) -> in_u32 id -> request_of Env id (listed <$> l) text ps ->
  agent_request l id text (target_of_petition <$> ps) /\ (Env = "DEV" -> ascending sched_lt (target_of_petition <$> ps)).
Proof.
  intros Hl Hnd Hid Hreq. destruct (request_parts Env id l text ps Hl Hnd Hreq) as [Hparts Hkeys].
  rewrite Forall_forall in Hl.
  assert (Hps : Forall (fun p => exists n, n ∈ l /\ part_of n p /\ agent_petition n p) ps).
  { eapply Forall_impl; [exact Hparts|]. intros p (n & Hn & Hp). exists n. split_and!; [done..|]. apply read_petition; auto. }
  rewrite Forall_forall in Hps. split; [split|].
  - rewrite (ro_text _ _ _ _ _ Hreq). f_equal. apply request_text; [|done|done]. apply Forall_forall.
    intros p (n & _ & _ & Hp)%Hps. by exists n.
  - apply Forall_fmap, Forall_forall. intros p (n & _ & _ & _ & ? & _)%Hps. done.
  - rewrite <- list_fmap_compose. apply (NoDup_fmap_1 sched_rank). rewrite <- list_fmap_compose.
    apply NoDup_alt. intros i j r Hi Hj. rewrite list_lookup_fmap in Hi, Hj.
    destruct (ps !! i) as [p|] eqn:Hpi; [|done]. destruct (ps !! j) as [q|] eqn:Hqj; [|done]. simpl in Hi, Hj.
    destruct (Hps p (list_elem_of_lookup_2 _ _ _ Hpi)) as (? & _ & _ & _ & _ & _ & Hrp).
    destruct (Hps q (list_elem_of_lookup_2 _ _ _ Hqj)) as (? & _ & _ & _ & _ & _ & Hrq).
    eapply NoDup_lookup; [exact Hkeys| |]; rewrite list_lookup_fmap, ?Hpi, ?Hqj; simpl; [done|]. f_equal. apply rank_key. congruence.
  - apply Forall_fmap, Forall_forall. intros p (n & Hn & [_ _ Ha] & Ht & _)%Hps. exists n. unfold compose. rewrite Ht.
    cbn [tg_ip tg_port tg_type tg_quantity]. split_and!; [done|done|lia..].
  - intros HE i i' t t' Hlt Hi Hi'. rewrite list_lookup_fmap in Hi, Hi'.
    destruct (ps !! i) as [p|] eqn:Hpi; [|done]. destruct (ps !! i') as [q|] eqn:Hqj; [|done]. injection Hi as <-. injection Hi' as <-.
    destruct (Hps p (list_elem_of_lookup_2 _ _ _ Hpi)) as (? & _ & _ & _ & _ & _ & Hrp).
    destruct (Hps q (list_elem_of_lookup_2 _ _ _ Hqj)) as (? & _ & _ & _ & _ & _ & Hrq).
    unfold sched_lt. rewrite <- Hrp, <- Hrq.
    exact (sorted_ranks ps i i' p q (ro_sorted _ _ _ _ _ Hreq HE) Hkeys Hlt Hpi Hqj).
Qed.

(** What becomes of a request [e] that the scheduler drew from the nodes [l]. *)
Definition taken_up (l : list elem_known_nodes_t) (Env : string) (p : nat) (conns : connections) (now socket k : Z)
    (n : node_data_t) (e : effect) : Prop :=
  exists id text ts, e = ESend p (JobDirective id Request text) /\
    (in_u32 id -> agent_request l id text ts /\ (Env = "DEV" -> ascending sched_lt ts) /\
      exists jobs' jb, exec conns (handle_job_request now socket (job_request_text id ts)) n
          = Some (set_owned n jobs', match ts with [] => [] | t :: _ => [to_node t (reserve_msg id t)] end) /\
        owned_wf (k - 1) jobs' /\ jobs_map jobs' = <[id := jb]> (jobs_map (nd_owned_jobs n)) /\
        targets jb = take MAX_JOB_RESOURCES ts /\ oj_owner_socket jb = socket /\ granted jb = []).

(** C7: a round of the client: the message with which an agent that knows some nodes
    answers GET_NODES makes its scheduler send exactly [NRequests] requests; the text
    of each one whose identifier fits 32 bits asks for amounts that the listed nodes
    announced as free, of each resource of a node at most once, sorted by address,
    port and resource unless the environment is TEST, and the agent that reads it
    registers the job with those petitions and reserves the first one. *)
Theorem client_round k n conns socket random unique NRequests E st p i now :
  known_wf k (nd_known_nodes n) -> Forall known_ok (items (nd_known_nodes n)) -> answered (nd_known_nodes n) ≠ [] ->
  owned_wf k (nd_owned_jobs n) -> 1 <= k -> sc_sender st = Some p ->
  exists payload st' effs j,
    exec conns (handle_get_nodes_response socket) n = Some (n, [to_fd socket payload]) /\
    handle_message parse_strict_address random unique NRequests (normalize_env E) st (PacketReceived payload) i
      = Some ((st', effs), j) /\
    length effs = NRequests /\
    Forall (taken_up (answered (nd_known_nodes n)) (normalize_env E) p conns now socket k n) effs.
Proof.
  intros Hk Hl Hne Ho Hk1 Hp. set (l := answered (nd_known_nodes n)) in *.
  destruct (runs_exec conns n _ _ (runs_get_nodes _ k n socket (full_max _) Hk)) as (n' & ms & He & -> & ->).
  pose proof (fitting_sublist (Z.of_nat BUFFER_SIZE - 6) (items (nd_known_nodes n))) as Hsub. fold (answered (nd_known_nodes n)) in Hsub.
  assert (Hl' : Forall known_ok l).
  { rewrite Forall_forall in Hl |- *. intros x Hx. apply Hl. by eapply elem_of_submseteq, sublist_submseteq. }
  assert (Hnd : NoDup (node_key <$> l)).
  { eapply sublist_NoDup; [exact (wf_items_NoDup _ (kw_tabla _ _ Hk))|by apply fmap_sublist]. }
  assert (Hlne : listed <$> l ≠ []) by (by destruct l).
  destruct (dispatch_all_spec random unique E NRequests st (listed <$> l) p (st, []) Hlne Hp i) as ([st' effs] & j & Hd & new & Hn & Hlen & HF).
  simpl in Hn. subst effs. eexists _, st', new, j. split; [exact He|]. split_and!; [|done|].
  - unfold handle_message. fold l. rewrite read_payload by done. by destruct l.
  - eapply Forall_impl; [exact HF|]. intros e (id & text & ps & -> & Hreq). exists id, text, (target_of_petition <$> ps).
    split; [done|]. intros Hid. destruct (read_request _ _ _ _ _ Hl' Hnd Hid Hreq) as [Har Hasc]. split_and!; [done..|].
    destruct (job_request_starts k n conns now socket id (target_of_petition <$> ps) Ho Hk1 Hid (ar_targets _ _ _ _ Har))
      as (jobs' & jb & Hex & Hw & Hm & Ht & Hs & _ & _ & Hg). exists jobs', jb. by split_and!.
Qed.

(** A request of a scheduler that runs in its default environment. *)
Definition scheduled (r : nat * Z * list target) : Prop :=
  exists l random i text ps j, l ≠ [] /\ Forall known_ok l /\ NoDup (node_key <$> l) /\ in_u32 r.1.2 /\
    generate_job_request random r.1.2 (listed <$> l) "DEV" i = Some ((text, ps), j) /\ r.2 = target_of_petition <$> ps.

Lemma scheduled_ascending r : scheduled r -> ascending sched_lt r.2.
Proof.
  intros (l & random & i & text & ps & j & Hne & Hl & Hnd & Hid & Hg & ->).
  destruct (generate_spec random "DEV" r.1.2 (listed <$> l) ltac:(by destruct l) ltac:(by left) i) as ([text' ps'] & j' & Hg' & Hreq).
  rewrite Hg in Hg'. injection Hg' as <- <- <-. by apply (read_request "DEV" r.1.2 l text ps).
Qed.

(** C5: the schedulers cannot deadlock: in every state that agents connected to each
    other, each asked under one address, can reach on requests drawn by schedulers in
    their default environment, from whatever each knew of the nodes, no job waits in a
    circle for a resource another one holds; and if some job waits, there is one that
    waits for a resource whose holders wait for nothing. *)
Theorem schedulers_no_deadlock net k A c :
  network_ok net -> one_address net -> cl_reach net k A c -> Forall scheduled A ->
  (forall J, ~ tc (blocked_by net c) J J) /\
  forall J b ty, running c J -> valid_res ty -> waits net c J b ty ->
    exists J1 b1 ty1, running c J1 /\ valid_res ty1 /\ waits net c J1 b1 ty1 /\
      forall J2, running c J2 -> holds net c J2 b1 ty1 -> forall b2 ty2, valid_res ty2 -> ~ waits net c J2 b2 ty2.
Proof.
  intros Hnet Haddr Hreach HA. apply (ordered_no_deadlock net Hnet sched_lt k A c Hreach Haddr).
  eapply Forall_impl; [exact HA|]. apply scheduled_ascending.
Qed.

End request.

(** ** The other messages *)

Section messages.
Context (parse_strict_address : string -> bool).
Local Abbreviation parsed := (handle_packet parse_strict_address).

Lemma read_number id : in_u32 id -> list_to_integer (trim (utoa id +:+ str_nl)) = Some id.
Proof. intros Hid. rewrite trim_line by (apply no_space_utoa; apply Hid). by apply list_to_integer_utoa. Qed.

Lemma job_line_split kw id : job_line kw id +:+ str_nl = (kw +:+ " ") +:+ (utoa id +:+ str_nl).
Proof. unfold job_line. by rewrite !str_app_assoc. Qed.

Lemma read_granted id : in_u32 id -> parsed (snprintf 64 ("JOB_GRANTED %u" +:+ str_nl) [PU id]) = JobGranted id.
Proof.
  intros Hid. change ("JOB_GRANTED %u" +:+ str_nl) with ("JOB_GRANTED" +:+ " %u" +:+ str_nl).
  rewrite (job_msg_line "JOB_GRANTED" id), job_line_split by (done || simpl; lia).
  change ("JOB_GRANTED" +:+ " ") with "JOB_GRANTED ". unfold handle_packet, do_handle_packet.
  change (after_prefix "NODES " ("JOB_GRANTED " +:+ ?x)) with (@None string). rewrite after_prefix_app, read_number by done. done.
Qed.

Lemma read_denied id : in_u32 id -> parsed (snprintf 64 ("JOB_DENIED %u" +:+ str_nl) [PU id]) = JobDenied id.
Proof.
  intros Hid. change ("JOB_DENIED %u" +:+ str_nl) with ("JOB_DENIED" +:+ " %u" +:+ str_nl).
  rewrite (job_msg_line "JOB_DENIED" id), job_line_split by (done || simpl; lia).
  change ("JOB_DENIED" +:+ " ") with "JOB_DENIED ". unfold handle_packet, do_handle_packet.
  change (after_prefix "NODES " ("JOB_DENIED " +:+ ?x)) with (@None string).
  change (after_prefix "JOB_GRANTED " ("JOB_DENIED " +:+ ?x)) with (@None string). rewrite after_prefix_app, read_number by done. done.
Qed.

Lemma read_timeout id : in_u32 id -> parsed (snprintf 64 ("JOB_TIMEOUT %u" +:+ str_nl) [PU id]) = JobTimeout id.
Proof.
  intros Hid. change ("JOB_TIMEOUT %u" +:+ str_nl) with ("JOB_TIMEOUT" +:+ " %u" +:+ str_nl).
  rewrite (job_msg_line "JOB_TIMEOUT" id), job_line_split by (done || simpl; lia).
  change ("JOB_TIMEOUT" +:+ " ") with "JOB_TIMEOUT ". unfold handle_packet, do_handle_packet.
  change (after_prefix "NODES " ("JOB_TIMEOUT " +:+ ?x)) with (@None string).
  change (after_prefix "JOB_GRANTED " ("JOB_TIMEOUT " +:+ ?x)) with (@None string).
  change (after_prefix "JOB_DENIED " ("JOB_TIMEOUT " +:+ ?x)) with (@None string). rewrite after_prefix_app, read_number by done. done.
Qed.

Lemma read_release id : in_u32 id ->
  exists l, lines (Scheduler.release_text id) = [l] /\ sscanf l "JOB_RELEASE %u" = [VU id] /\
    forall env ip socket, respond env ip socket l = handle_job_release l.
Proof.
  intros Hid. exists (job_line "JOB_RELEASE" id). unfold Scheduler.release_text. rewrite integer_to_list_u32 by done. split_and!.
  - change ("JOB_RELEASE " +:+ utoa id +:+ str_nl) with (job_line "JOB_RELEASE" id +:+ str_nl). by apply job_line_lines.
  - by apply scan_job.
  - done.
Qed.

(** What an agent in the state [n] says to a message that came on [fd], and to whom. *)
Inductive answers (n : node_data_t) (fd : Z) : msg -> out_msg_t -> msg -> Prop :=
  | an_granted id t : answers n fd (MReserve id t) (to_fd fd (text_of (MGranted id))) (MGranted id)
  | an_denied id t : answers n fd (MReserve id t) (to_fd fd (text_of (MDenied id))) (MDenied id)
  | an_woken id t ty e :
      valid_res ty -> e ∈ pend (nd_resources n) ty ->
      answers n fd (MRelease id t) (to_fd (jr_socket e) (text_of (MGranted (jr_job_id e)))) (MGranted (jr_job_id e))
  | an_complete id j :
      jobs_in n !! id = Some j ->
      answers n fd (MGranted id) (to_fd (oj_owner_socket j) (text_of (MJobGranted id))) (MJobGranted id)
  | an_next id j t :
      jobs_in n !! id = Some j -> t ∈ targets j ->
      answers n fd (MGranted id) (to_node t (text_of (MReserve id t))) (MReserve id t)
  | an_first id t ts : answers n fd (MRequest id (t :: ts)) (to_node t (text_of (MReserve id t))) (MReserve id t)
  | an_rollback m id t :
      m = MDenied id \/ m = MJobRelease id -> t ∈ job_granted n id ->
      answers n fd m (to_node t (text_of (MRelease id t))) (MRelease id t)
  | an_refused id : answers n fd (MDenied id) (to_fd (job_owner n id) (text_of (MJobDenied id))) (MJobDenied id).

(** The same at the periodic check. *)
Inductive checks (n : node_data_t) : out_msg_t -> msg -> Prop :=
  | ck_release id t : t ∈ job_granted n id -> checks n (to_node t (text_of (MRelease id t))) (MRelease id t)
  | ck_timeout id j :
      jobs_in n !! id = Some j -> checks n (to_fd (oj_owner_socket j) (text_of (MJobTimeout id))) (MJobTimeout id).

(** The text of the message is one line, which a scheduler, when it is for one, reads
    as that message; an agent reads it as [reaction] says. *)
Definition understood (m : msg) : Prop :=
  msg_ok m /\ lines (text_of m) = [line_of m] /\
  match m with
  | MJobGranted id => parsed (text_of m) = JobGranted id
  | MJobDenied id => parsed (text_of m) = JobDenied id
  | MJobTimeout id => parsed (text_of m) = JobTimeout id
  | _ => True
  end.

Lemma msg_understood m : msg_ok m -> understood m.
Proof.
  intros Hm. split; [done|]. split.
  - destruct (texts_of_lines [m]) as [Hl _]; [by apply Forall_singleton|]. simpl in Hl. by rewrite str_app_nil_r in Hl.
  - destruct m as [id t|id t|id|id|id ts|id|id|id|id]; try done; simpl in Hm; pose proof (id_u32 _ Hm) as Hid.
    + rewrite <- job_granted_text by done. by apply read_granted.
    + rewrite <- job_denied_text by done. by apply read_denied.
    + rewrite <- job_timeout_text by done. by apply read_timeout.
Qed.

Abbreviation all_answer R ms := (Forall (fun o => exists m', R o m' /\ understood m') ms).

Lemma answer_one (R : out_msg_t -> msg -> Prop) o m' : R o m' -> msg_ok m' -> all_answer R [o].
Proof. intros HR Hm. apply Forall_singleton. exists m'. split; [done|by apply msg_understood]. Qed.

Lemma releases_answer (R : out_msg_t -> msg -> Prop) n id :
  tame_node n -> id_ok id ->
  (forall t, t ∈ job_granted n id -> R (to_node t (text_of (MRelease id t))) (MRelease id t)) ->
  all_answer R (releases id (job_granted n id)).
Proof.
  intros Htame Hid HR. apply Forall_fmap, Forall_forall. intros t Ht. exists (MRelease id t). simpl.
  pose proof (job_granted_ok n id Htame) as Hts. rewrite Forall_forall in Hts.
  rewrite release_text by auto. split; [by apply HR|]. apply msg_understood. split; [done|by apply Hts].
Qed.

(** A RESERVE for a petition of a job. *)
Lemma reserve_answers (R : out_msg_t -> msg -> Prop) id (o : option target) :
  id_ok id -> (forall t, o = Some t -> petition_ok t /\ R (to_node t (text_of (MReserve id t))) (MReserve id t)) ->
  all_answer R match o with Some t => [to_node t (reserve_msg id t)] | None => [] end.
Proof.
  intros Hid HR. destruct o as [t|]; [|constructor]. destruct (HR t eq_refl) as [[Ht _] Ho].
  rewrite reserve_text by done. by eapply answer_one.
Qed.

Lemma granted_answers n fd id j j' z j2 ms ip port :
  tame_node n -> job_wf j -> jobs_in n !! id = Some j -> mark_body ip port j = Some (z, j') ->
  granted_effect id j j' z j2 ms -> all_answer (answers n fd (MGranted id)) ms.
Proof.
  intros Htame Hjw Hj Hb Hef. destruct (tn_jobs _ Htame id j Hj) as [Hid Hts].
  destruct (mark_targets _ _ _ _ _ Hjw Hb) as [Htg Hjw']. destruct Hef as [|o j2 Hn|]; [| |constructor].
  - rewrite job_granted_text by done. eapply answer_one; [by constructor|done].
  - apply reserve_answers; [done|]. intros t ->. destruct (next_petition _ _ _ _ Hjw' Hn eq_refl) as [Hin _].
    rewrite Htg in Hin. rewrite Forall_forall in Hts. split; [by apply Hts|by econstructor].
Qed.

Lemma woken_answers k n fd id t s es r' jobs' :
  tame_node n -> del_effect k (nd_resources n) (nd_active_jobs n) id fd resource_types s -> wakes s.1 s.2 es r' jobs' ->
  all_answer (answers n fd (MRelease id t)) (wake_msg <$> es).
Proof.
  intros Htame Hef Hw. pose proof Hef as (Hl & Hp & _).
  destruct (wakes_Forall (fun e => wait_ok e /\ exists ty, valid_res ty /\ e ∈ pend (nd_resources n) ty)
    _ _ _ _ _ (lw_shape _ _ _ Hl) Hw) as [Hes _].
  - intros ty Hty. rewrite Hp. apply Forall_forall. intros e He. split; [|by exists ty].
    pose proof (tn_waits _ Htame ty Hty) as Hq. rewrite Forall_forall in Hq. by apply Hq.
  - apply Forall_fmap. eapply Forall_impl; [exact Hes|]. intros e [[Hid _] (ty & Hty & He)]. simpl.
    exists (MGranted (jr_job_id e)). rewrite wake_text by done. split; [by econstructor|by apply msg_understood].
Qed.

Lemma request_answers n fd id ts now j0 o j :
  request_fits id ts -> job_wf j0 -> fresh_job id fd now ts j0 -> next_body j0 = Some (o, j) ->
  all_answer (answers n fd (MRequest id ts)) match o with Some t => [to_node t (reserve_msg id t)] | None => [] end.
Proof.
  intros [Hid Hts _ _ _ _] Hjw (Htg & _ & _ & H0 & _) Hn.
  destruct (next_body_spec j0 Hjw) as (o2 & j2 & Hn2 & _ & _ & _ & _ & _ & _ & _ & _ & Ho & _).
  assert (o2 = o) as -> by congruence. rewrite Htg, H0 in Ho.
  apply reserve_answers; [done|]. intros t ->. destruct ts as [|t' ts]; [done|]. injection Ho as <-.
  apply Forall_cons in Hts as [Ht _]. split; [done|by constructor].
Qed.

(** What an agent does with a message is made of answers. *)
Lemma reaction_answers k n fd ip port m n' ms :
  node_wf k n -> tame_node n -> msg_ok m -> reaction k n fd ip port m n' ms -> all_answer (answers n fd m) ms.
Proof.
  intros Hwf Htame Hm Hr. destruct Hr; simpl in Hm.
  - destruct Hm as [Hid _]. rewrite reserve_reply_text by done.
    destruct (z =? 1); [|destruct (z =? -1); [|constructor]]; (eapply answer_one; [by constructor|done]).
  - by eapply woken_answers.
  - eapply granted_answers; [done|exact (ow_job _ _ _ _ (nw_owned _ _ Hwf) H0)|done..].
  - apply Forall_app. split; [apply releases_answer; [done..|]; intros t Ht; constructor; [by left|done]|].
    eapply answer_one; [by constructor|done].
  - apply releases_answer; [done..|]. intros t Ht. constructor; [by right|done].
  - by eapply request_answers.
  - constructor.
Qed.

(** So is the periodic check. *)
Lemma check_answers k conns now1 now2 n n' ms :
  tame_node n -> check_done k conns now1 now2 n n' ms -> all_answer (checks n) ms /\ tame_node n'.
Proof.
  intros Htame (dead & nodes' & n1 & ms1 & served & rest & Hdead & Hb & Hp & _ & Hw & ->).
  rewrite (tn_known _ Htame), no_dead in Hdead. injection Hdead as <- <-.
  assert (n1 = n /\ ms1 = []) as [-> ->].
  { inversion Hb; subst. split; [|done]. destruct Htame as [_ _ Hkn]. destruct n; simpl in *; by subst. }
  split; [|by eapply tame_without_jobs]. clear Hw. apply picks_jobs in Hp as [_ Hex]. clear Hb. unfold replies.
  assert (Hs : forall id, id ∈ served -> is_Some (jobs_in n !! id)) by (intros id Hin; apply Hex, elem_of_app; by left).
  clear Hex. simpl. induction served as [|id served IH]; [constructor|].
  rewrite bind_cons. apply Forall_app. split; [|apply IH; intros id' Hid'; apply Hs; by right].
  destruct (Hs id) as [j Hj]; [by left|]. rewrite Hj. destruct (tn_jobs _ Htame id j Hj) as [Hid _].
  apply Forall_app. split.
  - replace (granted j) with (job_granted n id) by (unfold job_granted; by rewrite Hj).
    apply releases_answer; [done..|]. intros t Ht. by constructor.
  - rewrite job_timeout_text by done. eapply answer_one; [by econstructor|done].
Qed.

(** C37: the agents and the schedulers speak one language.  Whatever message an agent
    reads ([msg_ok]: identifiers below 2^31, 32-bit quantities, petitions that fit), in
    whatever state such messages led it to ([tame_node]; no node is announced, so none
    is swept), its dispatcher does with the line what [reaction] says, with the very
    job, resource and amount of the message, and everything it puts in its outbox is
    the text of an answer, for whom it has to be: GRANTED or DENIED for the one who
    reserved, GRANTED for those that waited, JOB_GRANTED or the next RESERVE, the
    RELEASEs and JOB_DENIED of a refused job, the RELEASEs of a released one, the first
    RESERVE of a requested one.  So is what the periodic check puts there, RELEASEs and
    JOB_TIMEOUT.  Each of those texts is one line and is understood: it is again a
    message of which all this holds at the agent that reads it, and the scheduler reads
    JOB_GRANTED, JOB_DENIED and JOB_TIMEOUT as that answer for that job.  What the
    scheduler writes is in the language too: its JOB_RELEASE is that message, and its
    GET_NODES goes to the handler that answers it. *)
Theorem protocol_roundtrip k totals n conns ctx env fd ip m :
  agent_inv k totals n -> 1 <= k -> conns_ok conns -> Forall conn_short conns -> sc_mynode ctx = true ->
  0 <= fd < Z.of_nat MAX_FDS -> tame_node n -> msg_ok m ->
  let cl := Caller (Some MAX_OUTBOX) conns in
  (exists st' ms, resource_adapter_patch env (Some ctx) (Some ip) (wrap32 fd) (Some (line_of m)) ACTION_RESPOND (start n cl)
       = Some ((), st') /\
     left_in st' = take MAX_OUTBOX ms /\ reaction k n fd ip (port_of fd conns) m (st_node st') ms /\
     Forall (fun o => exists m', answers n fd m o m' /\ understood m') ms /\ tame_node (st_node st')) /\
  (exists st' ms, resource_adapter_patch env (Some ctx) None (wrap32 (-1)) None ACTION_CHECK_DEADNODES (start n cl)
       = Some ((), st') /\
     left_in st' = take MAX_OUTBOX ms /\ Forall (fun o => exists m', checks n o m' /\ understood m') ms /\
     tame_node (st_node st')) /\
  (forall id, id_ok id -> packet_text (JobDirective id Release (Scheduler.release_text id)) = text_of (MJobRelease id)) /\
  lines (packet_text GetNodes) = ["GET_NODES"] /\
  (forall env' ip' socket, respond env' ip' socket "GET_NODES" = handle_get_nodes_response socket).
Proof.
  intros Hi Hk Hc Hs Hmy Hfd Htame Hm cl. pose proof (ai_wf _ _ _ Hi) as Hwf. split; [|split; [|split]].
  - set (sv := Server (Shared n conns []) ctx (Nic [] [] env) [] : server nic).
    assert (Hsv : server_inv k totals sv) by by split.
    destruct (reacts_all k totals sv (Connection 0 ip 0 EmptyString 0) fd Hsv Hk Hmy Hfd Htame m Hm (start n cl) (start_view n cl))
      as ([] & st' & n' & ms & Hp & [Hn Ho _] & [Hr Ht'] & _).
    exists st', ms. split_and!; [exact Hp|by unfold left_in; rewrite Ho|by rewrite Hn| |by rewrite Hn]. by eapply reaction_answers.
  - destruct (runs_check_deadnodes k n conns (now1 env) (now2 env) Hwf Hc (start n cl) (start_view n cl))
      as ([] & st' & n' & ms & Hp & [Hn Ho _] & Hd).
    destruct (check_answers _ _ _ _ _ _ _ Htame Hd) as [Hall Ht'].
    exists st', ms. split_and!; [|by unfold left_in; rewrite Ho|done|by rewrite Hn].
    unfold resource_adapter_patch. rewrite Hmy. cbn [negb]. exact Hp.
  - intros id Hid. simpl. unfold Scheduler.release_text. by rewrite integer_to_list_u32 by by apply id_u32.
  - done.
Qed.

End messages.

(** ** Concrete rounds *)

Module ClientEjemplo.
Import SchedulerEjemplo.

Definition agente : node_data_t := set_known ProtocolEjemplo.nodo KnownEjemplo.nodos.
Definition lugar : Z := 2 ^ 28 - 2.

Lemma agente_known : known_wf lugar (nd_known_nodes agente).
Proof. exact KnownEjemplo.nodos_wf. Qed.

Lemma agente_owned : owned_wf lugar (nd_owned_jobs agente).
Proof. eapply owned_wf_weaken; [exact (proj1 create_owned_wf)|unfold lugar; lia]. Qed.

Lemma announced ip c g r t :
  ip_ok ipv4 ip -> in_u32 c -> in_u32 g -> in_u32 r -> announced_ok ipv4 (KnownNode ip 8100 [c; g; r] t).
Proof. intros Hip Hc Hg Hr. split; [|split; [done|simpl; lia]]. split; [done|]. split; [done|]. repeat (apply Forall_cons_2; [done|]). by apply Forall_nil_2. Qed.

Lemma ip_1 : ip_ok ipv4 "10.0.0.1".
Proof. split; try done. simpl. lia. Qed.
Lemma ip_2 : ip_ok ipv4 "10.0.0.2".
Proof. split; try done. simpl. lia. Qed.

Lemma agente_items :
  items (nd_known_nodes agente) = [KnownNode "10.0.0.1" 8100 [4; 1; 16] 100; KnownNode "10.0.0.2" 8100 [2; 0; 8] 110].
Proof. vm_compute. reflexivity. Qed.

Lemma agente_announced : Forall (announced_ok ipv4) (items (nd_known_nodes agente)).
Proof.
  rewrite agente_items. apply Forall_cons_2; [by apply announced; [apply ip_1|..]|].
  apply Forall_cons_2; [by apply announced; [apply ip_2|..]|]. by apply Forall_nil_2.
Qed.

Lemma nodes_read_back_witness :
  exists payload, exec no_connections (handle_get_nodes_response 9) agente = Some (agente, [to_fd 9 payload]) /\
    (String.length payload < BUFFER_SIZE)%nat /\
    let l := answered (nd_known_nodes agente) in
    handle_packet ipv4 payload =
      match l with [] => Skip "No nodes available" | _ => NodeRecords (listed <$> l) end /\
    l `sublist_of` items (nd_known_nodes agente) /\ NoDup (node_key <$> l) /\
    (records_length (items (nd_known_nodes agente)) < Z.of_nat BUFFER_SIZE - 6 -> l = items (nd_known_nodes agente)).
Proof. exact (nodes_read_back ipv4 lugar agente no_connections 9 agente_known agente_announced). Defined.

Definition planificador : scheduler := SchedulerState None (Some 1%nat) ∅.

Lemma client_round_witness :
  exists payload st' effs j,
    exec no_connections (handle_get_nodes_response 9) agente = Some (agente, [to_fd 9 payload]) /\
    handle_message ipv4 azar ids 1%nat (normalize_env "DEV") planificador (PacketReceived payload) 0%nat
      = Some ((st', effs), j) /\
    length effs = 1%nat /\
    Forall (taken_up (answered (nd_known_nodes agente)) (normalize_env "DEV") 1%nat no_connections 1000 9 lugar agente) effs.
Proof.
  exact (client_round ipv4 lugar agente no_connections 9 azar ids 1%nat "DEV" planificador 1%nat 0%nat 1000
    agente_known agente_announced ltac:(by vm_compute) agente_owned ltac:(unfold lugar; lia) eq_refl).
Defined.

(** The agent of 10.0.0.1 has job 7, whose second petition 10.0.0.2 now grants, on
    descriptor 9. *)
Definition conectado : connections := <[9%nat := Connection 1 "10.0.0.2" 8100 EmptyString 0]> no_connections.

Lemma conectado_short : Forall conn_short conectado.
Proof. apply Forall_insert; [apply Forall_replicate|]; unfold conn_short; simpl; lia. Qed.

Lemma a_medias_tame : tame_node RecoveryEjemplo.nodo.
Proof.
  split.
  - assert (Hm : jobs_in RecoveryEjemplo.nodo = {[7 := ProtocolEjemplo.trabajo]}) by (vm_compute; reflexivity).
    rewrite Hm. apply map_Forall_singleton. split; [unfold id_ok; lia|exact ProtocolEjemplo.peticiones_ok].
  - intros [] Ht; try done; apply Forall_nil_2.
  - vm_compute. reflexivity.
Qed.

Lemma protocol_roundtrip_witness :
  let cl := Caller (Some MAX_OUTBOX) conectado in
  (exists st' ms, resource_adapter_patch SafetyEjemplo.entorno (Some EventEjemplo.contexto) (Some "10.0.0.2") (wrap32 9)
       (Some "GRANTED 7") ACTION_RESPOND (start RecoveryEjemplo.nodo cl) = Some ((), st') /\
     left_in st' = take MAX_OUTBOX ms /\
     reaction (2 ^ 28 - 1) RecoveryEjemplo.nodo 9 "10.0.0.2" 8100 (MGranted 7) (st_node st') ms /\
     Forall (fun o => exists m', answers RecoveryEjemplo.nodo 9 (MGranted 7) o m' /\ understood ipv4 m') ms /\ tame_node (st_node st')) /\
  (exists st' ms, resource_adapter_patch SafetyEjemplo.entorno (Some EventEjemplo.contexto) None (wrap32 (-1)) None
       ACTION_CHECK_DEADNODES (start RecoveryEjemplo.nodo cl) = Some ((), st') /\
     left_in st' = take MAX_OUTBOX ms /\ Forall (fun o => exists m', checks RecoveryEjemplo.nodo o m' /\ understood ipv4 m') ms /\
     tame_node (st_node st')) /\
  (forall id, id_ok id -> packet_text (JobDirective id Release (Scheduler.release_text id)) = text_of (MJobRelease id)) /\
  lines (packet_text GetNodes) = ["GET_NODES"] /\
  (forall env' ip' socket, respond env' ip' socket "GET_NODES" = handle_get_nodes_response socket).
Proof.
  exact (protocol_roundtrip ipv4 (2 ^ 28 - 1) [4; 1; 8] RecoveryEjemplo.nodo conectado EventEjemplo.contexto
    SafetyEjemplo.entorno 9 "10.0.0.2" (MGranted 7) (si_agent _ _ _ EventEjemplo.servidor_inv) ltac:(lia)
    ltac:(vm_compute; reflexivity) conectado_short eq_refl ltac:(unfold MAX_FDS; lia) a_medias_tame
    ltac:(simpl; unfold id_ok; lia)).
Defined.

(** What it answers: the job is complete. *)
Example granted_run :
  (fun r => message <$> left_in (snd r)) <$>
    resource_adapter_patch SafetyEjemplo.entorno (Some EventEjemplo.contexto) (Some "10.0.0.2") 9 (Some "GRANTED 7")
      ACTION_RESPOND (start RecoveryEjemplo.nodo (Caller (Some MAX_OUTBOX) conectado))
    = Some ["JOB_GRANTED 7" +:+ str_nl].
Proof. vm_compute. reflexivity. Qed.

(** Both jobs of [OrderEjemplo.ordenado] were drawn from one announcement. *)
Definition anunciado : elem_known_nodes_t := KnownNode "10.0.0.1" 8100 [4; 0; 8] 0.

Lemma ordenado_scheduled id : in_u32 id -> id = 7 \/ id = 8 ->
  scheduled ipv4 (0%nat, id, [OrderEjemplo.toda_cpu; OrderEjemplo.toda_mem]).
Proof.
  intros Hu [-> | ->]; exists [anunciado], (fun _ => 7), 0%nat.
  all: eexists _, _, _; split; [done|split; [|split; [apply NoDup_singleton|split; [done|split; vm_compute; reflexivity]]]].
  all: apply Forall_cons_2; [by apply announced; [apply ip_1|..]|by apply Forall_nil_2].
Qed.

Lemma schedulers_no_deadlock_witness :
  (forall J, ~ tc (blocked_by ClusterEjemplo.red OrderEjemplo.ordenado) J J) /\
  forall J b ty, running OrderEjemplo.ordenado J -> valid_res ty -> waits ClusterEjemplo.red OrderEjemplo.ordenado J b ty ->
    exists J1 b1 ty1, running OrderEjemplo.ordenado J1 /\ valid_res ty1 /\ waits ClusterEjemplo.red OrderEjemplo.ordenado J1 b1 ty1 /\
      forall J2, running OrderEjemplo.ordenado J2 -> holds ClusterEjemplo.red OrderEjemplo.ordenado J2 b1 ty1 ->
        forall b2 ty2, valid_res ty2 -> ~ waits ClusterEjemplo.red OrderEjemplo.ordenado J2 b2 ty2.
Proof.
  exact (schedulers_no_deadlock ipv4 ClusterEjemplo.red OrderEjemplo.cuarto _ OrderEjemplo.ordenado
    ClusterEjemplo.red_ok OrderEjemplo.red_one_address OrderEjemplo.ordenado_reach
    ltac:(repeat apply Forall_cons_2; [apply ordenado_scheduled; [done|by right]|apply ordenado_scheduled; [done|by left]|constructor])).
Defined.

End ClientEjemplo.
